(** * Troy IT portal: schedule import and lecturer resolution

    A shallow embedding of the timetable importer ([src/lib/knowledge.ts],
    second half: the spring schedule importer), of the catalog decoder
    ([src/lib/knowledge.ts], first half) and of the read-side resolver
    ([getPortalData] and its helpers), followed by the properties the
    specification states about them.

    Text.  JavaScript strings are modelled by [string]: sequences of 8-bit
    code units read as the code points U+0000..U+00FF.  White space, digits,
    [toLowerCase] and the accent folding of [foldText] are those of
    JavaScript on every such code unit, so that the Vietnamese labels that
    fit into them (Sáng, Mã HP) are read as the code reads them;
    [toUpperCase] maps a to z and carries every other code unit unchanged,
    the texts it is applied to (course codes, group labels, English
    keywords) being ASCII.  The catalog decoder works on encodings and has
    its own model of UTF-16 code units in [Module Catalog].

    Storage.  The Semester, Cohort and Course tables are finite maps from
    their unique key to the row; the ClassGroup, ScheduleEntry and ImportRun
    tables are lists of rows in storage order.  Generated ids are drawn from
    a counter.  Timestamps are not part of the model, and failures of the
    database itself (a violated constraint, a lost connection) are outside
    of it. *)

From Stdlib Require Import ZArith NArith Ascii String List Bool Lia.
From Stdlib Require Import DecimalString Sorted.
From stdpp Require Import base option list gmap strings.

Local Open Scope string_scope.
Local Open Scope list_scope.

(** ** JavaScript string primitives *)

Module Js.

Definition code (c : ascii) : N := N_of_ascii c.

Definition inRange (lo hi : N) (c : ascii) : bool :=
  ((lo <=? code c) && (code c <=? hi))%N.

(** [\d], [[A-Z]], [[a-z]], [\w] and [\s] on the modelled code units. *)
Definition isDigit : ascii -> bool := inRange 48 57.
Definition isUpper : ascii -> bool := inRange 65 90.
Definition isLower : ascii -> bool := inRange 97 122.
Definition isWord (c : ascii) : bool :=
  isDigit c || isUpper c || isLower c || (code c =? 95)%N.
Definition isSpace (c : ascii) : bool :=
  inRange 9 13 c || (code c =? 32)%N || (code c =? 160)%N.

Definition upperChar (c : ascii) : ascii :=
  if isLower c then ascii_of_N (code c - 32) else c.
(** [toLowerCase] on one code unit: A to Z, and U+00C0 to U+00DE but for the
    multiplication sign U+00D7. *)
Definition lowerChar (c : ascii) : ascii :=
  if isUpper c || (inRange 192 222 c && negb (code c =? 215)%N)
  then ascii_of_N (code c + 32) else c.

(** [normalize("NFD")] followed by [replace(/[\u0300-\u036f]/g, "")] on one
    code unit: a letter of U+00C0..U+00FF that decomposes into a base letter
    and a combining mark is left with its base letter; no other code unit
    below U+0100 decomposes. *)
Definition baseChar (c : ascii) : ascii :=
  let n := code c in
  if inRange 192 197 c then "A"%char
  else if (n =? 199)%N then "C"%char
  else if inRange 200 203 c then "E"%char
  else if inRange 204 207 c then "I"%char
  else if (n =? 209)%N then "N"%char
  else if inRange 210 214 c then "O"%char
  else if inRange 217 220 c then "U"%char
  else if (n =? 221)%N then "Y"%char
  else if inRange 224 229 c then "a"%char
  else if (n =? 231)%N then "c"%char
  else if inRange 232 235 c then "e"%char
  else if inRange 236 239 c then "i"%char
  else if (n =? 241)%N then "n"%char
  else if inRange 242 246 c then "o"%char
  else if inRange 249 252 c then "u"%char
  else if (n =? 253)%N || (n =? 255)%N then "y"%char
  else c.

Fixpoint mapChars (f : ascii -> ascii) (s : string) : string :=
  match s with
  | EmptyString => EmptyString
  | String c r => String (f c) (mapChars f r)
  end.

Fixpoint filterChars (p : ascii -> bool) (s : string) : string :=
  match s with
  | EmptyString => EmptyString
  | String c r => if p c then String c (filterChars p r) else filterChars p r
  end.

Fixpoint allChars (p : ascii -> bool) (s : string) : bool :=
  match s with
  | EmptyString => true
  | String c r => p c && allChars p r
  end.

Definition toUpperCase : string -> string := mapChars upperChar.
Definition toLowerCase : string -> string := mapChars lowerChar.

Fixpoint revOnto (s acc : string) : string :=
  match s with
  | EmptyString => acc
  | String c r => revOnto r (String c acc)
  end.
Definition reverse (s : string) : string := revOnto s EmptyString.

Fixpoint trimStart (s : string) : string :=
  match s with
  | EmptyString => EmptyString
  | String c r => if isSpace c then trimStart r else s
  end.
Definition trimEnd (s : string) : string := reverse (trimStart (reverse s)).
Definition trim (s : string) : string := trimEnd (trimStart s).

(** [s.replace(/\s+/g, " ")]: every maximal run of white space becomes one
    space. *)
Fixpoint collapseFrom (inRun : bool) (s : string) : string :=
  match s with
  | EmptyString => EmptyString
  | String c r =>
      if isSpace c
      then if inRun then collapseFrom true r else String " " (collapseFrom true r)
      else String c (collapseFrom false r)
  end.
Definition collapseSpaces : string -> string := collapseFrom false.

(** [s.replace(/\s+/g, "")]. *)
Definition removeSpaces : string -> string := filterChars (fun c => negb (isSpace c)).

Fixpoint startsWith (p s : string) : bool :=
  match p, s with
  | EmptyString, _ => true
  | String a p', String b s' => Ascii.eqb a b && startsWith p' s'
  | String _ _, EmptyString => false
  end.

(** [hay.includes(needle)]. *)
Fixpoint includes (needle hay : string) : bool :=
  startsWith needle hay ||
  match hay with
  | EmptyString => false
  | String _ r => includes needle r
  end.

(** The longest prefix of characters in a class, and what follows it. *)
Fixpoint takeChars (p : ascii -> bool) (s : string) : string :=
  match s with
  | String c r => if p c then String c (takeChars p r) else EmptyString
  | EmptyString => EmptyString
  end.

Fixpoint dropChars (p : ascii -> bool) (s : string) : string :=
  match s with
  | String c r => if p c then dropChars p r else s
  | EmptyString => EmptyString
  end.

Definition headIsWord (s : string) : bool :=
  match s with
  | String c _ => isWord c
  | EmptyString => false
  end.

(** Truthiness of a string: [Boolean(s)]. *)
Definition truthy (s : string) : bool := negb (String.eqb s "").

(** [[...new Set(xs)]]: the first occurrence of every value, in order. *)
Fixpoint uniqueOnto (seen xs : list string) : list string :=
  match xs with
  | [] => []
  | x :: r =>
      if bool_decide (x ∈ seen) then uniqueOnto seen r
      else x :: uniqueOnto (x :: seen) r
  end.
Definition unique (xs : list string) : list string := uniqueOnto [] xs.

(** [String(n)] for a non-negative integer and [padStart(2, "0")]. *)
Definition decimal (n : nat) : string := NilZero.string_of_uint (Nat.to_uint n).
Definition padStart2 (s : string) : string :=
  match s with
  | String c EmptyString => String "0" (String c EmptyString)
  | EmptyString => "00"
  | _ => s
  end.

End Js.

(** ** Read side: [resolveLecturersForEntry], the fallback tier, conflicts *)

Module Portal.

Inductive DayOfWeek := MON | TUE | WED | THU | FRI | SAT | SUN.

#[global] Instance DayOfWeek_eq_dec : EqDecision DayOfWeek.
Proof. solve_decision. Defined.

Definition dayName (d : DayOfWeek) : string :=
  match d with
  | MON => "MON" | TUE => "TUE" | WED => "WED" | THU => "THU"
  | FRI => "FRI" | SAT => "SAT" | SUN => "SUN"
  end.

Record LecturerLite := { l_id : string; l_name : string }.

Record Assignment := {
  a_courseCode : string;
  a_classGroupName : string;
  a_instructionCode : string;
  a_lecturerId : string
}.

Record ResolveInput := {
  in_courseCode : string;
  in_classGroupName : string;
  in_instructionCode : string;
  in_assignments : list Assignment;
  in_lecturerNameMap : gmap string string
}.

Definition normalizeInstructionCode (raw : string) : string :=
  if negb (Js.truthy raw) then ""
  else Js.filterChars (fun c => Js.isUpper c || Js.isDigit c)
         (Js.toUpperCase (Js.trim raw)).

Definition normalizeClassGroupName (raw : string) : string :=
  if negb (Js.truthy raw) then ""
  else Js.collapseSpaces (Js.toUpperCase (Js.trim raw)).

(** The body of the loop up to the comparison with [maxScore]: [None] is
    [continue], [Some score] the score the row reaches. *)
Definition scoreAssignment (input : ResolveInput) (assignment : Assignment) : option Z :=
  if negb (String.eqb (a_courseCode assignment) (in_courseCode input)) then None
  else
    let score := 0%Z in
    let assignmentClass := normalizeClassGroupName (a_classGroupName assignment) in
    if Js.truthy assignmentClass && negb (String.eqb assignmentClass (in_classGroupName input))
    then None
    else
      let score := if Js.truthy assignmentClass then (score + 2)%Z else score in
      let assignmentInstruction := normalizeInstructionCode (a_instructionCode assignment) in
      if Js.truthy assignmentInstruction
         && negb (String.eqb assignmentInstruction (in_instructionCode input))
      then None
      else Some (if Js.truthy assignmentInstruction then (score + 1)%Z else score).

(** One iteration over the loop state [(maxScore, matched)]. *)
Definition resolveStep (input : ResolveInput) (st : Z * list string)
    (assignment : Assignment) : Z * list string :=
  let '(maxScore, matched) := st in
  match scoreAssignment input assignment with
  | None => st
  | Some score =>
      if (maxScore <? score)%Z then (score, [a_lecturerId assignment])
      else if (score =? maxScore)%Z then (maxScore, matched ++ [a_lecturerId assignment])
      else st
  end.

Definition resolveLoop (input : ResolveInput) : Z * list string :=
  fold_left (resolveStep input) (in_assignments input) ((-1)%Z, []).

Definition toLite (names : gmap string string) (lecturerId : string) : LecturerLite :=
  {| l_id := lecturerId; l_name := default lecturerId (names !! lecturerId) |}.

Definition resolveLecturersForEntry (input : ResolveInput) : list LecturerLite :=
  let uniqueIds := Js.unique (snd (resolveLoop input)) in
  map (toLite (in_lecturerNameMap input)) uniqueIds.

(** *** The fallback tier of [getPortalData] *)

Record Override := {
  o_courseCode : string;
  o_lecturerId : string;
  o_enabled : bool
}.

(** A [Set<string>] is a duplicate-free list in insertion order. *)
Definition setAdd (x : string) (s : list string) : list string :=
  if bool_decide (x ∈ s) then s else s ++ [x].
Definition setDelete (x : string) (s : list string) : list string :=
  filter (fun y => y ≠ x) s.

Definition seedFallback (selectedCourseCodes : list string)
    (catalogLecturerIdsByCourse : gmap string (list string)) : gmap string (list string) :=
  fold_left
    (fun m courseCode =>
       <[courseCode := Js.unique (default [] (catalogLecturerIdsByCourse !! courseCode))]> m)
    selectedCourseCodes ∅.

Definition overrideStep (m : gmap string (list string)) (override : Override)
    : gmap string (list string) :=
  let row := default [] (m !! o_courseCode override) in
  let row :=
    if o_enabled override then setAdd (o_lecturerId override) row
    else setDelete (o_lecturerId override) row in
  <[o_courseCode override := row]> m.

Definition fallbackLecturerIdsByCourse (selectedCourseCodes : list string)
    (catalogLecturerIdsByCourse : gmap string (list string))
    (courseLecturerOverrides : list Override) : gmap string (list string) :=
  fold_left overrideStep courseLecturerOverrides
    (seedFallback selectedCourseCodes catalogLecturerIdsByCourse).

(** [xs.sort(cmp)]: the sort is stable, so with a consistent comparator it
    is the insertion sort below. *)
Section Sorting.
Context {A : Type} (cmp : A -> A -> Z).

Fixpoint insertSorted (x : A) (l : list A) : list A :=
  match l with
  | [] => [x]
  | y :: r => if (cmp x y <=? 0)%Z then x :: y :: r else y :: insertSorted x r
  end.

Definition sortBy (l : list A) : list A := fold_right insertSorted [] l.
End Sorting.

(** [extractInstructionCode]: the first match of [/\bIHA[A-Z0-9]{1,4}\b/]
    in the upper-cased text. *)
Definition isCodeChar (c : ascii) : bool := Js.isUpper c || Js.isDigit c.

Definition matchInstructionAt (s : string) : option string :=
  if Js.startsWith "IHA" s then
    let rest := String.substring 3 (String.length s - 3) s in
    let run := Js.takeChars isCodeChar rest in
    let n := String.length run in
    if (1 <=? n)%nat && (n <=? 4)%nat && negb (Js.headIsWord (Js.dropChars isCodeChar rest))
    then Some ("IHA" +:+ run) else None
  else None.

Fixpoint searchInstruction (prevIsWord : bool) (s : string) : option string :=
  match s with
  | EmptyString => None
  | String c r =>
      match (if prevIsWord then None else matchInstructionAt s) with
      | Some m => Some m
      | None => searchInstruction (Js.isWord c) r
      end
  end.

Definition extractInstructionCode (value : option string) : string :=
  let text := Js.toUpperCase (default "" value) in
  match searchInstruction false text with
  | None => ""
  | Some m => normalizeInstructionCode m
  end.

(** A stored schedule entry joined with its course code, and its rendering. *)
Record StoredEntry := {
  s_id : string;
  s_dayOfWeek : DayOfWeek;
  s_session : string;
  s_startTime : option string;
  s_rawTime : option string;
  s_room : option string;
  s_courseCode : string
}.

Record PortalEntry := {
  e_id : string;
  e_dayOfWeek : DayOfWeek;
  e_session : string;
  e_startTime : option string;
  e_rawTime : option string;
  e_room : option string;
  e_courseCode : string;
  e_instructionCode : option string;
  e_lecturers : list LecturerLite
}.

Section Entries.
(** [String.prototype.localeCompare], which depends on the host's
    collation, is a parameter. *)
Variable localeCompare : string -> string -> Z.

Variable selectedClassGroupUpper : string.
Variable teachingAssignments : list Assignment.
Variable lecturerNameMap : gmap string string.
Variable fallbackByCourse : gmap string (list string).

Definition scopedLecturers (courseCode instructionCode : string) : list LecturerLite :=
  resolveLecturersForEntry
    {| in_courseCode := courseCode;
       in_classGroupName := selectedClassGroupUpper;
       in_instructionCode := instructionCode;
       in_assignments := teachingAssignments;
       in_lecturerNameMap := lecturerNameMap |}.

Definition fallbackLecturers (courseCode : string) : list LecturerLite :=
  sortBy (fun a b => localeCompare (l_name a) (l_name b))
    (map (toLite lecturerNameMap)
       (Js.unique (default [] (fallbackByCourse !! courseCode)))).

(** The condition of the conditional expression, negated. *)
Definition usesFallback (courseCode instructionCode : string) : bool :=
  negb (0 <? length (scopedLecturers courseCode instructionCode))%nat.

Definition entryLecturers (courseCode instructionCode : string) : list LecturerLite :=
  let lecturers := scopedLecturers courseCode instructionCode in
  if (0 <? length lecturers)%nat then lecturers else fallbackLecturers courseCode.

Definition normalizeEntry (entry : StoredEntry) : PortalEntry :=
  let instructionCode :=
    extractInstructionCode
      (match s_room entry with Some r => Some r | None => s_rawTime entry end) in
  {| e_id := s_id entry;
     e_dayOfWeek := s_dayOfWeek entry;
     e_session := s_session entry;
     e_startTime := s_startTime entry;
     e_rawTime := s_rawTime entry;
     e_room := s_room entry;
     e_courseCode := s_courseCode entry;
     e_instructionCode :=
       if Js.truthy instructionCode then Some instructionCode else None;
     e_lecturers := entryLecturers (s_courseCode entry) instructionCode |}.
End Entries.

(** *** [computeConflicts] *)

Record Conflict := {
  c_dayOfWeek : DayOfWeek;
  c_startTime : string;
  c_courses : list string
}.

Definition conflictKey (d : DayOfWeek) (t : string) : string :=
  dayName d +:+ ":" +:+ t.

(** The [Map] keeps its keys in insertion order, which is the order of the
    result: an association list. *)
Fixpoint mapGet (key : string) (m : list (string * Conflict)) : option Conflict :=
  match m with
  | [] => None
  | (k, v) :: r => if String.eqb k key then Some v else mapGet key r
  end.

(** [existing.courses.push(code)] on the object the map holds under [key]. *)
Fixpoint pushCourse (key code : string) (m : list (string * Conflict))
    : list (string * Conflict) :=
  match m with
  | [] => []
  | (k, v) :: r =>
      if String.eqb k key
      then (k, {| c_dayOfWeek := c_dayOfWeek v;
                  c_startTime := c_startTime v;
                  c_courses := c_courses v ++ [code] |}) :: r
      else (k, v) :: pushCourse key code r
  end.

Definition conflictStep (grouped : list (string * Conflict)) (entry : PortalEntry)
    : list (string * Conflict) :=
  match e_startTime entry with
  | None => grouped
  | Some startTime =>
      if negb (Js.truthy startTime) then grouped
      else
        let key := conflictKey (e_dayOfWeek entry) startTime in
        match mapGet key grouped with
        | None =>
            grouped ++ [(key, {| c_dayOfWeek := e_dayOfWeek entry;
                                 c_startTime := startTime;
                                 c_courses := [e_courseCode entry] |})]
        | Some existing =>
            if bool_decide (e_courseCode entry ∈ c_courses existing) then grouped
            else pushCourse key (e_courseCode entry) grouped
        end
  end.

Definition computeConflicts (entries : list PortalEntry) : list Conflict :=
  filter (fun conflict => (1 < length (c_courses conflict))%nat)
    (map snd (fold_left conflictStep entries [])).

End Portal.

(** ** The workbook parser *)

Module Importer.

Import Portal.

Inductive SessionPeriod := MORNING | AFTERNOON | EVENING | UNKNOWN.

#[global] Instance SessionPeriod_eq_dec : EqDecision SessionPeriod.
Proof. solve_decision. Defined.

Record ParsedEvent := {
  ev_classGroupName : string;
  ev_dayOfWeek : DayOfWeek;
  ev_session : SessionPeriod;
  ev_startTime : option string;
  ev_rawTime : option string;
  ev_room : option string;
  ev_courseCode : string;
  ev_sourceSheet : string;
  ev_sourceRow : nat
}.

Definition DAY_COLUMN_MAP : list (nat * DayOfWeek) :=
  [(2, MON); (3, TUE); (4, WED); (5, THU); (6, FRI); (7, SAT)]%nat.

Definition cleanCell (value : string) : string :=
  Js.trim (Js.mapChars (fun c => if (Js.code c =? 160)%N then " "%char else c) value).

Definition foldText (value : string) : string :=
  Js.toLowerCase (Js.mapChars Js.baseChar value).

Definition lengthIn (lo hi : nat) (s : string) : bool :=
  (lo <=? String.length s)%nat && (String.length s <=? hi)%nat.

(** [/^([A-Z]{2,4})(\d{3,4})$/] on the compacted text. *)
Definition normalizeCourseCode (raw : string) : option string :=
  let text := Js.collapseSpaces (Js.toUpperCase (cleanCell raw)) in
  if negb (Js.truthy text) then None
  else
    let compact := Js.removeSpaces text in
    let letters := Js.takeChars Js.isUpper compact in
    let digits := Js.dropChars Js.isUpper compact in
    if lengthIn 2 4 letters && lengthIn 3 4 digits && Js.allChars Js.isDigit digits
    then Some (letters +:+ " " +:+ digits)
    else None.

(** One or two leading digits, taken greedily: [(\d{1,2})]. *)
Definition digits12 (s : string) : option string :=
  match s with
  | String a r =>
      if Js.isDigit a then
        match r with
        | String b _ => if Js.isDigit b then Some (String a (String b EmptyString))
                        else Some (String a EmptyString)
        | EmptyString => Some (String a EmptyString)
        end
      else None
  | EmptyString => None
  end.

(** [/IT\s*0?(\d{1,2})/] anchored at the head of [s]: the text of group 1 and
    the length of the whole match.  When the optional zero is followed by no
    digit, the zero itself is the group. *)
Definition matchGroupAt (s : string) : option (string * nat) :=
  if Js.startsWith "IT" s then
    let rest := String.substring 2 (String.length s - 2) s in
    let spaces := String.length (Js.takeChars Js.isSpace rest) in
    let rest := Js.dropChars Js.isSpace rest in
    match rest with
    | String c rest' =>
        if Ascii.eqb c "0" then
          match digits12 rest' with
          | Some d => Some (d, 2 + spaces + 1 + String.length d)%nat
          | None => Some ("0", 2 + spaces + 1)%nat
          end
        else
          match digits12 rest with
          | Some d => Some (d, 2 + spaces + String.length d)%nat
          | None => None
          end
    | EmptyString => None
    end
  else None.

(** The first match: where it starts, how long it is, and group 1. *)
Fixpoint searchGroup (s : string) : option (nat * nat * string) :=
  match matchGroupAt s with
  | Some (d, len) => Some (0%nat, len, d)
  | None =>
      match s with
      | EmptyString => None
      | String _ r =>
          match searchGroup r with
          | Some (start, len, d) => Some (S start, len, d)
          | None => None
          end
      end
  end.

(** [matchAll] with the [g] flag: group 1 of every match, the search
    resuming where the previous match ended ([skip] characters are still
    inside it). *)
Fixpoint scanGroups (skip : nat) (s : string) : list string :=
  match s with
  | EmptyString => []
  | String _ r =>
      match skip with
      | S k => scanGroups k r
      | O =>
          match matchGroupAt s with
          | Some (d, len) => d :: scanGroups (len - 1) r
          | None => scanGroups 0 r
          end
      end
  end.

(** [Number.parseInt(digits, 10)] on a run of decimal digits. *)
Definition parseDecimal (s : string) : nat :=
  fold_left (fun n c => (10 * n + (N.to_nat (Js.code c) - 48))%nat)
    (list_ascii_of_string s) 0%nat.

Definition groupLabel (index : nat) : string :=
  "IT " +:+ Js.padStart2 (Js.decimal index).

Definition normalizeClassGroup (raw : string) : option string :=
  match searchGroup (Js.toUpperCase raw) with
  | None => None
  | Some (_, _, d) => Some (groupLabel (parseDecimal d))
  end.

(** The [numbers] of [expandClassGroups]: one per token of the label. *)
Definition groupNumbers (label : string) : list nat :=
  map parseDecimal (scanGroups 0 (Js.toUpperCase label)).

Definition expandClassGroups (label : string) : list string :=
  let numbers := groupNumbers label in
  match numbers with
  | [] => []
  | start :: rest =>
      let ranged :=
        match rest with
        | stop :: _ =>
            if Js.includes "-" label && (start <? stop)%nat && (stop - start <=? 20)%nat
            then Some (map groupLabel (seq start (stop - start + 1)))
            else None
        | [] => None
        end in
      match ranged with
      | Some expanded => expanded
      | None => Js.unique (map groupLabel numbers)
      end
  end.

Definition getSessionPeriod (label : string) : SessionPeriod :=
  let normalized := foldText label in
  if Js.includes "sang" normalized || Js.includes "morning" normalized then MORNING
  else if Js.includes "chieu" normalized || Js.includes "afternoon" normalized then AFTERNOON
  else if Js.includes "toi" normalized || Js.includes "evening" normalized then EVENING
  else UNKNOWN.

(** The alternative sáng of the pattern below, its second letter being
    U+00E1 or, the match ignoring case, U+00C1. *)
Definition sang (a : ascii) : string := String "S" (String a "NG").

(** [/IT\s*0?\d{1,2}/i] and [/room|time|sáng|chiều|morning|afternoon/i].  The
    fourth letter of chiều is U+1EC1, which is no code unit of the modelled
    text, so that this alternative matches nowhere in it. *)
Definition looksLikeClassGroupRow (value : string) : bool :=
  let upper := Js.toUpperCase value in
  bool_decide (is_Some (searchGroup upper))
  && negb (Js.includes "ROOM" upper || Js.includes "TIME" upper
           || Js.includes (sang "225") upper || Js.includes (sang "193") upper
           || Js.includes "MORNING" upper || Js.includes "AFTERNOON" upper).

(** [/tba\s*=|website for registering|contact customer service/i]. *)
Fixpoint hasTbaEquals (s : string) : bool :=
  (Js.startsWith "TBA" s
   && Js.startsWith "=" (Js.dropChars Js.isSpace (String.substring 3 (String.length s - 3) s)))
  || match s with
     | EmptyString => false
     | String _ r => hasTbaEquals r
     end.

Definition isFooter (firstColumn : string) : bool :=
  let upper := Js.toUpperCase firstColumn in
  hasTbaEquals upper
  || Js.includes "WEBSITE FOR REGISTERING" upper
  || Js.includes "CONTACT CUSTOMER SERVICE" upper.

(** [cellText.split(/\r?\n/)]; [cur] holds the current piece, reversed. *)
Fixpoint splitLines (s cur : string) : list string :=
  match s with
  | EmptyString => [Js.reverse cur]
  | String c r =>
      if (Js.code c =? 10)%N then Js.reverse cur :: splitLines r EmptyString
      else if (Js.code c =? 13)%N then
        match r with
        | String c2 r2 =>
            if (Js.code c2 =? 10)%N then Js.reverse cur :: splitLines r2 EmptyString
            else splitLines r (String c cur)
        | EmptyString => splitLines r (String c cur)
        end
      else splitLines r (String c cur)
  end.

(** [/\b([01]?\d|2[0-3]):[0-5]\d\b/] anchored at the head of [s], the word
    boundary in front of it being checked by the caller. *)
Definition matchTimeAt (s : string) : option string :=
  let digit05 := Js.inRange 48 53 in
  let tail (hh rest : string) :=
    match rest with
    | String c (String m (String u after)) =>
        if Ascii.eqb c ":" && digit05 m && Js.isDigit u && negb (Js.headIsWord after)
        then Some (hh +:+ String c (String m (String u EmptyString)))
        else None
    | _ => None
    end in
  match s with
  | String a r =>
      let two :=
        match r with
        | String b r2 =>
            if (Js.inRange 48 49 a && Js.isDigit b)
               || (Ascii.eqb a "2" && Js.inRange 48 51 b)
            then tail (String a (String b EmptyString)) r2 else None
        | EmptyString => None
        end in
      match two with
      | Some m => Some m
      | None => if Js.isDigit a then tail (String a EmptyString) r else None
      end
  | EmptyString => None
  end.

Fixpoint searchTime (prevIsWord : bool) (s : string) : option string :=
  match s with
  | EmptyString => None
  | String c r =>
      match (if prevIsWord then None else matchTimeAt s) with
      | Some m => Some m
      | None => searchTime (Js.isWord c) r
      end
  end.

Record ParsedCell := {
  pc_classHint : option string;
  pc_courseCode : string;
  pc_room : option string;
  pc_rawTime : option string;
  pc_startTime : option string
}.

Definition parseScheduleCell (cellText : string) : option ParsedCell :=
  let lines := filter (fun l => Js.truthy l = true) (map cleanCell (splitLines cellText EmptyString)) in
  match lines with
  | [] => None
  | line0 :: _ =>
      match normalizeCourseCode line0 with
      | None => None
      | Some courseCode =>
          let room := cleanCell <$> lines !! 1%nat in
          let rawTime := cleanCell <$> lines !! 2%nat in
          let timeText := default cellText rawTime in
          let matchedTime := searchTime false timeText in
          let matchedClass :=
            match searchGroup (Js.toUpperCase timeText) with
            | None => None
            | Some (start, len, _) => Some (String.substring start len timeText)
            end in
          Some {| pc_classHint := matchedClass ≫= normalizeClassGroup;
                  pc_courseCode := courseCode;
                  pc_room := room;
                  pc_rawTime := rawTime;
                  pc_startTime := matchedTime |}
      end
  end.

(** The body of the loop over the day columns, for one cell. *)
Definition cellEvents (sheetName : string) (rowIndex : nat) (session : SessionPeriod)
    (currentGroups : list string) (row : list string) (column : nat * DayOfWeek)
    : list ParsedEvent :=
  let '(columnIndex, dayOfWeek) := column in
  let cellValue := cleanCell (nth columnIndex row "") in
  if negb (Js.truthy cellValue) then []
  else
    match parseScheduleCell cellValue with
    | None => []
    | Some parsedCell =>
        let targetGroups :=
          match pc_classHint parsedCell with
          | Some hint =>
              if Js.truthy hint
              then if bool_decide (hint ∈ currentGroups) then [hint] else [hint]
              else currentGroups
          | None => currentGroups
          end in
        if (length targetGroups =? 0)%nat then []
        else
          map (fun classGroupName =>
                 {| ev_classGroupName := classGroupName;
                    ev_dayOfWeek := dayOfWeek;
                    ev_session := session;
                    ev_startTime := pc_startTime parsedCell;
                    ev_rawTime := pc_rawTime parsedCell;
                    ev_room := pc_room parsedCell;
                    ev_courseCode := pc_courseCode parsedCell;
                    ev_sourceSheet := sheetName;
                    ev_sourceRow := rowIndex + 1 |})
              targetGroups
    end.

Definition rowEvents (sheetName : string) (rowIndex : nat) (session : SessionPeriod)
    (currentGroups : list string) (row : list string) : list ParsedEvent :=
  flat_map (cellEvents sheetName rowIndex session currentGroups row) DAY_COLUMN_MAP.

Definition sessionKnown (s : SessionPeriod) : bool :=
  match s with UNKNOWN => false | _ => true end.

(** The row scan of [parseSheet], from row [rowIndex] on, threading the
    declared class groups and the events pushed so far. *)
Fixpoint scanRows (sheetName : string) (rows : list (list string)) (rowIndex : nat)
    (currentGroups : list string) (events : list ParsedEvent) : list ParsedEvent :=
  match rows with
  | [] => events
  | row :: rest =>
      let firstColumn := cleanCell (nth 1 row "") in
      if isFooter firstColumn then events
      else if looksLikeClassGroupRow firstColumn
      then scanRows sheetName rest (S rowIndex) (expandClassGroups firstColumn) events
      else
        let session := getSessionPeriod firstColumn in
        if negb (sessionKnown session)
        then scanRows sheetName rest (S rowIndex) currentGroups events
        else scanRows sheetName rest (S rowIndex) currentGroups
               (events ++ rowEvents sheetName rowIndex session currentGroups row)
  end.


Fixpoint findIndex {A} (p : A -> bool) (l : list A) : option nat :=
  match l with
  | [] => None
  | x :: r => if p x then Some 0%nat else S <$> findIndex p r
  end.


End Importer.

(** ** The catalog side of [knowledge.ts] *)

Module Knowledge.

(** [/^([A-Z]{2,6})(\d{3,4}[A-Z]?)$/] on the compacted text. *)
Definition normalizeCourseCode (raw : string) : option string :=
  let text := Js.collapseSpaces (Js.toUpperCase (Importer.cleanCell raw)) in
  if negb (Js.truthy text) then None
  else
    let compact := Js.removeSpaces text in
    let letters := Js.takeChars Js.isUpper compact in
    let rest := Js.dropChars Js.isUpper compact in
    let digits := Js.takeChars Js.isDigit rest in
    let suffix := Js.dropChars Js.isDigit rest in
    if Importer.lengthIn 2 6 letters && Importer.lengthIn 3 4 digits
       && Importer.lengthIn 0 1 suffix && Js.allChars Js.isUpper suffix
    then Some (letters +:+ " " +:+ rest)
    else None.

End Knowledge.

(** ** The catalog decoder *)

Module Catalog.

Local Open Scope Z_scope.

(** A [Buffer] is a list of bytes, a string here a list of UTF-16 code
    units, both as integers. *)

(** [buffer.toString("utf8")].  Well-formed sequences decode to their code
    point; malformed input is replaced by U+FFFD the way the WHATWG decoder
    does it (one replacement per maximal ill-formed prefix), the state being
    the code point under construction, the number of continuation bytes
    still expected and the bounds of the next one.  For a continuation byte
    [b], [cp * 64 + (b - 128)] is [(cp << 6) | (b & 0x3F)]. *)
Definition Utf8State : Type := option (Z * nat * Z * Z).

Definition startByte (b : Z) : list Z * Utf8State :=
  if b <=? 127 then ([b], None)
  else if (194 <=? b) && (b <=? 223) then ([], Some (b - 192, 1%nat, 128, 191))
  else if (224 <=? b) && (b <=? 239) then
    ([], Some (b - 224, 2%nat, (if b =? 224 then 160 else 128),
               (if b =? 237 then 159 else 191)))
  else if (240 <=? b) && (b <=? 244) then
    ([], Some (b - 240, 3%nat, (if b =? 240 then 144 else 128),
               (if b =? 244 then 143 else 191)))
  else ([65533], None).

Fixpoint decodeFrom (st : Utf8State) (bytes : list Z) : list Z :=
  match bytes with
  | [] => match st with Some _ => [65533] | None => [] end
  | b :: rest =>
      match st with
      | Some (cp, remaining, lower, upper) =>
          if (lower <=? b) && (b <=? upper) then
            let cp := cp * 64 + (b - 128) in
            match remaining with
            | S (S k) => decodeFrom (Some (cp, S k, 128, 191)) rest
            | _ => cp :: decodeFrom None rest
            end
          else
            65533 :: (fst (startByte b) ++ decodeFrom (snd (startByte b)) rest)
      | None => fst (startByte b) ++ decodeFrom (snd (startByte b)) rest
      end
  end.

(** A code point as UTF-16 code units. *)
Definition utf16 (cp : Z) : list Z :=
  if cp <? 65536 then [cp]
  else [55296 + (cp - 65536) / 1024; 56320 + (cp - 65536) mod 1024].

Definition toStringUtf8 (buffer : list Z) : list Z :=
  flat_map utf16 (decodeFrom None buffer).

(** [Buffer.from(text, "latin1")]: the low byte of every code unit. *)
Definition fromLatin1 (text : list Z) : list Z := map (fun u => u mod 256) text.

Fixpoint startsWith (p s : list Z) : bool :=
  match p, s with
  | [], _ => true
  | a :: p', b :: s' => (a =? b) && startsWith p' s'
  | _ :: _, [] => false
  end.

Fixpoint includes (needle hay : list Z) : bool :=
  startsWith needle hay ||
  match hay with
  | [] => false
  | _ :: r => includes needle r
  end.

(** [text.match(new RegExp(marker, "g"))?.length ?? 0]: the matches do not
    overlap, the search resuming after each one. *)
Fixpoint countFrom (marker : list Z) (skip : nat) (text : list Z) : Z :=
  match text with
  | [] => 0
  | _ :: r =>
      match skip with
      | S k => countFrom marker k r
      | O =>
          if startsWith marker text
          then 1 + countFrom marker (length marker - 1) r
          else countFrom marker 0 r
      end
  end.

Definition countMatches (marker text : list Z) : Z := countFrom marker 0 text.

(** "Ã", "á»", "â€", "Ä" and U+FFFD. *)
Definition mojibakeMarkers : list (list Z) :=
  [[195]; [225; 187]; [226; 8364]; [196]; [65533]].

(** "Khoa Học" and "Tiếng Việt". *)
Definition khoaHoc : list Z := [75; 104; 111; 97; 32; 72; 7885; 99].
Definition tiengViet : list Z := [84; 105; 7871; 110; 103; 32; 86; 105; 7879; 116].

Definition stripBom (text : list Z) : list Z :=
  match text with
  | c :: r => if c =? 65279 then r else text
  | [] => text
  end.

Definition markerHits (text : list Z) : Z :=
  fold_left (fun sum marker => sum + countMatches marker text) mojibakeMarkers 0.

Definition decodeCatalogCsv (buffer : list Z) : list Z :=
  let text := stripBom (toStringUtf8 buffer) in
  if 8 <=? markerHits text then
    let repaired := toStringUtf8 (fromLatin1 text) in
    if includes khoaHoc repaired || includes tiengViet repaired then repaired
    else text
  else text.

(** The UTF-8 encoding of a code point below U+110000, used to write test
    streams and to state what a mis-decoded stream is. *)
Definition encode (cp : Z) : list Z :=
  if cp <? 128 then [cp]
  else if cp <? 2048 then [192 + cp / 64; 128 + cp mod 64]
  else if cp <? 65536 then [224 + cp / 4096; 128 + (cp / 64) mod 64; 128 + cp mod 64]
  else [240 + cp / 262144; 128 + (cp / 4096) mod 64; 128 + (cp / 64) mod 64;
        128 + cp mod 64].

Definition encodeAll (cps : list Z) : list Z := flat_map encode cps.

(** A Unicode scalar value: below U+110000 and no surrogate. *)
Definition scalar (cp : Z) : Prop :=
  0 <= cp < 1114112 /\ ~ (55296 <= cp <= 57343).

(** The stream a legacy tool leaves behind: the UTF-8 bytes of the text,
    each read as one Latin-1 character and written out as UTF-8 again. *)
Definition misdecoded (cps : list Z) : list Z := encodeAll (encodeAll cps).

End Catalog.

(** ** The entity normalizer: [writeImport] over the stored tables *)

Module Store.

Import Portal Importer.

(** Rows.  A table with a unique key the import addresses its rows by
    ([Semester.key], [Cohort.(semesterId, code)], [Course.code]) is a finite
    map from that key; [ClassGroup], [ScheduleEntry] and [ImportRun] are
    lists in storage order.  Generated ids are numbers drawn from [nextId]. *)
Record Semester := {
  sem_id : nat;
  sem_label : string;
  sem_sourceFile : string;
  sem_startDate : option Z;
  sem_endDate : option Z
}.

Record ClassGroup := {
  cg_id : nat;
  cg_name : string;
  cg_cohortId : nat
}.

Record Course := {
  crs_id : nat;
  crs_nameEn : option string;
  crs_nameVi : option string;
  crs_credits : option Z;
  crs_prerequisite : option string
}.

(** The columns of a [ScheduleEntry] other than its id. *)
Record EntryData := {
  d_semesterId : nat;
  d_classGroupId : nat;
  d_courseId : nat;
  d_dayOfWeek : DayOfWeek;
  d_session : SessionPeriod;
  d_startTime : option string;
  d_rawTime : option string;
  d_room : option string;
  d_sourceSheet : string;
  d_sourceRow : nat
}.

Record ScheduleEntry := {
  se_id : nat;
  se_data : EntryData
}.

Record ImportRun := {
  run_id : nat;
  run_semesterId : option nat;
  run_sourceFile : string;
  run_status : string;
  run_note : string
}.

Record DB := {
  semesters : gmap string Semester;
  cohorts : gmap (nat * string) nat;
  classGroups : list ClassGroup;
  courses : gmap string Course;
  scheduleEntries : list ScheduleEntry;
  importRuns : list ImportRun;
  nextId : nat
}.

Definition emptyDB : DB :=
  {| semesters := ∅; cohorts := ∅; classGroups := []; courses := ∅;
     scheduleEntries := []; importRuns := []; nextId := 1 |}.

Definition setSemesters (v : gmap string Semester) (db : DB) : DB :=
  {| semesters := v; cohorts := cohorts db; classGroups := classGroups db;
     courses := courses db; scheduleEntries := scheduleEntries db;
     importRuns := importRuns db; nextId := nextId db |}.
Definition setCohorts (v : gmap (nat * string) nat) (db : DB) : DB :=
  {| semesters := semesters db; cohorts := v; classGroups := classGroups db;
     courses := courses db; scheduleEntries := scheduleEntries db;
     importRuns := importRuns db; nextId := nextId db |}.
Definition setClassGroups (v : list ClassGroup) (db : DB) : DB :=
  {| semesters := semesters db; cohorts := cohorts db; classGroups := v;
     courses := courses db; scheduleEntries := scheduleEntries db;
     importRuns := importRuns db; nextId := nextId db |}.
Definition setCourses (v : gmap string Course) (db : DB) : DB :=
  {| semesters := semesters db; cohorts := cohorts db; classGroups := classGroups db;
     courses := v; scheduleEntries := scheduleEntries db;
     importRuns := importRuns db; nextId := nextId db |}.
Definition setScheduleEntries (v : list ScheduleEntry) (db : DB) : DB :=
  {| semesters := semesters db; cohorts := cohorts db; classGroups := classGroups db;
     courses := courses db; scheduleEntries := v;
     importRuns := importRuns db; nextId := nextId db |}.
Definition setImportRuns (v : list ImportRun) (db : DB) : DB :=
  {| semesters := semesters db; cohorts := cohorts db; classGroups := classGroups db;
     courses := courses db; scheduleEntries := scheduleEntries db;
     importRuns := v; nextId := nextId db |}.
(** [n] ids have been handed out. *)
Definition takeIds (n : nat) (db : DB) : DB :=
  {| semesters := semesters db; cohorts := cohorts db; classGroups := classGroups db;
     courses := courses db; scheduleEntries := scheduleEntries db;
     importRuns := importRuns db; nextId := nextId db + n |}.

(** The parsed input of [writeImport]. *)
Record ParsedCourseMeta := {
  m_nameEn : option string;
  m_nameVi : option string;
  m_credits : option Z;
  m_prerequisite : option string
}.

Record ParsedSheetData := {
  p_sheetName : string;
  p_cohortCode : string;
  p_semesterLabel : string;
  p_semesterKey : string;
  p_startDate : option Z;
  p_endDate : option Z;
  p_events : list ParsedEvent;
  p_catalog : list (string * ParsedCourseMeta)
}.

Record ImportSummary := {
  sum_sourceFile : string;
  sum_semesterKey : string;
  sum_semesterLabel : string;
  sum_cohorts : list string;
  sum_classGroups : nat;
  sum_courses : nat;
  sum_entries : nat
}.

(** [catalog.get(code)] on the catalog map, kept as its list of entries. *)
Fixpoint catalogGet (code : string) (catalog : list (string * ParsedCourseMeta))
    : option ParsedCourseMeta :=
  match catalog with
  | [] => None
  | (k, v) :: r => if String.eqb k code then Some v else catalogGet code r
  end.

(** [prisma.semester.upsert]. *)
Definition upsertSemester (key label sourceFile : string) (startDate endDate : option Z)
    (db : DB) : nat * DB :=
  match semesters db !! key with
  | Some row =>
      (sem_id row,
       setSemesters
         (<[key := {| sem_id := sem_id row; sem_label := label;
                      sem_sourceFile := sourceFile;
                      sem_startDate := startDate; sem_endDate := endDate |}]>
            (semesters db)) db)
  | None =>
      (nextId db,
       takeIds 1
         (setSemesters
            (<[key := {| sem_id := nextId db; sem_label := label;
                         sem_sourceFile := sourceFile;
                         sem_startDate := startDate; sem_endDate := endDate |}]>
               (semesters db)) db))
  end.

(** [prisma.cohort.upsert], whose [update] is empty. *)
Definition upsertCohort (semesterId : nat) (code : string) (db : DB) : nat * DB :=
  match cohorts db !! (semesterId, code) with
  | Some cohortId => (cohortId, db)
  | None =>
      (nextId db,
       takeIds 1 (setCohorts (<[(semesterId, code) := nextId db]> (cohorts db)) db))
  end.

Definition classGroupsOf (cohortId : nat) (db : DB) : list ClassGroup :=
  filter (fun g => cg_cohortId g = cohortId) (classGroups db).

(** The two [deleteMany] calls, guarded by [existingClassGroups.length > 0]. *)
Definition deleteClassGroups (cohortId : nat) (db : DB) : DB :=
  let existingIds := map cg_id (classGroupsOf cohortId db) in
  if (0 <? length existingIds)%nat then
    let db :=
      setScheduleEntries
        (filter (fun e => d_classGroupId (se_data e) ∉ existingIds) (scheduleEntries db))
        db in
    setClassGroups (filter (fun g => cg_id g ∉ existingIds) (classGroups db)) db
  else db.

(** The rows [createMany] stores, their ids running from [start] on. *)
Definition newGroups (cohortId start : nat) (groupNames : list string) : list ClassGroup :=
  zip_with (fun id name => {| cg_id := id; cg_name := name; cg_cohortId := cohortId |})
    (seq start (length groupNames)) groupNames.

Definition storedRows (start : nat) (entryData : list EntryData) : list ScheduleEntry :=
  zip_with (fun id data => {| se_id := id; se_data := data |})
    (seq start (length entryData)) entryData.

(** [prisma.classGroup.createMany], guarded by [groupNames.length > 0]. *)
Definition createClassGroups (cohortId : nat) (groupNames : list string) (db : DB) : DB :=
  if (0 <? length groupNames)%nat then
    takeIds (length groupNames)
      (setClassGroups (classGroups db ++ newGroups cohortId (nextId db) groupNames) db)
  else db.

(** [updateData] applied to a stored course. *)
Definition overwriteText (new : option string) (old : option string) : option string :=
  match new with
  | Some v => if Js.truthy v then Some v else old
  | None => old
  end.

Definition overwriteNumber (new : option Z) (old : option Z) : option Z :=
  match new with
  | Some n => Some n
  | None => old
  end.

Definition updateCourse (meta : option ParsedCourseMeta) (row : Course) : Course :=
  {| crs_id := crs_id row;
     crs_nameEn := overwriteText (meta ≫= m_nameEn) (crs_nameEn row);
     crs_nameVi := overwriteText (meta ≫= m_nameVi) (crs_nameVi row);
     crs_credits := overwriteNumber (meta ≫= m_credits) (crs_credits row);
     crs_prerequisite := overwriteText (meta ≫= m_prerequisite) (crs_prerequisite row) |}.

Definition createCourse (id : nat) (meta : option ParsedCourseMeta) : Course :=
  {| crs_id := id;
     crs_nameEn := meta ≫= m_nameEn;
     crs_nameVi := meta ≫= m_nameVi;
     crs_credits := meta ≫= m_credits;
     crs_prerequisite := meta ≫= m_prerequisite |}.

(** [prisma.course.upsert]. *)
Definition upsertCourse (catalog : list (string * ParsedCourseMeta)) (db : DB)
    (code : string) : DB :=
  let meta := catalogGet code catalog in
  match courses db !! code with
  | Some row => setCourses (<[code := updateCourse meta row]> (courses db)) db
  | None =>
      takeIds 1 (setCourses (<[code := createCourse (nextId db) meta]> (courses db)) db)
  end.

(** [new Map(cohortClassGroups.map((group) => [group.name, group.id]))]. *)
Definition classGroupIdByName (cohortId : nat) (db : DB) : gmap string nat :=
  fold_left (fun m g => <[cg_name g := cg_id g]> m) (classGroupsOf cohortId db) ∅.

(** [new Map(courseRecords.map((course) => [course.code, course.id]))] for
    the courses found among [codes]. *)
Definition courseIdByCode (codes : list string) (db : DB) : gmap string nat :=
  fold_left
    (fun m code =>
       match courses db !! code with
       | Some row => <[code := crs_id row]> m
       | None => m
       end)
    codes ∅.

(** The loop that fills [entryData]. *)
Definition entryStep (semesterId : nat) (groupIds courseIds : gmap string nat)
    (entryData : list EntryData) (event : ParsedEvent) : list EntryData :=
  match groupIds !! ev_classGroupName event, courseIds !! ev_courseCode event with
  | Some classGroupId, Some courseId =>
      entryData ++
      [ {| d_semesterId := semesterId;
           d_classGroupId := classGroupId;
           d_courseId := courseId;
           d_dayOfWeek := ev_dayOfWeek event;
           d_session := ev_session event;
           d_startTime := ev_startTime event;
           d_rawTime := ev_rawTime event;
           d_room := ev_room event;
           d_sourceSheet := ev_sourceSheet event;
           d_sourceRow := ev_sourceRow event |} ]
  | _, _ => entryData
  end.

Definition buildEntryData (semesterId : nat) (groupIds courseIds : gmap string nat)
    (events : list ParsedEvent) : list EntryData :=
  fold_left (entryStep semesterId groupIds courseIds) events [].

(** [prisma.scheduleEntry.createMany], guarded by [entryData.length > 0]. *)
Definition createEntries (entryData : list EntryData) (db : DB) : DB :=
  if (0 <? length entryData)%nat then
    takeIds (length entryData)
      (setScheduleEntries (scheduleEntries db ++ storedRows (nextId db) entryData) db)
  else db.

(** The running totals of the import: entries, class groups, course codes. *)
Record Totals := {
  totalEntries : nat;
  totalClassGroups : nat;
  allCourseCodes : list string
}.

Section WriteImport.
(** [String.prototype.localeCompare] is a parameter. *)
Variable localeCompare : string -> string -> Z.

Definition groupNamesOf (sheet : ParsedSheetData) : list string :=
  sortBy localeCompare (Js.unique (map ev_classGroupName (p_events sheet))).

Definition cohortCourseCodes (sheet : ParsedSheetData) : list string :=
  Js.unique (map ev_courseCode (p_events sheet) ++ map fst (p_catalog sheet)).

(** One iteration of the loop over the parsed sheets. *)
Definition importSheet (semesterId : nat) (st : DB * Totals) (parsedSheet : ParsedSheetData)
    : DB * Totals :=
  let '(db, totals) := st in
  let '(cohortId, db) := upsertCohort semesterId (p_cohortCode parsedSheet) db in
  let db := deleteClassGroups cohortId db in
  let groupNames := groupNamesOf parsedSheet in
  let db := createClassGroups cohortId groupNames db in
  let groupIds := classGroupIdByName cohortId db in
  let codes := cohortCourseCodes parsedSheet in
  let db := fold_left (upsertCourse (p_catalog parsedSheet)) codes db in
  let courseIds := courseIdByCode codes db in
  let entryData := buildEntryData semesterId groupIds courseIds (p_events parsedSheet) in
  let db := createEntries entryData db in
  (db,
   {| totalEntries := totalEntries totals + length entryData;
      totalClassGroups := totalClassGroups totals + length groupNames;
      allCourseCodes := fold_left (fun s code => setAdd code s) codes (allCourseCodes totals) |}).

Definition minDate (dates : list Z) : option Z :=
  match dates with
  | [] => None
  | d :: r => Some (fold_left Z.min r d)
  end.
Definition maxDate (dates : list Z) : option Z :=
  match dates with
  | [] => None
  | d :: r => Some (fold_left Z.max r d)
  end.

(** [prisma.importRun.create] and the [prisma.importRun.update] of the
    success path. *)
Definition createImportRun (sourceFile semesterLabel : string) (db : DB) : nat * DB :=
  (nextId db,
   takeIds 1
     (setImportRuns
        (importRuns db ++
         [ {| run_id := nextId db; run_semesterId := None;
              run_sourceFile := sourceFile; run_status := "RUNNING";
              run_note := "Preparing import for " +:+ semesterLabel |} ])
        db)).

Definition finishImportRun (runId semesterId totalEntries : nat) (db : DB) : DB :=
  setImportRuns
    (map (fun run =>
            if (run_id run =? runId)%nat
            then {| run_id := run_id run; run_semesterId := Some semesterId;
                    run_sourceFile := run_sourceFile run;
                    run_status := "SUCCESS";
                    run_note := "Imported " +:+ Js.decimal totalEntries
                                +:+ " schedule entries" |}
            else run)
       (importRuns db))
    db.

Definition noTotals : Totals :=
  {| totalEntries := 0; totalClassGroups := 0; allCourseCodes := [] |}.

(** [writeImport]; [None] is the [TypeError] thrown on an empty list of
    sheets, before anything is written.  No other statement of the
    function throws by itself, so the [catch] branch is not entered. *)
Definition writeImport (parsedSheets : list ParsedSheetData) (sourceFile : string)
    (db : DB) : DB * option ImportSummary :=
  match parsedSheets with
  | [] => (db, None)
  | first :: _ =>
      let semesterLabel := p_semesterLabel first in
      let semesterKey := p_semesterKey first in
      let allStarts := omap p_startDate parsedSheets in
      let allEnds := omap p_endDate parsedSheets in
      let '(runId, db) := createImportRun sourceFile semesterLabel db in
      let '(semesterId, db) :=
        upsertSemester semesterKey semesterLabel sourceFile
          (minDate allStarts) (maxDate allEnds) db in
      let '(db, totals) :=
        fold_left (importSheet semesterId) parsedSheets (db, noTotals) in
      let db := finishImportRun runId semesterId (totalEntries totals) db in
      (db,
       Some {| sum_sourceFile := sourceFile;
               sum_semesterKey := semesterKey;
               sum_semesterLabel := semesterLabel;
               sum_cohorts := map p_cohortCode parsedSheets;
               sum_classGroups := totalClassGroups totals;
               sum_courses := length (allCourseCodes totals);
               sum_entries := totalEntries totals |})
  end.
End WriteImport.

End Store.

(** ** The CSV reader of the catalog: [parseCsvText] *)

Module Csv.

Local Open Scope Z_scope.

(** The text is a list of UTF-16 code units, as the decoder returns it;
    34 is the double quote, 44 the comma, 10 the line feed and 13 the
    carriage return.  The loop over the index [i] is a recursion over the
    rest of the text, [content[i + 1]] being the head of what follows the
    current character; the state is [rows], [row], [field] and
    [inQuotes]. *)
Fixpoint parseFrom (content : list Z) (rows : list (list (list Z)))
    (row : list (list Z)) (field : list Z) (inQuotes : bool) : list (list (list Z)) :=
  match content with
  | [] =>
      if (0 <? length field)%nat || (0 <? length row)%nat
      then rows ++ [row ++ [field]]
      else rows
  | char :: rest =>
      if inQuotes then
        if char =? 34 then
          match rest with
          | next :: rest' =>
              if next =? 34 then parseFrom rest' rows row (field ++ [34]) true
              else parseFrom rest rows row field false
          | [] => parseFrom rest rows row field false
          end
        else parseFrom rest rows row (field ++ [char]) true
      else if char =? 34 then parseFrom rest rows row field true
      else if char =? 44 then parseFrom rest rows (row ++ [field]) [] false
      else if char =? 10 then parseFrom rest (rows ++ [row ++ [field]]) [] [] false
      else if char =? 13 then parseFrom rest rows row field false
      else parseFrom rest rows row (field ++ [char]) false
  end.

Definition parseCsvText (content : list Z) : list (list (list Z)) :=
  parseFrom content [] [] [] false.

End Csv.

(** ** Keys, sheet names and the order of the entries *)

Module Keys.

(** [s.replace(/[^...]+/g, "_")] for a character class given by [keep]:
    every maximal run of characters outside the class becomes one
    underscore. *)
Fixpoint replaceRunsFrom (keep : ascii -> bool) (inRun : bool) (s : string) : string :=
  match s with
  | EmptyString => EmptyString
  | String c r =>
      if keep c then String c (replaceRunsFrom keep false r)
      else if inRun then replaceRunsFrom keep true r
      else String "_" (replaceRunsFrom keep true r)
  end.
Definition replaceRuns (keep : ascii -> bool) : string -> string :=
  replaceRunsFrom keep false.

Definition isUnderscore (c : ascii) : bool := Ascii.eqb c "_".

(** [[A-Z0-9]] and [[A-Z0-9_-]]. *)
Definition isAlnum (c : ascii) : bool := Js.isUpper c || Js.isDigit c.
Definition isKeyChar (c : ascii) : bool :=
  Js.isUpper c || Js.isDigit c || Ascii.eqb c "_" || Ascii.eqb c "-".

(** [normalizeSemesterKey] of the read side. *)
Definition normalizeSemesterKey (raw : string) : string :=
  if negb (Js.truthy raw) then ""
  else replaceRuns isKeyChar (Js.toUpperCase (Js.trim raw)).

(** [s.replace(/^_+|_+$/g, "")]: the underscores in front and at the end
    go. *)
Definition stripUnderscores (s : string) : string :=
  Js.reverse (Js.dropChars isUnderscore (Js.reverse (Js.dropChars isUnderscore s))).

(** [parseSemesterKey] of the importer. *)
Definition parseSemesterKey (label : string) : string :=
  stripUnderscores (replaceRuns isAlnum (Js.toUpperCase label)).

(** [SHEET_FILTER.test(sheetName)] for [/^SPRING\s+2026\s+K\d+$/i], on the
    upper-cased name. *)
Definition afterSpaces (s : string) : option string :=
  match s with
  | String c _ => if Js.isSpace c then Some (Js.dropChars Js.isSpace s) else None
  | EmptyString => None
  end.

Definition afterPrefix (p s : string) : option string :=
  if Js.startsWith p s
  then Some (String.substring (String.length p) (String.length s - String.length p) s)
  else None.

Definition andThen (o : option string) (f : string -> option string) : option string :=
  match o with
  | Some s => f s
  | None => None
  end.

Definition sheetFilter (sheetName : string) : bool :=
  let spring := afterPrefix "SPRING" (Js.toUpperCase sheetName) in
  let year := andThen (andThen spring afterSpaces) (afterPrefix "2026") in
  match andThen (andThen year afterSpaces) (afterPrefix "K") with
  | Some digits => Js.truthy digits && Js.allChars Js.isDigit digits
  | None => false
  end.

(** [sheetName.match(/K\d+/i)] with [toUpperCase()] applied to the match:
    the first K that a digit follows, with the digits behind it, in the
    upper-cased name. *)
Fixpoint searchCohort (s : string) : option string :=
  match s with
  | EmptyString => None
  | String c r =>
      if Ascii.eqb c "K" && Js.truthy (Js.takeChars Js.isDigit r)
      then Some (String c (Js.takeChars Js.isDigit r))
      else searchCohort r
  end.

(** The cohort code of [parseSheet]; [None] is the error thrown when the
    sheet name holds none. *)
Definition cohortCode (sheetName : string) : option string :=
  searchCohort (Js.toUpperCase sheetName).

(** [sortEntries] and the sort of the selected entries in [getPortalData]. *)
Definition DAY_ORDER : list Portal.DayOfWeek :=
  [Portal.MON; Portal.TUE; Portal.WED; Portal.THU; Portal.FRI; Portal.SAT; Portal.SUN].

(** [xs.indexOf(x)]. *)
Fixpoint indexOf (d : Portal.DayOfWeek) (l : list Portal.DayOfWeek) : Z :=
  match l with
  | [] => (-1)%Z
  | x :: r =>
      if bool_decide (x = d) then 0%Z
      else let i := indexOf d r in if (i <? 0)%Z then (-1)%Z else (i + 1)%Z
  end.

Section Sort.
Variable localeCompare : string -> string -> Z.

Definition sortEntries (a b : Portal.StoredEntry) : Z :=
  let dayDelta :=
    (indexOf (Portal.s_dayOfWeek a) DAY_ORDER
     - indexOf (Portal.s_dayOfWeek b) DAY_ORDER)%Z in
  if negb (dayDelta =? 0)%Z then dayDelta
  else
    let timeA := default "99:99" (Portal.s_startTime a) in
    let timeB := default "99:99" (Portal.s_startTime b) in
    localeCompare timeA timeB.

Definition sortedEntries (scheduleEntries : list Portal.StoredEntry)
    : list Portal.StoredEntry :=
  Portal.sortBy sortEntries scheduleEntries.
End Sort.

End Keys.

(** ** Review scores of the knowledge base *)

Module Reviews.

Inductive Sentiment := positive | neutral | negative.

Definition positiveWords : list string :=
  ["gioi"; "tot"; "tan tuy"; "ton trong"; "than thien"; "gan gui"; "thu vi";
   "chuan chi"; "dong cam"; "good"; "great"; "excellent"; "a good man"; "safe";
   "an toan"; "A la co"].

Definition negativeWords : list string :=
  ["chan"; "kho"; "cang thang"; "do sat"; "diem thap"; "thai do"; "kho chiu";
   "khon nan"; "tom"; "thap"; "nghiet"; "stress"; "bad"; "hard"; "toxic"].

Section Score.
(** [normalizeText], which decomposes the text with [normalize("NFD")],
    removes the combining marks and lower-cases it, is a parameter. *)
Variable normalizeText : string -> string.

(** The loop that counts the words of a list found in the text. *)
Definition countHits (words : list string) (text : string) : Z :=
  fold_left
    (fun hits word => if Js.includes (normalizeText word) text then (hits + 1)%Z else hits)
    words 0%Z.

Definition scoreFromContent (content : string) : option Z :=
  let text := normalizeText content in
  let positiveHits := countHits positiveWords text in
  let negativeHits := countHits negativeWords text in
  if (positiveHits =? 0)%Z && (negativeHits =? 0)%Z then None
  else Some (Z.max 1 (Z.min 5 (3 + positiveHits - negativeHits))).
End Score.

Definition sentimentFromScore (score : option Z) : Sentiment :=
  match score with
  | None => neutral
  | Some s =>
      if (4 <=? s)%Z then positive
      else if (s <=? 2)%Z then negative
      else neutral
  end.

End Reviews.

(** ** The course list of a sheet: the importer's [parseCatalog] *)

Module SheetCatalog.
Import Importer Store.

(** The header row of the course list: column 1 holds "ma hp". *)
Definition isCatalogHeader (row : list string) : bool :=
  Js.includes "ma hp" (foldText (cleanCell (nth 1 row ""))).

(** [/contact customer service|buy me a coffee|note:/i]. *)
Definition isCatalogFooter (codeText : string) : bool :=
  let upper := Js.toUpperCase codeText in
  Js.includes "CONTACT CUSTOMER SERVICE" upper
  || Js.includes "BUY ME A COFFEE" upper
  || Js.includes "NOTE:" upper.

(** [text || null]. *)
Definition orNull (text : string) : option string :=
  if Js.truthy text then Some text else None.

(** [catalog.set(code, meta)]: the entry of a key that is there already is
    replaced in place, a new key goes to the end. *)
Fixpoint mapSet (code : string) (meta : ParsedCourseMeta)
    (catalog : list (string * ParsedCourseMeta)) : list (string * ParsedCourseMeta) :=
  match catalog with
  | [] => [(code, meta)]
  | (k, v) :: r =>
      if String.eqb k code then (k, meta) :: r else (k, v) :: mapSet code meta r
  end.

Section Catalog.
(** [Number.parseInt(text, 10)], with [None] for a result that is not
    finite, is a parameter. *)
Variable parseInt : string -> option Z.

Definition metaOf (row : list string) : ParsedCourseMeta :=
  {| m_nameEn := orNull (cleanCell (nth 2 row ""));
     m_nameVi := orNull (cleanCell (nth 4 row ""));
     m_credits := parseInt (cleanCell (nth 6 row ""));
     m_prerequisite := orNull (cleanCell (nth 7 row "")) |}.

(** The loop over the rows below the header, with its count of rows
    without a course code. *)
Fixpoint catalogLoop (rows : list (list string)) (blankCount : nat)
    (catalog : list (string * ParsedCourseMeta)) : list (string * ParsedCourseMeta) :=
  match rows with
  | [] => catalog
  | row :: rest =>
      let codeText := cleanCell (nth 1 row "") in
      if isCatalogFooter codeText then catalog
      else
        match normalizeCourseCode codeText with
        | None =>
            let blankCount := S blankCount in
            if (20 <? blankCount)%nat then catalog
            else catalogLoop rest blankCount catalog
        | Some code => catalogLoop rest 0 (mapSet code (metaOf row) catalog)
        end
  end.

Definition parseCatalog (rows : list (list string)) : list (string * ParsedCourseMeta) :=
  match findIndex isCatalogHeader rows with
  | None => []
  | Some catalogHeaderIndex => catalogLoop (drop (S catalogHeaderIndex) rows) 0 []
  end.
End Catalog.

End SheetCatalog.

(** ** Notions used to state the properties *)

Module PortalSpec.
Import Portal.

(** The winners among [rows], when [m] is the best score. *)
Definition winners (input : ResolveInput) (m : Z) (rows : list Assignment) : list string :=
  map a_lecturerId
    (filter (fun a => scoreAssignment input a = Some m) rows).

Definition loopInvariant (input : ResolveInput) (rows : list Assignment)
    (st : Z * list string) : Prop :=
  ((forall a, a ∈ rows -> scoreAssignment input a = None) /\ st = ((-1)%Z, []))
  \/ exists m,
       (exists a, a ∈ rows /\ scoreAssignment input a = Some m)
       /\ (forall a s, a ∈ rows -> scoreAssignment input a = Some s -> (s <= m)%Z)
       /\ st = (m, winners input m rows).

(** The last override written for a course and a lecturer, if any. *)
Definition lastOverride (c lid : string) (overrides : list Override) : option Override :=
  last (filter (fun o => o_courseCode o = c /\ o_lecturerId o = lid) overrides).

Definition fallbackHolds (base : string -> list string) (overrides : list Override)
    (c lid : string) : Prop :=
  match lastOverride c lid overrides with
  | Some o => o_enabled o = true
  | None => lid ∈ base c
  end.

Definition push (code : string) (v : Conflict) : Conflict :=
  {| c_dayOfWeek := c_dayOfWeek v; c_startTime := c_startTime v;
     c_courses := c_courses v ++ [code] |}.

(** What the entries seen so far say about a slot. *)
Definition slotCourse (entries : list PortalEntry) (d : DayOfWeek) (t code : string) : Prop :=
  exists e, e ∈ entries /\ e_dayOfWeek e = d /\ e_startTime e = Some t
            /\ e_courseCode e = code.

Definition groupedInvariant (entries : list PortalEntry)
    (grouped : list (string * Conflict)) : Prop :=
  NoDup (map fst grouped)
  /\ (forall k c, mapGet k grouped = Some c ->
        k = conflictKey (c_dayOfWeek c) (c_startTime c)
        /\ c_startTime c <> ""
        /\ NoDup (c_courses c)
        /\ forall code, code ∈ c_courses c
                        <-> slotCourse entries (c_dayOfWeek c) (c_startTime c) code)
  /\ (forall e t, e ∈ entries -> e_startTime e = Some t -> t <> "" ->
        is_Some (mapGet (conflictKey (e_dayOfWeek e) t) grouped)).

End PortalSpec.

Module CatalogSpec.
Local Open Scope Z_scope.

Definition isByte (b : Z) : Prop := 0 <= b < 256.

(** The characters whose UTF-8 bytes, read as Latin-1, show one of the
    suspicious substrings: U+00C0..U+00FF and U+0100..U+013F, whose lead
    byte reads as "Ã" and as "Ä", and U+1EC0..U+1EFF, whose first two bytes
    read as "á»". *)
Definition marked (cp : Z) : bool :=
  ((192 <=? cp) && (cp <=? 319)) || ((7872 <=? cp) && (cp <=? 7935)).

Fixpoint markedCount (cps : list Z) : Z :=
  match cps with
  | [] => 0
  | cp :: rest => (if marked cp then 1 else 0) + markedCount rest
  end.

#[global] Instance scalar_dec cp : Decision (Catalog.scalar cp).
Proof. unfold Catalog.scalar. apply _. Defined.

(** The catalog line "Khoa Học Máy Tính", and eight of them. *)
Definition khoaHocLine : list Z :=
  Catalog.khoaHoc ++ [32; 77; 225; 121; 32; 84; 237; 110; 104; 10].

Definition khoaHocLines : list Z :=
  khoaHocLine ++ khoaHocLine ++ khoaHocLine ++ khoaHocLine
  ++ khoaHocLine ++ khoaHocLine ++ khoaHocLine ++ khoaHocLine.

End CatalogSpec.

Module StoreSpec.
Import Portal Importer Store.

(** The id discipline of a stored state: class-group ids are distinct, and
    no row carries or references a class-group id that is still to be
    generated. *)
Definition wellFormed (db : DB) : Prop :=
  NoDup (map cg_id (classGroups db))
  /\ Forall (fun g => cg_id g < nextId db) (classGroups db)
  /\ Forall (fun e => d_classGroupId (se_data e) < nextId db) (scheduleEntries db).

#[global] Instance wellFormed_dec db : Decision (wellFormed db).
Proof. unfold wellFormed. apply _. Defined.

(** An event can be stored when both of its names resolve. *)
Definition resolvable (groupIds courseIds : gmap string nat) (event : ParsedEvent) : Prop :=
  is_Some (groupIds !! ev_classGroupName event)
  /\ is_Some (courseIds !! ev_courseCode event).

(** The row [entryStep] pushes for a resolved event. *)
Definition entryRow (semesterId classGroupId courseId : nat) (event : ParsedEvent)
    : EntryData :=
  {| d_semesterId := semesterId;
     d_classGroupId := classGroupId;
     d_courseId := courseId;
     d_dayOfWeek := ev_dayOfWeek event;
     d_session := ev_session event;
     d_startTime := ev_startTime event;
     d_rawTime := ev_rawTime event;
     d_room := ev_room event;
     d_sourceSheet := ev_sourceSheet event;
     d_sourceRow := ev_sourceRow event |}.

(** The stored state without its generated ids: a class group is the pair
    of its cohort and its name, an entry refers to its class group by that
    pair and carries no id of its own. *)
Definition groupKey (g : ClassGroup) : nat * string := (cg_cohortId g, cg_name g).

Definition classGroupView (db : DB) : list (nat * string) :=
  map groupKey (classGroups db).

Fixpoint findGroup (id : nat) (groups : list ClassGroup) : option ClassGroup :=
  match groups with
  | [] => None
  | g :: r => if (cg_id g =? id)%nat then Some g else findGroup id r
  end.

Definition groupOf (groups : list ClassGroup) (id : nat) : option (nat * string) :=
  groupKey <$> findGroup id groups.

Definition eraseGroup (d : EntryData) : EntryData :=
  {| d_semesterId := d_semesterId d;
     d_classGroupId := 0;
     d_courseId := d_courseId d;
     d_dayOfWeek := d_dayOfWeek d;
     d_session := d_session d;
     d_startTime := d_startTime d;
     d_rawTime := d_rawTime d;
     d_room := d_room d;
     d_sourceSheet := d_sourceSheet d;
     d_sourceRow := d_sourceRow d |}.

Definition entryViewOf (groups : list ClassGroup) (e : ScheduleEntry)
    : option (nat * string) * EntryData :=
  (groupOf groups (d_classGroupId (se_data e)), eraseGroup (se_data e)).

Definition entryView (db : DB) : list (option (nat * string) * EntryData) :=
  map (entryViewOf (classGroups db)) (scheduleEntries db).

(** The states one iteration of the import goes through: after the cohort
    upsert, after the class groups were replaced, after the course upserts;
    and the entry data it then stores. *)
Section Stages.
Variable localeCompare : string -> string -> Z.
Variable semesterId : nat.
Variable sheet : ParsedSheetData.
Variable db : DB.

Definition cohortOf : nat := fst (upsertCohort semesterId (p_cohortCode sheet) db).
Definition afterCohort : DB := snd (upsertCohort semesterId (p_cohortCode sheet) db).
Definition afterGroups : DB :=
  createClassGroups cohortOf (groupNamesOf localeCompare sheet)
    (deleteClassGroups cohortOf afterCohort).
Definition afterCourses : DB :=
  fold_left (upsertCourse (p_catalog sheet)) (cohortCourseCodes sheet) afterGroups.
Definition sheetData : list EntryData :=
  buildEntryData semesterId (classGroupIdByName cohortOf afterGroups)
    (courseIdByCode (cohortCourseCodes sheet) afterCourses) (p_events sheet).
Definition afterSheet : DB := createEntries sheetData afterCourses.
End Stages.

(** What a sheet puts into the id-free view, the ids of cohort and courses
    being read off a state [final] that knows them. *)
Definition courseIdIn (final : DB) (code : string) : nat :=
  default 0 (crs_id <$> courses final !! code).

Definition cohortIdIn (final : DB) (semesterId : nat) (sheet : ParsedSheetData) : nat :=
  default 0 (cohorts final !! (semesterId, p_cohortCode sheet)).

Definition sheetGroups (cohortId : nat) (names : list string) : list (nat * string) :=
  map (fun name => (cohortId, name)) names.

Definition sheetEntries (final : DB) (semesterId cohortId : nat) (sheet : ParsedSheetData)
    : list (option (nat * string) * EntryData) :=
  map (fun event =>
         (Some (cohortId, ev_classGroupName event),
          entryRow semesterId 0 (courseIdIn final (ev_courseCode event)) event))
    (p_events sheet).

(** Replacing, in a view, what belongs to a cohort. *)
Definition replaceGroups (cohortId : nat) (block view : list (nat * string))
    : list (nat * string) :=
  filter (fun v => fst v <> cohortId) view ++ block.

Definition replaceEntries (cohortId : nat)
    (block view : list (option (nat * string) * EntryData))
    : list (option (nat * string) * EntryData) :=
  filter (fun v => fst <$> fst v <> Some cohortId) view ++ block.

(** The course upserts of an import, as a list of writes: the code and the
    catalog entry found for it. *)
Definition courseOps (sheet : ParsedSheetData) : list (string * option ParsedCourseMeta) :=
  map (fun code => (code, catalogGet code (p_catalog sheet))) (cohortCourseCodes sheet).

Definition metasFor (code : string) (ops : list (string * option ParsedCourseMeta))
    : list (option ParsedCourseMeta) :=
  map snd (filter (fun op => fst op = code) ops).

Definition applyAll (metas : list (option ParsedCourseMeta)) (row : Course) : Course :=
  fold_left (fun r meta => updateCourse meta r) metas row.

(** [after] is [before] with the writes [ops] upserted in order, whatever
    ids the created rows received. *)
Definition upserted (ops : list (string * option ParsedCourseMeta))
    (before after : gmap string Course) : Prop :=
  forall code,
    match before !! code with
    | Some row => after !! code = Some (applyAll (metasFor code ops) row)
    | None =>
        match metasFor code ops with
        | [] => after !! code = None
        | meta :: metas =>
            exists id, after !! code = Some (applyAll metas (createCourse id meta))
        end
    end.

(** A function that either keeps its argument or forgets it. *)
Definition keepsOrSets {A} (f : A -> A) : Prop :=
  (forall x, f x = x) \/ (exists v, forall x, f x = v).

(** [later] knows every cohort and every course id that [earlier] knows. *)
Definition knows (earlier later : DB) : Prop :=
  (forall k x, cohorts earlier !! k = Some x -> cohorts later !! k = Some x)
  /\ (forall code x, crs_id <$> courses earlier !! code = Some x ->
                     crs_id <$> courses later !! code = Some x).

(** What one sheet does to the views, the ids being those [final] knows. *)
Definition groupsStep (localeCompare : string -> string -> Z) (final : DB)
    (semesterId : nat) (view : list (nat * string)) (sheet : ParsedSheetData)
    : list (nat * string) :=
  replaceGroups (cohortIdIn final semesterId sheet)
    (sheetGroups (cohortIdIn final semesterId sheet) (groupNamesOf localeCompare sheet))
    view.

Definition entriesStep (final : DB) (semesterId : nat)
    (view : list (option (nat * string) * EntryData)) (sheet : ParsedSheetData)
    : list (option (nat * string) * EntryData) :=
  replaceEntries (cohortIdIn final semesterId sheet)
    (sheetEntries final semesterId (cohortIdIn final semesterId sheet) sheet)
    view.

(** Replacing, in a list, the elements of a key by a block of that key. *)
Definition replaceByKey {A S K : Type} `{EqDecision K} (key : A -> K) (keyOf : S -> K)
    (blockOf : S -> list A) (view : list A) (s : S) : list A :=
  filter (fun x => key x <> keyOf s) view ++ blockOf s.

(** The totals of an import, read off the parsed sheets alone. *)
Definition sheetTotals (localeCompare : string -> string -> Z) (totals : Totals)
    (sheet : ParsedSheetData) : Totals :=
  {| totalEntries := totalEntries totals + length (p_events sheet);
     totalClassGroups := totalClassGroups totals + length (groupNamesOf localeCompare sheet);
     allCourseCodes :=
       fold_left (fun s code => setAdd code s) (cohortCourseCodes sheet)
         (allCourseCodes totals) |}.

(** The stages of [writeImport] on a non-empty list of sheets: the state
    with the run opened, the semester upserted, and the sheets imported. *)
Section ImportStages.
Variable localeCompare : string -> string -> Z.
Variable first : ParsedSheetData.
Variable rest : list ParsedSheetData.
Variable sourceFile : string.
Variable db : DB.

Definition opened : DB := snd (createImportRun sourceFile (p_semesterLabel first) db).

Definition withSemester : nat * DB :=
  upsertSemester (p_semesterKey first) (p_semesterLabel first) sourceFile
    (minDate (omap p_startDate (first :: rest)))
    (maxDate (omap p_endDate (first :: rest))) opened.

Definition withSheets : DB * Totals :=
  fold_left (importSheet localeCompare (fst withSemester)) (first :: rest)
    (snd withSemester, noTotals).
End ImportStages.

End StoreSpec.

(** ** A small stored state and a parsed sheet to run the import on *)

Module Sample.
Import Portal Importer Store.

(** Code-unit order stands in for the host's collation. *)
Definition compareStrings (a b : string) : Z :=
  match String.compare a b with
  | Lt => (-1)%Z
  | Eq => 0%Z
  | Gt => 1%Z
  end.

Definition event (group : string) (day : DayOfWeek) (code : string) (row : nat)
    : ParsedEvent :=
  {| ev_classGroupName := group; ev_dayOfWeek := day; ev_session := MORNING;
     ev_startTime := Some "08:00"; ev_rawTime := Some "08:00 - 10:30";
     ev_room := Some "B1-203"; ev_courseCode := code;
     ev_sourceSheet := "SPRING 2026 K69"; ev_sourceRow := row |}.

Definition sheet : ParsedSheetData :=
  {| p_sheetName := "SPRING 2026 K69"; p_cohortCode := "K69";
     p_semesterLabel := "SPRING 2026"; p_semesterKey := "SPRING_2026";
     p_startDate := Some 1767225600000%Z; p_endDate := None;
     p_events := [event "IT 02" MON "CS 2255" 5; event "IT 01" MON "CS 2255" 5;
                  event "IT 01" TUE "MATH 101" 6];
     p_catalog := [("CS 2255", {| m_nameEn := Some "Algorithms"; m_nameVi := None;
                                  m_credits := Some 3%Z; m_prerequisite := None |})] |}.

(** A state in which the cohort K69 of semester 1 has the groups IT 01 and
    IT 09 with one entry, next to a group of another cohort with its own. *)
Definition entry (id classGroupId : nat) : ScheduleEntry :=
  {| se_id := id;
     se_data := {| d_semesterId := 1; d_classGroupId := classGroupId; d_courseId := 6;
                   d_dayOfWeek := FRI; d_session := AFTERNOON; d_startTime := None;
                   d_rawTime := None; d_room := None;
                   d_sourceSheet := "SPRING 2026 K69"; d_sourceRow := 9 |} |}.

Definition stored : DB :=
  {| semesters := {[ "SPRING_2026" := {| sem_id := 1; sem_label := "SPRING 2026";
                                         sem_sourceFile := "old.xlsx";
                                         sem_startDate := None; sem_endDate := None |} ]};
     cohorts := {[ (1, "K69") := 2; (1, "K68") := 7 ]};
     classGroups := [ {| cg_id := 3; cg_name := "IT 01"; cg_cohortId := 2 |};
                      {| cg_id := 4; cg_name := "IT 09"; cg_cohortId := 2 |};
                      {| cg_id := 5; cg_name := "IT 01"; cg_cohortId := 7 |} ];
     courses := {[ "CS 2255" := {| crs_id := 6; crs_nameEn := None; crs_nameVi := None;
                                   crs_credits := None; crs_prerequisite := None |} ]};
     scheduleEntries := [entry 8 3; entry 9 5];
     importRuns := [];
     nextId := 10 |}.

End Sample.

(** ** The schedule entries an import builds *)

Module EntrySpec.
Import Portal Importer Store StoreSpec.

(** The row of an event under the two maps, when both of its names
    resolve. *)
Definition rowOf (semesterId : nat) (groupIds courseIds : gmap string nat)
    (event : ParsedEvent) : option EntryData :=
  match groupIds !! ev_classGroupName event, courseIds !! ev_courseCode event with
  | Some classGroupId, Some courseId => Some (entryRow semesterId classGroupId courseId event)
  | _, _ => None
  end.

(** One row per event that resolves, in the order of the events. *)
Definition rowsOf (semesterId : nat) (groupIds courseIds : gmap string nat)
    (events : list ParsedEvent) : list EntryData :=
  omap (rowOf semesterId groupIds courseIds) events.

Section Iterations.
Variable localeCompare : string -> string -> Z.
Variable semesterId : nat.

(** The maps an iteration resolves the names of its events in, read from
    the stored class groups of the cohort and from the stored courses. *)
Definition groupIdsOf (sheet : ParsedSheetData) (db : DB) : gmap string nat :=
  classGroupIdByName (cohortOf semesterId sheet db)
    (afterGroups localeCompare semesterId sheet db).

Definition courseIdsOf (sheet : ParsedSheetData) (db : DB) : gmap string nat :=
  courseIdByCode (cohortCourseCodes sheet) (afterCourses localeCompare semesterId sheet db).

Definition rowsOfSheet (sheet : ParsedSheetData) (db : DB) : list EntryData :=
  rowsOf semesterId (groupIdsOf sheet db) (courseIdsOf sheet db) (p_events sheet).

(** The sheets of an import, each with the state its iteration starts
    from. *)
Fixpoint iterations (db : DB) (sheets : list ParsedSheetData)
    : list (ParsedSheetData * DB) :=
  match sheets with
  | [] => []
  | sheet :: rest =>
      (sheet, db) :: iterations (afterSheet localeCompare semesterId sheet db) rest
  end.

Definition rowCount (iteration : ParsedSheetData * DB) : nat :=
  length (rowsOfSheet (fst iteration) (snd iteration)).
End Iterations.

(** Maps in which the class group IT 02 and the course PHYS 101 are
    missing. *)
Definition someGroups : gmap string nat := {[ "IT 01" := 3 ]}.
Definition someCourses : gmap string nat := {[ "CS 2255" := 6; "MATH 101" := 7 ]}.

End EntrySpec.

(** ** How a class-group label is written *)

Module LabelSpec.
Import Importer.

(** A group token: the letters IT in either case, white space or none, and
    the number of the group in decimal, with or without a zero in front. *)
Record Token := {
  t_prefix : string;
  t_gap : string;
  t_zero : bool;
  t_number : nat
}.

Definition tokenText (t : Token) : string :=
  t_prefix t +:+ t_gap t +:+ (if t_zero t then "0" else "") +:+ Js.decimal (t_number t).

Definition tokenOk (t : Token) : bool :=
  String.eqb (Js.toUpperCase (t_prefix t)) "IT"
  && Js.allChars Js.isSpace (t_gap t)
  && (t_number t <? 100)%nat.

(** Text that holds no letter I, and so no part of a token. *)
Definition plain (s : string) : bool :=
  Js.allChars (fun c => negb (Ascii.eqb "I" (Js.upperChar c))) s.

(** Text that does not go on with a digit, which would be read as part of
    the number in front of it. *)
Definition noLeadingDigit (s : string) : bool :=
  match s with
  | String c _ => negb (Js.isDigit c)
  | EmptyString => true
  end.


(** A label: some text, then tokens, each followed by some text. *)
Fixpoint render (items : list (Token * string)) : string :=
  match items with
  | [] => ""
  | (t, after) :: r => tokenText t +:+ after +:+ render r
  end.




(** The token IT nn as the examples write it. *)
Definition it (n : nat) : Token :=
  {| t_prefix := "IT"; t_gap := " "; t_zero := (n <? 10)%nat; t_number := n |}.

End LabelSpec.

(** ** How a schedule cell is written *)

Module CellSpec.
Import Importer.

Definition LF : string := String (ascii_of_nat 10) "".

(** A cell of three lines: the course, the room, the time. *)
Definition cell3 (code room time : string) : string :=
  code +:+ LF +:+ room +:+ LF +:+ time.

(** A line of a cell: it holds no line break, has no white space around it
    and is not empty. *)
Definition noBreak (l : string) : bool :=
  Js.allChars (fun c => negb ((Js.code c =? 10)%N || (Js.code c =? 13)%N)) l.

Definition lineOk (l : string) : bool :=
  noBreak l && String.eqb (cleanCell l) l && Js.truthy l.

(** The non-empty lines of a cell, and its time text: the third of them,
    or the whole cell when it has fewer. *)
Definition linesOf (cellText : string) : list string :=
  filter (fun l => Js.truthy l = true) (map cleanCell (splitLines cellText EmptyString)).

Definition timeText (cellText : string) : string :=
  default cellText (cleanCell <$> linesOf cellText !! 2%nat).

End CellSpec.

(** ** Notions used to state what the parser returns *)

Module ImporterSpec.
Import Portal Importer.



(** The row, day and class group of an event. *)
Definition slotKey (ev : ParsedEvent) : nat * DayOfWeek * string :=
  (ev_sourceRow ev, ev_dayOfWeek ev, ev_classGroupName ev).

End ImporterSpec.

(** ** A small sheet to run the parser on *)

Module SampleSheet.
Import Portal Importer.

(** The lines of a cell, joined by line feeds. *)
Fixpoint cell (lines : list string) : string :=
  match lines with
  | [] => ""
  | [l] => l
  | l :: r => l +:+ String (ascii_of_nat 10) (cell r)
  end.

Definition name : string := "SPRING 2026 K69".

(** The label Sáng of a morning row, its second letter being U+00E1. *)
Definition sang : string := String "S" (String "225" "ng").

Definition rows : list (list string) :=
  [ [""; "SCHEDULE FOR SPRING 2026 - K69"];
    [""; "Duration: 2026-01-05 - 2026-05-30"];
    [""; "Time"; "Mon"; "Tue"; "Wed"; "Thu"; "Fri"; "Sat"];
    [""; "IT 01 - IT 02"];
    [""; sang; cell ["CS 2255"; "B1-203"; "08:00 - 10:30"]; "";
         cell ["math1125"; "B2-101"; "9:15 (IT 02)"]];
    [""; "Lunch"];
    [""; "Afternoon"; ""; cell ["PHYS 101"; "Lab 3"]];
    [""; "TBA = to be announced"; cell ["CS 2255"; "B1-203"; "13:00"]] ].

Definition event (group : string) (day : DayOfWeek) (session : SessionPeriod)
    (start raw room : option string) (code : string) (row : nat) : ParsedEvent :=
  {| ev_classGroupName := group; ev_dayOfWeek := day; ev_session := session;
     ev_startTime := start; ev_rawTime := raw; ev_room := room; ev_courseCode := code;
     ev_sourceSheet := name; ev_sourceRow := row |}.

Definition events : list ParsedEvent :=
  [ event "IT 01" MON MORNING (Some "08:00") (Some "08:00 - 10:30") (Some "B1-203")
      "CS 2255" 5;
    event "IT 02" MON MORNING (Some "08:00") (Some "08:00 - 10:30") (Some "B1-203")
      "CS 2255" 5;
    event "IT 02" WED MORNING (Some "9:15") (Some "9:15 (IT 02)") (Some "B2-101")
      "MATH 1125" 5;
    event "IT 01" TUE AFTERNOON None None (Some "Lab 3") "PHYS 101" 7;
    event "IT 02" TUE AFTERNOON None None (Some "Lab 3") "PHYS 101" 7 ].

End SampleSheet.

(** ** CSV text as a writer produces it *)

Module CsvSpec.

Local Open Scope Z_scope.

(** A cell is written bare, which needs a text free of quotes, commas and
    line ends, or between quotes with every quote of the text doubled. *)
Inductive Cell := Bare (text : list Z) | Quoted (text : list Z).

Definition cellText (c : Cell) : list Z :=
  match c with Bare t => t | Quoted t => t end.

Definition plain (text : list Z) : Prop :=
  Forall (fun c => c <> 34 /\ c <> 44 /\ c <> 10 /\ c <> 13) text.

Definition cellOk (c : Cell) : Prop :=
  match c with Bare t => plain t | Quoted _ => True end.

Definition escape (text : list Z) : list Z :=
  flat_map (fun c => if c =? 34 then [34; 34] else [c]) text.

Definition renderCell (c : Cell) : list Z :=
  match c with
  | Bare t => t
  | Quoted t => 34 :: escape t ++ [34]
  end.

Fixpoint renderCells (cells : list Cell) : list Z :=
  match cells with
  | [] => []
  | [c] => renderCell c
  | c :: r => renderCell c ++ 44 :: renderCells r
  end.

(** A line: its cells, and whether it ends in CR LF rather than LF. *)
Record Line := { cells : list Cell; crlf : bool }.

Definition lineEnd (l : Line) : list Z := if crlf l then [13; 10] else [10].

Definition renderLine (l : Line) : list Z := renderCells (cells l) ++ lineEnd l.

Definition render (lines : list Line) : list Z := flat_map renderLine lines.

Definition lineOk (l : Line) : Prop := cells l <> [] /\ Forall cellOk (cells l).

#[global] Instance cellOk_dec (c : Cell) : Decision (cellOk c).
Proof. destruct c; unfold cellOk, plain; apply _. Defined.

#[global] Instance lineOk_dec (l : Line) : Decision (lineOk l).
Proof. unfold lineOk. apply _. Defined.

Definition texts (lines : list Line) : list (list (list Z)) :=
  map (fun l => map cellText (cells l)) lines.

(** What follows a closing quote must be no quote. *)
Definition noQuoteAhead (tail : list Z) : Prop :=
  match tail with c :: _ => c <> 34 | [] => True end.

(** A code unit that is a character by itself: no half of a surrogate
    pair. *)
Definition bmp (u : Z) : Prop := 0 <= u < 55296 \/ 57344 <= u < 65536.

#[global] Instance bmp_dec (u : Z) : Decision (bmp u).
Proof. unfold bmp. apply _. Defined.

(** The bytes of a catalog file: an optional byte order mark and the UTF-8
    encoding of the text. *)
Definition fileBytes (bom : bool) (text : list Z) : list Z :=
  (if bom then [239; 187; 191] else []) ++ Catalog.encodeAll text.

(** Two lines: the bare cell No and a quoted cell whose text holds a comma,
    a quote and a line feed, ended by CR LF; and one empty quoted cell
    ended by LF. *)
Definition sample : list Line :=
  [ {| cells := [Bare [78; 111]; Quoted [97; 44; 34; 98; 10; 99]]; crlf := true |};
    {| cells := [Quoted []]; crlf := false |} ].

End CsvSpec.

(** ** Notions used to state what the course list of a sheet holds *)

Module SheetCatalogSpec.
Import Importer Store SheetCatalog.

(** The course code a row carries in column 1, if it carries one. *)
Definition codeOf (row : list string) : option string :=
  normalizeCourseCode (cleanCell (nth 1 row "")).

Definition footerRow (row : list string) : Prop :=
  isCatalogFooter (cleanCell (nth 1 row "")) = true.

(** The header Mã HP of the course list, its second letter being U+00E3. *)
Definition maHP : string := String "M" (String "227" " HP").

(** A course list with its header, two courses, the first of them listed
    twice, and a note below. *)
Definition rows : list (list string) :=
  [ [""; "No."; "x"];
    [""; maHP; "Course"; ""; "Ten hoc phan"; ""; "TC"; "Prerequisite"];
    [""; "cs 2255"; "Algorithms"; ""; ""; ""; "3"; ""];
    [""; ""; ""];
    [""; "CS2255"; "Algorithms and Data"; ""; "Giai thuat"; ""; "4"; "CS 1101"];
    [""; "MATH 1125"; "Calculus"; ""; ""; ""; "4 credits"; ""];
    [""; "Note: subject to change"];
    [""; "PHYS 101"; "Physics"] ].

(** Stands in for [Number.parseInt]: the digits in front of the text. *)
Definition leadingDigits (text : string) : option Z :=
  let digits := Js.takeChars Js.isDigit text in
  if Js.truthy digits then Some (Z.of_nat (parseDecimal digits)) else None.

End SheetCatalogSpec.

(** * Properties *)

(** ** Text normalizers: canonical forms *)

Module TextFacts.
Import Js.

Ltac each_char c :=
  destruct c as [[] [] [] [] [] [] [] []]; vm_compute; try reflexivity; try discriminate.

Lemma upperChar_idem c : upperChar (upperChar c) = upperChar c.
Proof. each_char c. Qed.

Lemma upperChar_space c : isSpace (upperChar c) = isSpace c.
Proof. each_char c. Qed.

Lemma upperChar_upper c : isUpper c = true -> upperChar c = c.
Proof. each_char c. Qed.

Lemma upperChar_digit c : isDigit c = true -> upperChar c = c.
Proof. each_char c. Qed.

Lemma upper_not_space c : isUpper c = true -> isSpace c = false.
Proof. each_char c. Qed.

Lemma digit_not_space c : isDigit c = true -> isSpace c = false.
Proof. each_char c. Qed.

Lemma digit_not_upper c : isDigit c = true -> isUpper c = false.
Proof. each_char c. Qed.

Lemma append_cons c s t : String c s +:+ t = String c (s +:+ t).
Proof. reflexivity. Qed.

Lemma append_nil_l s : "" +:+ s = s.
Proof. reflexivity. Qed.

Ltac str := repeat (progress (rewrite ?append_cons, ?append_nil_l; simpl)).

Lemma append_nil_r s : s +:+ "" = s.
Proof. induction s as [|c s IH]; str; [reflexivity | now rewrite IH]. Qed.

Lemma append_assoc a b c : (a +:+ b) +:+ c = a +:+ (b +:+ c).
Proof. induction a as [|x a IH]; str; [reflexivity | now rewrite IH]. Qed.

Lemma length_append a b : String.length (a +:+ b) = (String.length a + String.length b)%nat.
Proof. induction a as [|x a IH]; str; [reflexivity | now rewrite IH]. Qed.

Lemma revOnto_acc s acc : revOnto s acc = revOnto s "" +:+ acc.
Proof.
  revert acc. induction s as [|c s IH]; intros acc; str; [reflexivity |].
  rewrite (IH (String c acc)), (IH (String c "")), append_assoc. reflexivity.
Qed.

Lemma reverse_cons c s : reverse (String c s) = reverse s +:+ String c "".
Proof. unfold reverse. str. apply revOnto_acc. Qed.

Lemma reverse_append a b : reverse (a +:+ b) = reverse b +:+ reverse a.
Proof.
  induction a as [|x a IH]; str.
  - now rewrite append_nil_r.
  - rewrite !reverse_cons, IH, append_assoc. reflexivity.
Qed.

Lemma reverse_involutive s : reverse (reverse s) = s.
Proof.
  induction s as [|c s IH]; [reflexivity |].
  rewrite reverse_cons, reverse_append, IH. reflexivity.
Qed.

Lemma allChars_append p a b : allChars p (a +:+ b) = allChars p a && allChars p b.
Proof.
  induction a as [|x a IH]; str; [reflexivity |].
  rewrite IH, andb_assoc. reflexivity.
Qed.

Lemma allChars_reverse p s : allChars p (reverse s) = allChars p s.
Proof.
  induction s as [|c s IH]; [reflexivity |].
  rewrite reverse_cons, allChars_append, IH. str.
  rewrite andb_true_r. apply andb_comm.
Qed.

Lemma allChars_impl (p q : ascii -> bool) s :
  (forall c, p c = true -> q c = true) -> allChars p s = true -> allChars q s = true.
Proof.
  intros Hpq. induction s as [|c s IH]; str; [reflexivity |].
  intros [Hc Hs]%andb_true_iff. rewrite (Hpq c Hc), (IH Hs). reflexivity.
Qed.

Lemma filterChars_all p s : allChars p (filterChars p s) = true.
Proof.
  induction s as [|c s IH]; str; [reflexivity |].
  destruct (p c) eqn:E; str; [rewrite E |]; exact IH.
Qed.

Lemma filterChars_id p s : allChars p s = true -> filterChars p s = s.
Proof.
  induction s as [|c s IH]; str; [reflexivity |].
  intros [Hc Hs]%andb_true_iff. rewrite Hc, (IH Hs). reflexivity.
Qed.

Lemma filterChars_none p s :
  allChars (fun c => negb (p c)) s = true -> filterChars p s = "".
Proof.
  induction s as [|c s IH]; str; [reflexivity |].
  intros [Hc Hs]%andb_true_iff. apply negb_true_iff in Hc. rewrite Hc. exact (IH Hs).
Qed.

Lemma filterChars_append p a b :
  filterChars p (a +:+ b) = filterChars p a +:+ filterChars p b.
Proof.
  induction a as [|x a IH]; str; [reflexivity |].
  destruct (p x); str; now rewrite IH.
Qed.

Lemma mapChars_id (f : ascii -> ascii) (p : ascii -> bool) s :
  (forall c, p c = true -> f c = c) -> allChars p s = true -> mapChars f s = s.
Proof.
  intros Hf. induction s as [|c s IH]; str; [reflexivity |].
  intros [Hc Hs]%andb_true_iff. rewrite (Hf c Hc), (IH Hs). reflexivity.
Qed.

Lemma mapChars_append f a b : mapChars f (a +:+ b) = mapChars f a +:+ mapChars f b.
Proof. induction a as [|x a IH]; str; [reflexivity | now rewrite IH]. Qed.

Lemma mapChars_reverse f s : mapChars f (reverse s) = reverse (mapChars f s).
Proof.
  induction s as [|c s IH]; [reflexivity |].
  simpl mapChars at 2. rewrite !reverse_cons, mapChars_append, IH. reflexivity.
Qed.

Lemma length_mapChars f s : String.length (mapChars f s) = String.length s.
Proof. induction s as [|c s IH]; str; [reflexivity | now rewrite IH]. Qed.

(** Strings without white space at either end. *)
Lemma trimStart_id c s : isSpace c = false -> trimStart (String c s) = String c s.
Proof. intros H. str. now rewrite H. Qed.

Lemma trimEnd_id s c : isSpace c = false -> trimEnd (s +:+ String c "") = s +:+ String c "".
Proof.
  intros H. unfold trimEnd. rewrite reverse_append.
  change (reverse (String c "")) with (String c "").
  change (String c "" +:+ reverse s) with (String c (reverse s)).
  rewrite (trimStart_id _ _ H), reverse_cons, reverse_involutive. reflexivity.
Qed.

Lemma snoc_cases s : s = "" \/ exists s' c, s = s' +:+ String c "".
Proof.
  destruct (reverse s) as [|c r] eqn:E.
  - left. rewrite <- (reverse_involutive s), E. reflexivity.
  - right. exists (reverse r), c.
    rewrite <- (reverse_involutive s), E, reverse_cons. reflexivity.
Qed.

Lemma trim_id_all s : allChars (fun c => negb (isSpace c)) s = true -> trim s = s.
Proof.
  intros H. unfold trim.
  assert (Hs : trimStart s = s).
  { destruct s as [|c s]; [reflexivity |]. simpl in H.
    apply andb_true_iff in H as [Hc _]. apply negb_true_iff in Hc.
    now apply trimStart_id. }
  rewrite Hs. destruct (snoc_cases s) as [-> | (s' & c & ->)]; [reflexivity |].
  rewrite allChars_append in H. apply andb_true_iff in H as [_ Hc]. simpl in Hc.
  rewrite andb_true_r in Hc. apply negb_true_iff in Hc. now apply trimEnd_id.
Qed.

Lemma trimStart_split s : exists sp, s = sp +:+ trimStart s /\ allChars isSpace sp = true.
Proof.
  induction s as [|c s (sp & IH & Hsp)]; [exists ""; split; reflexivity |].
  str. destruct (isSpace c) eqn:E.
  - exists (String c sp). str. rewrite E, Hsp. split; [now rewrite <- IH | reflexivity].
  - exists "". split; reflexivity.
Qed.

Lemma trimStart_head s :
  match trimStart s with String c _ => isSpace c = false | EmptyString => True end.
Proof.
  induction s as [|c s IH]; str; [exact I |].
  destruct (isSpace c) eqn:E; [exact IH | exact E].
Qed.

(** The shape of a trimmed string: empty, or with a character that is no
    white space at each end. *)
Lemma trim_shape raw :
  trim raw = ""
  \/ exists a m z, isSpace a = false /\ isSpace z = false
                   /\ (trim raw = String a "" \/ trim raw = String a (m +:+ String z "")).
Proof.
  unfold trim, trimEnd.
  pose proof (trimStart_head raw) as Ha.
  set (a := trimStart raw) in *.
  pose proof (trimStart_head (reverse a)) as Hb.
  destruct (trimStart_split (reverse a)) as (sp & Hsplit & Hsp).
  set (b := trimStart (reverse a)) in *.
  destruct b as [|z b']; [left; reflexivity |].
  right.
  assert (Ea : a = reverse (String z b') +:+ reverse sp).
  { rewrite <- (reverse_involutive a), Hsplit, reverse_append. reflexivity. }
  rewrite reverse_cons in *.
  destruct (reverse b') as [|x m] eqn:Eb.
  - exists z, "", z. str. repeat split; try exact Hb. left. reflexivity.
  - exists x, m, z. simpl in Ea. rewrite Ea in Ha. simpl in Ha.
    repeat split; try assumption. right. reflexivity.
Qed.

Lemma trim_id_shape a m z :
  isSpace a = false -> isSpace z = false ->
  trim (String a (m +:+ String z "")) = String a (m +:+ String z "").
Proof.
  intros Ha Hz. unfold trim. rewrite (trimStart_id _ _ Ha).
  change (String a (m +:+ String z "")) with (String a m +:+ String z "").
  now apply trimEnd_id.
Qed.

Lemma trim_id_one a : isSpace a = false -> trim (String a "") = String a "".
Proof.
  intros Ha. unfold trim. rewrite (trimStart_id _ _ Ha).
  change (String a "") with ("" +:+ String a ""). now apply trimEnd_id.
Qed.

Lemma trim_idem raw : trim (trim raw) = trim raw.
Proof.
  destruct (trim_shape raw) as [-> | (a & m & z & Ha & Hz & [-> | ->])].
  - reflexivity.
  - now apply trim_id_one.
  - now apply trim_id_shape.
Qed.

Lemma collapseFrom_snoc b s z :
  isSpace z = false ->
  collapseFrom b (s +:+ String z "") = collapseFrom b s +:+ String z "".
Proof.
  intros Hz. revert b. induction s as [|c s IH]; intros b; str.
  - now rewrite Hz.
  - destruct (isSpace c); [destruct b |]; str; now rewrite IH.
Qed.

Lemma collapseFrom_idem b' b s :
  (b' = true -> b = true) ->
  collapseFrom b' (collapseFrom b s) = collapseFrom b s.
Proof.
  revert b' b. induction s as [|c s IH]; intros b' b Hb; str; [reflexivity |].
  destruct (isSpace c) eqn:E.
  - destruct b.
    + apply IH. reflexivity.
    + destruct b'; [specialize (Hb eq_refl); discriminate |].
      str. change (isSpace " ") with true. cbv iota.
      rewrite (IH true true); reflexivity.
  - str. rewrite E. rewrite (IH false false); [reflexivity | discriminate].
Qed.

Lemma collapseFrom_upper b s :
  mapChars upperChar (collapseFrom b (mapChars upperChar s))
  = collapseFrom b (mapChars upperChar s).
Proof.
  revert b. induction s as [|c s IH]; intros b; str; [reflexivity |].
  rewrite upperChar_space. destruct (isSpace c); [destruct b |]; str;
    rewrite ?upperChar_idem, IH; reflexivity.
Qed.

Lemma collapseFrom_none b s :
  allChars (fun c => negb (isSpace c)) s = true -> collapseFrom b s = s.
Proof.
  revert b. induction s as [|c s IH]; intros b; str; [reflexivity |].
  intros [Hc Hs]%andb_true_iff. apply negb_true_iff in Hc. rewrite Hc, (IH _ Hs).
  reflexivity.
Qed.

Lemma collapseFrom_append_plain b a s :
  allChars (fun c => negb (isSpace c)) a = true ->
  collapseFrom b (a +:+ s) = a +:+ collapseFrom (match a with "" => b | _ => false end) s.
Proof.
  revert b. induction a as [|c a IH]; intros b; str; [reflexivity |].
  intros [Hc Hs]%andb_true_iff. apply negb_true_iff in Hc. rewrite Hc, (IH _ Hs).
  destruct a; reflexivity.
Qed.

Lemma truthy_String c s : truthy (String c s) = true.
Proof. reflexivity. Qed.

Lemma substring_all s : String.substring 0 (String.length s) s = s.
Proof. induction s as [|c s IH]; str; [reflexivity | now rewrite IH]. Qed.

Lemma startsWith_split p s : startsWith p s = true -> exists r, s = p +:+ r.
Proof.
  revert s. induction p as [|a p IH]; intros s; str.
  - exists s. reflexivity.
  - destruct s as [|b s]; [discriminate |].
    intros [Hab Hs]%andb_true_iff. apply Ascii.eqb_eq in Hab as ->.
    destruct (IH s Hs) as (r & ->). exists r. reflexivity.
Qed.

Lemma startsWith_append p r : startsWith p (p +:+ r) = true.
Proof.
  induction p as [|a p IH]; str; [reflexivity |].
  now rewrite Ascii.eqb_refl, IH.
Qed.

Lemma substring_drop p r :
  String.substring (String.length p) (String.length (p +:+ r) - String.length p) (p +:+ r) = r.
Proof.
  induction p as [|a p IH]; str.
  - rewrite Nat.sub_0_r. apply substring_all.
  - exact IH.
Qed.

Lemma takeChars_all p s : allChars p (takeChars p s) = true.
Proof.
  induction s as [|c s IH]; str; [reflexivity |].
  destruct (p c) eqn:E; str; [rewrite E; exact IH | reflexivity].
Qed.

Lemma take_drop_chars p s : takeChars p s +:+ dropChars p s = s.
Proof.
  induction s as [|c s IH]; str; [reflexivity |].
  destruct (p c); str; [now rewrite IH | reflexivity].
Qed.

Lemma takeChars_append p a s :
  allChars p a = true -> takeChars p (a +:+ s) = a +:+ takeChars p s.
Proof.
  induction a as [|c a IH]; str; [reflexivity |].
  intros [Hc Hs]%andb_true_iff. rewrite Hc, (IH Hs). reflexivity.
Qed.

Lemma dropChars_append p a s :
  allChars p a = true -> dropChars p (a +:+ s) = dropChars p s.
Proof.
  induction a as [|c a IH]; str; [reflexivity |].
  intros [Hc Hs]%andb_true_iff. rewrite Hc. exact (IH Hs).
Qed.

Lemma takeChars_disjoint (p q : ascii -> bool) s :
  (forall c, q c = true -> p c = false) -> allChars q s = true ->
  takeChars p s = "" /\ dropChars p s = s.
Proof.
  intros Hpq. destruct s as [|c s]; str; [split; reflexivity |].
  intros [Hc _]%andb_true_iff. rewrite (Hpq c Hc). split; reflexivity.
Qed.

Lemma code_not_space c : Portal.isCodeChar c = true -> isSpace c = false.
Proof. each_char c. Qed.

Lemma code_upper c : Portal.isCodeChar c = true -> upperChar c = c.
Proof. each_char c. Qed.

Lemma code_not_nbsp c :
  Portal.isCodeChar c = true -> (if (code c =? 160)%N then " "%char else c) = c.
Proof. each_char c. Qed.

Lemma allChars_nonspace s :
  allChars Portal.isCodeChar s = true -> allChars (fun c => negb (isSpace c)) s = true.
Proof.
  apply allChars_impl. intros c Hc. now rewrite (code_not_space c Hc).
Qed.

Lemma trim_id_ends a s s' z :
  isSpace a = false -> isSpace z = false -> String a s = s' +:+ String z "" ->
  trim (String a s) = String a s.
Proof.
  intros Ha Hz E. unfold trim. rewrite (trimStart_id _ _ Ha), E. now apply trimEnd_id.
Qed.

(** A run of letters, one space, and a run of letters and digits that starts
    with a digit, through the steps of [normalizeCourseCode]. *)
Lemma code_pipeline l x d :
  allChars isUpper l = true -> l <> "" ->
  isDigit x = true -> allChars Portal.isCodeChar d = true ->
  let tail := String x d in
  let c := l +:+ " " +:+ tail in
  collapseSpaces (toUpperCase (Importer.cleanCell c)) = c
  /\ removeSpaces c = l +:+ tail
  /\ takeChars isUpper (l +:+ tail) = l
  /\ dropChars isUpper (l +:+ tail) = tail.
Proof.
  intros Hl Hne Hx Hd tail c.
  assert (Hlc : allChars Portal.isCodeChar l = true).
  { revert Hl. apply allChars_impl. intros ch H. unfold Portal.isCodeChar. now rewrite H. }
  assert (Hxc : Portal.isCodeChar x = true).
  { unfold Portal.isCodeChar. rewrite Hx. apply orb_true_r. }
  assert (Htc : allChars Portal.isCodeChar tail = true).
  { unfold tail. simpl. now rewrite Hxc, Hd. }
  assert (Hkeep : forall ch : ascii,
            (Portal.isCodeChar ch || Ascii.eqb ch " ") = true ->
            (if (code ch =? 160)%N then " "%char else ch) = ch /\ upperChar ch = ch).
  { intros ch. each_char ch; intros; split; reflexivity. }
  assert (Hall : allChars (fun ch => Portal.isCodeChar ch || Ascii.eqb ch " ") c = true).
  { unfold c. rewrite !allChars_append. simpl allChars at 2.
    rewrite (allChars_impl _ _ _ (fun ch H => proj2 (orb_true_iff _ _) (or_introl H)) Hlc).
    rewrite (allChars_impl _ _ _ (fun ch H => proj2 (orb_true_iff _ _) (or_introl H)) Htc).
    reflexivity. }
  assert (Hclean : Importer.cleanCell c = c).
  { unfold Importer.cleanCell.
    rewrite (mapChars_id _ _ c (fun ch H => proj1 (Hkeep ch H)) Hall).
    destruct l as [|a l']; [contradiction |].
    destruct (snoc_cases d) as [Ed | (d' & z & Ed)].
    - subst d. unfold c, tail.
      apply (trim_id_ends a _ (String a l' +:+ " ") x).
      + simpl in Hl. apply andb_true_iff in Hl as [Ha _]. now apply upper_not_space.
      + now apply digit_not_space.
      + now rewrite append_assoc.
    - subst d. unfold c, tail.
      apply (trim_id_ends a _ (String a l' +:+ " " +:+ String x d') z).
      + simpl in Hl. apply andb_true_iff in Hl as [Ha _]. now apply upper_not_space.
      + rewrite allChars_append in Hd. apply andb_true_iff in Hd as [_ Hz].
        simpl in Hz. rewrite andb_true_r in Hz. now apply code_not_space.
      + rewrite !append_cons, !append_assoc, !append_cons. reflexivity. }
  assert (Hup : toUpperCase c = c).
  { exact (mapChars_id _ _ c (fun ch H => proj2 (Hkeep ch H)) Hall). }
  repeat split.
  - rewrite Hclean, Hup. unfold c, collapseSpaces.
    rewrite (collapseFrom_append_plain _ _ _ (allChars_nonspace _ Hlc)).
    destruct l as [|a l']; [contradiction |].
    rewrite append_cons. simpl collapseFrom.
    rewrite (digit_not_space x Hx), (collapseFrom_none _ d (allChars_nonspace _ Hd)).
    reflexivity.
  - unfold c, removeSpaces. rewrite !filterChars_append.
    rewrite (filterChars_id _ l), (filterChars_id _ tail); try now apply allChars_nonspace.
    reflexivity.
  - rewrite (takeChars_append _ _ _ Hl). unfold tail. simpl.
    rewrite (digit_not_upper x Hx). apply append_nil_r.
  - rewrite (dropChars_append _ _ _ Hl). unfold tail. simpl.
    now rewrite (digit_not_upper x Hx).
Qed.

Lemma lengthIn_spec lo hi s :
  Importer.lengthIn lo hi s = true <-> (lo <= String.length s <= hi)%nat.
Proof.
  unfold Importer.lengthIn. rewrite andb_true_iff, !Nat.leb_le. reflexivity.
Qed.

End TextFacts.

(** ** Sets as duplicate-free lists *)

Lemma uniqueOnto_elem (seen xs : list string) (x : string) :
  x ∈ Js.uniqueOnto seen xs <-> x ∈ xs /\ x ∉ seen.
Proof.
  revert seen. induction xs as [|y r IH]; intros seen; simpl.
  - split; [intros H; inversion H | intros [H _]; inversion H].
  - case_bool_decide as Hy.
    + rewrite IH. rewrite elem_of_cons. split.
      * intros [? ?]. auto.
      * intros [[-> | ?] ?]; [contradiction | auto].
    + rewrite elem_of_cons, IH, !elem_of_cons. split.
      * intros [-> | [? Hn]]; [auto |]. split; [auto |]. intros ?. apply Hn. auto.
      * intros [[-> | ?] Hn]; [auto |].
        destruct (decide (x = y)) as [-> | Hne]; [auto |].
        right. split; [auto |]. intros [? | ?]; [congruence | contradiction].
Qed.

Lemma uniqueOnto_NoDup (seen xs : list string) : NoDup (Js.uniqueOnto seen xs).
Proof.
  revert seen. induction xs as [|y r IH]; intros seen; simpl.
  - constructor.
  - case_bool_decide; [apply IH |].
    constructor; [| apply IH].
    rewrite uniqueOnto_elem. intros [_ Hn]. apply Hn. left.
Qed.

Lemma unique_elem (xs : list string) (x : string) : x ∈ Js.unique xs <-> x ∈ xs.
Proof.
  unfold Js.unique. rewrite uniqueOnto_elem. split; [tauto |].
  intros H. split; [exact H |]. intros Hin. inversion Hin.
Qed.

Lemma unique_NoDup (xs : list string) : NoDup (Js.unique xs).
Proof. apply uniqueOnto_NoDup. Qed.

Lemma uniqueOnto_id (seen xs : list string) :
  NoDup xs -> (forall x, x ∈ xs -> x ∉ seen) -> Js.uniqueOnto seen xs = xs.
Proof.
  revert seen. induction xs as [|y r IH]; intros seen Hnd Hdis; simpl; [reflexivity |].
  inversion Hnd as [|? ? Hy Hr]; subst.
  case_bool_decide as Hs.
  - exfalso. apply (Hdis y); [left | exact Hs].
  - f_equal. apply IH; [exact Hr |].
    intros x Hx [-> | Hin]%elem_of_cons; [contradiction |].
    apply (Hdis x); [right; exact Hx | exact Hin].
Qed.

Lemma unique_id (xs : list string) : NoDup xs -> Js.unique xs = xs.
Proof.
  intros H. apply uniqueOnto_id; [exact H |]. intros x _ Hin. inversion Hin.
Qed.

Lemma truthy_true (s : string) : Js.truthy s = true <-> s <> "".
Proof.
  unfold Js.truthy. rewrite negb_true_iff. split.
  - intros H ->. discriminate.
  - intros H. apply String.eqb_neq. exact H.
Qed.

Lemma truthy_false (s : string) : Js.truthy s = false <-> s = "".
Proof.
  unfold Js.truthy. rewrite negb_false_iff. apply String.eqb_eq.
Qed.

(** ** The scoped tier *)

Module PortalFacts.
Import Portal PortalSpec.

Lemma scoreAssignment_range input a s :
  scoreAssignment input a = Some s -> (0 <= s <= 3)%Z.
Proof.
  unfold scoreAssignment.
  repeat match goal with
         | |- context [if ?b then _ else _] => destruct b
         end; intros H; inversion H; lia.
Qed.

Lemma winners_snoc input m rows a :
  winners input m (rows ++ [a]) =
  winners input m rows ++
    (if decide (scoreAssignment input a = Some m) then [a_lecturerId a] else []).
Proof.
  unfold winners. rewrite filter_app, map_app. f_equal.
  rewrite filter_cons, filter_nil. destruct (decide _); reflexivity.
Qed.

Lemma winners_none input m rows :
  (forall a s, a ∈ rows -> scoreAssignment input a = Some s -> (s < m)%Z) ->
  winners input m rows = [].
Proof.
  intros H. unfold winners.
  induction rows as [|a r IH]; [reflexivity |].
  rewrite filter_cons. destruct (decide _) as [Heq | _].
  - exfalso. specialize (H a m (list_elem_of_here _ _) Heq). lia.
  - apply IH. intros a' s Hin. apply H. right. exact Hin.
Qed.

Lemma resolveStep_invariant input rows st a :
  loopInvariant input rows st ->
  loopInvariant input (rows ++ [a]) (resolveStep input st a).
Proof.
  intros Hinv. unfold resolveStep. destruct st as [maxScore matched].
  destruct (scoreAssignment input a) as [score|] eqn:Hs.
  - pose proof (scoreAssignment_range _ _ _ Hs) as Hr.
    destruct Hinv as [[Hnone Hst] | (m & (a0 & Ha0 & Hs0) & Hmax & Hst)];
      inversion Hst; subst; clear Hst.
    + replace (-1 <? score)%Z with true by (symmetry; apply Z.ltb_lt; lia).
      right. exists score. split; [| split].
      * exists a. split; [apply elem_of_app; right; left | exact Hs].
      * intros a' s' [Hin | Hin%list_elem_of_singleton]%elem_of_app Hs'.
        -- rewrite (Hnone _ Hin) in Hs'. discriminate.
        -- subst. rewrite Hs in Hs'. inversion Hs'. lia.
      * f_equal. rewrite winners_snoc, winners_none.
        -- rewrite decide_True by exact Hs. reflexivity.
        -- intros a' s' Hin Hs'. rewrite (Hnone _ Hin) in Hs'. discriminate.
    + pose proof (scoreAssignment_range _ _ _ Hs0) as Hr0.
      destruct (m <? score)%Z eqn:Hlt.
      * apply Z.ltb_lt in Hlt. right. exists score. split; [| split].
        -- exists a. split; [apply elem_of_app; right; left | exact Hs].
        -- intros a' s' [Hin | Hin%list_elem_of_singleton]%elem_of_app Hs'.
           ++ specialize (Hmax _ _ Hin Hs'). lia.
           ++ subst. rewrite Hs in Hs'. inversion Hs'. lia.
        -- f_equal. rewrite winners_snoc, winners_none.
           ++ rewrite decide_True by exact Hs. reflexivity.
           ++ intros a' s' Hin Hs'. specialize (Hmax _ _ Hin Hs'). lia.
      * apply Z.ltb_ge in Hlt. right. exists m. split; [| split].
        -- exists a0. split; [apply elem_of_app; left; exact Ha0 | exact Hs0].
        -- intros a' s' [Hin | Hin%list_elem_of_singleton]%elem_of_app Hs'.
           ++ exact (Hmax _ _ Hin Hs').
           ++ subst. rewrite Hs in Hs'. inversion Hs'. lia.
        -- destruct (score =? m)%Z eqn:Heq.
           ++ apply Z.eqb_eq in Heq. subst score. f_equal.
              rewrite winners_snoc, decide_True by exact Hs. reflexivity.
           ++ apply Z.eqb_neq in Heq. f_equal.
              rewrite winners_snoc, decide_False, app_nil_r; [reflexivity |].
              intros Hc. rewrite Hs in Hc. inversion Hc. contradiction.
  - destruct Hinv as [[Hnone Hst] | (m & (a0 & Ha0 & Hs0) & Hmax & Hst)].
    + left. split; [| exact Hst].
      intros a' [Hin | Hin%list_elem_of_singleton]%elem_of_app; [auto | subst; exact Hs].
    + right. exists m. split; [| split].
      * exists a0. split; [apply elem_of_app; left; exact Ha0 | exact Hs0].
      * intros a' s' [Hin | Hin%list_elem_of_singleton]%elem_of_app Hs'.
        -- exact (Hmax _ _ Hin Hs').
        -- subst. rewrite Hs in Hs'. discriminate.
      * rewrite Hst. f_equal. rewrite winners_snoc, decide_False, app_nil_r; [reflexivity |].
        rewrite Hs. discriminate.
Qed.

Lemma fold_resolveStep_invariant input rows :
  loopInvariant input rows (fold_left (resolveStep input) rows ((-1)%Z, [])).
Proof.
  induction rows as [|a rows IH] using rev_ind.
  - left. split; [| reflexivity]. intros a Hin. inversion Hin.
  - rewrite fold_left_app. simpl. apply resolveStep_invariant. exact IH.
Qed.

Lemma resolveLoop_invariant input :
  loopInvariant input (in_assignments input) (resolveLoop input).
Proof. apply fold_resolveStep_invariant. Qed.

Lemma resolved_ids input :
  map l_id (resolveLecturersForEntry input) = Js.unique (snd (resolveLoop input)).
Proof.
  unfold resolveLecturersForEntry. rewrite map_map. simpl. apply map_id.
Qed.

(** Who is returned: the lecturers of the rows that reach the best score. *)
Lemma resolved_elem input id :
  id ∈ map l_id (resolveLecturersForEntry input) <->
  exists a s,
    a ∈ in_assignments input /\ a_lecturerId a = id
    /\ scoreAssignment input a = Some s
    /\ forall a' s', a' ∈ in_assignments input ->
                     scoreAssignment input a' = Some s' -> (s' <= s)%Z.
Proof.
  rewrite resolved_ids, unique_elem.
  destruct (resolveLoop_invariant input)
    as [[Hnone Hst] | (m & (a0 & Ha0 & Hs0) & Hmax & Hst)]; rewrite Hst; simpl.
  - split; [intros H; inversion H |].
    intros (a & s & Hin & _ & Hs & _). rewrite (Hnone _ Hin) in Hs. discriminate.
  - unfold winners. rewrite list_elem_of_fmap. split.
    + intros (a & -> & Hin). apply list_elem_of_filter in Hin as [Hs Hin].
      exists a, m. auto.
    + intros (a & s & Hin & Hid & Hs & Hbest).
      exists a. split; [auto |]. apply list_elem_of_filter. split; [| exact Hin].
      rewrite Hs. f_equal.
      specialize (Hmax _ _ Hin Hs). specialize (Hbest _ _ Ha0 Hs0). lia.
Qed.

Lemma resolved_empty input :
  resolveLecturersForEntry input = [] <->
  forall a, a ∈ in_assignments input -> scoreAssignment input a = None.
Proof.
  split.
  - intros Hnil a Hin. destruct (scoreAssignment input a) as [s|] eqn:Hs; [| reflexivity].
    exfalso.
    destruct (resolveLoop_invariant input)
      as [[Hnone _] | (m & (a0 & Ha0 & Hs0) & Hmax & Hst)].
    + rewrite (Hnone _ Hin) in Hs. discriminate.
    + assert (Hel : a_lecturerId a0 ∈ map l_id (resolveLecturersForEntry input)).
      { apply resolved_elem. exists a0, m. auto. }
      rewrite Hnil in Hel. inversion Hel.
  - intros Hnone.
    destruct (resolveLecturersForEntry input) as [|l r] eqn:Hres; [reflexivity |].
    exfalso.
    assert (Hel : l_id l ∈ map l_id (resolveLecturersForEntry input)).
    { rewrite Hres. left. }
    apply resolved_elem in Hel as (a & s & Hin & _ & Hs & _).
    rewrite (Hnone _ Hin) in Hs. discriminate.
Qed.

End PortalFacts.

(** C1.  For every query and every list of assignment rows: a row of the
    queried course whose normalized class group is non-empty and differs from
    the query's is rejected, and so is one whose normalized instruction code
    is non-empty and differs; a row that is not rejected scores 2 for a
    non-empty class group plus 1 for a non-empty instruction code, so a row
    with both fields wildcarded scores 0 and is never rejected; rows of other
    courses do not take part; and the lecturer ids returned are, without
    repetition, exactly those of the rows that reach the highest score among
    the rows that are not rejected, ties included. *)
Theorem resolver_scores_and_keeps_ties (input : Portal.ResolveInput) :
  let cls a := Portal.normalizeClassGroupName (Portal.a_classGroupName a) in
  let ins a := Portal.normalizeInstructionCode (Portal.a_instructionCode a) in
  let score := Portal.scoreAssignment input in
  let ids := map Portal.l_id (Portal.resolveLecturersForEntry input) in
  (forall a, Portal.a_courseCode a <> Portal.in_courseCode input -> score a = None)
  /\ (forall a, Portal.a_courseCode a = Portal.in_courseCode input ->
        (cls a <> "" -> cls a <> Portal.in_classGroupName input -> score a = None)
        /\ (ins a <> "" -> ins a <> Portal.in_instructionCode input -> score a = None)
        /\ ((cls a = "" \/ cls a = Portal.in_classGroupName input) ->
            (ins a = "" \/ ins a = Portal.in_instructionCode input) ->
            score a = Some ((if decide (cls a = "") then 0 else 2)
                            + (if decide (ins a = "") then 0 else 1))%Z)
        /\ (cls a = "" -> ins a = "" -> score a = Some 0%Z))
  /\ NoDup ids
  /\ (forall id, id ∈ ids <->
        exists a s,
          a ∈ Portal.in_assignments input /\ Portal.a_lecturerId a = id
          /\ score a = Some s
          /\ forall a' s', a' ∈ Portal.in_assignments input ->
                           score a' = Some s' -> (s' <= s)%Z).
Proof.
  intros cls ins score ids.
  assert (Hscore : forall a, Portal.a_courseCode a = Portal.in_courseCode input ->
            score a =
            if Js.truthy (cls a) && negb (String.eqb (cls a) (Portal.in_classGroupName input))
            then None
            else if Js.truthy (ins a)
                    && negb (String.eqb (ins a) (Portal.in_instructionCode input))
            then None
            else Some ((if Js.truthy (cls a) then 2 else 0)
                       + (if Js.truthy (ins a) then 1 else 0))%Z).
  { intros a Hc. unfold score, Portal.scoreAssignment. fold (cls a). fold (ins a).
    rewrite (proj2 (String.eqb_eq _ _) Hc). simpl.
    destruct (Js.truthy (cls a)), (Js.truthy (ins a)); simpl;
      repeat match goal with |- context [negb ?b] => destruct b; simpl end;
      reflexivity. }
  split; [| split; [| split]].
  - intros a Hne. unfold score, Portal.scoreAssignment.
    rewrite (proj2 (String.eqb_neq _ _) Hne). reflexivity.
  - intros a Hc. rewrite (Hscore a Hc). repeat split.
    + intros H1 H2.
      rewrite (proj2 (truthy_true _) H1), (proj2 (String.eqb_neq _ _) H2). reflexivity.
    + intros H1 H2.
      rewrite (proj2 (truthy_true _) H1), (proj2 (String.eqb_neq _ _) H2). simpl.
      destruct (_ && _); reflexivity.
    + intros H1 H2.
      assert (E1 : Js.truthy (cls a)
                   && negb (String.eqb (cls a) (Portal.in_classGroupName input)) = false).
      { destruct H1 as [H1 | H1].
        - rewrite (proj2 (truthy_false _) H1). reflexivity.
        - rewrite (proj2 (String.eqb_eq _ _) H1). apply andb_false_r. }
      assert (E2 : Js.truthy (ins a)
                   && negb (String.eqb (ins a) (Portal.in_instructionCode input)) = false).
      { destruct H2 as [H2 | H2].
        - rewrite (proj2 (truthy_false _) H2). reflexivity.
        - rewrite (proj2 (String.eqb_eq _ _) H2). apply andb_false_r. }
      rewrite E1, E2. f_equal.
      destruct (decide (cls a = "")) as [e1 | n1], (decide (ins a = "")) as [e2 | n2];
        rewrite ?(proj2 (truthy_false _) e1), ?(proj2 (truthy_false _) e2),
                ?(proj2 (truthy_true _) n1), ?(proj2 (truthy_true _) n2); reflexivity.
    + intros H1 H2.
      rewrite (proj2 (truthy_false _) H1), (proj2 (truthy_false _) H2). reflexivity.
  - unfold ids. rewrite PortalFacts.resolved_ids. apply unique_NoDup.
  - intros lid. apply PortalFacts.resolved_elem.
Qed.

(** The example of the specification: two rows scoped to the same group are
    both returned, and a scoped row beats a wildcard row. *)
Example resolver_keeps_both_tied_lecturers :
  let rows :=
    [ {| Portal.a_courseCode := "CS 2255"; Portal.a_classGroupName := "IT 01";
         Portal.a_instructionCode := ""; Portal.a_lecturerId := "lan" |};
      {| Portal.a_courseCode := "CS 2255"; Portal.a_classGroupName := "";
         Portal.a_instructionCode := ""; Portal.a_lecturerId := "minh" |};
      {| Portal.a_courseCode := "CS 2255"; Portal.a_classGroupName := "it  01 ";
         Portal.a_instructionCode := ""; Portal.a_lecturerId := "son" |} ] in
  let ask group :=
    map Portal.l_id
      (Portal.resolveLecturersForEntry
         {| Portal.in_courseCode := "CS 2255"; Portal.in_classGroupName := group;
            Portal.in_instructionCode := ""; Portal.in_assignments := rows;
            Portal.in_lecturerNameMap := ∅ |}) in
  ask "IT 01" = ["lan"; "son"] /\ ask "IT 02" = ["minh"].
Proof. vm_compute. split; reflexivity. Qed.

(** ** The fallback tier *)

Module FallbackFacts.
Import Portal PortalSpec.

Lemma setAdd_elem x y s : y ∈ setAdd x s <-> y = x \/ y ∈ s.
Proof.
  unfold setAdd. case_bool_decide as H.
  - split; [auto |]. intros [-> | ?]; auto.
  - rewrite elem_of_app, list_elem_of_singleton. tauto.
Qed.

Lemma setDelete_elem x y s : y ∈ setDelete x s <-> y <> x /\ y ∈ s.
Proof. unfold setDelete. rewrite list_elem_of_filter. reflexivity. Qed.

Lemma seedFallback_lookup codes catalog c :
  seedFallback codes catalog !! c =
  if decide (c ∈ codes) then Some (Js.unique (default [] (catalog !! c))) else None.
Proof.
  unfold seedFallback.
  induction codes as [|k codes IH] using rev_ind.
  - simpl. rewrite lookup_empty. destruct (decide (c ∈ [])) as [H | _]; [| reflexivity].
    inversion H.
  - rewrite fold_left_app. simpl.
    destruct (decide (k = c)) as [-> | Hne].
    + rewrite lookup_insert_eq. rewrite decide_True; [reflexivity |].
      apply elem_of_app. right. left.
    + rewrite lookup_insert_ne by exact Hne. rewrite IH.
      destruct (decide (c ∈ codes)) as [Hin | Hnin].
      * rewrite decide_True; [reflexivity | apply elem_of_app; left; exact Hin].
      * rewrite decide_False; [reflexivity |].
        intros [? | ->%list_elem_of_singleton]%elem_of_app; contradiction.
Qed.

Lemma lastOverride_snoc c lid overrides o :
  lastOverride c lid (overrides ++ [o]) =
  if decide (o_courseCode o = c /\ o_lecturerId o = lid) then Some o
  else lastOverride c lid overrides.
Proof.
  unfold lastOverride. rewrite filter_app, filter_cons, filter_nil.
  destruct (decide _) as [H | H].
  - rewrite last_snoc. reflexivity.
  - rewrite app_nil_r. reflexivity.
Qed.

Lemma fold_overrideStep_elem (base : string -> list string) m0 overrides c lid :
  (forall c', default [] (m0 !! c') = base c') ->
  lid ∈ default [] (fold_left overrideStep overrides m0 !! c)
  <-> fallbackHolds base overrides c lid.
Proof.
  intros Hbase. unfold fallbackHolds.
  induction overrides as [|o overrides IH] using rev_ind.
  - simpl. rewrite Hbase. reflexivity.
  - rewrite fold_left_app, lastOverride_snoc. simpl.
    set (m := fold_left overrideStep overrides m0) in *.
    unfold overrideStep.
    destruct (decide (o_courseCode o = c)) as [Hc | Hc].
    + rewrite Hc, lookup_insert_eq. simpl.
      destruct (decide (o_lecturerId o = lid)) as [Hl | Hl].
      * rewrite decide_True by auto.
        destruct (o_enabled o).
        -- rewrite setAdd_elem. split; auto.
        -- rewrite setDelete_elem. split; [intros [? _]; congruence | discriminate].
      * rewrite decide_False by tauto. rewrite <- IH.
        destruct (o_enabled o).
        -- rewrite setAdd_elem. split; [intros [? | ?]; [congruence | auto] | auto].
        -- rewrite setDelete_elem. split; [tauto | intros ?; split; [congruence | auto]].
    + rewrite lookup_insert_ne by exact Hc. rewrite decide_False by tauto. exact IH.
Qed.

(** Membership in a course's fallback set: the last override written for
    the course and the lecturer decides; without one, the catalog does. *)
Lemma fallback_elem codes catalog overrides c lid :
  lid ∈ default [] (fallbackLecturerIdsByCourse codes catalog overrides !! c)
  <-> fallbackHolds
        (fun c' => if decide (c' ∈ codes) then default [] (catalog !! c') else [])
        overrides c lid.
Proof.
  unfold fallbackLecturerIdsByCourse.
  rewrite (fold_overrideStep_elem
             (fun c' => if decide (c' ∈ codes)
                        then Js.unique (default [] (catalog !! c')) else [])).
  - unfold fallbackHolds. destruct (lastOverride c lid overrides); [reflexivity |].
    destruct (decide (c ∈ codes)); [apply unique_elem | reflexivity].
  - intros c'. rewrite seedFallback_lookup. destruct (decide (c' ∈ codes)); reflexivity.
Qed.

Lemma insertSorted_elem {A} (cmp : A -> A -> Z) x y (l : list A) :
  y ∈ insertSorted cmp x l <-> y = x \/ y ∈ l.
Proof.
  induction l as [|z l IH]; simpl.
  - rewrite list_elem_of_singleton. split; [auto |]. intros [? | H]; [auto | inversion H].
  - destruct (cmp x z <=? 0)%Z.
    + rewrite elem_of_cons. tauto.
    + rewrite !elem_of_cons, IH. tauto.
Qed.

Lemma sortBy_elem {A} (cmp : A -> A -> Z) y (l : list A) :
  y ∈ sortBy cmp l <-> y ∈ l.
Proof.
  induction l as [|x l IH]; simpl; [reflexivity |].
  rewrite insertSorted_elem, elem_of_cons, IH. reflexivity.
Qed.

Lemma insertSorted_perm {A} (cmp : A -> A -> Z) x (l : list A) :
  insertSorted cmp x l ≡ₚ x :: l.
Proof.
  induction l as [|z l IH]; simpl; [reflexivity |].
  destruct (cmp x z <=? 0)%Z; [reflexivity |].
  rewrite IH. apply Permutation_swap.
Qed.

Lemma sortBy_perm {A} (cmp : A -> A -> Z) (l : list A) : sortBy cmp l ≡ₚ l.
Proof.
  induction l as [|x l IH]; simpl; [reflexivity |].
  rewrite insertSorted_perm, IH. reflexivity.
Qed.

Lemma fallbackLecturers_ids localeCompare names fallbackByCourse c lid :
  lid ∈ map l_id (fallbackLecturers localeCompare names fallbackByCourse c)
  <-> lid ∈ default [] (fallbackByCourse !! c).
Proof.
  unfold fallbackLecturers.
  rewrite (sortBy_perm _ _), map_map. simpl. rewrite map_id. apply unique_elem.
Qed.

End FallbackFacts.

(** C2, as the specification states it, does not hold: here the course has
    an assignment row (scoped to the instruction code IHA01), the entry
    carries no instruction code, the row is rejected, and the fallback tier
    answers although the candidate set of the course is not empty. *)
Lemma fallback_used_although_course_has_rows :
  let rows :=
    [ {| Portal.a_courseCode := "CS 2255"; Portal.a_classGroupName := "";
         Portal.a_instructionCode := "IHA01"; Portal.a_lecturerId := "lan" |} ] in
  ~ (Portal.usesFallback "IT 01" rows ∅ "CS 2255" "" = true
     <-> filter (fun a => Portal.a_courseCode a = "CS 2255") rows = []).
Proof.
  intros rows [H _]. specialize (H eq_refl). vm_compute in H. discriminate.
Qed.

(** C2, amended.  The fallback tier answers exactly when no assignment row
    scores for the entry (every row belongs to another course or is
    rejected), which is the case in particular when the course has no row
    at all; the entry's lecturers are then the fallback tier alone, and
    otherwise the scoped tier alone; and a lecturer is in the fallback set
    of a course exactly when the last override stored for that course and
    lecturer is enabled or, without any, when the catalog lists the
    lecturer for a selected course. *)
Theorem fallback_tier_answers_when_nothing_scores
    (localeCompare : string -> string -> Z) (group : string)
    (assignments : list Portal.Assignment) (names : gmap string string)
    (codes : list string) (catalog : gmap string (list string))
    (overrides : list Portal.Override) (code instruction : string) :
  let input :=
    {| Portal.in_courseCode := code; Portal.in_classGroupName := group;
       Portal.in_instructionCode := instruction; Portal.in_assignments := assignments;
       Portal.in_lecturerNameMap := names |} in
  let fallbackByCourse := Portal.fallbackLecturerIdsByCourse codes catalog overrides in
  let result :=
    Portal.entryLecturers localeCompare group assignments names fallbackByCourse
      code instruction in
  let uses := Portal.usesFallback group assignments names code instruction in
  (uses = true <-> forall a, a ∈ assignments -> Portal.scoreAssignment input a = None)
  /\ (filter (fun a => Portal.a_courseCode a = code) assignments = [] -> uses = true)
  /\ (uses = true ->
      result = Portal.fallbackLecturers localeCompare names fallbackByCourse code)
  /\ (uses = false -> result = Portal.resolveLecturersForEntry input)
  /\ (forall lid,
        lid ∈ map Portal.l_id
                (Portal.fallbackLecturers localeCompare names fallbackByCourse code)
        <-> PortalSpec.fallbackHolds
              (fun c => if decide (c ∈ codes) then default [] (catalog !! c) else [])
              overrides code lid).
Proof.
  intros input fallbackByCourse result uses.
  assert (Huses : uses = true <-> Portal.resolveLecturersForEntry input = []).
  { unfold uses, Portal.usesFallback, Portal.scopedLecturers. fold input.
    destruct (Portal.resolveLecturersForEntry input); simpl; split;
      intros H; try reflexivity; discriminate. }
  split; [| split; [| split; [| split]]].
  - rewrite Huses. apply PortalFacts.resolved_empty.
  - intros Hnone. apply Huses. apply PortalFacts.resolved_empty.
    intros a Hin. simpl in Hin.
    unfold Portal.scoreAssignment.
    destruct (String.eqb (Portal.a_courseCode a) (Portal.in_courseCode input)) eqn:He;
      [| reflexivity].
    apply String.eqb_eq in He. simpl in He. exfalso.
    assert (Hf : a ∈ filter (fun a => Portal.a_courseCode a = code) assignments).
    { apply list_elem_of_filter. auto. }
    rewrite Hnone in Hf. inversion Hf.
  - unfold result, Portal.entryLecturers, uses, Portal.usesFallback.
    destruct (0 <? _)%nat; [discriminate | reflexivity].
  - unfold result, Portal.entryLecturers, uses, Portal.usesFallback.
    destruct (0 <? _)%nat; [reflexivity | discriminate].
  - intros lid. rewrite FallbackFacts.fallbackLecturers_ids.
    apply FallbackFacts.fallback_elem.
Qed.

(** ** Conflicts *)

Module ConflictFacts.
Import Portal PortalSpec.

Lemma conflictKey_inj d t d' t' :
  conflictKey d t = conflictKey d' t' -> d = d' /\ t = t'.
Proof.
  unfold conflictKey. destruct d, d'; simpl; intros H; inversion H; auto.
Qed.

Lemma mapGet_snoc k m k' v :
  mapGet k (m ++ [(k', v)]) =
  match mapGet k m with
  | Some x => Some x
  | None => if String.eqb k' k then Some v else None
  end.
Proof.
  induction m as [|[k0 v0] m IH]; simpl; [reflexivity |].
  destruct (String.eqb k0 k); [reflexivity | exact IH].
Qed.

Lemma mapGet_pushCourse k key code m :
  mapGet k (pushCourse key code m) =
  if String.eqb key k then push code <$> mapGet key m else mapGet k m.
Proof.
  induction m as [|[k0 v0] m IH]; simpl.
  - destruct (String.eqb key k); reflexivity.
  - destruct (String.eqb k0 key) eqn:E0; simpl.
    + apply String.eqb_eq in E0. subst k0.
      destruct (String.eqb key k); reflexivity.
    + destruct (String.eqb k0 k) eqn:E1.
      * apply String.eqb_eq in E1. subst k0.
        rewrite String.eqb_sym, E0. reflexivity.
      * exact IH.
Qed.

Lemma keys_pushCourse key code m : map fst (pushCourse key code m) = map fst m.
Proof.
  induction m as [|[k0 v0] m IH]; simpl; [reflexivity |].
  destruct (String.eqb k0 key); simpl; [reflexivity | f_equal; exact IH].
Qed.

Lemma mapGet_None k m : mapGet k m = None <-> k ∉ map fst m.
Proof.
  induction m as [|[k0 v0] m IH]; simpl.
  - split; [intros _ H; inversion H | reflexivity].
  - destruct (String.eqb k0 k) eqn:E.
    + apply String.eqb_eq in E. subst. split; [discriminate |].
      intros H. exfalso. apply H. left.
    + apply String.eqb_neq in E. rewrite IH, not_elem_of_cons. split; [auto | tauto].
Qed.

Lemma mapGet_elem k v m :
  NoDup (map fst m) -> ((k, v) ∈ m <-> mapGet k m = Some v).
Proof.
  induction m as [|[k0 v0] m IH]; simpl; intros Hnd.
  - split; [intros H; inversion H | discriminate].
  - inversion Hnd as [|? ? Hk0 Hm]; subst.
    rewrite elem_of_cons. destruct (String.eqb k0 k) eqn:E.
    + apply String.eqb_eq in E. subst k0. split.
      * intros [Heq | Hin]; [inversion Heq; reflexivity |].
        exfalso. apply Hk0. apply list_elem_of_fmap. exists (k, v). auto.
      * intros H. inversion H. auto.
    + apply String.eqb_neq in E. rewrite <- (IH Hm). split.
      * intros [Heq | Hin]; [inversion Heq; congruence | exact Hin].
      * auto.
Qed.

Lemma slotCourse_snoc_other entries e d t code :
  (e_dayOfWeek e <> d \/ e_startTime e <> Some t) ->
  slotCourse (entries ++ [e]) d t code <-> slotCourse entries d t code.
Proof.
  intros Hne. unfold slotCourse. split.
  - intros (e' & [Hin | ->%list_elem_of_singleton]%elem_of_app & Hd & Ht & Hc).
    + exists e'. auto.
    + exfalso. destruct Hne; contradiction.
  - intros (e' & Hin & H). exists e'. split; [apply elem_of_app; auto | exact H].
Qed.

Lemma slotCourse_snoc_same entries e t code :
  e_startTime e = Some t ->
  slotCourse (entries ++ [e]) (e_dayOfWeek e) t code
  <-> code = e_courseCode e \/ slotCourse entries (e_dayOfWeek e) t code.
Proof.
  intros Ht. unfold slotCourse. split.
  - intros (e' & [Hin | ->%list_elem_of_singleton]%elem_of_app & Hd & Ht' & Hc).
    + right. exists e'. auto.
    + left. auto.
  - intros [-> | (e' & Hin & H)].
    + exists e. split; [apply elem_of_app; right; left | auto].
    + exists e'. split; [apply elem_of_app; auto | exact H].
Qed.

Ltac keep_row H1 H2 H3 :=
  split; [exact H1 | split; [exact H2 | split; [exact H3 |]]].

Lemma conflictStep_invariant entries grouped e :
  groupedInvariant entries grouped ->
  groupedInvariant (entries ++ [e]) (conflictStep grouped e).
Proof.
  intros (Hnd & Hrows & Hcov). unfold conflictStep.
  destruct (e_startTime e) as [t|] eqn:Ht.
  2:{ split; [exact Hnd | split].
      - intros k c Hk. destruct (Hrows k c Hk) as (H1 & H2 & H3 & H4).
        keep_row H1 H2 H3. intros code. rewrite slotCourse_snoc_other; [apply H4 |].
        right. rewrite Ht. discriminate.
      - intros e' t' [Hin | ->%list_elem_of_singleton]%elem_of_app Ht' Hne.
        + exact (Hcov _ _ Hin Ht' Hne).
        + rewrite Ht in Ht'. discriminate. }
  destruct (Js.truthy t) eqn:Htr; simpl.
  2:{ apply truthy_false in Htr. subst t.
      split; [exact Hnd | split].
      - intros k c Hk. destruct (Hrows k c Hk) as (H1 & H2 & H3 & H4).
        keep_row H1 H2 H3. intros code. rewrite slotCourse_snoc_other; [apply H4 |].
        right. rewrite Ht. congruence.
      - intros e' t' [Hin | ->%list_elem_of_singleton]%elem_of_app Ht' Hne.
        + exact (Hcov _ _ Hin Ht' Hne).
        + rewrite Ht in Ht'. inversion Ht'. congruence. }
  apply truthy_true in Htr.
  set (key := conflictKey (e_dayOfWeek e) t).
  (* rows of other slots are not affected by [e] *)
  assert (Hother : forall k c, k <> key ->
            k = conflictKey (c_dayOfWeek c) (c_startTime c) ->
            forall code,
              slotCourse (entries ++ [e]) (c_dayOfWeek c) (c_startTime c) code
              <-> slotCourse entries (c_dayOfWeek c) (c_startTime c) code).
  { intros k c Hk Hkc code. apply slotCourse_snoc_other.
    destruct (decide (e_dayOfWeek e = c_dayOfWeek c)) as [Hd | Hd]; [| auto].
    right. rewrite Ht. intros Heq. inversion Heq. apply Hk.
    rewrite Hkc. unfold key. congruence. }
  destruct (mapGet key grouped) as [existing|] eqn:Hget.
  - destruct (Hrows _ _ Hget) as (Hkey & Hne & Hndc & Hcs).
    apply conflictKey_inj in Hkey as [Hd Hs].
    case_bool_decide as Hmem.
    + (* the course is already listed *)
      split; [exact Hnd | split].
      * intros k c Hk. destruct (Hrows k c Hk) as (H1 & H2 & H3 & H4).
        keep_row H1 H2 H3.
        destruct (decide (k = key)) as [-> | Hkne].
        -- rewrite Hget in Hk. inversion Hk. subst c.
           intros code. rewrite <- Hd, <- Hs, slotCourse_snoc_same by exact Ht.
           rewrite Hd, Hs at 1. rewrite <- H4. split; [auto |].
           intros [-> | ?]; auto.
        -- intros code. rewrite (Hother k c Hkne H1). apply H4.
      * intros e' t' [Hin | ->%list_elem_of_singleton]%elem_of_app Ht' Hne'.
        -- exact (Hcov _ _ Hin Ht' Hne').
        -- rewrite Ht in Ht'. inversion Ht'. subst t'. fold key. rewrite Hget. eauto.
    + (* the course is pushed onto the existing row *)
      split; [rewrite keys_pushCourse; exact Hnd | split].
      * intros k c. rewrite mapGet_pushCourse.
        destruct (String.eqb key k) eqn:E.
        -- apply String.eqb_eq in E. subst k. rewrite Hget. simpl.
           intros Hc. inversion Hc. subst c. simpl.
           split; [rewrite <- Hd, <- Hs; reflexivity |].
           split; [exact Hne |].
           split.
           ++ apply NoDup_app. split; [exact Hndc |]. split.
              ** intros x Hx ->%list_elem_of_singleton. contradiction.
              ** apply NoDup_singleton.
           ++ intros code. rewrite elem_of_app, list_elem_of_singleton.
              rewrite <- Hd, <- Hs, slotCourse_snoc_same by exact Ht.
              rewrite Hd, Hs at 1. rewrite <- Hcs. tauto.
        -- apply String.eqb_neq in E. intros Hk.
           destruct (Hrows k c Hk) as (H1 & H2 & H3 & H4).
           keep_row H1 H2 H3.
           intros code. rewrite (Hother k c (not_eq_sym E) H1). apply H4.
      * intros e' t' Hin Ht' Hne'. rewrite mapGet_pushCourse.
        destruct (String.eqb key _) eqn:E.
        -- rewrite Hget. simpl. eauto.
        -- apply elem_of_app in Hin as [Hin | ->%list_elem_of_singleton].
           ++ exact (Hcov _ _ Hin Ht' Hne').
           ++ rewrite Ht in Ht'. inversion Ht'. subst t'. fold key in E.
              rewrite String.eqb_refl in E. discriminate.
  - (* a new row *)
    split; [| split].
    + rewrite map_app. simpl. apply NoDup_app. split; [exact Hnd |]. split.
      * intros x Hx ->%list_elem_of_singleton. apply mapGet_None in Hget. contradiction.
      * apply NoDup_singleton.
    + intros k c. rewrite mapGet_snoc.
      destruct (mapGet k grouped) as [x|] eqn:Hk.
      * intros Hc. inversion Hc. subst x.
        destruct (Hrows k c Hk) as (H1 & H2 & H3 & H4).
        keep_row H1 H2 H3.
        assert (Hkne : k <> key) by (intros ->; congruence).
        intros code. rewrite (Hother k c Hkne H1). apply H4.
      * destruct (String.eqb key k) eqn:E; [| discriminate].
        apply String.eqb_eq in E. subst k. intros Hc. inversion Hc. subst c. simpl.
        split; [reflexivity |]. split; [exact Htr |].
        split; [apply NoDup_singleton |].
        intros code. rewrite list_elem_of_singleton, slotCourse_snoc_same by exact Ht.
        split; [auto |]. intros [? | (e' & Hin & Hd' & Ht' & _)]; [assumption |].
        exfalso. assert (Hs : is_Some (mapGet key grouped)).
        { unfold key. rewrite <- Hd'. apply (Hcov e' t Hin Ht' Htr). }
        rewrite Hget in Hs. destruct Hs as [? Hs]. discriminate.
    + intros e' t' Hin Ht' Hne'. rewrite mapGet_snoc.
      apply elem_of_app in Hin as [Hin | ->%list_elem_of_singleton].
      * destruct (Hcov _ _ Hin Ht' Hne') as [x Hx]. rewrite Hx. eauto.
      * rewrite Ht in Ht'. inversion Ht'. subst t'. fold key. rewrite Hget.
        rewrite String.eqb_refl. eauto.
Qed.

Lemma grouped_invariant entries :
  groupedInvariant entries (fold_left conflictStep entries []).
Proof.
  induction entries as [|e entries IH] using rev_ind.
  - split; [constructor | split].
    + intros k c H. discriminate.
    + intros e t H. inversion H.
  - rewrite fold_left_app. simpl. apply conflictStep_invariant. exact IH.
Qed.

End ConflictFacts.

(** C9.  The conflict list holds at most one conflict per day and start
    time; a day and start time has a conflict exactly when two entries with
    that day and that (present) start time carry different course codes, so
    two entries of the same course never make one; and a conflict lists,
    once each, exactly the course codes of the entries of its slot. *)
Theorem conflicts_one_per_shared_slot (entries : list Portal.PortalEntry) :
  let cs := Portal.computeConflicts entries in
  NoDup (map (fun c => (Portal.c_dayOfWeek c, Portal.c_startTime c)) cs)
  /\ (forall d t,
        (exists c, c ∈ cs /\ Portal.c_dayOfWeek c = d /\ Portal.c_startTime c = t)
        <-> t <> ""
            /\ exists e1 e2,
                 e1 ∈ entries /\ e2 ∈ entries
                 /\ Portal.e_dayOfWeek e1 = d /\ Portal.e_dayOfWeek e2 = d
                 /\ Portal.e_startTime e1 = Some t /\ Portal.e_startTime e2 = Some t
                 /\ Portal.e_courseCode e1 <> Portal.e_courseCode e2)
  /\ (forall c, c ∈ cs ->
        NoDup (Portal.c_courses c)
        /\ forall code,
             code ∈ Portal.c_courses c
             <-> exists e, e ∈ entries
                           /\ Portal.e_dayOfWeek e = Portal.c_dayOfWeek c
                           /\ Portal.e_startTime e = Some (Portal.c_startTime c)
                           /\ Portal.e_courseCode e = code).
Proof.
  intros cs.
  pose proof (ConflictFacts.grouped_invariant entries) as (Hnd & Hrows & Hcov).
  set (g := fold_left Portal.conflictStep entries []) in *.
  assert (Hcs : forall c, c ∈ cs <->
            (1 < length (Portal.c_courses c))%nat
            /\ exists k, Portal.mapGet k g = Some c).
  { intros c. unfold cs, Portal.computeConflicts. fold g.
    rewrite list_elem_of_filter, list_elem_of_fmap. split.
    - intros [Hl ([k c'] & -> & Hin)]. split; [exact Hl |].
      exists k. apply ConflictFacts.mapGet_elem; assumption.
    - intros [Hl [k Hk]]. split; [exact Hl |].
      exists (k, c). split; [reflexivity |].
      apply ConflictFacts.mapGet_elem; assumption. }
  split; [| split].
  - set (slotKey := fun c => Portal.conflictKey (Portal.c_dayOfWeek c) (Portal.c_startTime c)).
    assert (Hall : NoDup (map slotKey (map snd g))).
    { replace (map slotKey (map snd g)) with (map fst g); [exact Hnd |].
      rewrite map_map. apply map_ext_in.
      intros [k c] Hin%list_elem_of_In. simpl.
      apply ConflictFacts.mapGet_elem in Hin; [| exact Hnd].
      apply (Hrows _ _ Hin). }
    assert (Hsub : NoDup (map slotKey cs)).
    { refine (sublist_NoDup _ _ Hall _).
      apply (fmap_sublist slotKey). unfold cs, Portal.computeConflicts.
      apply sublist_filter. }
    apply (NoDup_fmap_1 (fun p => Portal.conflictKey (fst p) (snd p))).
    change (NoDup (map (fun p => Portal.conflictKey (fst p) (snd p))
                     (map (fun c => (Portal.c_dayOfWeek c, Portal.c_startTime c)) cs))).
    rewrite map_map. exact Hsub.
  - intros d t. split.
    + intros (c & Hc & Hd & Ht). apply Hcs in Hc as [Hl [k Hk]].
      destruct (Hrows _ _ Hk) as (_ & Hne & Hndc & Hcodes).
      subst d t. split; [exact Hne |].
      destruct (Portal.c_courses c) as [|x [|y r]] eqn:Hcourses; simpl in Hl; try lia.
      destruct (proj1 (Hcodes x)) as (e1 & H1 & Hd1 & Ht1 & Hc1); [left |].
      destruct (proj1 (Hcodes y)) as (e2 & H2 & Hd2 & Ht2 & Hc2); [right; left |].
      exists e1, e2. repeat (split; [assumption |]).
      inversion Hndc as [|? ? Hx _]; subst.
      intros Heq. apply Hx. rewrite Heq. left.
    + intros (Hne & e1 & e2 & H1 & H2 & Hd1 & Hd2 & Ht1 & Ht2 & Hdiff).
      destruct (Hcov e1 t H1 Ht1 Hne) as [c Hk].
      destruct (Hrows _ _ Hk) as (Hkey & _ & Hndc & Hcodes).
      apply ConflictFacts.conflictKey_inj in Hkey as [Hd Hs].
      exists c. split; [| split; congruence].
      apply Hcs. split; [| eauto].
      assert (Hin1 : Portal.e_courseCode e1 ∈ Portal.c_courses c).
      { apply Hcodes. exists e1. rewrite <- Hd, <- Hs. auto. }
      assert (Hin2 : Portal.e_courseCode e2 ∈ Portal.c_courses c).
      { apply Hcodes. exists e2. rewrite <- Hd, <- Hs. split; [exact H2 |].
        split; [congruence | auto]. }
      destruct (Portal.c_courses c) as [|x [|y r]]; simpl.
      * inversion Hin1.
      * apply list_elem_of_singleton in Hin1, Hin2. congruence.
      * lia.
  - intros c Hc. apply Hcs in Hc as [_ [k Hk]].
    destruct (Hrows _ _ Hk) as (_ & _ & Hndc & Hcodes).
    split; [exact Hndc | exact Hcodes].
Qed.

(** The example of the specification. *)
Example conflict_of_two_courses_in_one_slot :
  let entry id code :=
    {| Portal.e_id := id; Portal.e_dayOfWeek := Portal.MON; Portal.e_session := "MORNING";
       Portal.e_startTime := Some "08:00"; Portal.e_rawTime := None; Portal.e_room := None;
       Portal.e_courseCode := code; Portal.e_instructionCode := None;
       Portal.e_lecturers := [] |} in
  Portal.computeConflicts [entry "1" "CS 2255"; entry "2" "MATH 101"; entry "3" "CS 2255"]
  = [ {| Portal.c_dayOfWeek := Portal.MON; Portal.c_startTime := "08:00";
         Portal.c_courses := ["CS 2255"; "MATH 101"] |} ]
  /\ Portal.computeConflicts [entry "1" "CS 2255"; entry "3" "CS 2255"] = [].
Proof. vm_compute. split; reflexivity. Qed.
(** ** The workbook parser *)

Module LabelFacts.
Import Js Importer LabelSpec TextFacts.

Lemma decimals_checked :
  Forall (fun n => allChars isDigit (decimal n) = true
                   /\ parseDecimal (decimal n) = n
                   /\ (1 <= String.length (decimal n) <= 2)%nat
                   /\ (String.length (decimal n) = 2%nat -> startsWith "0" (decimal n) = false))
    (seq 0 100).
Proof.
  apply (bool_decide_unpack
           (Forall (fun n => allChars isDigit (decimal n) = true
                             /\ parseDecimal (decimal n) = n
                             /\ (1 <= String.length (decimal n) <= 2)%nat
                             /\ (String.length (decimal n) = 2%nat
                                 -> startsWith "0" (decimal n) = false))
              (seq 0 100))).
  vm_compute. exact I.
Qed.

Lemma decimal_shape n :
  (n < 100)%nat ->
  parseDecimal (decimal n) = n
  /\ ((exists a, decimal n = String a "" /\ isDigit a = true)
      \/ (exists a b, decimal n = String a (String b "")
                      /\ isDigit a = true /\ isDigit b = true /\ Ascii.eqb a "0" = false)).
Proof.
  intros Hn. pose proof decimals_checked as H. rewrite Forall_forall in H.
  destruct (H n) as (Hd & Hp & Hl & Hz); [apply elem_of_seq; lia |].
  split; [exact Hp |].
  destruct (decimal n) as [|a [|b [|c r]]]; simpl in Hl, Hd; try lia.
  - left. exists a. rewrite andb_true_r in Hd. auto.
  - right. exists a, b. apply andb_true_iff in Hd as [Ha Hb]. rewrite andb_true_r in Hb.
    split; [reflexivity |]. split; [exact Ha |]. split; [exact Hb |].
    specialize (Hz eq_refl). simpl in Hz. rewrite andb_true_r in Hz.
    rewrite Ascii.eqb_sym. exact Hz.
Qed.

Lemma isDigit_upper c : isDigit (upperChar c) = isDigit c.
Proof. each_char c. Qed.

Lemma noLeadingDigit_upper s : noLeadingDigit (toUpperCase s) = noLeadingDigit s.
Proof. destruct s as [|c s]; [reflexivity |]. simpl. now rewrite isDigit_upper. Qed.

Lemma digits12_one a rest :
  isDigit a = true -> noLeadingDigit rest = true ->
  digits12 (String a rest) = Some (String a "").
Proof.
  intros Ha Hr. unfold digits12. rewrite Ha.
  destruct rest as [|b r]; [reflexivity |]. simpl in Hr.
  apply negb_true_iff in Hr. rewrite Hr. reflexivity.
Qed.

Lemma digits12_two a b rest :
  isDigit a = true -> isDigit b = true ->
  digits12 (String a (String b rest)) = Some (String a (String b "")).
Proof. intros Ha Hb. unfold digits12. rewrite Ha, Hb. reflexivity. Qed.

Lemma digits12_none rest : noLeadingDigit rest = true -> digits12 rest = None.
Proof.
  destruct rest as [|b r]; [reflexivity |]. simpl. intros Hr.
  apply negb_true_iff in Hr. rewrite Hr. reflexivity.
Qed.

(** The token regex on a token written in capitals, followed by text that
    does not go on with a digit. *)
Lemma matchGroupAt_token gap (zero : bool) n rest :
  allChars isSpace gap = true -> (n < 100)%nat -> noLeadingDigit rest = true ->
  let digits := (if zero then "0" else "") +:+ decimal n in
  matchGroupAt ("IT" +:+ gap +:+ digits +:+ rest)
  = Some (decimal n, String.length ("IT" +:+ gap +:+ digits)).
Proof.
  intros Hgap Hn Hrest digits.
  pose proof (substring_drop "IT" (gap +:+ digits +:+ rest)) as Hsub.
  pose proof (startsWith_append "IT" (gap +:+ digits +:+ rest)) as Hst.
  unfold matchGroupAt.
  change ("IT" +:+ gap +:+ digits +:+ rest) with ("IT" +:+ (gap +:+ digits +:+ rest)).
  change (String.length "IT") with 2%nat in Hsub.
  rewrite Hst, !Hsub. clear Hsub Hst.
  rewrite takeChars_append, dropChars_append by exact Hgap.
  rewrite !length_append. cbn [String.length].
  assert (H0 : isSpace "0" = false) by reflexivity.
  unfold digits.
  destruct (decimal_shape n Hn) as [_ [(a & -> & Ha) | (a & b & -> & Ha & Hb & Hz)]];
    pose proof (digit_not_space a Ha) as Hsa;
    destruct zero; repeat (progress (rewrite ?append_cons, ?append_nil_l));
    cbn [takeChars dropChars String.length]; rewrite ?H0, ?Hsa;
    cbn [String.length]; rewrite ?Ascii.eqb_refl;
    repeat (progress (rewrite ?append_cons, ?append_nil_l)).
  - rewrite (digits12_one a rest Ha Hrest). f_equal. f_equal. cbn [String.length]. lia.
  - destruct (Ascii.eqb a "0") eqn:Ea.
    + apply Ascii.eqb_eq in Ea. subst a. rewrite (digits12_none rest Hrest).
      f_equal. f_equal. lia.
    + rewrite (digits12_one a rest Ha Hrest). f_equal. f_equal. cbn [String.length]. lia.
  - rewrite (digits12_two a b rest Ha Hb). f_equal. f_equal. cbn [String.length]. lia.
  - rewrite Hz. rewrite (digits12_two a b rest Ha Hb). f_equal. f_equal.
    cbn [String.length]. lia.
Qed.

Lemma tokenOk_spec t :
  tokenOk t = true ->
  toUpperCase (t_prefix t) = "IT" /\ allChars isSpace (t_gap t) = true
  /\ (t_number t < 100)%nat.
Proof.
  unfold tokenOk. intros [[H1 H2]%andb_true_iff H3]%andb_true_iff.
  apply String.eqb_eq in H1. apply Nat.ltb_lt in H3. auto.
Qed.

Lemma toUpperCase_token t :
  tokenOk t = true ->
  toUpperCase (tokenText t)
  = "IT" +:+ t_gap t +:+ ((if t_zero t then "0" else "") +:+ decimal (t_number t)).
Proof.
  intros (Hp & Hg & Hn)%tokenOk_spec. unfold tokenText, toUpperCase.
  rewrite !mapChars_append. fold (toUpperCase (t_prefix t)). rewrite Hp.
  rewrite (mapChars_id upperChar isSpace (t_gap t)); [| | exact Hg].
  2:{ intros c Hc. revert Hc. each_char c. }
  rewrite (mapChars_id upperChar isDigit (decimal (t_number t))).
  2:{ apply upperChar_digit. }
  2:{ pose proof decimals_checked as H. rewrite Forall_forall in H.
      apply H. apply elem_of_seq. lia. }
  destruct (t_zero t); reflexivity.
Qed.











End LabelFacts.




(** C8: what the importer's [normalizeCourseCode] accepts, and the cell of
    the failing input.  A first line with a five-letter prefix is rejected by
    the importer, so the cell yields nothing, while the catalog side's
    function of the same name accepts the same text. *)
Theorem importer_rejects_five_letter_prefix :
  let cell := "ABCDE 101" +:+ String (ascii_of_nat 10) "B1-203"
              +:+ String (ascii_of_nat 10) "08:00 - 10:30" in
  Importer.normalizeCourseCode "ABCDE 101" = None
  /\ Importer.parseScheduleCell cell = None
  /\ Importer.cellEvents "SPRING 2026 K69" 7 Importer.MORNING ["IT 01"]
       [""; "Morning"; cell] (2%nat, Portal.MON) = []
  /\ Knowledge.normalizeCourseCode "ABCDE 101" = Some "ABCDE 101"
  /\ Importer.normalizeCourseCode "ABCD 101" = Some "ABCD 101".
Proof. vm_compute. repeat split; reflexivity. Qed.

Module CellFacts.
Import Js Importer LabelSpec CellSpec TextFacts.

Lemma splitLines_last l cur :
  noBreak l = true -> splitLines l cur = [reverse cur +:+ l].
Proof.
  revert cur. induction l as [|c l IH]; intros cur.
  - intros _. cbn [splitLines]. now rewrite append_nil_r.
  - unfold noBreak. cbn [allChars]. intros [Hc Hl]%andb_true_iff.
    apply negb_true_iff, orb_false_iff in Hc as [H10 H13].
    cbn [splitLines]. rewrite H10, H13. rewrite (IH _ Hl), reverse_cons, append_assoc.
    reflexivity.
Qed.

Lemma splitLines_line l rest cur :
  noBreak l = true ->
  splitLines (l +:+ LF +:+ rest) cur = (reverse cur +:+ l) :: splitLines rest "".
Proof.
  revert cur. induction l as [|c l IH]; intros cur.
  - intros _. unfold LF. rewrite append_nil_l, append_cons, append_nil_l.
    cbn [splitLines]. change (code (ascii_of_nat 10) =? 10)%N with true. cbn iota.
    now rewrite append_nil_r.
  - unfold noBreak. cbn [allChars]. intros [Hc Hl]%andb_true_iff.
    apply negb_true_iff, orb_false_iff in Hc as [H10 H13].
    rewrite append_cons. cbn [splitLines]. rewrite H10, H13.
    rewrite (IH _ Hl), reverse_cons, append_assoc. reflexivity.
Qed.

Lemma lineOk_spec l :
  lineOk l = true -> noBreak l = true /\ cleanCell l = l /\ truthy l = true.
Proof.
  unfold lineOk. intros [[H1 H2]%andb_true_iff H3]%andb_true_iff.
  apply String.eqb_eq in H2. auto.
Qed.

Lemma linesOf_cell3 code room time :
  lineOk code = true -> lineOk room = true -> lineOk time = true ->
  linesOf (cell3 code room time) = [code; room; time].
Proof.
  intros (Hb1 & Hc1 & Ht1)%lineOk_spec (Hb2 & Hc2 & Ht2)%lineOk_spec
         (Hb3 & Hc3 & Ht3)%lineOk_spec.
  unfold linesOf, cell3.
  rewrite (splitLines_line code _ "" Hb1), (splitLines_line room _ "" Hb2),
    (splitLines_last time "" Hb3).
  change (reverse "") with "". rewrite !append_nil_l.
  cbn [map]. rewrite Hc1, Hc2, Hc3.
  rewrite !filter_cons, filter_nil.
  rewrite !decide_True by assumption. reflexivity.
Qed.

Lemma substring_prefix b c : String.substring 0 (String.length b) (b +:+ c) = b.
Proof.
  induction b as [|x b IH]; str.
  - destruct c; reflexivity.
  - now rewrite IH.
Qed.

Lemma substring_middle a b c :
  String.substring (String.length a) (String.length b) (a +:+ b +:+ c) = b.
Proof. induction a as [|x a IH]; str; [apply substring_prefix | exact IH]. Qed.

Lemma searchGroup_plain pre rest :
  plain pre = true ->
  searchGroup (toUpperCase pre +:+ rest)
  = (fun '(start, len, d) => (String.length pre + start, len, d)%nat) <$> searchGroup rest.
Proof.
  induction pre as [|c pre IH].
  - intros _. str. destruct (searchGroup rest) as [[[s l] d]|]; reflexivity.
  - unfold plain. cbn [allChars]. intros [Hc Hp]%andb_true_iff. apply negb_true_iff in Hc.
    unfold toUpperCase. cbn [mapChars]. rewrite append_cons. cbn [searchGroup].
    unfold matchGroupAt at 1. cbn [startsWith]. rewrite Hc. cbn [andb].
    fold (toUpperCase pre). rewrite (IH Hp).
    destruct (searchGroup rest) as [[[s l] d]|]; reflexivity.
Qed.

Lemma searchGroup_token t rest :
  tokenOk t = true -> noLeadingDigit rest = true ->
  searchGroup (toUpperCase (tokenText t) +:+ rest)
  = Some (0%nat, String.length (tokenText t), decimal (t_number t)).
Proof.
  intros Hok Hrest. destruct (LabelFacts.tokenOk_spec t Hok) as (Hp & Hg & Hn).
  pose proof (LabelFacts.matchGroupAt_token (t_gap t) (t_zero t) (t_number t) rest
                Hg Hn Hrest) as Hm.
  cbv zeta in Hm.
  assert (Hlen : String.length (tokenText t)
                 = String.length ("IT" +:+ t_gap t
                                  +:+ ((if t_zero t then "0" else "")
                                       +:+ decimal (t_number t)))).
  { rewrite <- (LabelFacts.toUpperCase_token t Hok). unfold toUpperCase.
    now rewrite length_mapChars. }
  rewrite (LabelFacts.toUpperCase_token t Hok), Hlen.
  set (digits := (if t_zero t then "0" else "") +:+ decimal (t_number t)) in *.
  replace (("IT" +:+ t_gap t +:+ digits) +:+ rest)
    with ("IT" +:+ t_gap t +:+ digits +:+ rest) by (rewrite !append_assoc; reflexivity).
  change ("IT" +:+ t_gap t +:+ digits +:+ rest)
    with (String "I" ("T" +:+ t_gap t +:+ digits +:+ rest)) in *.
  cbn [searchGroup]. rewrite Hm. reflexivity.
Qed.

(** The hint a text gives when it is written as some text without the
    letter I, a group token, and text that does not go on with a digit. *)
Lemma hint_of_text pre t after :
  plain pre = true -> tokenOk t = true -> noLeadingDigit after = true ->
  let text := pre +:+ tokenText t +:+ after in
  exists start len d,
    searchGroup (toUpperCase text) = Some (start, len, d)
    /\ String.substring start len text = tokenText t
    /\ normalizeClassGroup (tokenText t) = Some (groupLabel (t_number t)).
Proof.
  intros Hpre Hok Hafter text.
  exists (String.length pre + 0)%nat, (String.length (tokenText t)), (decimal (t_number t)).
  split; [| split].
  - unfold text, toUpperCase. rewrite !mapChars_append.
    fold (toUpperCase pre) (toUpperCase (tokenText t)) (toUpperCase after).
    rewrite (searchGroup_plain pre _ Hpre).
    rewrite (searchGroup_token t _ Hok); [reflexivity |].
    now rewrite LabelFacts.noLeadingDigit_upper.
  - rewrite Nat.add_0_r. apply substring_middle.
  - unfold normalizeClassGroup.
    pose proof (searchGroup_token t "" Hok eq_refl) as H. rewrite append_nil_r in H.
    rewrite H. f_equal. f_equal. apply LabelFacts.decimal_shape.
    now apply LabelFacts.tokenOk_spec in Hok.
Qed.

Lemma matchGroupAt_includes s r : matchGroupAt s = Some r -> startsWith "IT" s = true.
Proof. unfold matchGroupAt. destruct (startsWith "IT" s); [reflexivity | discriminate]. Qed.

Lemma searchGroup_includes s : is_Some (searchGroup s) -> includes "IT" s = true.
Proof.
  induction s as [|c s IH].
  - intros [? [=]].
  - cbn [searchGroup includes].
    destruct (matchGroupAt (String c s)) as [[d l]|] eqn:E.
    + intros _. rewrite (matchGroupAt_includes _ _ E). reflexivity.
    + destruct (searchGroup s) as [r|] eqn:Es; [| intros [? [=]]].
      intros _. rewrite IH by eauto. apply orb_true_r.
Qed.

Lemma digits12_prefix s d :
  digits12 s = Some d -> (exists rem, s = d +:+ rem) /\ digits12 d = Some d.
Proof.
  unfold digits12 at 1. destruct s as [|a r]; [discriminate |].
  destruct (isDigit a) eqn:Ha; [| discriminate].
  destruct r as [|b r'].
  - intros [= <-]. split; [exists ""; reflexivity |]. cbn [digits12]. now rewrite Ha.
  - destruct (isDigit b) eqn:Hb; intros [= <-].
    + split; [exists r'; reflexivity |]. cbn [digits12]. now rewrite Ha, Hb.
    + split; [exists (String b r'); reflexivity |]. cbn [digits12]. now rewrite Ha.
Qed.

Lemma dropChars_head p s :
  match dropChars p s with String c _ => p c = false | EmptyString => True end.
Proof.
  induction s as [|c s IH]; [exact I |]. cbn [dropChars].
  destruct (p c) eqn:E; [exact IH | exact E].
Qed.

Lemma matchGroupAt_parts gap body :
  allChars isSpace gap = true ->
  match body with String c _ => isSpace c = false | EmptyString => True end ->
  matchGroupAt ("IT" +:+ gap +:+ body)
  = match body with
    | String c rest' =>
        if Ascii.eqb c "0" then
          match digits12 rest' with
          | Some d => Some (d, 2 + String.length gap + 1 + String.length d)%nat
          | None => Some ("0", 2 + String.length gap + 1)%nat
          end
        else
          match digits12 body with
          | Some d => Some (d, 2 + String.length gap + String.length d)%nat
          | None => None
          end
    | EmptyString => None
    end.
Proof.
  intros Hgap Hbody.
  pose proof (substring_drop "IT" (gap +:+ body)) as Hsub.
  pose proof (startsWith_append "IT" (gap +:+ body)) as Hst.
  unfold matchGroupAt.
  change (String.length "IT") with 2%nat in Hsub.
  rewrite Hst, !Hsub.
  rewrite takeChars_append, dropChars_append by exact Hgap.
  rewrite length_append.
  destruct body as [|c rest']; [reflexivity |].
  cbn [takeChars dropChars]. rewrite Hbody. cbn [String.length].
  rewrite Nat.add_0_r. reflexivity.
Qed.

(** What the token regex matched, matched again by itself, is the same
    match. *)
Lemma matchGroupAt_matched s d len :
  matchGroupAt s = Some (d, len) ->
  exists m rem, s = m +:+ rem /\ String.length m = len /\ matchGroupAt m = Some (d, len).
Proof.
  intros H.
  assert (Hst : startsWith "IT" s = true) by exact (matchGroupAt_includes _ _ H).
  destruct (startsWith_split _ _ Hst) as [r ->].
  pose proof (take_drop_chars isSpace r) as Hr.
  pose proof (takeChars_all isSpace r) as Hgap.
  pose proof (dropChars_head isSpace r) as Hhead.
  set (gap := takeChars isSpace r) in *. set (body := dropChars isSpace r) in *.
  rewrite <- Hr in H |- *. clearbody gap body. clear Hr Hst r.
  rewrite (matchGroupAt_parts gap body Hgap Hhead) in H.
  destruct body as [|c rest']; [discriminate |].
  destruct (Ascii.eqb c "0") eqn:Ec.
  - apply Ascii.eqb_eq in Ec. subst c.
    destruct (digits12 rest') as [d'|] eqn:Ed.
    + injection H as <- <-. destruct (digits12_prefix _ _ Ed) as [[rem ->] Hd].
      exists ("IT" +:+ gap +:+ String "0" d'), rem.
      split; [rewrite !append_assoc; reflexivity |].
      split; [rewrite !length_append; cbn [String.length]; lia |].
      rewrite (matchGroupAt_parts gap (String "0" d') Hgap eq_refl).
      rewrite Ascii.eqb_refl, Hd. reflexivity.
    + injection H as <- <-.
      exists ("IT" +:+ gap +:+ "0"), rest'.
      split; [rewrite !append_assoc; reflexivity |].
      split; [rewrite !length_append; cbn [String.length]; lia |].
      rewrite (matchGroupAt_parts gap "0" Hgap eq_refl). reflexivity.
  - destruct (digits12 (String c rest')) as [d'|] eqn:Ed; [| discriminate].
    injection H as <- <-. destruct (digits12_prefix _ _ Ed) as [[rem Hrem] Hd].
    assert (Hd' : exists t, d' = String c t).
    { destruct d' as [|x t]; [discriminate |]. rewrite append_cons in Hrem.
      injection Hrem as <- _. eauto. }
    destruct Hd' as [t ->].
    exists ("IT" +:+ gap +:+ String c t), rem.
    split; [rewrite Hrem, !append_assoc; reflexivity |].
    split; [rewrite !length_append; cbn [String.length]; lia |].
    rewrite (matchGroupAt_parts gap (String c t) Hgap Hhead).
    rewrite Ec, Hd. reflexivity.
Qed.

Lemma searchGroup_eq s :
  searchGroup s
  = match matchGroupAt s with
    | Some (d, len) => Some (0%nat, len, d)
    | None =>
        match s with
        | EmptyString => None
        | String _ r =>
            match searchGroup r with
            | Some (start, len, d) => Some (S start, len, d)
            | None => None
            end
        end
    end.
Proof. destruct s; reflexivity. Qed.

Lemma substring_mapChars f n m s :
  mapChars f (String.substring n m s) = String.substring n m (mapChars f s).
Proof.
  revert n m. induction s as [|c s IH]; intros n m.
  - destruct n, m; reflexivity.
  - destruct n as [|n].
    + destruct m as [|m]; [reflexivity |]. cbn [String.substring mapChars]. now rewrite IH.
    + cbn [String.substring mapChars]. apply IH.
Qed.

Lemma searchGroup_matched text start len d :
  searchGroup (toUpperCase text) = Some (start, len, d) ->
  searchGroup (toUpperCase (String.substring start len text)) = Some (0%nat, len, d).
Proof.
  revert start. induction text as [|c text IH]; intros start.
  - discriminate.
  - rewrite searchGroup_eq.
    destruct (matchGroupAt (toUpperCase (String c text))) as [[d' len']|] eqn:E.
    + intros [= <- <- <-].
      destruct (matchGroupAt_matched _ _ _ E) as (m & rem & Hs & Hlen & Hm).
      unfold toUpperCase. rewrite substring_mapChars. fold (toUpperCase (String c text)).
      rewrite Hs, <- Hlen, substring_prefix.
      rewrite searchGroup_eq, Hm, Hlen. reflexivity.
    + unfold toUpperCase. cbn [mapChars]. fold (toUpperCase text).
      destruct (searchGroup (toUpperCase text)) as [[[st l] d0]|] eqn:Es; [| discriminate].
      intros [= <- <- <-]. cbn [String.substring]. exact (IH _ eq_refl).
Qed.

(** The hint of a parsed cell is the group its time text names. *)
Lemma classHint_of_text timeText :
  (match searchGroup (toUpperCase timeText) with
   | None => None
   | Some (start, len, _) => Some (String.substring start len timeText)
   end) ≫= normalizeClassGroup
  = normalizeClassGroup timeText.
Proof.
  unfold normalizeClassGroup at 2.
  destruct (searchGroup (toUpperCase timeText)) as [[[start len] d]|] eqn:E; [| reflexivity].
  cbn [mbind option_bind]. unfold normalizeClassGroup.
  rewrite (searchGroup_matched _ _ _ _ E). reflexivity.
Qed.

(** [parseScheduleCell], read off the lines of the cell. *)
Lemma parseScheduleCell_lines cellText :
  parseScheduleCell cellText
  = match linesOf cellText with
    | [] => None
    | line0 :: _ =>
        match normalizeCourseCode line0 with
        | None => None
        | Some courseCode =>
            Some {| pc_classHint := normalizeClassGroup (CellSpec.timeText cellText);
                    pc_courseCode := courseCode;
                    pc_room := cleanCell <$> linesOf cellText !! 1%nat;
                    pc_rawTime := cleanCell <$> linesOf cellText !! 2%nat;
                    pc_startTime := searchTime false (CellSpec.timeText cellText) |}
        end
    end.
Proof.
  unfold parseScheduleCell, CellSpec.timeText, linesOf.
  destruct (filter _ _) as [|line0 lines]; [reflexivity |].
  destruct (normalizeCourseCode line0) as [code|]; [| reflexivity].
  cbv zeta. rewrite classHint_of_text. reflexivity.
Qed.

Lemma normalizeClassGroup_truthy raw hint :
  normalizeClassGroup raw = Some hint -> truthy hint = true.
Proof.
  unfold normalizeClassGroup.
  destruct (searchGroup (toUpperCase raw)) as [[[start len] d]|]; [| discriminate].
  intros [= <-]. reflexivity.
Qed.

(** The events of a cell, read off its lines. *)
Lemma cellEvents_lines sheetName rowIndex session currentGroups row columnIndex day :
  let cell := cleanCell (nth columnIndex row "") in
  cellEvents sheetName rowIndex session currentGroups row (columnIndex, day)
  = match linesOf cell with
    | [] => []
    | line0 :: _ =>
        match normalizeCourseCode line0 with
        | None => []
        | Some courseCode =>
            map (fun classGroupName =>
                   {| ev_classGroupName := classGroupName;
                      ev_dayOfWeek := day;
                      ev_session := session;
                      ev_startTime := searchTime false (CellSpec.timeText cell);
                      ev_rawTime := cleanCell <$> linesOf cell !! 2%nat;
                      ev_room := cleanCell <$> linesOf cell !! 1%nat;
                      ev_courseCode := courseCode;
                      ev_sourceSheet := sheetName;
                      ev_sourceRow := rowIndex + 1 |})
              (match normalizeClassGroup (CellSpec.timeText cell) with
               | Some hint => [hint]
               | None => currentGroups
               end)
        end
    end.
Proof.
  intros cell. unfold cellEvents. fold cell.
  rewrite (parseScheduleCell_lines cell).
  destruct (truthy cell) eqn:Ht; cbn [negb].
  - destruct (linesOf cell) as [|line0 lines]; [reflexivity |].
    destruct (normalizeCourseCode line0) as [code|]; [| reflexivity].
    cbn [pc_classHint pc_startTime pc_rawTime pc_room pc_courseCode].
    destruct (normalizeClassGroup (CellSpec.timeText cell)) as [hint|] eqn:Eh.
    + rewrite (normalizeClassGroup_truthy _ _ Eh).
      destruct (bool_decide _); reflexivity.
    + destruct currentGroups; reflexivity.
  - apply truthy_false in Ht. rewrite Ht. reflexivity.
Qed.

End CellFacts.

(** C10, as stated, does not hold: a hint in the room line of a cell that
    has a time line is not read; the cell's events go to the declared
    groups, and to nobody while none is declared. *)
Lemma hint_in_room_line_is_not_read :
  let cell := CellSpec.cell3 "CS 2255" "B1-203 (IT 05)" "08:00 - 10:30" in
  let row := [""; "Morning"; cell] in
  Js.includes "IT 05" cell = true
  /\ map Importer.ev_classGroupName
       (Importer.cellEvents "SPRING 2026 K69" 7 Importer.MORNING ["IT 01"; "IT 02"] row
          (2%nat, Portal.MON))
     <> ["IT 05"]
  /\ map Importer.ev_classGroupName
       (Importer.cellEvents "SPRING 2026 K69" 7 Importer.MORNING ["IT 01"; "IT 02"] row
          (2%nat, Portal.MON))
     = ["IT 01"; "IT 02"]
  /\ Importer.cellEvents "SPRING 2026 K69" 7 Importer.MORNING [] row (2%nat, Portal.MON) = [].
Proof. vm_compute. repeat split; try reflexivity. discriminate. Qed.

(** C10, amended.  The hint of a cell is the class group its time text
    names, the time text being the third non-empty line of the cell, or the
    whole cell when it has fewer than three.  In the row scan, as long as
    no declaration row was met, every event pushed carries the hint of its
    cell; a cell whose time text holds no hint (in particular, none of the
    letters IT) yields no event while the declared set is empty; a cell
    whose first line is a course code and whose time text holds a hint
    yields one event, for the hinted group alone, whatever the declared set
    is; and a cell of three lines whose time line is written with a group
    token in it hints at the group of that token, which its event goes
    to. *)
Theorem inline_hint_alone_targets_the_cell :
  (forall sheetName rows rowIndex events event,
     Forall (fun row =>
               Importer.looksLikeClassGroupRow (Importer.cleanCell (nth 1 row "")) = false)
       rows ->
     event ∈ Importer.scanRows sheetName rows rowIndex [] events ->
     event ∈ events
     \/ exists row column,
          row ∈ rows /\ column ∈ Importer.DAY_COLUMN_MAP
          /\ Importer.normalizeClassGroup
               (CellSpec.timeText (Importer.cleanCell (nth (fst column) row "")))
             = Some (Importer.ev_classGroupName event))
  /\ (forall sheetName rowIndex session row columnIndex day,
        let cell := Importer.cleanCell (nth columnIndex row "") in
        Importer.normalizeClassGroup (CellSpec.timeText cell) = None
        \/ Js.includes "IT" (Js.toUpperCase (CellSpec.timeText cell)) = false ->
        Importer.cellEvents sheetName rowIndex session [] row (columnIndex, day) = [])
  /\ (forall sheetName rowIndex session currentGroups row columnIndex day line0 lines
             courseCode hint,
        let cell := Importer.cleanCell (nth columnIndex row "") in
        CellSpec.linesOf cell = line0 :: lines ->
        Importer.normalizeCourseCode line0 = Some courseCode ->
        Importer.normalizeClassGroup (CellSpec.timeText cell) = Some hint ->
        let events :=
          Importer.cellEvents sheetName rowIndex session currentGroups row
            (columnIndex, day) in
        map Importer.ev_classGroupName events = [hint]
        /\ map Importer.ev_courseCode events = [courseCode])
  /\ (forall sheetName rowIndex session currentGroups row columnIndex day
             codeLine courseCode room pre token after,
        let timeLine := pre +:+ LabelSpec.tokenText token +:+ after in
        Importer.cleanCell (nth columnIndex row "") = CellSpec.cell3 codeLine room timeLine ->
        CellSpec.lineOk codeLine = true -> CellSpec.lineOk room = true ->
        CellSpec.lineOk timeLine = true ->
        Importer.normalizeCourseCode codeLine = Some courseCode ->
        LabelSpec.plain pre = true -> LabelSpec.tokenOk token = true ->
        LabelSpec.noLeadingDigit after = true ->
        let events :=
          Importer.cellEvents sheetName rowIndex session currentGroups row
            (columnIndex, day) in
        CellSpec.timeText (CellSpec.cell3 codeLine room timeLine) = timeLine
        /\ Importer.normalizeClassGroup timeLine
           = Some (Importer.groupLabel (LabelSpec.t_number token))
        /\ map Importer.ev_classGroupName events
           = [Importer.groupLabel (LabelSpec.t_number token)]
        /\ map Importer.ev_courseCode events = [courseCode]).
Proof.
  split; [| split; [| split]].
  - intros sheetName rows. induction rows as [|row rest IH];
      intros rowIndex events event Hrows; cbn [Importer.scanRows].
    + auto.
    + inversion Hrows as [|? ? Hrow Hrest]; subst.
      assert (Hstep : forall i evs,
                event ∈ Importer.scanRows sheetName rest i [] evs ->
                event ∈ evs
                \/ exists row0 column,
                     row0 ∈ row :: rest /\ column ∈ Importer.DAY_COLUMN_MAP
                     /\ Importer.normalizeClassGroup
                          (CellSpec.timeText (Importer.cleanCell (nth (fst column) row0 "")))
                        = Some (Importer.ev_classGroupName event)).
      { intros i evs Hin. destruct (IH i evs event Hrest Hin) as [? | (r & c & Hr & Hc & Hh)];
          [auto |]. right. exists r, c. split; [now apply list_elem_of_further | auto]. }
      destruct (Importer.isFooter _); [auto |].
      rewrite Hrow.
      destruct (negb _); [apply Hstep |].
      intros Hin. destruct (Hstep _ _ Hin) as [Hev | ?]; [| auto].
      apply elem_of_app in Hev as [? | Hev]; [auto |]. right.
      unfold Importer.rowEvents in Hev.
      apply list_elem_of_In, in_flat_map in Hev as ([columnIndex day] & Hcol & Hev).
      apply list_elem_of_In in Hcol, Hev.
      exists row, (columnIndex, day).
      split; [apply list_elem_of_here |]. split; [exact Hcol |].
      rewrite CellFacts.cellEvents_lines in Hev. cbv zeta in Hev. cbn [fst].
      destruct (CellSpec.linesOf _) as [|line0 lines]; [inversion Hev |].
      destruct (Importer.normalizeCourseCode line0) as [code|]; [| inversion Hev].
      destruct (Importer.normalizeClassGroup _) as [hint|]; [| inversion Hev].
      apply list_elem_of_fmap in Hev as (g & -> & ->%list_elem_of_singleton). reflexivity.
  - intros sheetName rowIndex session row columnIndex day cell Hno.
    rewrite CellFacts.cellEvents_lines. fold cell.
    assert (Hnone : Importer.normalizeClassGroup (CellSpec.timeText cell) = None).
    { destruct Hno as [H | H]; [exact H |]. unfold Importer.normalizeClassGroup.
      destruct (Importer.searchGroup _) as [r|] eqn:E; [| reflexivity].
      rewrite CellFacts.searchGroup_includes in H by eauto. discriminate. }
    rewrite Hnone.
    destruct (CellSpec.linesOf cell) as [|line0 lines]; [reflexivity |].
    destruct (Importer.normalizeCourseCode line0); reflexivity.
  - intros sheetName rowIndex session currentGroups row columnIndex day line0 lines
      courseCode hint cell Hlines Hcode Hhint events.
    unfold events. rewrite CellFacts.cellEvents_lines. fold cell.
    rewrite Hlines, Hcode, Hhint. split; reflexivity.
  - intros sheetName rowIndex session currentGroups row columnIndex day
      codeLine courseCode room pre token after timeLine Hcell Hc Hr Ht Hcode Hpre Hok Hafter
      events.
    pose proof (CellFacts.linesOf_cell3 _ _ _ Hc Hr Ht) as Hlines.
    assert (Htext : CellSpec.timeText (CellSpec.cell3 codeLine room timeLine) = timeLine).
    { unfold CellSpec.timeText. rewrite Hlines.
      cbn [lookup list_lookup fmap option_fmap option_map default].
      destruct (CellFacts.lineOk_spec _ Ht) as (_ & -> & _). reflexivity. }
    assert (Hhint : Importer.normalizeClassGroup timeLine
                    = Some (Importer.groupLabel (LabelSpec.t_number token))).
    { destruct (CellFacts.hint_of_text pre token after Hpre Hok Hafter)
        as (st & len & d & Hs & Hsub & Hn).
      fold timeLine in Hs, Hsub.
      rewrite <- (CellFacts.classHint_of_text timeLine), Hs. cbn [mbind option_bind].
      rewrite Hsub. exact Hn. }
    split; [exact Htext |]. split; [exact Hhint |].
    unfold events. rewrite CellFacts.cellEvents_lines. cbv zeta.
    rewrite Hcell, Hlines, Hcode, Htext, Hhint. split; reflexivity.
Qed.

(** The cell "CS 2255 / B1-203 / 08:00 (it05)" under the declared groups
    IT 01 and IT 02: its one event is for IT 05. *)
Lemma inline_hint_alone_targets_the_cell_witness :
  let cell := CellSpec.cell3 "CS 2255" "B1-203" "08:00 (it05)" in
  let events :=
    Importer.cellEvents "SPRING 2026 K69" 7 Importer.MORNING ["IT 01"; "IT 02"]
      [""; "Morning"; cell] (2%nat, Portal.MON) in
  Importer.normalizeClassGroup "08:00 (it05)" = Some "IT 05"
  /\ map Importer.ev_classGroupName events = ["IT 05"]
  /\ map Importer.ev_courseCode events = ["CS 2255"].
Proof.
  exact (proj2 (proj2 (proj2 (proj2 inline_hint_alone_targets_the_cell))
                  "SPRING 2026 K69" 7%nat Importer.MORNING ["IT 01"; "IT 02"]
                  [""; "Morning"; CellSpec.cell3 "CS 2255" "B1-203" "08:00 (it05)"]
                  2%nat Portal.MON "CS 2255" "CS 2255" "B1-203" "08:00 ("
                  {| LabelSpec.t_prefix := "it"; LabelSpec.t_gap := "";
                     LabelSpec.t_zero := true; LabelSpec.t_number := 5 |}
                  ")" eq_refl eq_refl eq_refl eq_refl eq_refl eq_refl eq_refl eq_refl)).
Defined.

(** A cell hinting at IT 05 under the declared groups IT 01 and IT 02, and
    under none. *)
Example hinted_cell_targets_only_the_hint :
  let cell := "CS 2255" +:+ String (ascii_of_nat 10) "B1-203"
              +:+ String (ascii_of_nat 10) "08:00 (IT 05)" in
  let row := [""; "Morning"; cell; "CS 2255"] in
  map Importer.ev_classGroupName
    (Importer.rowEvents "SPRING 2026 K69" 7 Importer.MORNING ["IT 01"; "IT 02"] row)
  = ["IT 05"; "IT 01"; "IT 02"]
  /\ map Importer.ev_classGroupName
       (Importer.rowEvents "SPRING 2026 K69" 7 Importer.MORNING [] row)
     = ["IT 05"].
Proof. vm_compute. split; reflexivity. Qed.

(** ** The catalog decoder *)

Module CatalogFacts.
Import Catalog CatalogSpec.
Local Open Scope Z_scope.

Ltac divlia := Z.to_euclidean_division_equations; lia.

(** Settle the comparisons the goal tests, by arithmetic where it decides
    them and by cases where it does not. *)
Ltac settle_tests :=
  repeat first
    [ match goal with
      | |- context [?a <=? ?b] =>
          first [ replace (a <=? b) with true by (symmetry; apply Z.leb_le; divlia)
                | replace (a <=? b) with false by (symmetry; apply Z.leb_gt; divlia) ]
      | |- context [?a <? ?b] =>
          first [ replace (a <? b) with true by (symmetry; apply Z.ltb_lt; divlia)
                | replace (a <? b) with false by (symmetry; apply Z.ltb_ge; divlia) ]
      | |- context [?a =? ?b] =>
          first [ replace (a =? b) with true by (symmetry; apply Z.eqb_eq; divlia)
                | replace (a =? b) with false by (symmetry; apply Z.eqb_neq; divlia) ]
      end
    | progress cbn [andb orb fst snd app negb] ].

Lemma decode_encode_one c rest :
  scalar c -> decodeFrom None (encode c ++ rest) = c :: decodeFrom None rest.
Proof.
  intros [Hr Hs]. unfold encode.
  destruct (Z.ltb_spec c 128) as [H1 | H1].
  { cbn [app decodeFrom]. unfold startByte. settle_tests. reflexivity. }
  destruct (Z.ltb_spec c 2048) as [H2 | H2].
  { cbn [app decodeFrom]. unfold startByte. settle_tests.
    f_equal. divlia. }
  destruct (Z.ltb_spec c 65536) as [H3 | H3].
  { cbn [app decodeFrom]. unfold startByte. settle_tests.
    destruct (Z.eqb_spec (224 + c / 4096) 224) as [E1 | E1];
      destruct (Z.eqb_spec (224 + c / 4096) 237) as [E2 | E2];
      settle_tests; f_equal; divlia. }
  cbn [app decodeFrom]. unfold startByte. settle_tests.
  destruct (Z.eqb_spec (240 + c / 262144) 240) as [E1 | E1];
    destruct (Z.eqb_spec (240 + c / 262144) 244) as [E2 | E2];
    settle_tests; f_equal; divlia.
Qed.

Lemma decode_encodeAll cps :
  Forall scalar cps -> decodeFrom None (encodeAll cps) = cps.
Proof.
  induction 1 as [|c cps Hc _ IH]; [reflexivity |].
  unfold encodeAll in *. cbn [flat_map]. rewrite decode_encode_one by exact Hc.
  f_equal. exact IH.
Qed.

Lemma encode_bytes c : 0 <= c < 1114112 -> Forall isByte (encode c).
Proof.
  intros Hr. unfold encode, isByte.
  destruct (Z.ltb_spec c 128); [| destruct (Z.ltb_spec c 2048);
    [| destruct (Z.ltb_spec c 65536)]];
    repeat constructor; divlia.
Qed.

Lemma encodeAll_bytes cps : Forall scalar cps -> Forall isByte (encodeAll cps).
Proof.
  induction 1 as [|c cps [Hc _] _ IH]; [constructor |].
  unfold encodeAll in *. cbn [flat_map]. apply Forall_app. split; [| exact IH].
  apply encode_bytes. exact Hc.
Qed.

Lemma byte_scalar b : isByte b -> scalar b.
Proof. unfold isByte, scalar. lia. Qed.

Lemma utf16_bytes bs : Forall isByte bs -> flat_map utf16 bs = bs.
Proof.
  induction 1 as [|b bs Hb _ IH]; [reflexivity |].
  cbn [flat_map]. rewrite IH. unfold utf16, isByte in *.
  replace (b <? 65536) with true by (symmetry; apply Z.ltb_lt; lia). reflexivity.
Qed.

(** Decoding a stream of encoded bytes gives the bytes back, one code unit
    each. *)
Lemma toStringUtf8_bytes bs : Forall isByte bs -> toStringUtf8 (encodeAll bs) = bs.
Proof.
  intros Hb. unfold toStringUtf8. rewrite decode_encodeAll.
  - apply utf16_bytes. exact Hb.
  - eapply Forall_impl; [exact Hb | exact byte_scalar].
Qed.

Lemma stripBom_bytes bs : Forall isByte bs -> stripBom bs = bs.
Proof.
  intros Hb. destruct Hb as [|b bs Hb _]; [reflexivity |]. unfold stripBom, isByte in *.
  replace (b =? 65279) with false by (symmetry; apply Z.eqb_neq; lia). reflexivity.
Qed.

Lemma fromLatin1_bytes bs : Forall isByte bs -> fromLatin1 bs = bs.
Proof.
  induction 1 as [|b bs Hb _ IH]; [reflexivity |].
  unfold fromLatin1 in *. cbn [map]. rewrite IH. f_equal.
  unfold isByte in Hb. apply Z.mod_small. exact Hb.
Qed.

End CatalogFacts.

Module MarkerFacts.
Import Catalog CatalogSpec CatalogFacts.
Local Open Scope Z_scope.

Lemma countFrom_one m b rest :
  countFrom [m] 0 (b :: rest) = (if m =? b then 1 else 0) + countFrom [m] 0 rest.
Proof.
  cbn [countFrom startsWith length Nat.sub]. rewrite andb_true_r.
  destruct (m =? b); reflexivity.
Qed.

Lemma countFrom_miss marker b rest :
  (hd 0 marker =? b) = false -> marker <> [] ->
  countFrom marker 0 (b :: rest) = countFrom marker 0 rest.
Proof.
  intros Hb Hne. destruct marker as [|m marker]; [contradiction |].
  cbn [countFrom startsWith hd] in *. rewrite Hb. reflexivity.
Qed.

(** The hits of each marker in the bytes of one character, whatever
    follows. *)
Lemma hits_195 c rest :
  scalar c ->
  countFrom [195] 0 (encode c ++ rest)
  = (if (192 <=? c) && (c <=? 255) then 1 else 0) + countFrom [195] 0 rest.
Proof.
  intros [Hr Hs]. unfold encode.
  destruct (Z.ltb_spec c 128); [| destruct (Z.ltb_spec c 2048);
    [| destruct (Z.ltb_spec c 65536)]];
    cbn [app]; rewrite ?countFrom_one;
    destruct (Z.leb_spec 192 c); destruct (Z.leb_spec c 255); cbn [andb];
    settle_tests; lia.
Qed.

Lemma hits_196 c rest :
  scalar c ->
  countFrom [196] 0 (encode c ++ rest)
  = (if (256 <=? c) && (c <=? 319) then 1 else 0) + countFrom [196] 0 rest.
Proof.
  intros [Hr Hs]. unfold encode.
  destruct (Z.ltb_spec c 128); [| destruct (Z.ltb_spec c 2048);
    [| destruct (Z.ltb_spec c 65536)]];
    cbn [app]; rewrite ?countFrom_one;
    destruct (Z.leb_spec 256 c); destruct (Z.leb_spec c 319); cbn [andb];
    settle_tests; lia.
Qed.

Lemma hits_65533 c rest :
  scalar c -> countFrom [65533] 0 (encode c ++ rest) = countFrom [65533] 0 rest.
Proof.
  intros [Hr Hs]. unfold encode.
  destruct (Z.ltb_spec c 128); [| destruct (Z.ltb_spec c 2048);
    [| destruct (Z.ltb_spec c 65536)]];
    cbn [app]; rewrite ?countFrom_one; settle_tests; lia.
Qed.

Lemma hits_225_187 c rest :
  scalar c ->
  countFrom [225; 187] 0 (encode c ++ rest)
  = (if (7872 <=? c) && (c <=? 7935) then 1 else 0) + countFrom [225; 187] 0 rest.
Proof.
  intros [Hr Hs]. unfold encode.
  destruct (Z.ltb_spec c 128); [| destruct (Z.ltb_spec c 2048);
    [| destruct (Z.ltb_spec c 65536)]];
    cbn [app]; destruct (Z.leb_spec 7872 c); destruct (Z.leb_spec c 7935); cbn [andb];
    repeat (rewrite countFrom_miss by (first [discriminate | apply Z.eqb_neq; cbn [hd]; divlia]));
    try lia.
  all: cbn [countFrom startsWith length Nat.sub].
  all: try (destruct (Z.eqb_spec 225 (224 + c / 4096)) as [E | E]); settle_tests.
  all: repeat (rewrite countFrom_miss by (first [discriminate | apply Z.eqb_neq; cbn [hd]; divlia]));
    try lia.
Qed.

Lemma hits_226_8364 c rest :
  scalar c ->
  countFrom [226; 8364] 0 (encode c ++ rest) = countFrom [226; 8364] 0 rest.
Proof.
  intros [Hr Hs]. unfold encode.
  destruct (Z.ltb_spec c 128); [| destruct (Z.ltb_spec c 2048);
    [| destruct (Z.ltb_spec c 65536)]];
    cbn [app];
    repeat (rewrite countFrom_miss by (first [discriminate | apply Z.eqb_neq; cbn [hd]; divlia]));
    try lia.
  all: cbn [countFrom startsWith length Nat.sub].
  all: try (destruct (Z.eqb_spec 226 (224 + c / 4096)) as [E | E]); settle_tests.
  all: repeat (rewrite countFrom_miss by (first [discriminate | apply Z.eqb_neq; cbn [hd]; divlia]));
    try lia.
Qed.

Lemma countFrom_encodeAll marker (contrib : Z -> Z) cps :
  (forall c rest, scalar c ->
     countFrom marker 0 (encode c ++ rest) = contrib c + countFrom marker 0 rest) ->
  Forall scalar cps ->
  countFrom marker 0 (encodeAll cps) = fold_right (fun c n => contrib c + n) 0 cps.
Proof.
  intros Hstep. induction 1 as [|c cps Hc _ IH].
  - destruct marker; reflexivity.
  - unfold encodeAll in *. cbn [flat_map fold_right]. rewrite (Hstep c _ Hc), IH. reflexivity.
Qed.

(** The suspicious substrings of a mis-decoded text are counted off the
    characters of the original. *)
Lemma markerHits_misdecoded cps :
  Forall scalar cps -> markerHits (encodeAll cps) = markedCount cps.
Proof.
  intros Hsc. unfold markerHits, mojibakeMarkers, countMatches. cbn [fold_left].
  rewrite (countFrom_encodeAll [195] _ cps hits_195 Hsc).
  rewrite (countFrom_encodeAll [225; 187] _ cps hits_225_187 Hsc).
  rewrite (countFrom_encodeAll [226; 8364] (fun _ => 0) cps hits_226_8364 Hsc).
  rewrite (countFrom_encodeAll [196] _ cps hits_196 Hsc).
  rewrite (countFrom_encodeAll [65533] (fun _ => 0) cps hits_65533 Hsc).
  clear Hsc. induction cps as [|c cps IH]; [reflexivity |].
  cbn [fold_right markedCount]. cbn [fold_right] in IH. unfold marked.
  destruct (Z.leb_spec 192 c); destruct (Z.leb_spec c 255);
    destruct (Z.leb_spec 256 c); destruct (Z.leb_spec c 319);
    destruct (Z.leb_spec 7872 c); destruct (Z.leb_spec c 7935);
    cbn [andb orb]; lia.
Qed.

End MarkerFacts.

(** C7, as stated, does not hold of every stream that carries the
    corruption of "Khoa Học": the line "Khoa Học Máy Tính" alone,
    mis-decoded, shows three suspicious substrings, fewer than the eight
    the repair asks for, and is returned as decoded, still garbled. *)
Lemma single_garbled_line_is_not_repaired :
  let stream := Catalog.misdecoded CatalogSpec.khoaHocLine in
  Catalog.markerHits (Catalog.stripBom (Catalog.toStringUtf8 stream)) = 3%Z
  /\ Catalog.decodeCatalogCsv stream = Catalog.encodeAll CatalogSpec.khoaHocLine
  /\ Catalog.decodeCatalogCsv stream <> CatalogSpec.khoaHocLine.
Proof. vm_compute. repeat split; try reflexivity. discriminate. Qed.

(** C7, amended.  For every catalog byte stream, with [text] the decoded
    text, [hits] its count of suspicious substrings and [repaired] the
    reinterpretation of [text] as Latin-1 bytes decoded again: the decoder
    returns [repaired] when [hits] is eight or more and a known-good
    accented word occurs in [repaired]; it returns [text] unchanged when
    [hits] is eight or more but no known-good word occurs, and when [hits]
    is below eight; so a result other than [text] needs both.  And for a
    text containing "Khoa Học" or "Tiếng Việt" that reached the file
    mis-decoded (its UTF-8 bytes read as Latin-1 and written out again):
    [hits] is the number of its characters in U+00C0..U+013F and
    U+1EC0..U+1EFF; with eight or more of them the stream decodes to that
    very text, and with fewer it is returned as decoded, one code unit per
    byte of the original. *)
Theorem catalog_repair_is_gated (buffer : list Z) :
  let text := Catalog.stripBom (Catalog.toStringUtf8 buffer) in
  let repaired := Catalog.toStringUtf8 (Catalog.fromLatin1 text) in
  let hits := Catalog.markerHits text in
  let knownGood :=
    Catalog.includes Catalog.khoaHoc repaired
    || Catalog.includes Catalog.tiengViet repaired in
  let result := Catalog.decodeCatalogCsv buffer in
  ((8 <= hits)%Z -> knownGood = true -> result = repaired)
  /\ ((8 <= hits)%Z -> knownGood = false -> result = text)
  /\ ((hits < 8)%Z -> result = text)
  /\ (result <> text -> (8 <= hits)%Z /\ knownGood = true)
  /\ (forall original,
        Forall Catalog.scalar original ->
        buffer = Catalog.misdecoded original ->
        Catalog.includes Catalog.khoaHoc (flat_map Catalog.utf16 original)
        || Catalog.includes Catalog.tiengViet (flat_map Catalog.utf16 original) = true ->
        hits = CatalogSpec.markedCount original
        /\ ((8 <= CatalogSpec.markedCount original)%Z ->
            result = flat_map Catalog.utf16 original)
        /\ ((CatalogSpec.markedCount original < 8)%Z ->
            result = Catalog.encodeAll original)).
Proof.
  intros text repaired hits knownGood result.
  assert (Hdef : result = if (8 <=? hits)%Z
                          then if knownGood then repaired else text
                          else text) by reflexivity.
  split; [| split; [| split; [| split]]].
  - intros Hh Hk. rewrite Hdef, Hk, (proj2 (Z.leb_le _ _) Hh). reflexivity.
  - intros Hh Hk. rewrite Hdef, Hk, (proj2 (Z.leb_le _ _) Hh). reflexivity.
  - intros Hh. rewrite Hdef, (proj2 (Z.leb_gt _ _) Hh). reflexivity.
  - intros Hne. rewrite Hdef in Hne.
    destruct (Z.leb_spec 8 hits) as [Hh | Hh]; [| contradiction].
    destruct knownGood; [auto | contradiction].
  - intros original Hsc -> Hk.
    pose proof (CatalogFacts.encodeAll_bytes _ Hsc) as Hb.
    assert (Htext : text = Catalog.encodeAll original).
    { unfold text, Catalog.misdecoded.
      rewrite CatalogFacts.toStringUtf8_bytes by exact Hb.
      apply CatalogFacts.stripBom_bytes. exact Hb. }
    assert (Hrep : repaired = flat_map Catalog.utf16 original).
    { unfold repaired. rewrite Htext, CatalogFacts.fromLatin1_bytes by exact Hb.
      unfold Catalog.toStringUtf8. rewrite CatalogFacts.decode_encodeAll by exact Hsc.
      reflexivity. }
    assert (Hhits : hits = CatalogSpec.markedCount original).
    { unfold hits. rewrite Htext. apply MarkerFacts.markerHits_misdecoded. exact Hsc. }
    assert (Hgood : knownGood = true).
    { unfold knownGood. rewrite Hrep. exact Hk. }
    split; [exact Hhits |]. rewrite Hdef, Hhits, Hgood. split.
    + intros Hh. rewrite (proj2 (Z.leb_le _ _) Hh). exact Hrep.
    + intros Hh. rewrite (proj2 (Z.leb_gt _ _) Hh). exact Htext.
Qed.

(** Eight catalog lines "Khoa Học Máy Tính", mis-decoded: sixteen of
    their characters are in U+00C0..U+00FF and eight in U+1EC0..U+1EFF, and
    the stream decodes to the accented text. *)
Lemma catalog_repair_is_gated_witness :
  Catalog.markerHits
    (Catalog.stripBom (Catalog.toStringUtf8 (Catalog.misdecoded CatalogSpec.khoaHocLines)))
  = 24%Z
  /\ Catalog.decodeCatalogCsv (Catalog.misdecoded CatalogSpec.khoaHocLines)
     = flat_map Catalog.utf16 CatalogSpec.khoaHocLines.
Proof.
  assert (Hsc : Forall Catalog.scalar CatalogSpec.khoaHocLines).
  { apply (bool_decide_unpack (Forall Catalog.scalar CatalogSpec.khoaHocLines)).
    vm_compute. exact I. }
  destruct (proj2 (proj2 (proj2 (proj2
              (catalog_repair_is_gated (Catalog.misdecoded CatalogSpec.khoaHocLines)))))
              CatalogSpec.khoaHocLines Hsc eq_refl eq_refl) as (Hhits & Hrepair & _).
  split.
  - rewrite Hhits. vm_compute. reflexivity.
  - apply Hrepair. vm_compute. discriminate.
Defined.

(** Eight catalog lines "Khoa Học Máy Tính", mis-decoded: the stream
    carries the signature and decodes to the accented text; one such line
    alone does not, and comes back as decoded. *)
Example catalog_repairs_khoa_hoc :
  let line := Catalog.khoaHoc ++ [32; 77; 225; 121; 32; 84; 237; 110; 104; 10]%Z in
  let doc := line ++ line ++ line ++ line ++ line ++ line ++ line ++ line in
  Catalog.markerHits (Catalog.toStringUtf8 (Catalog.misdecoded doc)) = 24%Z
  /\ Catalog.decodeCatalogCsv (Catalog.misdecoded doc) = doc
  /\ Catalog.decodeCatalogCsv (Catalog.misdecoded line) = Catalog.encodeAll line
  /\ Catalog.decodeCatalogCsv (Catalog.encodeAll doc) = doc.
Proof. vm_compute. repeat split; reflexivity. Qed.

(** ** The entity normalizer *)

Module StoreFacts.
Import Portal Importer Store StoreSpec.

(** *** The loop that fills [entryData] *)

Lemma fold_entryStep_acc semId groupIds courseIds events acc :
  fold_left (entryStep semId groupIds courseIds) events acc
  = acc ++ buildEntryData semId groupIds courseIds events.
Proof.
  unfold buildEntryData. revert acc.
  induction events as [|ev events IH]; intros acc; simpl.
  - rewrite app_nil_r. reflexivity.
  - rewrite (IH (entryStep semId groupIds courseIds acc ev)).
    rewrite (IH (entryStep semId groupIds courseIds [] ev)).
    unfold entryStep.
    destruct (groupIds !! ev_classGroupName ev), (courseIds !! ev_courseCode ev); simpl;
      rewrite ?app_nil_r, <- ?app_assoc; reflexivity.
Qed.

Lemma buildEntryData_cons semId groupIds courseIds ev events :
  buildEntryData semId groupIds courseIds (ev :: events)
  = entryStep semId groupIds courseIds [] ev
    ++ buildEntryData semId groupIds courseIds events.
Proof. unfold buildEntryData at 1. simpl. apply fold_entryStep_acc. Qed.

Lemma buildEntryData_app semId groupIds courseIds l1 l2 :
  buildEntryData semId groupIds courseIds (l1 ++ l2)
  = buildEntryData semId groupIds courseIds l1
    ++ buildEntryData semId groupIds courseIds l2.
Proof.
  unfold buildEntryData at 1. rewrite fold_left_app.
  fold (buildEntryData semId groupIds courseIds l1). apply fold_entryStep_acc.
Qed.

Lemma entryStep_dropped semId groupIds courseIds ev :
  groupIds !! ev_classGroupName ev = None \/ courseIds !! ev_courseCode ev = None ->
  entryStep semId groupIds courseIds [] ev = [].
Proof.
  unfold entryStep. intros [-> | ->]; [reflexivity |].
  destruct (groupIds !! _); reflexivity.
Qed.

Lemma entryStep_kept semId groupIds courseIds ev g c :
  groupIds !! ev_classGroupName ev = Some g -> courseIds !! ev_courseCode ev = Some c ->
  entryStep semId groupIds courseIds [] ev = [entryRow semId g c ev].
Proof. unfold entryStep. intros -> ->. reflexivity. Qed.

Lemma buildEntryData_length semId groupIds courseIds events :
  length (buildEntryData semId groupIds courseIds events)
  = length (filter (resolvable groupIds courseIds) events).
Proof.
  induction events as [|ev events IH]; [reflexivity |].
  rewrite buildEntryData_cons, length_app, IH, filter_cons.
  destruct (decide (resolvable groupIds courseIds ev)) as [[[g Hg] [c Hc]] | Hn].
  - rewrite (entryStep_kept _ _ _ _ _ _ Hg Hc). reflexivity.
  - rewrite entryStep_dropped; [reflexivity |].
    unfold resolvable in Hn.
    destruct (groupIds !! _) eqn:Eg; [| auto].
    destruct (courseIds !! _) eqn:Ec; [| auto].
    exfalso. apply Hn. split; eauto.
Qed.

Lemma buildEntryData_all semId groupIds courseIds events :
  Forall (resolvable groupIds courseIds) events ->
  length (buildEntryData semId groupIds courseIds events) = length events.
Proof.
  intros H. rewrite buildEntryData_length.
  f_equal. induction H as [|ev events Hev _ IH]; [reflexivity |].
  rewrite filter_cons, decide_True by exact Hev. f_equal. exact IH.
Qed.

(** *** What each storage operation touches *)

Lemma storedRows_length start data : length (storedRows start data) = length data.
Proof.
  unfold storedRows. rewrite length_zip_with, length_seq. lia.
Qed.

Lemma createEntries_entries data db :
  scheduleEntries (createEntries data db)
  = scheduleEntries db ++ storedRows (nextId db) data.
Proof.
  unfold createEntries. destruct data as [|d data]; simpl.
  - rewrite app_nil_r. reflexivity.
  - reflexivity.
Qed.

Lemma createEntries_nextId data db :
  nextId (createEntries data db) = nextId db + length data.
Proof.
  unfold createEntries. destruct data as [|d data]; simpl; lia.
Qed.

Lemma createEntries_frame data db :
  semesters (createEntries data db) = semesters db
  /\ cohorts (createEntries data db) = cohorts db
  /\ classGroups (createEntries data db) = classGroups db
  /\ courses (createEntries data db) = courses db
  /\ importRuns (createEntries data db) = importRuns db.
Proof. unfold createEntries. destruct (0 <? _)%nat; repeat split; reflexivity. Qed.

(** [upsertCohort]: the cohort is there afterwards; a cohort that was there
    leaves the state as it is; nothing else than [cohorts] and the id
    counter can change. *)
Lemma upsertCohort_found semId code db c :
  cohorts db !! (semId, code) = Some c -> upsertCohort semId code db = (c, db).
Proof. unfold upsertCohort. intros ->. reflexivity. Qed.

Lemma upsertCohort_lookup semId code db :
  cohorts (snd (upsertCohort semId code db)) !! (semId, code)
  = Some (fst (upsertCohort semId code db)).
Proof.
  unfold upsertCohort. destruct (cohorts db !! (semId, code)) eqn:E; simpl.
  - exact E.
  - apply lookup_insert_eq.
Qed.

Lemma upsertCohort_frame semId code db :
  let db' := snd (upsertCohort semId code db) in
  semesters db' = semesters db /\ classGroups db' = classGroups db
  /\ courses db' = courses db /\ scheduleEntries db' = scheduleEntries db
  /\ importRuns db' = importRuns db /\ nextId db <= nextId db'.
Proof.
  unfold upsertCohort. destruct (cohorts db !! (semId, code)); simpl;
    repeat split; try reflexivity; lia.
Qed.

Lemma upsertCohort_mono semId code db k x :
  cohorts db !! k = Some x -> cohorts (snd (upsertCohort semId code db)) !! k = Some x.
Proof.
  unfold upsertCohort. destruct (cohorts db !! (semId, code)) eqn:E; simpl; [auto |].
  intros Hk. rewrite lookup_insert_ne; [exact Hk |]. intros <-. congruence.
Qed.

(** [deleteClassGroups]. *)
Lemma filter_all {A} (P : A -> Prop) `{forall x, Decision (P x)} (l : list A) :
  Forall P l -> filter P l = l.
Proof.
  induction 1 as [|x l Hx _ IH]; [reflexivity |].
  rewrite filter_cons, decide_True by exact Hx. f_equal. exact IH.
Qed.

Lemma deleteClassGroups_groups c db :
  classGroups (deleteClassGroups c db)
  = filter (fun g => cg_id g ∉ map cg_id (classGroupsOf c db)) (classGroups db).
Proof.
  unfold deleteClassGroups.
  destruct (map cg_id (classGroupsOf c db)) as [|i ids] eqn:E; simpl; [| reflexivity].
  symmetry. apply filter_all. apply Forall_forall. intros g _ H. inversion H.
Qed.

Lemma deleteClassGroups_entries c db :
  scheduleEntries (deleteClassGroups c db)
  = filter (fun e => d_classGroupId (se_data e) ∉ map cg_id (classGroupsOf c db))
      (scheduleEntries db).
Proof.
  unfold deleteClassGroups.
  destruct (map cg_id (classGroupsOf c db)) as [|i ids] eqn:E; simpl; [| reflexivity].
  symmetry. apply filter_all. apply Forall_forall. intros g _ H. inversion H.
Qed.

Lemma deleteClassGroups_frame c db :
  let db' := deleteClassGroups c db in
  semesters db' = semesters db /\ cohorts db' = cohorts db
  /\ courses db' = courses db /\ importRuns db' = importRuns db
  /\ nextId db' = nextId db.
Proof.
  unfold deleteClassGroups. destruct (0 <? _)%nat; simpl; repeat split; reflexivity.
Qed.

Lemma NoDup_map_inj_on {A B} (f : A -> B) (l : list A) x y :
  NoDup (map f l) -> x ∈ l -> y ∈ l -> f x = f y -> x = y.
Proof.
  induction l as [|z l IH]; simpl; intros Hnd Hx Hy Hf; [inversion Hx |].
  inversion Hnd as [|? ? Hz Hl]; subst.
  apply elem_of_cons in Hx as [-> | Hx]; apply elem_of_cons in Hy as [-> | Hy].
  - reflexivity.
  - exfalso. apply Hz. rewrite Hf. apply list_elem_of_fmap. eauto.
  - exfalso. apply Hz. rewrite <- Hf. apply list_elem_of_fmap. eauto.
  - apply IH; assumption.
Qed.

Lemma filter_ext_in {A} (P Q : A -> Prop) `{forall x, Decision (P x)}
    `{forall x, Decision (Q x)} (l : list A) :
  (forall x, x ∈ l -> (P x <-> Q x)) -> filter P l = filter Q l.
Proof.
  induction l as [|x l IH]; intros Hpq; [reflexivity |].
  rewrite !filter_cons.
  assert (Hx : P x <-> Q x) by (apply Hpq; left).
  assert (Hl : filter P l = filter Q l).
  { apply IH. intros y Hy. apply Hpq. right. exact Hy. }
  destruct (decide (P x)), (decide (Q x)); try tauto; rewrite Hl; reflexivity.
Qed.

Lemma filter_none {A} (P : A -> Prop) `{forall x, Decision (P x)} (l : list A) :
  (forall x, x ∈ l -> ~ P x) -> filter P l = [].
Proof.
  induction l as [|x l IH]; intros Hn; [reflexivity |].
  rewrite filter_cons, decide_False by (apply Hn; left).
  apply IH. intros y Hy. apply Hn. right. exact Hy.
Qed.

Lemma map_filter_comm {A B} (f g : A -> B) (P : A -> Prop) (Q : B -> Prop)
    `{forall x, Decision (P x)} `{forall y, Decision (Q y)} (l : list A) :
  (forall x, x ∈ l -> (P x <-> Q (f x))) ->
  (forall x, x ∈ l -> P x -> g x = f x) ->
  map g (filter P l) = filter Q (map f l).
Proof.
  induction l as [|x l IH]; intros Hpq Hgf; [reflexivity |].
  simpl. rewrite !filter_cons.
  assert (IH' : map g (filter P l) = filter Q (map f l)).
  { apply IH; intros y Hy; [apply Hpq | apply Hgf]; right; exact Hy. }
  assert (Hx : P x <-> Q (f x)) by (apply Hpq; left).
  destruct (decide (P x)) as [Hp | Hp], (decide (Q (f x))) as [Hq | Hq];
    [| tauto | tauto | exact IH'].
  simpl. rewrite IH', (Hgf x); [reflexivity | left | exact Hp].
Qed.

Lemma storedRows_data start data : map se_data (storedRows start data) = data.
Proof.
  unfold storedRows. revert start. induction data as [|d data IH]; intros start; simpl.
  - reflexivity.
  - f_equal. apply IH.
Qed.

(** With distinct ids, deleting by id deletes the cohort's groups and no
    other. *)
Lemma existing_id_iff c groups g :
  NoDup (map cg_id groups) -> g ∈ groups ->
  (cg_id g ∈ map cg_id (filter (fun g => cg_cohortId g = c) groups) <-> cg_cohortId g = c).
Proof.
  intros Hnd Hin. split.
  - intros (g' & Hid & [Hc Hin']%list_elem_of_filter)%list_elem_of_fmap.
    assert (g = g') as ->; [| exact Hc].
    exact (NoDup_map_inj_on cg_id groups g g' Hnd Hin Hin' Hid).
  - intros Hc. apply list_elem_of_fmap. exists g. split; [reflexivity |].
    apply list_elem_of_filter. auto.
Qed.

Lemma delete_by_id_is_by_cohort c groups :
  NoDup (map cg_id groups) ->
  filter (fun g => cg_id g ∉ map cg_id (filter (fun g => cg_cohortId g = c) groups)) groups
  = filter (fun g => cg_cohortId g <> c) groups.
Proof.
  intros Hnd. apply filter_ext_in. intros g Hin.
  rewrite (existing_id_iff c groups g Hnd Hin). reflexivity.
Qed.

(** [createClassGroups]. *)
Lemma createClassGroups_groups c names db :
  classGroups (createClassGroups c names db)
  = classGroups db ++ newGroups c (nextId db) names.
Proof.
  unfold createClassGroups, newGroups. destruct names as [|n names]; simpl.
  - rewrite app_nil_r. reflexivity.
  - reflexivity.
Qed.

Lemma createClassGroups_nextId c names db :
  nextId (createClassGroups c names db) = nextId db + length names.
Proof. unfold createClassGroups. destruct names; simpl; lia. Qed.

Lemma createClassGroups_frame c names db :
  let db' := createClassGroups c names db in
  semesters db' = semesters db /\ cohorts db' = cohorts db
  /\ courses db' = courses db /\ scheduleEntries db' = scheduleEntries db
  /\ importRuns db' = importRuns db.
Proof.
  unfold createClassGroups. destruct (0 <? _)%nat; simpl; repeat split; reflexivity.
Qed.

(** [upsertCourse] and the loop over the course codes. *)
Lemma upsertCourse_frame catalog db code :
  let db' := upsertCourse catalog db code in
  semesters db' = semesters db /\ cohorts db' = cohorts db
  /\ classGroups db' = classGroups db /\ scheduleEntries db' = scheduleEntries db
  /\ importRuns db' = importRuns db /\ nextId db <= nextId db'.
Proof.
  unfold upsertCourse. destruct (courses db !! code); simpl;
    repeat split; try reflexivity; lia.
Qed.

Lemma upsertCourses_frame catalog codes db :
  let db' := fold_left (upsertCourse catalog) codes db in
  semesters db' = semesters db /\ cohorts db' = cohorts db
  /\ classGroups db' = classGroups db /\ scheduleEntries db' = scheduleEntries db
  /\ importRuns db' = importRuns db /\ nextId db <= nextId db'.
Proof.
  revert db. induction codes as [|code codes IH]; intros db; simpl.
  - repeat split; try reflexivity; lia.
  - destruct (IH (upsertCourse catalog db code)) as (H1 & H2 & H3 & H4 & H5 & H6).
    destruct (upsertCourse_frame catalog db code) as (G1 & G2 & G3 & G4 & G5 & G6).
    repeat split; try congruence; lia.
Qed.

(** One iteration, in stages. *)
Lemma importSheet_stages cmp semId db totals sheet :
  importSheet cmp semId (db, totals) sheet
  = (afterSheet cmp semId sheet db,
     {| totalEntries := totalEntries totals + length (sheetData cmp semId sheet db);
        totalClassGroups := totalClassGroups totals + length (groupNamesOf cmp sheet);
        allCourseCodes :=
          fold_left (fun s code => setAdd code s) (cohortCourseCodes sheet)
            (allCourseCodes totals) |}).
Proof.
  unfold importSheet, afterSheet, sheetData, afterCourses, afterGroups, afterCohort, cohortOf.
  destruct (upsertCohort semId (p_cohortCode sheet) db). reflexivity.
Qed.

(** *** The new class groups *)

Lemma newGroups_ids c start names : map cg_id (newGroups c start names) = seq start (length names).
Proof.
  unfold newGroups. revert start. induction names as [|n names IH]; intros start; simpl.
  - reflexivity.
  - f_equal. apply IH.
Qed.

Lemma newGroups_names c start names : map cg_name (newGroups c start names) = names.
Proof.
  unfold newGroups. revert start. induction names as [|n names IH]; intros start; simpl.
  - reflexivity.
  - f_equal. apply IH.
Qed.

Lemma newGroups_keys c start names :
  map groupKey (newGroups c start names) = sheetGroups c names.
Proof.
  unfold newGroups, sheetGroups. revert start.
  induction names as [|n names IH]; intros start; simpl.
  - reflexivity.
  - f_equal. apply IH.
Qed.

Lemma newGroups_elem c start names g :
  g ∈ newGroups c start names ->
  cg_cohortId g = c /\ start <= cg_id g < start + length names /\ cg_name g ∈ names.
Proof.
  unfold newGroups. revert start. induction names as [|n names IH]; intros start; simpl.
  - intros H. inversion H.
  - intros [-> | Hin]%elem_of_cons; simpl.
    + split; [reflexivity |]. split; [lia | left].
    + destruct (IH _ Hin) as (H1 & H2 & H3). split; [exact H1 |].
      split; [lia | right; exact H3].
Qed.

Lemma newGroups_of_name c start names name :
  name ∈ names -> exists g, g ∈ newGroups c start names /\ cg_name g = name.
Proof.
  intros Hin. rewrite <- (newGroups_names c start names) in Hin.
  apply list_elem_of_fmap in Hin as (g & -> & Hg). eauto.
Qed.

(** The name-to-id map of a list of groups with distinct names. *)
Lemma fold_insert_groups (l : list ClassGroup) (m0 : gmap string nat) g :
  NoDup (map cg_name l) -> g ∈ l ->
  fold_left (fun m g => <[cg_name g := cg_id g]> m) l m0 !! cg_name g = Some (cg_id g).
Proof.
  induction l as [|g' l IH] using rev_ind; intros Hnd Hin; [inversion Hin |].
  rewrite fold_left_app. simpl.
  rewrite map_app in Hnd. apply NoDup_app in Hnd as (Hl & Hdis & _).
  destruct (decide (cg_name g' = cg_name g)) as [Heq | Hne].
  - rewrite Heq, lookup_insert_eq.
    apply elem_of_app in Hin as [Hin | ->%list_elem_of_singleton]; [| reflexivity].
    exfalso. apply (Hdis (cg_name g)).
    + apply list_elem_of_fmap. eauto.
    + simpl. rewrite Heq. left.
  - rewrite lookup_insert_ne by exact Hne.
    apply elem_of_app in Hin as [Hin | ->%list_elem_of_singleton]; [| contradiction].
    apply IH; assumption.
Qed.

(** Finding a group by its id. *)
Lemma findGroup_app id l1 l2 :
  findGroup id (l1 ++ l2)
  = match findGroup id l1 with Some g => Some g | None => findGroup id l2 end.
Proof.
  induction l1 as [|g l1 IH]; simpl; [reflexivity |].
  destruct (cg_id g =? id)%nat; [reflexivity | exact IH].
Qed.

Lemma findGroup_None id l : id ∉ map cg_id l -> findGroup id l = None.
Proof.
  induction l as [|g l IH]; simpl; intros Hn; [reflexivity |].
  apply not_elem_of_cons in Hn as [Hne Hn].
  rewrite (proj2 (Nat.eqb_neq _ _)) by congruence. apply IH. exact Hn.
Qed.

Lemma findGroup_not_None id l : findGroup id l = None -> id ∉ map cg_id l.
Proof.
  induction l as [|g l IH]; simpl; intros Hf Hin; [inversion Hin |].
  destruct (cg_id g =? id)%nat eqn:E; [discriminate |].
  apply Nat.eqb_neq in E. apply elem_of_cons in Hin as [-> | Hin]; [congruence |].
  exact (IH Hf Hin).
Qed.

Lemma findGroup_Some id l g : findGroup id l = Some g -> g ∈ l /\ cg_id g = id.
Proof.
  induction l as [|g' l IH]; simpl; [discriminate |].
  destruct (cg_id g' =? id)%nat eqn:E.
  - intros H. inversion H. subst. apply Nat.eqb_eq in E. split; [left | exact E].
  - intros H. destruct (IH H). split; [right |]; assumption.
Qed.

Lemma findGroup_elem l g : NoDup (map cg_id l) -> g ∈ l -> findGroup (cg_id g) l = Some g.
Proof.
  induction l as [|g' l IH]; simpl; intros Hnd Hin; [inversion Hin |].
  inversion Hnd as [|? ? Hg' Hl]; subst.
  destruct (cg_id g' =? cg_id g)%nat eqn:E.
  - apply Nat.eqb_eq in E. apply elem_of_cons in Hin as [-> | Hin]; [reflexivity |].
    exfalso. apply Hg'. rewrite E. apply list_elem_of_fmap. eauto.
  - apply Nat.eqb_neq in E. apply elem_of_cons in Hin as [-> | Hin]; [congruence |].
    apply IH; assumption.
Qed.

Lemma findGroup_filter id (P : ClassGroup -> Prop) `{forall g, Decision (P g)} l :
  (forall g, g ∈ l -> cg_id g = id -> P g) ->
  findGroup id (filter P l) = findGroup id l.
Proof.
  induction l as [|g l IH]; intros Hp; [reflexivity |].
  rewrite filter_cons. simpl.
  destruct (cg_id g =? id)%nat eqn:E.
  - apply Nat.eqb_eq in E. rewrite decide_True by (apply Hp; [left | exact E]).
    simpl. rewrite (proj2 (Nat.eqb_eq _ _) E). reflexivity.
  - assert (IH' : findGroup id (filter P l) = findGroup id l).
    { apply IH. intros g' Hg'. apply Hp. right. exact Hg'. }
    destruct (decide (P g)); simpl; [rewrite E |]; exact IH'.
Qed.

(** *** The names and codes of a sheet *)

Lemma groupNamesOf_elem cmp sheet name :
  name ∈ groupNamesOf cmp sheet <-> name ∈ map ev_classGroupName (p_events sheet).
Proof.
  unfold groupNamesOf. rewrite FallbackFacts.sortBy_elem. apply unique_elem.
Qed.

Lemma groupNamesOf_NoDup cmp sheet : NoDup (groupNamesOf cmp sheet).
Proof.
  unfold groupNamesOf. rewrite (FallbackFacts.sortBy_perm _ _). apply unique_NoDup.
Qed.

Lemma cohortCourseCodes_event sheet ev :
  ev ∈ p_events sheet -> ev_courseCode ev ∈ cohortCourseCodes sheet.
Proof.
  intros Hin. unfold cohortCourseCodes. apply unique_elem, elem_of_app. left.
  apply list_elem_of_fmap. eauto.
Qed.

(** *** Courses *)

Lemma upsertCourse_same catalog db code :
  courses (upsertCourse catalog db code) !! code
  = Some (match courses db !! code with
          | Some row => updateCourse (catalogGet code catalog) row
          | None => createCourse (nextId db) (catalogGet code catalog)
          end).
Proof.
  unfold upsertCourse. destruct (courses db !! code); simpl; apply lookup_insert_eq.
Qed.

Lemma upsertCourse_other catalog db code k :
  k <> code -> courses (upsertCourse catalog db code) !! k = courses db !! k.
Proof.
  intros Hne. unfold upsertCourse.
  destruct (courses db !! code); simpl; apply lookup_insert_ne; congruence.
Qed.

Lemma upsertCourse_id catalog db code k x :
  crs_id <$> courses db !! k = Some x ->
  crs_id <$> courses (upsertCourse catalog db code) !! k = Some x.
Proof.
  destruct (decide (k = code)) as [-> | Hne].
  - rewrite upsertCourse_same. destruct (courses db !! code); simpl; [auto | discriminate].
  - rewrite upsertCourse_other by exact Hne. auto.
Qed.

Lemma upsertCourses_id catalog codes db k x :
  crs_id <$> courses db !! k = Some x ->
  crs_id <$> courses (fold_left (upsertCourse catalog) codes db) !! k = Some x.
Proof.
  revert db. induction codes as [|code codes IH]; intros db H; simpl; [exact H |].
  apply IH, upsertCourse_id, H.
Qed.

Lemma upsertCourses_has catalog codes db code :
  code ∈ codes -> is_Some (courses (fold_left (upsertCourse catalog) codes db) !! code).
Proof.
  revert db. induction codes as [|k codes IH]; intros db Hin; [inversion Hin |].
  simpl. apply elem_of_cons in Hin as [-> | Hin]; [| apply IH, Hin].
  assert (H : exists x, crs_id <$> courses (upsertCourse catalog db k) !! k = Some x).
  { rewrite upsertCourse_same. simpl. eauto. }
  destruct H as [x Hx]. apply (upsertCourses_id catalog codes) in Hx.
  destruct (courses _ !! k); [eauto | discriminate].
Qed.

Lemma courseIdByCode_lookup codes db k :
  courseIdByCode codes db !! k
  = if decide (k ∈ codes) then crs_id <$> courses db !! k else None.
Proof.
  unfold courseIdByCode. induction codes as [|code codes IH] using rev_ind.
  - simpl. rewrite lookup_empty. destruct (decide (k ∈ [])) as [H | _]; [inversion H | reflexivity].
  - rewrite fold_left_app. simpl.
    destruct (decide (code = k)) as [-> | Hne].
    + rewrite decide_True by (apply elem_of_app; right; left).
      destruct (courses db !! k) as [row|] eqn:E; simpl.
      * apply lookup_insert_eq.
      * destruct (decide (k ∈ codes)); [exact IH | exact IH].
    + assert (Hlook : forall m : gmap string nat,
                match courses db !! code with
                | Some row => <[code := crs_id row]> m
                | None => m
                end !! k = m !! k).
      { intros m. destruct (courses db !! code); [apply lookup_insert_ne; exact Hne | reflexivity]. }
      rewrite Hlook, IH.
      destruct (decide (k ∈ codes)) as [Hin | Hnin].
      * rewrite decide_True by (apply elem_of_app; left; exact Hin). reflexivity.
      * rewrite decide_False; [reflexivity |].
        intros [? | ?%list_elem_of_singleton]%elem_of_app; [contradiction | congruence].
Qed.

(** When every event resolves, the data is one row per event. *)
Lemma buildEntryData_map semId groupIds courseIds events :
  Forall (resolvable groupIds courseIds) events ->
  buildEntryData semId groupIds courseIds events
  = map (fun ev => entryRow semId (default 0 (groupIds !! ev_classGroupName ev))
                     (default 0 (courseIds !! ev_courseCode ev)) ev) events.
Proof.
  induction 1 as [|ev events [[g Hg] [c Hc]] _ IH]; [reflexivity |].
  rewrite buildEntryData_cons, (entryStep_kept _ _ _ _ _ _ Hg Hc), IH. simpl.
  rewrite Hg, Hc. reflexivity.
Qed.

(** *** The stages of one iteration, on a well-formed state *)

Section StageFacts.
Variable cmp : string -> string -> Z.
Variable semId : nat.
Variable sheet : ParsedSheetData.
Variable db : DB.
Hypothesis Hwf : wellFormed db.

Let c := cohortOf semId sheet db.
Let names := groupNamesOf cmp sheet.
Let start := nextId (afterCohort semId sheet db).
Let existingIds := map cg_id (classGroupsOf c db).

Lemma afterCohort_same :
  classGroups (afterCohort semId sheet db) = classGroups db
  /\ scheduleEntries (afterCohort semId sheet db) = scheduleEntries db
  /\ nextId db <= start.
Proof.
  destruct (upsertCohort_frame semId (p_cohortCode sheet) db) as (_ & H1 & _ & H2 & _ & H3).
  auto.
Qed.

Lemma afterGroups_groups :
  classGroups (afterGroups cmp semId sheet db)
  = filter (fun g => cg_cohortId g <> c) (classGroups db) ++ newGroups c start names.
Proof.
  destruct afterCohort_same as (Hg & _ & _). destruct Hwf as (Hnd & _ & _).
  unfold afterGroups. fold c names.
  rewrite createClassGroups_groups, deleteClassGroups_groups.
  destruct (deleteClassGroups_frame c (afterCohort semId sheet db)) as (_ & _ & _ & _ & ->).
  unfold classGroupsOf. rewrite Hg.
  rewrite delete_by_id_is_by_cohort by exact Hnd. reflexivity.
Qed.

Lemma afterGroups_nextId :
  nextId (afterGroups cmp semId sheet db) = start + length names.
Proof.
  unfold afterGroups. rewrite createClassGroups_nextId.
  destruct (deleteClassGroups_frame (cohortOf semId sheet db) (afterCohort semId sheet db))
    as (_ & _ & _ & _ & ->). reflexivity.
Qed.

Lemma afterGroups_entries :
  scheduleEntries (afterGroups cmp semId sheet db)
  = filter (fun e => d_classGroupId (se_data e) ∉ existingIds) (scheduleEntries db).
Proof.
  destruct afterCohort_same as (Hg & He & _).
  unfold afterGroups.
  destruct (createClassGroups_frame (cohortOf semId sheet db) (groupNamesOf cmp sheet)
              (deleteClassGroups (cohortOf semId sheet db) (afterCohort semId sheet db)))
    as (_ & _ & _ & -> & _).
  rewrite deleteClassGroups_entries. unfold classGroupsOf. rewrite Hg, He. reflexivity.
Qed.

Lemma afterGroups_of_cohort :
  classGroupsOf c (afterGroups cmp semId sheet db) = newGroups c start names.
Proof.
  unfold classGroupsOf. rewrite afterGroups_groups, filter_app.
  replace (filter _ (filter _ (classGroups db))) with (@nil ClassGroup).
  - simpl. apply filter_all. apply Forall_forall. intros g Hg.
    apply (newGroups_elem _ _ _ _ Hg).
  - symmetry. apply filter_none.
    intros g [Hne _]%list_elem_of_filter Heq. contradiction.
Qed.

Let codes := cohortCourseCodes sheet.
Let groupIds := classGroupIdByName c (afterGroups cmp semId sheet db).
Let gidOf (ev : ParsedEvent) : nat := default 0 (groupIds !! ev_classGroupName ev).

Lemma sheet_groupIds g :
  g ∈ newGroups c start names -> groupIds !! cg_name g = Some (cg_id g).
Proof.
  intros Hg. unfold groupIds, classGroupIdByName. rewrite afterGroups_of_cohort.
  apply fold_insert_groups; [| exact Hg].
  rewrite newGroups_names. apply groupNamesOf_NoDup.
Qed.

Lemma gidOf_group ev :
  ev ∈ p_events sheet ->
  exists g, g ∈ newGroups c start names /\ cg_name g = ev_classGroupName ev
            /\ groupIds !! ev_classGroupName ev = Some (cg_id g)
            /\ gidOf ev = cg_id g.
Proof.
  intros Hev.
  assert (Hn : ev_classGroupName ev ∈ names).
  { apply groupNamesOf_elem, list_elem_of_fmap. eauto. }
  destruct (newGroups_of_name c start names _ Hn) as (g & Hg & Hname).
  exists g. split; [exact Hg |]. split; [exact Hname |].
  pose proof (sheet_groupIds g Hg) as Hl. rewrite Hname in Hl.
  split; [exact Hl |]. unfold gidOf. rewrite Hl. reflexivity.
Qed.

Lemma afterCourses_same :
  classGroups (afterCourses cmp semId sheet db) = classGroups (afterGroups cmp semId sheet db)
  /\ scheduleEntries (afterCourses cmp semId sheet db)
     = scheduleEntries (afterGroups cmp semId sheet db)
  /\ start + length names <= nextId (afterCourses cmp semId sheet db).
Proof.
  unfold afterCourses.
  destruct (upsertCourses_frame (p_catalog sheet) (cohortCourseCodes sheet)
              (afterGroups cmp semId sheet db)) as (_ & _ & H1 & H2 & _ & H3).
  rewrite afterGroups_nextId in H3. auto.
Qed.

Lemma events_resolvable :
  Forall (resolvable groupIds (courseIdByCode codes (afterCourses cmp semId sheet db)))
    (p_events sheet).
Proof.
  apply Forall_forall. intros ev Hev. split.
  - destruct (gidOf_group ev Hev) as (g & _ & _ & Hl & _). rewrite Hl. eauto.
  - rewrite courseIdByCode_lookup.
    rewrite decide_True by (apply cohortCourseCodes_event; exact Hev).
    destruct (upsertCourses_has (p_catalog sheet) codes (afterGroups cmp semId sheet db)
                (ev_courseCode ev)) as [row Hrow].
    { apply cohortCourseCodes_event. exact Hev. }
    unfold afterCourses. fold codes. rewrite Hrow. simpl. eauto.
Qed.

Lemma sheetData_map :
  sheetData cmp semId sheet db
  = map (fun ev => entryRow semId (gidOf ev)
                     (courseIdIn (afterCourses cmp semId sheet db) (ev_courseCode ev)) ev)
      (p_events sheet).
Proof.
  unfold sheetData. fold c groupIds codes.
  rewrite (buildEntryData_map _ _ _ _ events_resolvable).
  apply map_ext_in. intros ev Hev%list_elem_of_In.
  unfold gidOf, courseIdIn. rewrite courseIdByCode_lookup.
  rewrite decide_True by (apply cohortCourseCodes_event; exact Hev). reflexivity.
Qed.

Lemma sheetData_length : length (sheetData cmp semId sheet db) = length (p_events sheet).
Proof. rewrite sheetData_map. apply length_map. Qed.

Lemma afterSheet_groups :
  classGroups (afterSheet cmp semId sheet db)
  = filter (fun g => cg_cohortId g <> c) (classGroups db) ++ newGroups c start names.
Proof.
  unfold afterSheet.
  destruct (createEntries_frame (sheetData cmp semId sheet db)
              (afterCourses cmp semId sheet db)) as (_ & _ & -> & _ & _).
  destruct afterCourses_same as (-> & _ & _). apply afterGroups_groups.
Qed.

Lemma afterSheet_entries :
  scheduleEntries (afterSheet cmp semId sheet db)
  = filter (fun e => d_classGroupId (se_data e) ∉ existingIds) (scheduleEntries db)
    ++ storedRows (nextId (afterCourses cmp semId sheet db)) (sheetData cmp semId sheet db).
Proof.
  unfold afterSheet. rewrite createEntries_entries.
  destruct afterCourses_same as (_ & -> & _). rewrite afterGroups_entries. reflexivity.
Qed.

Lemma afterSheet_frame :
  semesters (afterSheet cmp semId sheet db) = semesters db
  /\ cohorts (afterSheet cmp semId sheet db) = cohorts (afterCohort semId sheet db)
  /\ courses (afterSheet cmp semId sheet db) = courses (afterCourses cmp semId sheet db)
  /\ importRuns (afterSheet cmp semId sheet db) = importRuns db
  /\ nextId (afterCourses cmp semId sheet db) <= nextId (afterSheet cmp semId sheet db).
Proof.
  unfold afterSheet.
  destruct (createEntries_frame (sheetData cmp semId sheet db)
              (afterCourses cmp semId sheet db)) as (H1 & H2 & _ & H4 & H5).
  rewrite H1, H2, H4, H5, createEntries_nextId.
  unfold afterCourses.
  destruct (upsertCourses_frame (p_catalog sheet) (cohortCourseCodes sheet)
              (afterGroups cmp semId sheet db)) as (G1 & G2 & _ & _ & G5 & _).
  rewrite G1, G2, G5. unfold afterGroups.
  destruct (createClassGroups_frame (cohortOf semId sheet db) (groupNamesOf cmp sheet)
              (deleteClassGroups (cohortOf semId sheet db) (afterCohort semId sheet db)))
    as (F1 & F2 & _ & _ & F5).
  rewrite F1, F2, F5.
  destruct (deleteClassGroups_frame (cohortOf semId sheet db) (afterCohort semId sheet db))
    as (E1 & E2 & _ & E4 & _).
  rewrite E1, E2, E4.
  destruct (upsertCohort_frame semId (p_cohortCode sheet) db) as (D1 & _ & _ & _ & D5 & _).
  unfold afterCohort. rewrite D1, D5.
  repeat split; try reflexivity. lia.
Qed.

Lemma afterSheet_wf : wellFormed (afterSheet cmp semId sheet db).
Proof.
  destruct Hwf as (Hnd & Hg & He).
  destruct afterCohort_same as (_ & _ & Hstart).
  destruct afterCourses_same as (_ & _ & Hcourses).
  destruct afterSheet_frame as (_ & _ & _ & _ & Hnext).
  rewrite Forall_forall in Hg. rewrite Forall_forall in He.
  unfold wellFormed. rewrite afterSheet_groups, afterSheet_entries.
  split; [| split].
  - rewrite map_app. apply NoDup_app. split; [| split].
    + refine (sublist_NoDup _ _ Hnd _). apply (fmap_sublist cg_id), sublist_filter.
    + intros x (g & -> & [_ Hin]%list_elem_of_filter)%list_elem_of_fmap
             (g' & Heq & Hin')%list_elem_of_fmap.
      specialize (Hg g Hin). apply newGroups_elem in Hin' as (_ & Hr & _). lia.
    + rewrite newGroups_ids. apply NoDup_seq.
  - apply Forall_app. split; apply Forall_forall.
    + intros g [_ Hin]%list_elem_of_filter. specialize (Hg g Hin). lia.
    + intros g Hin. apply newGroups_elem in Hin as (_ & Hr & _). lia.
  - apply Forall_app. split; apply Forall_forall.
    + intros e [_ Hin]%list_elem_of_filter. specialize (He e Hin). lia.
    + intros e Hin.
      assert (Hd : se_data e ∈ sheetData cmp semId sheet db).
      { rewrite <- (storedRows_data (nextId (afterCourses cmp semId sheet db))).
        apply list_elem_of_fmap. eauto. }
      rewrite sheetData_map in Hd.
      apply list_elem_of_fmap in Hd as (ev & -> & Hev). simpl.
      destruct (gidOf_group ev Hev) as (g & Hin' & _ & _ & ->).
      apply newGroups_elem in Hin' as (_ & Hr & _). lia.
Qed.

(** The views after the iteration. *)
Lemma afterSheet_groupView :
  classGroupView (afterSheet cmp semId sheet db)
  = replaceGroups c (sheetGroups c names) (classGroupView db).
Proof.
  unfold classGroupView, replaceGroups.
  rewrite afterSheet_groups, map_app, newGroups_keys. f_equal.
  apply map_filter_comm; [intros g _; reflexivity | reflexivity].
Qed.

Lemma existing_iff_view j :
  j ∉ existingIds <-> fst <$> groupOf (classGroups db) j <> Some c.
Proof.
  destruct Hwf as (Hnd & _ & _). unfold groupOf, existingIds, classGroupsOf.
  destruct (findGroup j (classGroups db)) as [g|] eqn:Hf; simpl.
  - apply findGroup_Some in Hf as [Hin <-].
    rewrite (existing_id_iff c _ g Hnd Hin). split; congruence.
  - split; [discriminate |]. intros _ Hin.
    apply findGroup_not_None in Hf. apply Hf.
    apply list_elem_of_fmap in Hin as (g & -> & [_ Hin]%list_elem_of_filter).
    apply list_elem_of_fmap. eauto.
Qed.

Lemma groupOf_kept j :
  j < nextId db -> j ∉ existingIds ->
  groupOf (classGroups (afterSheet cmp semId sheet db)) j = groupOf (classGroups db) j.
Proof.
  intros Hj Hn. destruct Hwf as (Hnd & _ & _).
  destruct afterCohort_same as (_ & _ & Hstart).
  unfold groupOf. rewrite afterSheet_groups, findGroup_app.
  rewrite findGroup_filter.
  - destruct (findGroup j (classGroups db)); [reflexivity |].
    rewrite findGroup_None; [reflexivity |].
    rewrite newGroups_ids. intros Hin%elem_of_seq. lia.
  - intros g Hin Hid Hc. apply Hn. subst j.
    apply (existing_id_iff c _ g Hnd Hin). exact Hc.
Qed.

Lemma groupOf_new g :
  g ∈ newGroups c start names ->
  groupOf (classGroups (afterSheet cmp semId sheet db)) (cg_id g) = Some (c, cg_name g).
Proof.
  intros Hg. destruct Hwf as (_ & Hb & _). rewrite Forall_forall in Hb.
  destruct afterCohort_same as (_ & _ & Hstart).
  pose proof (newGroups_elem _ _ _ _ Hg) as (Hc & Hr & _).
  unfold groupOf. rewrite afterSheet_groups, findGroup_app.
  rewrite findGroup_None.
  - rewrite findGroup_elem; [| rewrite newGroups_ids; apply NoDup_seq | exact Hg].
    simpl. unfold groupKey. rewrite Hc. reflexivity.
  - intros (g' & Heq & [_ Hin]%list_elem_of_filter)%list_elem_of_fmap.
    specialize (Hb g' Hin). lia.
Qed.

Lemma afterSheet_entryView :
  entryView (afterSheet cmp semId sheet db)
  = replaceEntries c (sheetEntries (afterSheet cmp semId sheet db) semId c sheet)
      (entryView db).
Proof.
  destruct Hwf as (_ & _ & He). rewrite Forall_forall in He.
  unfold entryView, replaceEntries. rewrite afterSheet_entries, map_app. f_equal.
  - apply map_filter_comm.
    + intros e _. apply existing_iff_view.
    + intros e Hin Hkeep. unfold entryViewOf. f_equal.
      apply groupOf_kept; [apply He; exact Hin | exact Hkeep].
  - set (groups := classGroups (afterSheet cmp semId sheet db)).
    transitivity (map (fun d => (groupOf groups (d_classGroupId d), eraseGroup d))
                    (sheetData cmp semId sheet db)).
    { rewrite <- (storedRows_data (nextId (afterCourses cmp semId sheet db))
                    (sheetData cmp semId sheet db)) at 2.
      rewrite map_map. reflexivity. }
    rewrite sheetData_map, map_map. unfold sheetEntries.
    apply map_ext_in. intros ev Hev%list_elem_of_In. simpl.
    destruct (gidOf_group ev Hev) as (g & Hg & Hname & _ & ->).
    unfold groups. rewrite (groupOf_new g Hg), Hname.
    unfold courseIdIn. destruct afterSheet_frame as (_ & _ & -> & _ & _). reflexivity.
Qed.

End StageFacts.

End StoreFacts.

(** ** Importing twice *)

Module CourseFacts.
Import Portal Importer Store StoreSpec.

Lemma keepsOrSets_fold {A W} (ov : W -> A -> A) (ws : list W) :
  (forall w, keepsOrSets (ov w)) ->
  keepsOrSets (fun x => fold_left (fun old w => ov w old) ws x).
Proof.
  intros Hov. induction ws as [|w ws IH] using rev_ind.
  - left. reflexivity.
  - destruct (Hov w) as [Hk | [v Hv]].
    + destruct IH as [Hid | [v Hv]].
      * left. intros x. rewrite fold_left_app. simpl. rewrite Hk. apply Hid.
      * right. exists v. intros x. rewrite fold_left_app. simpl. rewrite Hk. apply Hv.
    + right. exists v. intros x. rewrite fold_left_app. simpl. apply Hv.
Qed.

Lemma keepsOrSets_idem {A} (f : A -> A) x : keepsOrSets f -> f (f x) = f x.
Proof. intros [Hk | [v Hv]]; [rewrite !Hk | rewrite !Hv]; reflexivity. Qed.

Lemma keepsOrSets_absorb {A} (f g : A -> A) x :
  keepsOrSets f -> g x = x -> f (g (f x)) = f x.
Proof.
  intros [Hk | [v Hv]] Hg; [rewrite !Hk, Hg | rewrite !Hv]; reflexivity.
Qed.

Lemma overwriteText_keepsOrSets new : keepsOrSets (overwriteText new).
Proof.
  unfold overwriteText. destruct new as [v|]; [| left; reflexivity].
  destruct (Js.truthy v); [right; exists (Some v) | left]; intros x; reflexivity.
Qed.

Lemma overwriteText_self new : overwriteText new new = new.
Proof. unfold overwriteText. destruct new as [v|]; [destruct (Js.truthy v) |]; reflexivity. Qed.

Lemma overwriteNumber_keepsOrSets new : keepsOrSets (overwriteNumber new).
Proof.
  destruct new as [n|]; [right; exists (Some n) | left]; intros x; reflexivity.
Qed.

Lemma course_eq (r1 r2 : Course) :
  crs_id r1 = crs_id r2 -> crs_nameEn r1 = crs_nameEn r2 ->
  crs_nameVi r1 = crs_nameVi r2 -> crs_credits r1 = crs_credits r2 ->
  crs_prerequisite r1 = crs_prerequisite r2 -> r1 = r2.
Proof. destruct r1, r2. simpl. congruence. Qed.

(** The fields of a row after a run of updates. *)
Lemma applyAll_fields metas row :
  crs_id (applyAll metas row) = crs_id row
  /\ crs_nameEn (applyAll metas row)
     = fold_left (fun old m => overwriteText (m ≫= m_nameEn) old) metas (crs_nameEn row)
  /\ crs_nameVi (applyAll metas row)
     = fold_left (fun old m => overwriteText (m ≫= m_nameVi) old) metas (crs_nameVi row)
  /\ crs_credits (applyAll metas row)
     = fold_left (fun old m => overwriteNumber (m ≫= m_credits) old) metas (crs_credits row)
  /\ crs_prerequisite (applyAll metas row)
     = fold_left (fun old m => overwriteText (m ≫= m_prerequisite) old) metas
         (crs_prerequisite row).
Proof.
  unfold applyAll. revert row. induction metas as [|m metas IH]; intros row; simpl.
  - repeat split; reflexivity.
  - destruct (IH (updateCourse m row)) as (H1 & H2 & H3 & H4 & H5).
    rewrite H1, H2, H3, H4, H5. repeat split; reflexivity.
Qed.

Lemma applyAll_app l1 l2 row : applyAll (l1 ++ l2) row = applyAll l2 (applyAll l1 row).
Proof. unfold applyAll. apply fold_left_app. Qed.

Lemma applyAll_idem metas row : applyAll metas (applyAll metas row) = applyAll metas row.
Proof.
  destruct (applyAll_fields metas (applyAll metas row)) as (H1 & H2 & H3 & H4 & H5).
  destruct (applyAll_fields metas row) as (G1 & G2 & G3 & G4 & G5).
  apply course_eq.
  - rewrite H1. reflexivity.
  - rewrite H2, G2.
    apply (keepsOrSets_idem
             (fun x => fold_left (fun old m => overwriteText (m ≫= m_nameEn) old) metas x)).
    apply keepsOrSets_fold. intros m. apply overwriteText_keepsOrSets.
  - rewrite H3, G3.
    apply (keepsOrSets_idem
             (fun x => fold_left (fun old m => overwriteText (m ≫= m_nameVi) old) metas x)).
    apply keepsOrSets_fold. intros m. apply overwriteText_keepsOrSets.
  - rewrite H4, G4.
    apply (keepsOrSets_idem
             (fun x => fold_left (fun old m => overwriteNumber (m ≫= m_credits) old) metas x)).
    apply keepsOrSets_fold. intros m. apply overwriteNumber_keepsOrSets.
  - rewrite H5, G5.
    apply (keepsOrSets_idem
             (fun x => fold_left (fun old m => overwriteText (m ≫= m_prerequisite) old)
                         metas x)).
    apply keepsOrSets_fold. intros m. apply overwriteText_keepsOrSets.
Qed.

(** A created row absorbs the update by its own catalog entry, also after
    further updates. *)
Lemma applyAll_absorb metas meta id :
  applyAll metas (updateCourse meta (applyAll metas (createCourse id meta)))
  = applyAll metas (createCourse id meta).
Proof.
  set (row := createCourse id meta).
  destruct (applyAll_fields metas (updateCourse meta (applyAll metas row)))
    as (H1 & H2 & H3 & H4 & H5).
  destruct (applyAll_fields metas row) as (G1 & G2 & G3 & G4 & G5).
  apply course_eq.
  - rewrite H1. simpl. reflexivity.
  - rewrite H2. simpl. rewrite G2.
    apply (keepsOrSets_absorb
             (fun x => fold_left (fun old m => overwriteText (m ≫= m_nameEn) old) metas x)
             (overwriteText (meta ≫= m_nameEn))).
    + apply keepsOrSets_fold. intros m. apply overwriteText_keepsOrSets.
    + apply overwriteText_self.
  - rewrite H3. simpl. rewrite G3.
    apply (keepsOrSets_absorb
             (fun x => fold_left (fun old m => overwriteText (m ≫= m_nameVi) old) metas x)
             (overwriteText (meta ≫= m_nameVi))).
    + apply keepsOrSets_fold. intros m. apply overwriteText_keepsOrSets.
    + apply overwriteText_self.
  - rewrite H4. simpl. rewrite G4.
    apply (keepsOrSets_absorb
             (fun x => fold_left (fun old m => overwriteNumber (m ≫= m_credits) old) metas x)
             (overwriteNumber (meta ≫= m_credits))).
    + apply keepsOrSets_fold. intros m. apply overwriteNumber_keepsOrSets.
    + simpl. destruct (meta ≫= m_credits); reflexivity.
  - rewrite H5. simpl. rewrite G5.
    apply (keepsOrSets_absorb
             (fun x => fold_left (fun old m => overwriteText (m ≫= m_prerequisite) old)
                         metas x)
             (overwriteText (meta ≫= m_prerequisite))).
    + apply keepsOrSets_fold. intros m. apply overwriteText_keepsOrSets.
    + apply overwriteText_self.
Qed.

(** The course table along an import. *)
Lemma metasFor_app code l1 l2 :
  metasFor code (l1 ++ l2) = metasFor code l1 ++ metasFor code l2.
Proof. unfold metasFor. rewrite filter_app, map_app. reflexivity. Qed.

Lemma upserted_nil m : upserted [] m m.
Proof. intros code. simpl. destruct (m !! code); reflexivity. Qed.

Lemma upserted_one catalog db code :
  upserted [(code, catalogGet code catalog)] (courses db)
    (courses (upsertCourse catalog db code)).
Proof.
  intros k. unfold metasFor. rewrite filter_cons, filter_nil. simpl.
  destruct (decide (code = k)) as [-> | Hne]; simpl.
  - rewrite StoreFacts.upsertCourse_same.
    destruct (courses db !! k); [reflexivity | eauto].
  - rewrite StoreFacts.upsertCourse_other by congruence.
    destruct (courses db !! k); reflexivity.
Qed.

Lemma upserted_app ops1 ops2 m m' m'' :
  upserted ops1 m m' -> upserted ops2 m' m'' -> upserted (ops1 ++ ops2) m m''.
Proof.
  intros H1 H2 code. specialize (H1 code). specialize (H2 code).
  rewrite metasFor_app.
  destruct (m !! code) as [row|].
  - rewrite H1 in H2. rewrite H2, applyAll_app. reflexivity.
  - destruct (metasFor code ops1) as [|meta metas]; simpl.
    + rewrite H1 in H2. exact H2.
    + destruct H1 as [id H1]. rewrite H1 in H2. exists id.
      rewrite H2, applyAll_app. reflexivity.
Qed.

Lemma upserted_codes catalog codes db :
  upserted (map (fun code => (code, catalogGet code catalog)) codes) (courses db)
    (courses (fold_left (upsertCourse catalog) codes db)).
Proof.
  revert db. induction codes as [|code codes IH]; intros db; simpl.
  - apply upserted_nil.
  - apply (upserted_app [_] _ _ _ _ (upserted_one catalog db code)). apply IH.
Qed.

Lemma afterGroups_courses cmp semId sheet db :
  courses (afterGroups cmp semId sheet db) = courses db.
Proof.
  unfold afterGroups.
  destruct (StoreFacts.createClassGroups_frame (cohortOf semId sheet db)
              (groupNamesOf cmp sheet)
              (deleteClassGroups (cohortOf semId sheet db) (afterCohort semId sheet db)))
    as (_ & _ & -> & _ & _).
  destruct (StoreFacts.deleteClassGroups_frame (cohortOf semId sheet db)
              (afterCohort semId sheet db)) as (_ & _ & -> & _ & _).
  destruct (StoreFacts.upsertCohort_frame semId (p_cohortCode sheet) db)
    as (_ & _ & H & _).
  exact H.
Qed.

Lemma upserted_sheet cmp semId sheet db :
  upserted (courseOps sheet) (courses db) (courses (afterSheet cmp semId sheet db)).
Proof.
  destruct (StoreFacts.afterSheet_frame cmp semId sheet db) as (_ & _ & -> & _ & _).
  unfold afterCourses, courseOps.
  rewrite <- (afterGroups_courses cmp semId sheet db) at 1.
  apply upserted_codes.
Qed.

Lemma upserted_fold cmp semId sheets db totals :
  upserted (flat_map courseOps sheets) (courses db)
    (courses (fst (fold_left (importSheet cmp semId) sheets (db, totals)))).
Proof.
  revert db totals. induction sheets as [|sheet sheets IH]; intros db totals;
    cbn [fold_left flat_map].
  - apply upserted_nil.
  - rewrite StoreFacts.importSheet_stages.
    eapply upserted_app; [apply upserted_sheet | apply IH].
Qed.

(** Upserting the same writes a second time changes nothing. *)
Lemma upserted_twice ops m0 m1 m2 :
  upserted ops m0 m1 -> upserted ops m1 m2 -> m2 = m1.
Proof.
  intros H1 H2. apply map_eq. intros code.
  specialize (H1 code). specialize (H2 code).
  destruct (m0 !! code) as [row|].
  - rewrite H1 in H2. rewrite H2, H1, applyAll_idem. reflexivity.
  - destruct (metasFor code ops) as [|meta metas].
    + rewrite H1 in H2. rewrite H2, H1. reflexivity.
    + destruct H1 as [id H1]. rewrite H1 in H2. rewrite H2, H1.
      f_equal. change (applyAll (meta :: metas) ?r) with
        (applyAll metas (updateCourse meta r)).
      apply applyAll_absorb.
Qed.

End CourseFacts.

Module ReplaceFacts.
Import StoreSpec.

Section Replace.
Context {A S K : Type} `{EqDecision K}.
Variable key : A -> K.
Variable keyOf : S -> K.
Variable blockOf : S -> list A.
Hypothesis Hblock : forall s x, x ∈ blockOf s -> key x = keyOf s.

Let step := replaceByKey key keyOf blockOf.

(** What was there and is of no replaced key stays in front; the rest does
    not depend on what was there. *)
Lemma fold_replace_split sheets view :
  fold_left step sheets view
  = filter (fun x => key x ∉ map keyOf sheets) view ++ fold_left step sheets [].
Proof.
  revert view. induction sheets as [|s sheets IH]; intros view.
  - simpl. rewrite app_nil_r. symmetry. apply StoreFacts.filter_all.
    apply Forall_forall. intros x _ H. inversion H.
  - cbn [fold_left]. rewrite (IH (step view s)), (IH (step [] s)).
    unfold step, replaceByKey. rewrite filter_nil, app_nil_l, filter_app, <- app_assoc.
    f_equal. rewrite list_filter_filter. apply StoreFacts.filter_ext_in.
    intros x _. simpl. rewrite not_elem_of_cons. tauto.
Qed.

Lemma fold_replace_keys sheets view x :
  x ∈ fold_left step sheets view -> x ∈ view \/ key x ∈ map keyOf sheets.
Proof.
  revert view. induction sheets as [|s sheets IH]; intros view; cbn [fold_left].
  - auto.
  - intros Hx. destruct (IH _ Hx) as [Hin | Hin].
    + unfold step, replaceByKey in Hin.
      apply elem_of_app in Hin as [[_ Hin]%list_elem_of_filter | Hin]; [auto |].
      right. simpl. rewrite (Hblock s x Hin). left.
    + right. simpl. right. exact Hin.
Qed.

Lemma fold_replace_idem sheets view :
  fold_left step sheets (fold_left step sheets view) = fold_left step sheets view.
Proof.
  rewrite (fold_replace_split sheets (fold_left step sheets view)).
  rewrite (fold_replace_split sheets view) at 1.
  rewrite filter_app.
  rewrite (StoreFacts.filter_none _ (fold_left step sheets [])).
  - rewrite app_nil_r, list_filter_filter.
    rewrite (fold_replace_split sheets view). f_equal.
    apply StoreFacts.filter_ext_in. intros x _. tauto.
  - intros x Hx Hn. destruct (fold_replace_keys sheets [] x Hx) as [Hin | Hin].
    + inversion Hin.
    + contradiction.
Qed.

End Replace.

End ReplaceFacts.

Module ImportFacts.
Import Portal Importer Store StoreSpec.

Lemma knows_refl db : knows db db.
Proof. split; auto. Qed.

Lemma knows_trans a b c : knows a b -> knows b c -> knows a c.
Proof. intros [H1 H2] [G1 G2]. split; intros; [apply G1, H1 | apply G2, H2]; assumption. Qed.

Lemma afterSheet_knows cmp semId sheet db : knows db (afterSheet cmp semId sheet db).
Proof.
  destruct (StoreFacts.afterSheet_frame cmp semId sheet db) as (_ & Hc & Hcr & _ & _).
  split.
  - intros k x Hk. rewrite Hc. apply StoreFacts.upsertCohort_mono. exact Hk.
  - intros code x Hx. rewrite Hcr. unfold afterCourses.
    apply StoreFacts.upsertCourses_id. rewrite CourseFacts.afterGroups_courses. exact Hx.
Qed.

Section Fold.
Variable cmp : string -> string -> Z.
Variable semId : nat.

Let run sheets db totals := fold_left (importSheet cmp semId) sheets (db, totals).

Lemma run_cons sheet sheets db totals :
  run (sheet :: sheets) db totals
  = run sheets (afterSheet cmp semId sheet db)
      {| totalEntries := totalEntries totals + length (sheetData cmp semId sheet db);
         totalClassGroups := totalClassGroups totals + length (groupNamesOf cmp sheet);
         allCourseCodes :=
           fold_left (fun s code => setAdd code s) (cohortCourseCodes sheet)
             (allCourseCodes totals) |}.
Proof. unfold run. cbn [fold_left]. rewrite StoreFacts.importSheet_stages. reflexivity. Qed.

Lemma run_knows sheets db totals : knows db (fst (run sheets db totals)).
Proof.
  revert db totals. induction sheets as [|sheet sheets IH]; intros db totals.
  - apply knows_refl.
  - rewrite run_cons. eapply knows_trans; [apply afterSheet_knows | apply IH].
Qed.

Lemma run_frame sheets db totals :
  semesters (fst (run sheets db totals)) = semesters db
  /\ importRuns (fst (run sheets db totals)) = importRuns db.
Proof.
  revert db totals. induction sheets as [|sheet sheets IH]; intros db totals.
  - split; reflexivity.
  - rewrite run_cons. destruct (IH (afterSheet cmp semId sheet db)
      {| totalEntries := totalEntries totals + length (sheetData cmp semId sheet db);
         totalClassGroups := totalClassGroups totals + length (groupNamesOf cmp sheet);
         allCourseCodes :=
           fold_left (fun s code => setAdd code s) (cohortCourseCodes sheet)
             (allCourseCodes totals) |}) as [-> ->].
    destruct (StoreFacts.afterSheet_frame cmp semId sheet db) as (H1 & _ & _ & H4 & _).
    auto.
Qed.

(** The totals do not depend on the stored state: every event resolves. *)
Lemma run_totals sheets db totals :
  wellFormed db ->
  wellFormed (fst (run sheets db totals))
  /\ snd (run sheets db totals) = fold_left (sheetTotals cmp) sheets totals.
Proof.
  revert db totals. induction sheets as [|sheet sheets IH]; intros db totals Hwf.
  - split; [exact Hwf | reflexivity].
  - rewrite run_cons. cbn [fold_left].
    rewrite (StoreFacts.sheetData_length cmp semId sheet db Hwf).
    apply IH. apply StoreFacts.afterSheet_wf. exact Hwf.
Qed.

Lemma afterSheet_cohort sheet db :
  cohorts (afterSheet cmp semId sheet db) !! (semId, p_cohortCode sheet)
  = Some (cohortOf semId sheet db).
Proof.
  destruct (StoreFacts.afterSheet_frame cmp semId sheet db) as (_ & -> & _).
  apply StoreFacts.upsertCohort_lookup.
Qed.

Lemma run_cohorts_present sheets db totals sheet :
  sheet ∈ sheets ->
  is_Some (cohorts (fst (run sheets db totals)) !! (semId, p_cohortCode sheet)).
Proof.
  revert db totals. induction sheets as [|s sheets IH]; intros db totals Hin.
  - inversion Hin.
  - rewrite run_cons. apply elem_of_cons in Hin as [-> | Hin]; [| apply IH, Hin].
    eexists. eapply (proj1 (run_knows _ _ _)). apply afterSheet_cohort.
Qed.

Lemma afterSheet_cohorts_same sheet db :
  is_Some (cohorts db !! (semId, p_cohortCode sheet)) ->
  cohorts (afterSheet cmp semId sheet db) = cohorts db.
Proof.
  intros [c Hc].
  destruct (StoreFacts.afterSheet_frame cmp semId sheet db) as (_ & -> & _).
  unfold afterCohort. rewrite (StoreFacts.upsertCohort_found _ _ _ _ Hc). reflexivity.
Qed.

Lemma run_cohorts_same sheets db totals :
  (forall sheet, sheet ∈ sheets -> is_Some (cohorts db !! (semId, p_cohortCode sheet))) ->
  cohorts (fst (run sheets db totals)) = cohorts db.
Proof.
  revert db totals. induction sheets as [|s sheets IH]; intros db totals Hall.
  - reflexivity.
  - rewrite run_cons.
    assert (Hs : cohorts (afterSheet cmp semId s db) = cohorts db).
    { apply afterSheet_cohorts_same, Hall. left. }
    rewrite IH; [exact Hs |].
    intros sheet Hin. rewrite Hs. apply Hall. right. exact Hin.
Qed.

(** The views after the sheets, in terms of the ids a later state knows. *)
Lemma afterSheet_ids final sheet db :
  knows (afterSheet cmp semId sheet db) final ->
  cohortOf semId sheet db = cohortIdIn final semId sheet
  /\ sheetEntries (afterSheet cmp semId sheet db) semId (cohortOf semId sheet db) sheet
     = sheetEntries final semId (cohortIdIn final semId sheet) sheet.
Proof.
  intros [Hk1 Hk2].
  assert (Hc : cohortOf semId sheet db = cohortIdIn final semId sheet).
  { unfold cohortIdIn. rewrite (Hk1 _ _ (afterSheet_cohort sheet db)). reflexivity. }
  split; [exact Hc |]. rewrite <- Hc. unfold sheetEntries.
  apply map_ext_in. intros ev Hev%list_elem_of_In. f_equal. f_equal.
  unfold courseIdIn.
  destruct (StoreFacts.upsertCourses_has (p_catalog sheet) (cohortCourseCodes sheet)
              (afterGroups cmp semId sheet db) (ev_courseCode ev)) as [row Hrow].
  { apply StoreFacts.cohortCourseCodes_event. exact Hev. }
  assert (Hx : crs_id <$> courses (afterSheet cmp semId sheet db) !! ev_courseCode ev
               = Some (crs_id row)).
  { destruct (StoreFacts.afterSheet_frame cmp semId sheet db) as (_ & _ & -> & _ & _).
    unfold afterCourses. rewrite Hrow. reflexivity. }
  rewrite Hx, (Hk2 _ _ Hx). reflexivity.
Qed.

Lemma run_views final sheets db totals :
  wellFormed db ->
  knows (fst (run sheets db totals)) final ->
  classGroupView (fst (run sheets db totals))
  = fold_left (groupsStep cmp final semId) sheets (classGroupView db)
  /\ entryView (fst (run sheets db totals))
     = fold_left (entriesStep final semId) sheets (entryView db).
Proof.
  revert db totals. induction sheets as [|sheet sheets IH]; intros db totals Hwf Hk.
  - split; reflexivity.
  - rewrite run_cons in Hk |- *. cbn [fold_left].
    destruct (afterSheet_ids final sheet db) as [Hc He].
    { eapply knows_trans; [apply run_knows | exact Hk]. }
    destruct (IH _ _ (StoreFacts.afterSheet_wf cmp semId sheet db Hwf) Hk) as [-> ->].
    rewrite (StoreFacts.afterSheet_groupView cmp semId sheet db Hwf).
    rewrite (StoreFacts.afterSheet_entryView cmp semId sheet db Hwf).
    unfold groupsStep, entriesStep. rewrite He, Hc. split; reflexivity.
Qed.

End Fold.

End ImportFacts.

Module WriteFacts.
Import Portal Importer Store StoreSpec.

Lemma wellFormed_same db db' :
  classGroups db' = classGroups db -> scheduleEntries db' = scheduleEntries db ->
  nextId db <= nextId db' -> wellFormed db -> wellFormed db'.
Proof.
  intros Hg He Hn (Hnd & Hb & Hbe). unfold wellFormed. rewrite Hg, He.
  split; [exact Hnd |]. split.
  - eapply Forall_impl; [exact Hb |]. simpl. intros g. lia.
  - eapply Forall_impl; [exact Hbe |]. simpl. intros e. lia.
Qed.

Lemma createImportRun_frame file label db :
  let db' := snd (createImportRun file label db) in
  semesters db' = semesters db /\ cohorts db' = cohorts db
  /\ classGroups db' = classGroups db /\ courses db' = courses db
  /\ scheduleEntries db' = scheduleEntries db /\ nextId db <= nextId db'.
Proof. simpl. repeat split; try reflexivity; lia. Qed.

Lemma finishImportRun_frame runId semId n db :
  let db' := finishImportRun runId semId n db in
  semesters db' = semesters db /\ cohorts db' = cohorts db
  /\ classGroups db' = classGroups db /\ courses db' = courses db
  /\ scheduleEntries db' = scheduleEntries db /\ nextId db' = nextId db.
Proof. simpl. repeat split; reflexivity. Qed.

Lemma upsertSemester_frame key label file s e db :
  let db' := snd (upsertSemester key label file s e db) in
  cohorts db' = cohorts db /\ classGroups db' = classGroups db
  /\ courses db' = courses db /\ scheduleEntries db' = scheduleEntries db
  /\ nextId db <= nextId db'.
Proof.
  unfold upsertSemester. destruct (semesters db !! key); simpl;
    repeat split; try reflexivity; lia.
Qed.

Lemma upsertSemester_lookup key label file s e db :
  semesters (snd (upsertSemester key label file s e db)) !! key
  = Some {| sem_id := fst (upsertSemester key label file s e db); sem_label := label;
            sem_sourceFile := file; sem_startDate := s; sem_endDate := e |}.
Proof.
  unfold upsertSemester. destruct (semesters db !! key); simpl; apply lookup_insert_eq.
Qed.

(** Upserting a semester that is stored with the same values changes
    nothing and returns its id. *)
Lemma upsertSemester_again key label file s e db i :
  semesters db !! key
  = Some {| sem_id := i; sem_label := label; sem_sourceFile := file;
            sem_startDate := s; sem_endDate := e |} ->
  fst (upsertSemester key label file s e db) = i
  /\ semesters (snd (upsertSemester key label file s e db)) = semesters db.
Proof.
  intros H. unfold upsertSemester. rewrite H. simpl.
  split; [reflexivity |]. apply insert_id. exact H.
Qed.

Lemma writeImport_cons cmp first rest file db :
  writeImport cmp (first :: rest) file db
  = (finishImportRun (nextId db) (fst (withSemester first rest file db))
       (totalEntries (snd (withSheets cmp first rest file db)))
       (fst (withSheets cmp first rest file db)),
     Some {| sum_sourceFile := file;
             sum_semesterKey := p_semesterKey first;
             sum_semesterLabel := p_semesterLabel first;
             sum_cohorts := map p_cohortCode (first :: rest);
             sum_classGroups := totalClassGroups (snd (withSheets cmp first rest file db));
             sum_courses := length (allCourseCodes (snd (withSheets cmp first rest file db)));
             sum_entries := totalEntries (snd (withSheets cmp first rest file db)) |}).
Proof.
  unfold writeImport, withSheets, withSemester, opened.
  destruct (createImportRun file (p_semesterLabel first) db) as [runId db0] eqn:E0.
  assert (runId = nextId db) as -> by (inversion E0; reflexivity).
  simpl snd.
  destruct (upsertSemester _ _ _ _ _ db0) as [semId db1]. simpl fst. simpl snd.
  destruct (fold_left _ _ _) as [db2 totals]. reflexivity.
Qed.

(** The steps on the views are replacements by key. *)
Lemma groupsStep_fold cmp final semId sheets view :
  fold_left (groupsStep cmp final semId) sheets view
  = fold_left
      (replaceByKey fst (cohortIdIn final semId)
         (fun s => sheetGroups (cohortIdIn final semId s) (groupNamesOf cmp s)))
      sheets view.
Proof.
  revert view. induction sheets as [|s sheets IH]; intros view; [reflexivity |].
  cbn [fold_left]. rewrite IH. reflexivity.
Qed.

Lemma entriesStep_fold final semId sheets view :
  fold_left (entriesStep final semId) sheets view
  = fold_left
      (replaceByKey (fun v : option (nat * string) * EntryData => fst <$> fst v)
         (fun s => Some (cohortIdIn final semId s))
         (fun s => sheetEntries final semId (cohortIdIn final semId s) s))
      sheets view.
Proof.
  revert view. induction sheets as [|s sheets IH]; intros view; [reflexivity |].
  cbn [fold_left]. rewrite IH. reflexivity.
Qed.

Lemma groupsStep_idem cmp final semId sheets view :
  fold_left (groupsStep cmp final semId) sheets
    (fold_left (groupsStep cmp final semId) sheets view)
  = fold_left (groupsStep cmp final semId) sheets view.
Proof.
  rewrite !groupsStep_fold. apply ReplaceFacts.fold_replace_idem.
  intros s x. unfold sheetGroups. intros (name & -> & _)%list_elem_of_fmap. reflexivity.
Qed.

Lemma entriesStep_idem final semId sheets view :
  fold_left (entriesStep final semId) sheets
    (fold_left (entriesStep final semId) sheets view)
  = fold_left (entriesStep final semId) sheets view.
Proof.
  rewrite !entriesStep_fold. apply ReplaceFacts.fold_replace_idem.
  intros s x. unfold sheetEntries. intros (ev & -> & _)%list_elem_of_fmap. reflexivity.
Qed.

(** The stages of [writeImport]. *)
Section StageFacts.
Variable cmp : string -> string -> Z.
Variable first : ParsedSheetData.
Variable rest : list ParsedSheetData.
Variable file : string.
Variable db : DB.

Let s := withSemester first rest file db.
Let w := withSheets cmp first rest file db.

Lemma withSemester_frame :
  cohorts (snd s) = cohorts db /\ classGroups (snd s) = classGroups db
  /\ courses (snd s) = courses db /\ scheduleEntries (snd s) = scheduleEntries db
  /\ nextId db <= nextId (snd s).
Proof.
  destruct (createImportRun_frame file (p_semesterLabel first) db)
    as (_ & H1 & H2 & H3 & H4 & H5).
  destruct (upsertSemester_frame (p_semesterKey first) (p_semesterLabel first) file
              (minDate (omap p_startDate (first :: rest)))
              (maxDate (omap p_endDate (first :: rest)))
              (opened first file db))
    as (G1 & G2 & G3 & G4 & G5).
  unfold s, withSemester. unfold opened in *.
  rewrite G1, G2, G3, G4. repeat split; try assumption. lia.
Qed.

Lemma withSemester_lookup :
  semesters (snd s) !! p_semesterKey first
  = Some {| sem_id := fst s; sem_label := p_semesterLabel first;
            sem_sourceFile := file;
            sem_startDate := minDate (omap p_startDate (first :: rest));
            sem_endDate := maxDate (omap p_endDate (first :: rest)) |}.
Proof. apply upsertSemester_lookup. Qed.

Lemma withSemester_again i :
  semesters db !! p_semesterKey first
  = Some {| sem_id := i; sem_label := p_semesterLabel first;
            sem_sourceFile := file;
            sem_startDate := minDate (omap p_startDate (first :: rest));
            sem_endDate := maxDate (omap p_endDate (first :: rest)) |} ->
  fst s = i /\ semesters (snd s) = semesters db.
Proof.
  intros H. apply (upsertSemester_again _ _ _ _ _ (opened first file db)). exact H.
Qed.

Lemma withSemester_wf : wellFormed db -> wellFormed (snd s).
Proof.
  destruct withSemester_frame as (_ & Hg & _ & He & Hn).
  apply wellFormed_same; assumption.
Qed.

Lemma withSheets_totals :
  wellFormed db ->
  wellFormed (fst w) /\ snd w = fold_left (sheetTotals cmp) (first :: rest) noTotals.
Proof.
  intros Hwf. apply ImportFacts.run_totals, withSemester_wf, Hwf.
Qed.

Lemma withSheets_semesters : semesters (fst w) = semesters (snd s).
Proof. apply ImportFacts.run_frame. Qed.

Lemma withSheets_cohorts_present sheet :
  sheet ∈ first :: rest -> is_Some (cohorts (fst w) !! (fst s, p_cohortCode sheet)).
Proof. apply ImportFacts.run_cohorts_present. Qed.

Lemma withSheets_cohorts_same :
  (forall sheet, sheet ∈ first :: rest ->
                 is_Some (cohorts db !! (fst s, p_cohortCode sheet))) ->
  cohorts (fst w) = cohorts db.
Proof.
  intros Hall. destruct withSemester_frame as (Hc & _).
  unfold w, withSheets. fold s. rewrite ImportFacts.run_cohorts_same; [exact Hc |].
  intros sheet Hin. rewrite Hc. apply Hall, Hin.
Qed.

Lemma withSheets_upserted :
  upserted (flat_map courseOps (first :: rest)) (courses db) (courses (fst w)).
Proof.
  destruct withSemester_frame as (_ & _ & Hr & _). rewrite <- Hr.
  apply CourseFacts.upserted_fold.
Qed.

Lemma withSheets_views final :
  wellFormed db -> knows (fst w) final ->
  classGroupView (fst w)
  = fold_left (groupsStep cmp final (fst s)) (first :: rest) (classGroupView db)
  /\ entryView (fst w)
     = fold_left (entriesStep final (fst s)) (first :: rest) (entryView db).
Proof.
  intros Hwf Hk. destruct withSemester_frame as (_ & Hg & _ & He & _).
  destruct (ImportFacts.run_views cmp (fst s) final (first :: rest) (snd s) noTotals
              (withSemester_wf Hwf) Hk) as [H1 H2].
  unfold w, withSheets. fold s. rewrite H1, H2.
  unfold classGroupView, entryView. rewrite Hg, He. split; reflexivity.
Qed.

End StageFacts.

End WriteFacts.


(** C6.  Importing the same parsed workbook twice in succession, from a
    well-formed state and with nothing written in between: the second
    import returns the summary of the first, hence the same entry, course
    and class-group counts; and it leaves the semester, cohort and course
    tables as the first left them, and the class groups and schedule
    entries the same up to their generated ids (a class group being the
    pair of its cohort and name, an entry referring to its class group by
    that pair). *)
Theorem reimport_is_idempotent
    (localeCompare : string -> string -> Z) (sheets : list Store.ParsedSheetData)
    (sourceFile : string) (db : Store.DB) :
  StoreSpec.wellFormed db ->
  let first := Store.writeImport localeCompare sheets sourceFile db in
  let second := Store.writeImport localeCompare sheets sourceFile (fst first) in
  snd second = snd first
  /\ (forall s1 s2, snd first = Some s1 -> snd second = Some s2 ->
        Store.sum_entries s2 = Store.sum_entries s1
        /\ Store.sum_courses s2 = Store.sum_courses s1
        /\ Store.sum_classGroups s2 = Store.sum_classGroups s1)
  /\ Store.semesters (fst second) = Store.semesters (fst first)
  /\ Store.cohorts (fst second) = Store.cohorts (fst first)
  /\ Store.courses (fst second) = Store.courses (fst first)
  /\ StoreSpec.classGroupView (fst second) = StoreSpec.classGroupView (fst first)
  /\ StoreSpec.entryView (fst second) = StoreSpec.entryView (fst first).
Proof.
  intros Hwf first second.
  assert (Hcounts : snd second = snd first ->
            forall s1 s2, snd first = Some s1 -> snd second = Some s2 ->
              Store.sum_entries s2 = Store.sum_entries s1
              /\ Store.sum_courses s2 = Store.sum_courses s1
              /\ Store.sum_classGroups s2 = Store.sum_classGroups s1).
  { intros Heq s1 s2 H1 H2. rewrite Heq, H1 in H2. inversion H2. auto. }
  destruct sheets as [|sh rest].
  { split; [reflexivity |]. split; [apply Hcounts; reflexivity |].
    repeat split; reflexivity. }
  unfold second, first in *. clear first second.
  rewrite (WriteFacts.writeImport_cons localeCompare sh rest sourceFile db) in *.
  cbn [fst snd] in *.
  set (s1 := StoreSpec.withSemester sh rest sourceFile db) in *.
  set (w1 := StoreSpec.withSheets localeCompare sh rest sourceFile db) in *.
  set (db1 := Store.finishImportRun (Store.nextId db) (fst s1)
                (Store.totalEntries (snd w1)) (fst w1)) in *.
  rewrite (WriteFacts.writeImport_cons localeCompare sh rest sourceFile db1) in *.
  cbn [fst snd] in *.
  set (s2 := StoreSpec.withSemester sh rest sourceFile db1) in *.
  set (w2 := StoreSpec.withSheets localeCompare sh rest sourceFile db1) in *.
  (* the first import *)
  destruct (WriteFacts.withSheets_totals localeCompare sh rest sourceFile db Hwf)
    as [Hwfw1 Htot1].
  fold w1 in Hwfw1, Htot1.
  pose proof (WriteFacts.withSheets_semesters localeCompare sh rest sourceFile db) as Hsemw1.
  fold w1 s1 in Hsemw1.
  pose proof (WriteFacts.withSemester_lookup sh rest sourceFile db) as Hrow.
  fold s1 in Hrow.
  (* the state between the imports *)
  assert (Hwf1 : StoreSpec.wellFormed db1).
  { apply (WriteFacts.wellFormed_same (fst w1)); [reflexivity | reflexivity | | exact Hwfw1].
    unfold db1. simpl. lia. }
  assert (Hrow1 : Store.semesters db1 !! Store.p_semesterKey sh
                  = Store.semesters (snd s1) !! Store.p_semesterKey sh).
  { unfold db1. simpl. rewrite Hsemw1. reflexivity. }
  rewrite Hrow in Hrow1.
  (* the second import *)
  destruct (WriteFacts.withSemester_again sh rest sourceFile db1 _ Hrow1) as [Hid Hsem2].
  fold s2 in Hid, Hsem2.
  destruct (WriteFacts.withSheets_totals localeCompare sh rest sourceFile db1 Hwf1)
    as [_ Htot2].
  fold w2 in Htot2.
  pose proof (WriteFacts.withSheets_semesters localeCompare sh rest sourceFile db1) as Hsemw2.
  fold w2 s2 in Hsemw2.
  assert (Hcw2 : Store.cohorts (fst w2) = Store.cohorts (fst w1)).
  { unfold w2. rewrite WriteFacts.withSheets_cohorts_same; [reflexivity |].
    intros sheet Hin. fold s2. rewrite Hid.
    apply (WriteFacts.withSheets_cohorts_present localeCompare sh rest sourceFile db sheet Hin). }
  assert (Hrw2 : Store.courses (fst w2) = Store.courses (fst w1)).
  { apply (CourseFacts.upserted_twice (flat_map StoreSpec.courseOps (sh :: rest))
             (Store.courses db)).
    - apply WriteFacts.withSheets_upserted.
    - apply (WriteFacts.withSheets_upserted localeCompare sh rest sourceFile db1). }
  assert (Hk1 : StoreSpec.knows (fst w1) (fst w1)) by apply ImportFacts.knows_refl.
  assert (Hk2 : StoreSpec.knows (fst w2) (fst w1)).
  { split; intros ? ?; [rewrite Hcw2 | rewrite Hrw2]; auto. }
  destruct (WriteFacts.withSheets_views localeCompare sh rest sourceFile db (fst w1) Hwf Hk1)
    as [Hgv1 Hev1].
  fold w1 s1 in Hgv1, Hev1.
  destruct (WriteFacts.withSheets_views localeCompare sh rest sourceFile db1 (fst w1) Hwf1 Hk2)
    as [Hgv2 Hev2].
  fold w2 s2 in Hgv2, Hev2.
  assert (Hsum : snd w2 = snd w1) by (rewrite Htot1, Htot2; reflexivity).
  assert (Hfirst : Some
            {| Store.sum_sourceFile := sourceFile;
               Store.sum_semesterKey := Store.p_semesterKey sh;
               Store.sum_semesterLabel := Store.p_semesterLabel sh;
               Store.sum_cohorts := map Store.p_cohortCode (sh :: rest);
               Store.sum_classGroups := Store.totalClassGroups (snd w2);
               Store.sum_courses := length (Store.allCourseCodes (snd w2));
               Store.sum_entries := Store.totalEntries (snd w2) |}
          = Some
            {| Store.sum_sourceFile := sourceFile;
               Store.sum_semesterKey := Store.p_semesterKey sh;
               Store.sum_semesterLabel := Store.p_semesterLabel sh;
               Store.sum_cohorts := map Store.p_cohortCode (sh :: rest);
               Store.sum_classGroups := Store.totalClassGroups (snd w1);
               Store.sum_courses := length (Store.allCourseCodes (snd w1));
               Store.sum_entries := Store.totalEntries (snd w1) |})
    by (rewrite Hsum; reflexivity).
  split; [exact Hfirst |]. split; [exact (Hcounts Hfirst) |].
  split; [| split; [| split; [| split]]].
  - change (Store.semesters (fst w2) = Store.semesters (fst w1)).
    rewrite Hsemw2, Hsem2. reflexivity.
  - exact Hcw2.
  - exact Hrw2.
  - change (StoreSpec.classGroupView (fst w2) = StoreSpec.classGroupView (fst w1)).
    rewrite Hgv2, Hid.
    change (StoreSpec.classGroupView db1) with (StoreSpec.classGroupView (fst w1)).
    rewrite Hgv1. apply WriteFacts.groupsStep_idem.
  - change (StoreSpec.entryView (fst w2) = StoreSpec.entryView (fst w1)).
    rewrite Hev2, Hid.
    change (StoreSpec.entryView db1) with (StoreSpec.entryView (fst w1)).
    rewrite Hev1. apply WriteFacts.entriesStep_idem.
Qed.

(** The theorem on the sample state and sheet. *)
Lemma reimport_is_idempotent_witness :
  StoreSpec.wellFormed Sample.stored
  /\ let first :=
       Store.writeImport Sample.compareStrings [Sample.sheet] "TKB.xlsx" Sample.stored in
     let second :=
       Store.writeImport Sample.compareStrings [Sample.sheet] "TKB.xlsx" (fst first) in
     snd second = snd first
     /\ StoreSpec.classGroupView (fst second) = StoreSpec.classGroupView (fst first)
     /\ StoreSpec.entryView (fst second) = StoreSpec.entryView (fst first).
Proof.
  assert (Hwf : StoreSpec.wellFormed Sample.stored).
  { apply (bool_decide_unpack (StoreSpec.wellFormed Sample.stored)). vm_compute. exact I. }
  split; [exact Hwf |].
  destruct (reimport_is_idempotent Sample.compareStrings [Sample.sheet] "TKB.xlsx"
              Sample.stored Hwf) as (H1 & _ & _ & _ & _ & H6 & H7).
  split; [exact H1 |]. split; [exact H6 | exact H7].
Defined.

(** What the two imports of the sample return and store. *)
Example sample_import_twice :
  let first :=
    Store.writeImport Sample.compareStrings [Sample.sheet] "TKB.xlsx" Sample.stored in
  let second :=
    Store.writeImport Sample.compareStrings [Sample.sheet] "TKB.xlsx" (fst first) in
  snd first
  = Some {| Store.sum_sourceFile := "TKB.xlsx"; Store.sum_semesterKey := "SPRING_2026";
            Store.sum_semesterLabel := "SPRING 2026"; Store.sum_cohorts := ["K69"];
            Store.sum_classGroups := 2; Store.sum_courses := 2; Store.sum_entries := 3 |}
  /\ StoreSpec.classGroupView (fst first) = [(7, "IT 01"); (2, "IT 01"); (2, "IT 02")]
  /\ map Store.cg_id (Store.classGroups (fst first)) = [5; 11; 12]
  /\ map Store.cg_id (Store.classGroups (fst second)) = [5; 18; 19]
  /\ map fst (StoreSpec.entryView (fst second))
     = [Some (7, "IT 01"); Some (2, "IT 02"); Some (2, "IT 01"); Some (2, "IT 01")].
Proof. vm_compute. repeat split; reflexivity. Qed.

(** ** The entity normalizer: dropped events and rebuilt class groups *)

Module EntryFacts.
Import Portal Importer Store StoreSpec EntrySpec.

Lemma entryStep_rowOf semId groupIds courseIds ev :
  entryStep semId groupIds courseIds [] ev
  = match rowOf semId groupIds courseIds ev with Some row => [row] | None => [] end.
Proof.
  unfold entryStep, rowOf.
  destruct (groupIds !! ev_classGroupName ev), (courseIds !! ev_courseCode ev); reflexivity.
Qed.

(** The loop with its [continue] builds one row per resolving event. *)
Lemma buildEntryData_rowsOf semId groupIds courseIds events :
  buildEntryData semId groupIds courseIds events = rowsOf semId groupIds courseIds events.
Proof.
  induction events as [|ev events IH]; [reflexivity |].
  rewrite StoreFacts.buildEntryData_cons, entryStep_rowOf, IH.
  unfold rowsOf. cbn [omap list_omap].
  destruct (rowOf semId groupIds courseIds ev); reflexivity.
Qed.

Lemma sheetData_rows cmp semId sheet db :
  sheetData cmp semId sheet db = rowsOfSheet cmp semId sheet db.
Proof. unfold sheetData. apply buildEntryData_rowsOf. Qed.

Lemma run_entries cmp semId sheets db totals :
  totalEntries (snd (fold_left (importSheet cmp semId) sheets (db, totals)))
  = totalEntries totals + list_sum (map (rowCount cmp semId) (iterations cmp semId db sheets)).
Proof.
  revert db totals. induction sheets as [|sheet sheets IH]; intros db totals.
  - cbn. lia.
  - rewrite ImportFacts.run_cons, IH. cbn [totalEntries iterations map].
    change (list_sum (?x :: ?l)) with (x + list_sum l).
    unfold rowCount at 2. cbn [fst snd]. rewrite sheetData_rows. lia.
Qed.

Lemma run_last cmp semId sheets db totals sheet st :
  last (iterations cmp semId db sheets) = Some (sheet, st) ->
  fst (fold_left (importSheet cmp semId) sheets (db, totals))
  = afterSheet cmp semId sheet st.
Proof.
  revert db totals. induction sheets as [|s sheets IH]; intros db totals; [discriminate |].
  rewrite ImportFacts.run_cons. cbn [iterations].
  destruct sheets as [|s' sheets].
  - cbn. intros [= <- <-]. reflexivity.
  - intros H. apply IH. exact H.
Qed.

End EntryFacts.

(** C4.  In the loop that fills [entryData], an event whose class-group
    name or course code has no entry in the resolved maps adds nothing: the
    data built is the same as without the event; an event that resolves adds
    exactly its row, in place; the data is one row per resolving event, in
    the order of the events.  One iteration stores exactly the rows of the
    events that resolve in the maps it reads back from the stored class
    groups and courses, as new ScheduleEntry rows behind those that were
    there, and adds their number to the entries count.  The import of a
    non-empty list of sheets raises no error for a dropped event: it
    returns a summary whose entries count is the number of rows built over
    all iterations, and the rows of the last sheet are stored at the end of
    the ScheduleEntry table. *)
Theorem unresolved_events_are_dropped (localeCompare : string -> string -> Z) :
  (forall semesterId groupIds courseIds,
     let build := Store.buildEntryData semesterId groupIds courseIds in
     (forall before event after,
        groupIds !! Importer.ev_classGroupName event = None
        \/ courseIds !! Importer.ev_courseCode event = None ->
        build (before ++ event :: after) = build (before ++ after))
     /\ (forall before event after classGroupId courseId,
           groupIds !! Importer.ev_classGroupName event = Some classGroupId ->
           courseIds !! Importer.ev_courseCode event = Some courseId ->
           build (before ++ event :: after)
           = build before
             ++ StoreSpec.entryRow semesterId classGroupId courseId event :: build after)
     /\ (forall events,
           build events = EntrySpec.rowsOf semesterId groupIds courseIds events
           /\ length (build events)
              = length (filter (StoreSpec.resolvable groupIds courseIds) events)))
  /\ (forall semesterId db totals sheet,
        let result := Store.importSheet localeCompare semesterId (db, totals) sheet in
        let rows := EntrySpec.rowsOfSheet localeCompare semesterId sheet db in
        let upserted := StoreSpec.afterCourses localeCompare semesterId sheet db in
        Store.scheduleEntries (fst result)
        = Store.scheduleEntries upserted ++ Store.storedRows (Store.nextId upserted) rows
        /\ map Store.se_data (Store.storedRows (Store.nextId upserted) rows) = rows
        /\ Store.totalEntries (snd result) = Store.totalEntries totals + length rows)
  /\ (forall first rest sourceFile db,
        let semesterId := fst (StoreSpec.withSemester first rest sourceFile db) in
        let iterations :=
          EntrySpec.iterations localeCompare semesterId
            (snd (StoreSpec.withSemester first rest sourceFile db)) (first :: rest) in
        exists db' summary,
          Store.writeImport localeCompare (first :: rest) sourceFile db = (db', Some summary)
          /\ Store.sum_entries summary
             = list_sum (map (EntrySpec.rowCount localeCompare semesterId) iterations)
          /\ forall sheet state,
               last iterations = Some (sheet, state) ->
               let upserted := StoreSpec.afterCourses localeCompare semesterId sheet state in
               Store.scheduleEntries db'
               = Store.scheduleEntries upserted
                 ++ Store.storedRows (Store.nextId upserted)
                      (EntrySpec.rowsOfSheet localeCompare semesterId sheet state)).
Proof.
  split; [| split].
  - intros semesterId groupIds courseIds build. split; [| split].
    + intros before event after Hnone. unfold build.
      rewrite !StoreFacts.buildEntryData_app, StoreFacts.buildEntryData_cons.
      rewrite StoreFacts.entryStep_dropped by exact Hnone. reflexivity.
    + intros before event after g c Hg Hc. unfold build.
      rewrite StoreFacts.buildEntryData_app, StoreFacts.buildEntryData_cons.
      rewrite (StoreFacts.entryStep_kept _ _ _ _ _ _ Hg Hc). reflexivity.
    + intros events. split; [apply EntryFacts.buildEntryData_rowsOf |].
      apply StoreFacts.buildEntryData_length.
  - intros semesterId db totals sheet result rows upserted.
    unfold result. rewrite StoreFacts.importSheet_stages. cbn [fst snd Store.totalEntries].
    unfold StoreSpec.afterSheet. rewrite StoreFacts.createEntries_entries.
    rewrite EntryFacts.sheetData_rows. fold rows upserted.
    split; [reflexivity |]. split; [apply StoreFacts.storedRows_data | reflexivity].
  - intros first rest sourceFile db semesterId iterations.
    rewrite WriteFacts.writeImport_cons. eexists _, _. split; [reflexivity |].
    cbn [Store.sum_entries]. unfold StoreSpec.withSheets. fold semesterId. split.
    + rewrite EntryFacts.run_entries. reflexivity.
    + intros sheet state Hlast. cbn [Store.scheduleEntries Store.finishImportRun
        Store.setImportRuns].
      rewrite (EntryFacts.run_last _ _ _ _ _ _ _ Hlast).
      unfold StoreSpec.afterSheet. rewrite StoreFacts.createEntries_entries.
      rewrite EntryFacts.sheetData_rows. reflexivity.
Qed.

(** The loop on the three events of the sample sheet under maps that lack
    the class group IT 02: two rows, both of the class group IT 01; and the
    import of the sample sheet, whose three events all resolve. *)
Lemma unresolved_events_are_dropped_witness :
  map Store.d_classGroupId
    (Store.buildEntryData 1 EntrySpec.someGroups EntrySpec.someCourses
       (Store.p_events Sample.sheet))
  = [3; 3]
  /\ Store.sum_entries
       <$> snd (Store.writeImport Sample.compareStrings [Sample.sheet] "new.xlsx"
                  Sample.stored)
     = Some 3.
Proof.
  destruct (unresolved_events_are_dropped Sample.compareStrings) as (Hloop & _ & Himport).
  split.
  - destruct (Hloop 1 EntrySpec.someGroups EntrySpec.someCourses) as (_ & _ & Hrows).
    rewrite (proj1 (Hrows (Store.p_events Sample.sheet))). vm_compute. reflexivity.
  - destruct (Himport Sample.sheet [] "new.xlsx" Sample.stored)
      as (db' & summary & Hw & Hsum & _).
    rewrite Hw. cbn [snd fmap option_fmap option_map]. rewrite Hsum.
    vm_compute. reflexivity.
Defined.

(** C5.  One iteration of the import over a sheet whose cohort is stored
    already, on a well-formed state: the cohort table and the semester table
    are left as they are; no class group the cohort had remains, and no
    schedule entry of such a group; the cohort's class groups are afterwards
    new rows, one for every class-group name that occurs in the events of
    the parse and for no other name; the class groups of other cohorts are
    untouched, and so are the entries of other class groups; and the entries
    added are one per event of the parse, each attached to the new class
    group of the cohort that bears the event's group name. *)
Theorem reimport_rebuilds_class_groups_keeps_cohort
    (localeCompare : string -> string -> Z) (semesterId : nat) (db : Store.DB)
    (totals : Store.Totals) (sheet : Store.ParsedSheetData) (cohortId : nat) :
  StoreSpec.wellFormed db ->
  Store.cohorts db !! (semesterId, Store.p_cohortCode sheet) = Some cohortId ->
  let db' := fst (Store.importSheet localeCompare semesterId (db, totals) sheet) in
  Store.cohorts db' = Store.cohorts db
  /\ Store.semesters db' = Store.semesters db
  /\ (forall g, g ∈ Store.classGroups db -> Store.cg_cohortId g = cohortId ->
        g ∉ Store.classGroups db')
  /\ (forall e g, e ∈ Store.scheduleEntries db -> g ∈ Store.classGroups db ->
        Store.cg_cohortId g = cohortId ->
        Store.d_classGroupId (Store.se_data e) = Store.cg_id g ->
        e ∉ Store.scheduleEntries db')
  /\ Store.classGroupsOf cohortId db'
     = Store.newGroups cohortId (Store.nextId db) (Store.groupNamesOf localeCompare sheet)
  /\ NoDup (map Store.cg_name (Store.classGroupsOf cohortId db'))
  /\ (forall name,
        name ∈ map Store.cg_name (Store.classGroupsOf cohortId db')
        <-> exists event, event ∈ Store.p_events sheet
                          /\ Importer.ev_classGroupName event = name)
  /\ Forall (fun g => Store.nextId db <= Store.cg_id g) (Store.classGroupsOf cohortId db')
  /\ filter (fun g => Store.cg_cohortId g <> cohortId) (Store.classGroups db')
     = filter (fun g => Store.cg_cohortId g <> cohortId) (Store.classGroups db)
  /\ exists added,
       Store.scheduleEntries db'
       = filter (fun e => Store.d_classGroupId (Store.se_data e)
                          ∉ map Store.cg_id (Store.classGroupsOf cohortId db))
           (Store.scheduleEntries db) ++ added
       /\ Forall (fun e => Store.nextId db <= Store.d_classGroupId (Store.se_data e)) added
       /\ map (fun e => StoreSpec.groupOf (Store.classGroups db')
                          (Store.d_classGroupId (Store.se_data e))) added
          = map (fun event => Some (cohortId, Importer.ev_classGroupName event))
              (Store.p_events sheet).
Proof.
  intros Hwf Hc db'.
  assert (Hdb' : db' = StoreSpec.afterSheet localeCompare semesterId sheet db).
  { unfold db'. rewrite StoreFacts.importSheet_stages. reflexivity. }
  pose proof (StoreFacts.upsertCohort_found _ _ _ _ Hc) as Hup.
  assert (Hco : StoreSpec.cohortOf semesterId sheet db = cohortId).
  { unfold StoreSpec.cohortOf. rewrite Hup. reflexivity. }
  assert (Hac : StoreSpec.afterCohort semesterId sheet db = db).
  { unfold StoreSpec.afterCohort. rewrite Hup. reflexivity. }
  pose proof (StoreFacts.afterSheet_groups localeCompare semesterId sheet db Hwf) as Hg.
  pose proof (StoreFacts.afterSheet_entries localeCompare semesterId sheet db) as He.
  pose proof (StoreFacts.afterSheet_frame localeCompare semesterId sheet db)
    as (Hsem & Hcoh & _ & _ & _).
  pose proof (StoreFacts.sheetData_map localeCompare semesterId sheet db Hwf) as Hdata.
  pose proof (StoreFacts.gidOf_group localeCompare semesterId sheet db Hwf) as Hgid.
  pose proof (StoreFacts.groupOf_new localeCompare semesterId sheet db Hwf) as Hnew.
  rewrite Hco, Hac in Hg, Hgid, Hnew. rewrite Hco in He, Hdata. rewrite Hac in Hcoh.
  rewrite <- Hdb' in Hg, He, Hsem, Hcoh, Hnew.
  destruct Hwf as (Hnd & Hb & Hbe). rewrite Forall_forall in Hb.
  set (names := Store.groupNamesOf localeCompare sheet) in *.
  set (added := Store.storedRows
                  (Store.nextId (StoreSpec.afterCourses localeCompare semesterId sheet db))
                  (StoreSpec.sheetData localeCompare semesterId sheet db)) in *.
  assert (Hof : Store.classGroupsOf cohortId db'
                = Store.newGroups cohortId (Store.nextId db) names).
  { unfold Store.classGroupsOf. rewrite Hg, filter_app.
    rewrite StoreFacts.filter_none.
    - simpl. apply StoreFacts.filter_all. apply Forall_forall. intros g Hin.
      apply (StoreFacts.newGroups_elem _ _ _ _ Hin).
    - intros g [Hne _]%list_elem_of_filter Heq. contradiction. }
  assert (Hgroups : map (fun d => StoreSpec.groupOf (Store.classGroups db')
                                    (Store.d_classGroupId d))
                      (StoreSpec.sheetData localeCompare semesterId sheet db)
                    = map (fun event => Some (cohortId, Importer.ev_classGroupName event))
                        (Store.p_events sheet)).
  { rewrite Hdata, map_map. apply map_ext_in. intros ev Hev%list_elem_of_In. simpl.
    destruct (Hgid ev Hev) as (g & Hin & Hname & _ & ->).
    rewrite (Hnew g Hin), Hname. reflexivity. }
  assert (Hids : Forall (fun d => Store.nextId db <= Store.d_classGroupId d)
                   (StoreSpec.sheetData localeCompare semesterId sheet db)).
  { rewrite Hdata. apply Forall_forall. intros d (ev & -> & Hev)%list_elem_of_fmap. simpl.
    destruct (Hgid ev Hev) as (g & Hin & _ & _ & ->).
    apply StoreFacts.newGroups_elem in Hin as (_ & Hr & _). lia. }
  assert (Hadded : Forall (fun e => Store.nextId db <= Store.d_classGroupId (Store.se_data e))
                     added).
  { apply Forall_forall. intros e Hin. rewrite Forall_forall in Hids. apply Hids.
    rewrite <- (StoreFacts.storedRows_data
                  (Store.nextId (StoreSpec.afterCourses localeCompare semesterId sheet db))).
    apply list_elem_of_fmap. eauto. }
  split; [exact Hcoh |]. split; [exact Hsem |].
  split; [| split; [| split; [| split; [| split; [| split; [| split]]]]]].
  - intros g Hin Hcg. rewrite Hg.
    intros [[Hne _]%list_elem_of_filter | Hn]%elem_of_app; [contradiction |].
    apply StoreFacts.newGroups_elem in Hn as (_ & Hr & _).
    specialize (Hb g Hin). lia.
  - intros e g Hine Hing Hcg Hid. rewrite He.
    intros [[Hn _]%list_elem_of_filter | Hn]%elem_of_app.
    + apply Hn. rewrite Hid. apply list_elem_of_fmap. exists g. split; [reflexivity |].
      apply list_elem_of_filter. auto.
    + rewrite Forall_forall in Hadded. specialize (Hadded e Hn).
      specialize (Hb g Hing). lia.
  - exact Hof.
  - rewrite Hof, StoreFacts.newGroups_names. apply StoreFacts.groupNamesOf_NoDup.
  - intros name. rewrite Hof, StoreFacts.newGroups_names.
    unfold names. rewrite StoreFacts.groupNamesOf_elem, list_elem_of_fmap.
    split; intros (ev & H1 & H2); exists ev; auto.
  - rewrite Hof. apply Forall_forall. intros g Hin.
    apply StoreFacts.newGroups_elem in Hin as (_ & Hr & _). lia.
  - rewrite Hg, filter_app.
    rewrite (StoreFacts.filter_none _ (Store.newGroups _ _ _)).
    + rewrite app_nil_r. apply StoreFacts.filter_all. apply Forall_forall.
      intros g [Hne _]%list_elem_of_filter. exact Hne.
    + intros g Hin Hne. apply StoreFacts.newGroups_elem in Hin as (Heq & _). contradiction.
  - exists added. split; [exact He |]. split; [exact Hadded |].
    rewrite <- Hgroups. unfold added.
    rewrite <- (StoreFacts.storedRows_data
                  (Store.nextId (StoreSpec.afterCourses localeCompare semesterId sheet db))
                  (StoreSpec.sheetData localeCompare semesterId sheet db)) at 2.
    rewrite map_map. reflexivity.
Qed.

(** The theorem on the sample state, whose cohort K69 has the id 2 and the
    class groups IT 01 and IT 09: the cohort table stays, and the cohort's
    class groups become IT 01 and IT 02, the names in the events of the
    sample sheet, under new ids. *)
Lemma reimport_rebuilds_class_groups_witness :
  StoreSpec.wellFormed Sample.stored
  /\ Store.cohorts Sample.stored !! (1, Store.p_cohortCode Sample.sheet) = Some 2
  /\ let db' := fst (Store.importSheet Sample.compareStrings 1
                       (Sample.stored, Store.noTotals) Sample.sheet) in
     Store.cohorts db' = Store.cohorts Sample.stored
     /\ Store.classGroupsOf 2 db'
        = [ {| Store.cg_id := 10; Store.cg_name := "IT 01"; Store.cg_cohortId := 2 |};
            {| Store.cg_id := 11; Store.cg_name := "IT 02"; Store.cg_cohortId := 2 |} ]
     /\ ("IT 02" ∈ map Store.cg_name (Store.classGroupsOf 2 db')
         <-> exists event, event ∈ Store.p_events Sample.sheet
                           /\ Importer.ev_classGroupName event = "IT 02").
Proof.
  assert (Hwf : StoreSpec.wellFormed Sample.stored).
  { apply (bool_decide_unpack (StoreSpec.wellFormed Sample.stored)). vm_compute. exact I. }
  assert (Hc : Store.cohorts Sample.stored !! (1, Store.p_cohortCode Sample.sheet) = Some 2).
  { vm_compute. reflexivity. }
  split; [exact Hwf |]. split; [exact Hc |].
  destruct (reimport_rebuilds_class_groups_keeps_cohort Sample.compareStrings 1
              Sample.stored Store.noTotals Sample.sheet 2 Hwf Hc)
    as (H1 & _ & _ & _ & H5 & _ & H7 & _).
  split; [exact H1 |]. split; [| apply H7].
  rewrite H5. vm_compute. reflexivity.
Defined.

Module NormalizerFacts.
Import Js TextFacts.

Lemma startsWith_takeChars p s : startsWith (takeChars p s) s = true.
Proof.
  induction s as [|c s IH]; simpl; [reflexivity |].
  destruct (p c); simpl; [now rewrite Ascii.eqb_refl, IH | reflexivity].
Qed.

Lemma startsWith_cons_append p a b :
  startsWith a b = true -> startsWith (p +:+ a) (p +:+ b) = true.
Proof.
  intros H. induction p as [|c p IH]; str; [exact H |].
  now rewrite Ascii.eqb_refl, IH.
Qed.

Lemma takeChars_whole p s :
  allChars p s = true -> takeChars p s = s /\ dropChars p s = "".
Proof.
  induction s as [|c s IH]; simpl; [split; reflexivity |].
  intros [Hc Hs]%andb_true_iff. rewrite Hc. destruct (IH Hs) as [-> ->].
  split; reflexivity.
Qed.

Lemma includes_startsWith m s : startsWith m s = true -> includes m s = true.
Proof. intros H. destruct s; simpl; rewrite H; reflexivity. Qed.

Lemma includes_later m c s : includes m s = true -> includes m (String c s) = true.
Proof. intros H. simpl. rewrite H. apply orb_true_r. Qed.

Lemma matchInstructionAt_shape s m :
  Portal.matchInstructionAt s = Some m ->
  startsWith m s = true
  /\ exists run, m = "IHA" +:+ run /\ (1 <= String.length run <= 4)%nat
                 /\ allChars Portal.isCodeChar run = true.
Proof.
  unfold Portal.matchInstructionAt.
  destruct (startsWith "IHA" s) eqn:Hs; [| discriminate].
  destruct (startsWith_split _ _ Hs) as (rest & ->).
  change 3%nat with (String.length "IHA"). rewrite substring_drop.
  destruct (_ && _) eqn:Hc; [| discriminate].
  intros [= <-].
  apply andb_true_iff in Hc as [[H1 H4]%andb_true_iff _].
  apply Nat.leb_le in H1, H4. split.
  - apply startsWith_cons_append, startsWith_takeChars.
  - exists (takeChars Portal.isCodeChar rest). repeat split; try assumption.
    apply takeChars_all.
Qed.

Lemma searchInstruction_shape prev s m :
  Portal.searchInstruction prev s = Some m ->
  includes m s = true
  /\ exists run, m = "IHA" +:+ run /\ (1 <= String.length run <= 4)%nat
                 /\ allChars Portal.isCodeChar run = true.
Proof.
  revert prev. induction s as [|c s IH]; intros prev; simpl; [discriminate |].
  destruct (if prev then None else Portal.matchInstructionAt (String c s)) as [m'|] eqn:E.
  - intros [= ->]. destruct prev; [discriminate |].
    destruct (matchInstructionAt_shape _ _ E) as [Hs Hrun]. split; [| exact Hrun].
    change (includes m (String c s) = true). now apply includes_startsWith.
  - intros H. destruct (IH _ H) as [Hi Hrun]. split; [| exact Hrun].
    change (includes m (String c s) = true). now apply includes_later.
Qed.

Lemma normalizeInstructionCode_fixed s :
  allChars Portal.isCodeChar s = true -> Portal.normalizeInstructionCode s = s.
Proof.
  intros H. unfold Portal.normalizeInstructionCode.
  destruct s as [|c s]; [reflexivity |]. rewrite truthy_String. cbv [negb].
  rewrite (trim_id_all _ (allChars_nonspace _ H)).
  unfold toUpperCase. rewrite (mapChars_id _ _ _ code_upper H).
  apply filterChars_id.
  revert H. apply allChars_impl. intros ch Hc. unfold Portal.isCodeChar in Hc.
  exact Hc.
Qed.

Lemma normalizeInstructionCode_chars raw :
  allChars Portal.isCodeChar (Portal.normalizeInstructionCode raw) = true.
Proof.
  unfold Portal.normalizeInstructionCode.
  destruct (negb (truthy raw)); [reflexivity |].
  exact (filterChars_all _ _).
Qed.

Lemma classGroupName_shape raw :
  let out := Portal.normalizeClassGroupName raw in
  trim out = out /\ toUpperCase out = out /\ collapseSpaces out = out.
Proof.
  intros out. unfold out, Portal.normalizeClassGroupName.
  destruct (negb (truthy raw)); [repeat split; reflexivity |].
  split; [| split].
  - destruct (trim_shape raw) as [-> | (a & m & z & Ha & Hz & [-> | ->])].
    + reflexivity.
    + unfold toUpperCase, collapseSpaces. simpl. rewrite upperChar_space, Ha.
      apply trim_id_one. now rewrite upperChar_space.
    + unfold toUpperCase, collapseSpaces. simpl mapChars. rewrite mapChars_append.
      simpl mapChars. simpl collapseFrom. rewrite upperChar_space, Ha.
      rewrite collapseFrom_snoc by now rewrite upperChar_space.
      apply trim_id_shape; now rewrite upperChar_space.
  - apply collapseFrom_upper.
  - apply collapseFrom_idem. discriminate.
Qed.

Lemma importer_code_facts (raw code : string) :
  Importer.normalizeCourseCode raw = Some code ->
  (exists letters digits,
     code = letters +:+ " " +:+ digits
     /\ Js.allChars Js.isUpper letters = true
     /\ (2 <= String.length letters <= 4)%nat
     /\ Js.allChars Js.isDigit digits = true
     /\ (3 <= String.length digits <= 4)%nat)
  /\ Importer.normalizeCourseCode code = Some code
  /\ Knowledge.normalizeCourseCode raw = Some code.
Proof.
  unfold Importer.normalizeCourseCode at 1. unfold Knowledge.normalizeCourseCode.
  set (text := Js.collapseSpaces (Js.toUpperCase (Importer.cleanCell raw))).
  destruct (negb (Js.truthy text)); [discriminate |].
  set (compact := Js.removeSpaces text).
  set (letters := Js.takeChars Js.isUpper compact).
  set (digits := Js.dropChars Js.isUpper compact).
  destruct (_ && _) eqn:Hc; [| discriminate].
  intros [= <-].
  apply andb_true_iff in Hc as [[Hl Hd]%andb_true_iff Hall].
  pose proof (TextFacts.takeChars_all Js.isUpper compact) as Hup. fold letters in Hup.
  pose proof (proj1 (TextFacts.lengthIn_spec _ _ _) Hl) as Hll.
  pose proof (proj1 (TextFacts.lengthIn_spec _ _ _) Hd) as Hdl.
  destruct digits as [|x d] eqn:Ed; [simpl in Hdl; lia |].
  simpl in Hall. apply andb_true_iff in Hall as [Hx Hrest].
  assert (Hne : letters <> "") by (intros E0; rewrite E0 in Hll; simpl in Hll; lia).
  assert (Hdc : Js.allChars Portal.isCodeChar d = true).
  { revert Hrest. apply TextFacts.allChars_impl. intros ch H.
    unfold Portal.isCodeChar. rewrite H. apply orb_true_r. }
  destruct (TextFacts.code_pipeline letters x d Hup Hne Hx Hdc) as (P1 & P2 & P3 & P4).
  split; [| split].
  - exists letters, (String x d). repeat split; try tauto.
    simpl. now rewrite Hx, Hrest.
  - unfold Importer.normalizeCourseCode. rewrite P1.
    assert (Htr : Js.truthy (letters +:+ " " +:+ String x d) = true)
      by (destruct letters; [contradiction | reflexivity]).
    rewrite Htr. cbv [negb]. rewrite P2, P3, P4, Hl, Hd.
    simpl. now rewrite Hx, Hrest.
  - assert (Hdig : Js.takeChars Js.isDigit (String x d) = String x d
                   /\ Js.dropChars Js.isDigit (String x d) = "").
    { assert (Hxd : Js.allChars Js.isDigit (String x d) = true)
        by (simpl; now rewrite Hx, Hrest).
      exact (NormalizerFacts.takeChars_whole _ _ Hxd). }
    destruct Hdig as [Ht Hdrop]. rewrite Ht, Hdrop.
    assert (Hl6 : Importer.lengthIn 2 6 letters = true).
    { apply TextFacts.lengthIn_spec. lia. }
    rewrite Hl6, Hd. reflexivity.
Qed.

End NormalizerFacts.

(** X1.  [normalizeInstructionCode] yields capital letters and digits only,
    and the strings of capital letters and digits are its fixed points: a
    code that went through it once (as the stored codes did) comes back
    unchanged, so normalizing twice is normalizing once. *)
Theorem normalizeInstructionCode_canonical (raw : string) :
  let code := Portal.normalizeInstructionCode raw in
  Js.allChars Portal.isCodeChar code = true
  /\ Portal.normalizeInstructionCode code = code
  /\ forall s, Js.allChars Portal.isCodeChar s = true ->
               Portal.normalizeInstructionCode s = s.
Proof.
  intros code. split; [| split].
  - apply NormalizerFacts.normalizeInstructionCode_chars.
  - apply NormalizerFacts.normalizeInstructionCode_fixed,
      NormalizerFacts.normalizeInstructionCode_chars.
  - apply NormalizerFacts.normalizeInstructionCode_fixed.
Qed.

(** X2.  [normalizeClassGroupName] is idempotent, and its result is in
    canonical form: no white space at either end, no small letter, and no
    white space inside other than single spaces. *)
Theorem normalizeClassGroupName_idempotent (raw : string) :
  let name := Portal.normalizeClassGroupName raw in
  Portal.normalizeClassGroupName name = name
  /\ Js.trim name = name
  /\ Js.toUpperCase name = name
  /\ Js.collapseSpaces name = name.
Proof.
  intros name.
  destruct (NormalizerFacts.classGroupName_shape raw) as (Ht & Hu & Hc).
  fold name in Ht, Hu, Hc. split; [| auto].
  unfold Portal.normalizeClassGroupName at 1.
  destruct (negb (Js.truthy name)) eqn:E.
  - apply negb_true_iff, truthy_false in E. now rewrite E.
  - now rewrite Ht, Hu, Hc.
Qed.

(** X3.  [extractInstructionCode] returns the empty string (in particular
    for a missing text) or a code made of IHA and one to four capital
    letters or digits, which occurs in the upper-cased text; either way the
    result is a fixed point of [normalizeInstructionCode], the form in which
    the assignment rows' codes are compared with it. *)
Theorem extractInstructionCode_shape (value : option string) :
  let code := Portal.extractInstructionCode value in
  (code = ""
   \/ exists run,
        code = "IHA" +:+ run
        /\ (1 <= String.length run <= 4)%nat
        /\ Js.allChars Portal.isCodeChar run = true
        /\ Js.includes code (Js.toUpperCase (default "" value)) = true)
  /\ Portal.normalizeInstructionCode code = code
  /\ Portal.extractInstructionCode None = "".
Proof.
  intros code. unfold code, Portal.extractInstructionCode.
  destruct (Portal.searchInstruction false (Js.toUpperCase (default "" value)))
    as [m|] eqn:E; [| split; [left; reflexivity | split; reflexivity]].
  destruct (NormalizerFacts.searchInstruction_shape _ _ _ E) as (Hi & run & -> & Hlen & Hrun).
  assert (Hfix : Portal.normalizeInstructionCode ("IHA" +:+ run) = "IHA" +:+ run).
  { apply NormalizerFacts.normalizeInstructionCode_fixed.
    rewrite TextFacts.allChars_append, Hrun. reflexivity. }
  rewrite Hfix. split; [| split; [exact Hfix | reflexivity]].
  right. exists run. auto.
Qed.

(** X4.  What the importer's [normalizeCourseCode] accepts comes out in
    canonical form: two to four capital letters, one space, three or four
    digits; a canonical code is accepted unchanged (the function is
    idempotent); and every text the importer accepts is accepted by the
    catalog side's [normalizeCourseCode], with the same code. *)
Theorem importer_course_code_canonical (raw code : string) :
  Importer.normalizeCourseCode raw = Some code ->
  (exists letters digits,
     code = letters +:+ " " +:+ digits
     /\ Js.allChars Js.isUpper letters = true
     /\ (2 <= String.length letters <= 4)%nat
     /\ Js.allChars Js.isDigit digits = true
     /\ (3 <= String.length digits <= 4)%nat)
  /\ Importer.normalizeCourseCode code = Some code
  /\ Knowledge.normalizeCourseCode raw = Some code.
Proof. apply NormalizerFacts.importer_code_facts. Qed.

Lemma importer_course_code_canonical_witness :
  Importer.normalizeCourseCode " cs2255 " = Some "CS 2255"
  /\ Importer.normalizeCourseCode "CS 2255" = Some "CS 2255"
  /\ Knowledge.normalizeCourseCode " cs2255 " = Some "CS 2255".
Proof.
  split; [reflexivity |].
  exact (proj2 (importer_course_code_canonical " cs2255 " "CS 2255" eq_refl)).
Defined.

(** X5.  The catalog side's [normalizeCourseCode] is idempotent, and what it
    accepts comes out as two to six capital letters, one space, three or
    four digits and at most one capital letter after them. *)
Theorem catalog_course_code_canonical (raw code : string) :
  Knowledge.normalizeCourseCode raw = Some code ->
  (exists letters digits suffix,
     code = letters +:+ " " +:+ digits +:+ suffix
     /\ Js.allChars Js.isUpper letters = true
     /\ (2 <= String.length letters <= 6)%nat
     /\ Js.allChars Js.isDigit digits = true
     /\ (3 <= String.length digits <= 4)%nat
     /\ Js.allChars Js.isUpper suffix = true
     /\ (String.length suffix <= 1)%nat)
  /\ Knowledge.normalizeCourseCode code = Some code.
Proof.
  unfold Knowledge.normalizeCourseCode at 1.
  set (text := Js.collapseSpaces (Js.toUpperCase (Importer.cleanCell raw))).
  destruct (negb (Js.truthy text)); [discriminate |].
  set (compact := Js.removeSpaces text).
  set (letters := Js.takeChars Js.isUpper compact).
  set (rest := Js.dropChars Js.isUpper compact).
  set (digits := Js.takeChars Js.isDigit rest).
  set (suffix := Js.dropChars Js.isDigit rest).
  destruct (_ && _) eqn:Hc; [| discriminate].
  intros [= <-].
  apply andb_true_iff in Hc as [[[Hl Hd]%andb_true_iff Hs]%andb_true_iff Hsu].
  pose proof (TextFacts.takeChars_all Js.isUpper compact) as Hup. fold letters in Hup.
  pose proof (TextFacts.takeChars_all Js.isDigit rest) as Hdg. fold digits in Hdg.
  pose proof (TextFacts.take_drop_chars Js.isDigit rest) as Hrest.
  fold digits suffix in Hrest.
  pose proof (proj1 (TextFacts.lengthIn_spec _ _ _) Hl) as Hll.
  pose proof (proj1 (TextFacts.lengthIn_spec _ _ _) Hd) as Hdl.
  pose proof (proj1 (TextFacts.lengthIn_spec _ _ _) Hs) as Hsl.
  assert (Hne : letters <> "") by (intros E0; rewrite E0 in Hll; simpl in Hll; lia).
  destruct digits as [|x d] eqn:Ed; [simpl in Hdl; lia |].
  pose proof Hdg as Hdg'. simpl in Hdg'. apply andb_true_iff in Hdg' as [Hx Hd'].
  assert (Hrc : exists r, rest = String x r /\ Js.allChars Portal.isCodeChar r = true).
  { exists (d +:+ suffix). split; [now rewrite <- Hrest |].
    rewrite TextFacts.allChars_append. apply andb_true_iff. split.
    - revert Hd'. apply TextFacts.allChars_impl. intros ch H.
      unfold Portal.isCodeChar. rewrite H. apply orb_true_r.
    - revert Hsu. apply TextFacts.allChars_impl. intros ch H.
      unfold Portal.isCodeChar. now rewrite H. }
  destruct Hrc as (r & Er & Hr).
  destruct (TextFacts.code_pipeline letters x r Hup Hne Hx Hr) as (P1 & P2 & P3 & P4).
  split.
  - exists letters, (String x d), suffix. rewrite Hrest. repeat split; try tauto; lia.
  - unfold Knowledge.normalizeCourseCode. rewrite Er, P1.
    assert (Htr : Js.truthy (letters +:+ " " +:+ String x r) = true)
      by (destruct letters; [contradiction | reflexivity]).
    rewrite Htr. cbv [negb]. rewrite P2, P3, P4, <- Er.
    change (Js.takeChars Js.isDigit rest) with digits.
    change (Js.dropChars Js.isDigit rest) with suffix.
    rewrite Ed, Hl, Hd, Hs, Hsu. reflexivity.
Qed.

Lemma catalog_course_code_canonical_witness :
  Knowledge.normalizeCourseCode "math 1125h" = Some "MATH 1125H"
  /\ Knowledge.normalizeCourseCode "MATH 1125H" = Some "MATH 1125H".
Proof.
  split; [reflexivity |].
  exact (proj2 (catalog_course_code_canonical "math 1125h" "MATH 1125H" eq_refl)).
Defined.

(** ** The workbook parser: what its output always satisfies *)

Module GroupFacts.
Import Js Importer TextFacts.

Lemma digit_value c : isDigit c = true -> (N.to_nat (code c) - 48 <= 9)%nat.
Proof. each_char c; intros _; lia. Qed.

Lemma digits12_shape s d :
  digits12 s = Some d ->
  allChars isDigit d = true /\ (1 <= String.length d <= 2)%nat.
Proof.
  unfold digits12. destruct s as [|a r]; [discriminate |].
  destruct (isDigit a) eqn:Ha; [| discriminate].
  destruct r as [|b r'].
  - intros [= <-]. simpl. rewrite Ha. split; [reflexivity | lia].
  - destruct (isDigit b) eqn:Hb; intros [= <-]; simpl; rewrite Ha, ?Hb;
      (split; [reflexivity | lia]).
Qed.

Lemma matchGroupAt_shape s d len :
  matchGroupAt s = Some (d, len) ->
  allChars isDigit d = true /\ (1 <= String.length d <= 2)%nat /\ s <> "".
Proof.
  unfold matchGroupAt. destruct (startsWith "IT" s) eqn:Hs; [| discriminate].
  assert (Hne : s <> "") by (intros ->; discriminate).
  destruct (dropChars isSpace _) as [|c rest'] eqn:Er; [discriminate |].
  destruct (Ascii.eqb c "0").
  - destruct (digits12 rest') as [d'|] eqn:Ed.
    + intros [= <- _]. destruct (digits12_shape _ _ Ed). auto.
    + intros [= <- _]. split; [reflexivity | split; [simpl; lia | exact Hne]].
  - destruct (digits12 (String c rest')) as [d'|] eqn:Ed; [| discriminate].
    intros [= <- _]. destruct (digits12_shape _ _ Ed). auto.
Qed.

Lemma parseDecimal_small d :
  allChars isDigit d = true -> (1 <= String.length d <= 2)%nat -> (parseDecimal d < 100)%nat.
Proof.
  destruct d as [|a [|b [|c r]]]; simpl; intros H L; try lia.
  - rewrite andb_true_r in H. pose proof (digit_value a H). unfold parseDecimal. simpl. lia.
  - apply andb_true_iff in H as [Ha Hb]. rewrite andb_true_r in Hb.
    pose proof (digit_value a Ha). pose proof (digit_value b Hb).
    unfold parseDecimal. simpl. lia.
Qed.


Lemma scanGroups_shape skip s :
  Forall (fun d => allChars isDigit d = true /\ (1 <= String.length d <= 2)%nat)
    (scanGroups skip s).
Proof.
  revert skip. induction s as [|c s IH]; intros skip; simpl; [constructor |].
  destruct skip as [|k]; [| apply IH].
  destruct (matchGroupAt (String c s)) as [[d len]|] eqn:E; [| apply IH].
  constructor; [| apply IH].
  destruct (matchGroupAt_shape _ _ _ E) as (? & ? & ?). auto.
Qed.

Lemma searchGroup_scanGroups s :
  is_Some (searchGroup s) -> scanGroups 0 s <> [].
Proof.
  induction s as [|c s IH]; simpl.
  - intros [? [=]].
  - destruct (matchGroupAt (String c s)) as [[d l]|] eqn:E; [discriminate |].
    destruct (searchGroup s) as [[[st l] d0]|] eqn:Es; [| intros [? [=]]].
    intros _. apply IH. eauto.
Qed.

Lemma groupNumbers_small label : Forall (fun n => n < 100)%nat (groupNumbers label).
Proof.
  unfold groupNumbers. apply Forall_forall. intros n Hn.
  apply list_elem_of_fmap in Hn as (d & -> & Hd).
  pose proof (scanGroups_shape 0 (toUpperCase label)) as H.
  rewrite Forall_forall in H. destruct (H d Hd). now apply parseDecimal_small.
Qed.

(** The hundred labels IT 00 to IT 99: distinct, and each one read back by
    [normalizeClassGroup] as itself. *)
Lemma labels_checked :
  NoDup (map groupLabel (seq 0 100))
  /\ Forall (fun n => normalizeClassGroup (groupLabel n) = Some (groupLabel n)) (seq 0 100).
Proof.
  split.
  - apply (bool_decide_unpack (NoDup (map groupLabel (seq 0 100)))). vm_compute. exact I.
  - apply (bool_decide_unpack
             (Forall (fun n => normalizeClassGroup (groupLabel n) = Some (groupLabel n))
                (seq 0 100))).
    vm_compute. exact I.
Qed.

Lemma groupLabel_fixed n :
  (n < 100)%nat -> normalizeClassGroup (groupLabel n) = Some (groupLabel n).
Proof.
  intros Hn. destruct labels_checked as [_ H]. rewrite Forall_forall in H.
  apply H. apply elem_of_seq. lia.
Qed.

Lemma groupLabel_inj n m :
  (n < 100)%nat -> (m < 100)%nat -> groupLabel n = groupLabel m -> n = m.
Proof.
  intros Hn Hm. destruct labels_checked as [H _].
  apply (StoreFacts.NoDup_map_inj_on groupLabel (seq 0 100)); try assumption;
    apply elem_of_seq; lia.
Qed.

Lemma labels_NoDup start len :
  (start + len <= 100)%nat -> NoDup (map groupLabel (seq start len)).
Proof.
  intros H. apply NoDup_fmap_2_strong; [| apply NoDup_seq].
  intros n m Hn%elem_of_seq Hm%elem_of_seq. apply groupLabel_inj; lia.
Qed.


Lemma expandClassGroups_cases label :
  (exists start stop rest,
     groupNumbers label = start :: stop :: rest
     /\ (start < stop)%nat
     /\ expandClassGroups label = map groupLabel (seq start (stop - start + 1)))
  \/ expandClassGroups label = unique (map groupLabel (groupNumbers label)).
Proof.
  unfold expandClassGroups.
  destruct (groupNumbers label) as [|start [|stop rest]]; [right | right |]; try reflexivity.
  destruct (_ && _) eqn:E; [| right; reflexivity].
  left. exists start, stop, rest.
  apply andb_true_iff in E as [[_ Hlt]%andb_true_iff _]. apply Nat.ltb_lt in Hlt.
  auto.
Qed.

Lemma expandClassGroups_NoDup label : NoDup (expandClassGroups label).
Proof.
  destruct (expandClassGroups_cases label) as [(a & b & rest & Hn & Hlt & ->) | ->].
  - pose proof (groupNumbers_small label) as Hs. rewrite Hn in Hs.
    inversion Hs as [|? ? _ Hs']. inversion Hs' as [|? ? Hb _]. subst.
    apply labels_NoDup. lia.
  - apply unique_NoDup.
Qed.

Lemma expandClassGroups_canonical label g :
  g ∈ expandClassGroups label -> exists n, (n < 100)%nat /\ g = groupLabel n.
Proof.
  destruct (expandClassGroups_cases label) as [(a & b & rest & Hn & Hlt & ->) | ->].
  - pose proof (groupNumbers_small label) as Hs. rewrite Hn in Hs.
    inversion Hs as [|? ? _ Hs']. inversion Hs' as [|? ? Hb _]. subst.
    intros (n & -> & Hin%elem_of_seq)%list_elem_of_fmap. exists n. split; [lia | reflexivity].
  - rewrite unique_elem.
    intros (n & -> & Hin)%list_elem_of_fmap. exists n. split; [| reflexivity].
    pose proof (groupNumbers_small label) as Hs. rewrite Forall_forall in Hs. auto.
Qed.

Lemma expandClassGroups_nil label :
  expandClassGroups label = [] <-> groupNumbers label = [].
Proof.
  split.
  - destruct (expandClassGroups_cases label) as [(a & b & rest & Hn & Hlt & ->) | ->].
    + replace (b - a + 1)%nat with (S (b - a)) by lia. discriminate.
    + destruct (groupNumbers label) as [|n r]; [reflexivity |].
      intros H. assert (Hin : groupLabel n ∈ unique (map groupLabel (n :: r))).
      { apply unique_elem. simpl. apply list_elem_of_here. }
      rewrite H in Hin. inversion Hin.
  - unfold expandClassGroups. intros ->. reflexivity.
Qed.

Lemma declaration_row_declares value :
  looksLikeClassGroupRow value = true -> expandClassGroups value <> [].
Proof.
  unfold looksLikeClassGroupRow. intros [Hs _]%andb_true_iff.
  apply bool_decide_eq_true in Hs. rewrite expandClassGroups_nil.
  unfold groupNumbers. intros H. apply fmap_nil_inv in H.
  now apply (searchGroup_scanGroups _ Hs).
Qed.

End GroupFacts.

(** X6.  [expandClassGroups] never returns a group twice; every group it
    returns is one of the labels IT 00 to IT 99, which [normalizeClassGroup]
    reads back as itself; its result is empty exactly when the label holds
    no group token; and a row that [looksLikeClassGroupRow] accepts always
    declares at least one group. *)
Theorem expandClassGroups_canonical_labels (label : string) :
  let groups := Importer.expandClassGroups label in
  NoDup groups
  /\ (forall g, g ∈ groups ->
        exists n, (n < 100)%nat /\ g = Importer.groupLabel n
                  /\ Importer.normalizeClassGroup g = Some g)
  /\ (groups = [] <-> Importer.groupNumbers label = [])
  /\ (Importer.looksLikeClassGroupRow label = true -> groups <> []).
Proof.
  intros groups. split; [| split; [| split]].
  - apply GroupFacts.expandClassGroups_NoDup.
  - intros g Hg. destruct (GroupFacts.expandClassGroups_canonical _ _ Hg) as (n & Hn & ->).
    exists n. repeat split; [exact Hn |]. now apply GroupFacts.groupLabel_fixed.
  - apply GroupFacts.expandClassGroups_nil.
  - apply GroupFacts.declaration_row_declares.
Qed.

Module EventFacts.
Import Js Portal Importer ImporterSpec TextFacts.











Lemma findIndex_lt {A} (p : A -> bool) l i : findIndex p l = Some i -> (i < length l)%nat.
Proof.
  revert i. induction l as [|x l IH]; intros i; simpl; [discriminate |].
  destruct (p x); [intros [= <-]; lia |].
  destruct (findIndex p l) as [j|]; [| discriminate].
  intros [= <-]. specialize (IH j eq_refl). lia.
Qed.


End EventFacts.





(** ** The CSV reader *)

Module CsvFacts.
Import Csv CsvSpec.
Local Open Scope Z_scope.

Lemma parse_bare t tail rows row field :
  plain t ->
  parseFrom (t ++ tail) rows row field false = parseFrom tail rows row (field ++ t) false.
Proof.
  intros Ht. revert field. induction Ht as [|c t (H34 & H44 & H10 & H13) _ IH]; intros field.
  - now rewrite app_nil_r.
  - cbn [app parseFrom].
    rewrite (proj2 (Z.eqb_neq _ _) H34), (proj2 (Z.eqb_neq _ _) H44),
      (proj2 (Z.eqb_neq _ _) H10), (proj2 (Z.eqb_neq _ _) H13).
    rewrite IH, <- app_assoc. reflexivity.
Qed.

Lemma parse_escaped t tail rows row field :
  noQuoteAhead tail ->
  parseFrom (escape t ++ 34 :: tail) rows row field true
  = parseFrom tail rows row (field ++ t) false.
Proof.
  intros Htail. revert field. induction t as [|c t IH]; intros field.
  - cbn [escape flat_map app parseFrom]. rewrite Z.eqb_refl, app_nil_r.
    destruct tail as [|n tail']; [reflexivity |].
    simpl in Htail. now rewrite (proj2 (Z.eqb_neq _ _) Htail).
  - unfold escape. cbn [flat_map]. fold (escape t).
    destruct (c =? 34) eqn:E.
    + apply Z.eqb_eq in E. subst c. cbn [app parseFrom]. rewrite Z.eqb_refl.
      rewrite IH, <- app_assoc. reflexivity.
    + cbn [app parseFrom]. rewrite E, IH, <- app_assoc. reflexivity.
Qed.

Lemma parse_cell c tail rows row field :
  cellOk c -> noQuoteAhead tail ->
  parseFrom (renderCell c ++ tail) rows row field false
  = parseFrom tail rows row (field ++ cellText c) false.
Proof.
  intros Hc Htail. destruct c as [t | t]; cbn [renderCell cellText].
  - now apply parse_bare.
  - cbn [app parseFrom]. rewrite Z.eqb_refl, <- app_assoc. cbn [app].
    now apply parse_escaped.
Qed.

Lemma parse_line_end l rest rows row field :
  parseFrom (lineEnd l ++ rest) rows row field false
  = parseFrom rest (rows ++ [row ++ [field]]) [] [] false.
Proof. unfold lineEnd. destruct (crlf l); reflexivity. Qed.

Lemma lineEnd_no_quote l rest : noQuoteAhead (lineEnd l ++ rest).
Proof. unfold lineEnd. destruct (crlf l); simpl; lia. Qed.

Lemma parse_cells cs l rest rows row :
  cs <> [] -> Forall cellOk cs ->
  parseFrom (renderCells cs ++ lineEnd l ++ rest) rows row [] false
  = parseFrom rest (rows ++ [row ++ map cellText cs]) [] [] false.
Proof.
  intros Hne Hok. revert row.
  induction cs as [|c cs IH]; intros row; [contradiction |].
  inversion Hok as [|? ? Hc Hcs]; subst.
  destruct cs as [|c' cs'].
  - cbn [renderCells map].
    rewrite (parse_cell c _ rows row [] Hc (lineEnd_no_quote l rest)).
    apply parse_line_end.
  - change (renderCells (c :: c' :: cs'))
      with (renderCell c ++ 44 :: renderCells (c' :: cs')).
    rewrite <- app_assoc. cbn [app].
    rewrite (parse_cell c _ rows row [] Hc); [| simpl; lia].
    cbn [app parseFrom]. change (44 =? 34) with false. change (44 =? 44) with true.
    cbv iota. rewrite (IH ltac:(discriminate) Hcs).
    cbn [map]. rewrite <- app_assoc. reflexivity.
Qed.

Lemma parse_lines lines rest rows :
  Forall lineOk lines ->
  parseFrom (render lines ++ rest) rows [] [] false
  = parseFrom rest (rows ++ texts lines) [] [] false.
Proof.
  intros Hok. revert rows. induction Hok as [|l lines [Hne Hcells] _ IH]; intros rows.
  - cbn. now rewrite app_nil_r.
  - unfold render. cbn [flat_map]. fold (render lines). unfold renderLine.
    rewrite <- !app_assoc, (parse_cells _ l _ rows [] Hne Hcells), IH.
    cbn [texts map app]. rewrite <- app_assoc. reflexivity.
Qed.

Lemma parse_open_quote body rows row field :
  Forall (fun c => c <> 34) body ->
  parseFrom body rows row field true
  = if (0 <? length (field ++ body))%nat || (0 <? length row)%nat
    then rows ++ [row ++ [field ++ body]] else rows.
Proof.
  intros Hb. revert field. induction Hb as [|c body Hc _ IH]; intros field.
  - cbn [parseFrom]. now rewrite app_nil_r.
  - cbn [parseFrom]. rewrite (proj2 (Z.eqb_neq _ _) Hc), IH, <- app_assoc. reflexivity.
Qed.

Lemma parse_last_cells cs rows row :
  cs <> [] -> Forall cellOk cs ->
  parseFrom (renderCells cs) rows row [] false
  = if bool_decide (row = [] /\ map cellText cs = [[]])
    then rows else rows ++ [row ++ map cellText cs].
Proof.
  intros Hne Hok. revert row.
  induction cs as [|c cs IH]; intros row; [contradiction |].
  inversion Hok as [|? ? Hc Hcs]; subst.
  destruct cs as [|c' cs'].
  - cbn [renderCells map]. rewrite <- (app_nil_r (renderCell c)).
    rewrite (parse_cell c [] rows row [] Hc I). cbn [app parseFrom].
    destruct (cellText c) as [|u t], row as [|r0 row']; cbn [length Nat.ltb Nat.leb orb];
      try reflexivity;
      (rewrite bool_decide_false; [reflexivity | intros [H1 H2]; discriminate]).
  - change (renderCells (c :: c' :: cs'))
      with (renderCell c ++ 44 :: renderCells (c' :: cs')).
    rewrite (parse_cell c _ rows row [] Hc); [| simpl; lia].
    cbn [app parseFrom]. change (44 =? 34) with false. change (44 =? 44) with true.
    cbv iota. rewrite (IH ltac:(discriminate) Hcs).
    rewrite !bool_decide_false.
    + cbn [map]. rewrite <- app_assoc. reflexivity.
    + intros [_ [=]].
    + intros [H _]. destruct row; discriminate.
Qed.

Lemma bmp_scalar text : Forall bmp text -> Forall Catalog.scalar text.
Proof.
  intros H. eapply Forall_impl; [exact H |].
  intros u Hu. unfold bmp, Catalog.scalar in *. lia.
Qed.

Lemma bmp_utf16 text : Forall bmp text -> flat_map Catalog.utf16 text = text.
Proof.
  induction 1 as [|u text Hu _ IH]; [reflexivity |].
  cbn [flat_map]. rewrite IH. unfold Catalog.utf16, bmp in *.
  replace (u <? 65536) with true by (symmetry; apply Z.ltb_lt; lia). reflexivity.
Qed.

Lemma decode_clean cps :
  Forall Catalog.scalar cps ->
  Catalog.markerHits (Catalog.stripBom (flat_map Catalog.utf16 cps)) < 8 ->
  Catalog.decodeCatalogCsv (Catalog.encodeAll cps)
  = Catalog.stripBom (flat_map Catalog.utf16 cps).
Proof.
  intros Hs Hh. unfold Catalog.decodeCatalogCsv, Catalog.toStringUtf8.
  rewrite (CatalogFacts.decode_encodeAll _ Hs).
  replace (8 <=? _) with false by (symmetry; apply Z.leb_gt; exact Hh). reflexivity.
Qed.

Lemma fileBytes_decoded bom text :
  Forall bmp text -> head text <> Some 65279 -> Catalog.markerHits text < 8 ->
  Catalog.decodeCatalogCsv (fileBytes bom text) = text.
Proof.
  intros Hb Hhead Hh.
  assert (Hstrip : Catalog.stripBom text = text).
  { destruct text as [|u t]; [reflexivity |]. unfold Catalog.stripBom.
    destruct (Z.eqb_spec u 65279) as [-> | _]; [| reflexivity].
    exfalso. apply Hhead. reflexivity. }
  unfold fileBytes. destruct bom.
  - change ([239; 187; 191] ++ Catalog.encodeAll text)
      with (Catalog.encodeAll (65279 :: text)).
    assert (Hs : Forall Catalog.scalar (65279 :: text)).
    { constructor; [unfold Catalog.scalar; lia | now apply bmp_scalar]. }
    assert (Hu : flat_map Catalog.utf16 (65279 :: text) = 65279 :: text).
    { apply bmp_utf16. constructor; [unfold bmp; lia | exact Hb]. }
    rewrite (decode_clean _ Hs); rewrite Hu; [reflexivity | exact Hh].
  - cbn [app]. rewrite (decode_clean _ (bmp_scalar _ Hb)); rewrite (bmp_utf16 _ Hb), Hstrip;
      [reflexivity | exact Hh].
Qed.

End CsvFacts.

(** X9.  [parseCsvText] reads back what a CSV writer wrote: for lines of at
    least one cell each, every cell written bare (its text free of quotes,
    commas and line ends) or between quotes with its quotes doubled (any
    text, commas and line ends included), the lines ended by LF or CR LF,
    the result is the rows of cell texts, with no row added for the end of
    the last line. *)
Theorem parseCsvText_reads_back_written_lines (lines : list CsvSpec.Line) :
  Forall CsvSpec.lineOk lines ->
  Csv.parseCsvText (CsvSpec.render lines) = CsvSpec.texts lines.
Proof.
  intros Hok. unfold Csv.parseCsvText.
  rewrite <- (app_nil_r (CsvSpec.render lines)), (CsvFacts.parse_lines _ _ _ Hok).
  reflexivity.
Qed.

Lemma parseCsvText_reads_back_witness :
  Csv.parseCsvText (CsvSpec.render CsvSpec.sample)
  = [ [[78; 111]; [97; 44; 34; 98; 10; 99]]; [[]] ]%Z.
Proof.
  apply (parseCsvText_reads_back_written_lines CsvSpec.sample).
  apply (bool_decide_unpack (Forall CsvSpec.lineOk CsvSpec.sample)). vm_compute. exact I.
Defined.

(** X10.  A quote that is opened and never closed swallows the rest of the
    text: after any well-formed lines, everything behind the opening quote,
    commas and line ends included, becomes the one field of one last row;
    when nothing follows the quote, no row is added. *)
Theorem parseCsvText_unclosed_quote (lines : list CsvSpec.Line) (body : list Z) :
  Forall CsvSpec.lineOk lines ->
  Forall (fun c => c <> 34%Z) body ->
  Csv.parseCsvText (CsvSpec.render lines ++ 34%Z :: body)
  = CsvSpec.texts lines ++ match body with [] => [] | _ => [[body]] end.
Proof.
  intros Hok Hb. unfold Csv.parseCsvText.
  rewrite (CsvFacts.parse_lines _ _ _ Hok). cbn [Csv.parseFrom app].
  change (34 =? 34)%Z with true. cbv iota.
  rewrite (CsvFacts.parse_open_quote _ _ _ _ Hb). cbn [app length].
  destruct body; [now rewrite app_nil_r | reflexivity].
Qed.

Lemma parseCsvText_unclosed_quote_witness :
  Csv.parseCsvText (CsvSpec.render CsvSpec.sample ++ [34; 98; 44; 99; 10; 100]%Z)
  = [ [[78; 111]; [97; 44; 34; 98; 10; 99]]; [[]]; [[98; 44; 99; 10; 100]] ]%Z.
Proof.
  apply (parseCsvText_unclosed_quote CsvSpec.sample [98; 44; 99; 10; 100]%Z).
  - apply (bool_decide_unpack (Forall CsvSpec.lineOk CsvSpec.sample)). vm_compute. exact I.
  - apply (bool_decide_unpack (Forall (fun c => c <> 34%Z) [98; 44; 99; 10; 100]%Z)).
    vm_compute. exact I.
Defined.

(** X11.  A last line that is not ended is still a row, unless it consists
    of one empty cell: behind any well-formed lines, the cells of an
    unended line come back as one more row, except that a single empty cell
    (written bare or as two quotes) leaves no row, although the same line
    with a line end is a row of one empty cell. *)
Theorem parseCsvText_unended_last_line (lines : list CsvSpec.Line) (cs : list CsvSpec.Cell) :
  Forall CsvSpec.lineOk lines ->
  cs <> [] -> Forall CsvSpec.cellOk cs ->
  Csv.parseCsvText (CsvSpec.render lines ++ CsvSpec.renderCells cs)
  = CsvSpec.texts lines
    ++ (if bool_decide (map CsvSpec.cellText cs = [[]]) then []
        else [map CsvSpec.cellText cs]).
Proof.
  intros Hok Hne Hcs. unfold Csv.parseCsvText.
  rewrite (CsvFacts.parse_lines _ _ _ Hok), (CsvFacts.parse_last_cells _ _ _ Hne Hcs).
  cbn [app].
  destruct (decide (map CsvSpec.cellText cs = [[]])) as [E | E].
  - rewrite !bool_decide_true by auto. now rewrite app_nil_r.
  - rewrite !bool_decide_false by tauto. reflexivity.
Qed.

Lemma parseCsvText_unended_last_line_witness :
  Csv.parseCsvText (CsvSpec.render CsvSpec.sample ++ [34; 34]%Z)
  = [ [[78; 111]; [97; 44; 34; 98; 10; 99]]; [[]] ]%Z
  /\ Csv.parseCsvText (CsvSpec.render CsvSpec.sample ++ [120; 44]%Z)
     = [ [[78; 111]; [97; 44; 34; 98; 10; 99]]; [[]]; [[120]; []] ]%Z.
Proof.
  split.
  - apply (parseCsvText_unended_last_line CsvSpec.sample [CsvSpec.Quoted []]).
    + apply (bool_decide_unpack (Forall CsvSpec.lineOk CsvSpec.sample)). vm_compute. exact I.
    + discriminate.
    + apply (bool_decide_unpack (Forall CsvSpec.cellOk [CsvSpec.Quoted []])).
      vm_compute. exact I.
  - apply (parseCsvText_unended_last_line CsvSpec.sample
             [CsvSpec.Bare [120%Z]; CsvSpec.Bare []]).
    + apply (bool_decide_unpack (Forall CsvSpec.lineOk CsvSpec.sample)). vm_compute. exact I.
    + discriminate.
    + apply (bool_decide_unpack
               (Forall CsvSpec.cellOk [CsvSpec.Bare [120%Z]; CsvSpec.Bare []])).
      vm_compute. exact I.
Defined.

(** X12.  The catalog decoder gives back the text of a clean UTF-8 file:
    for a text of Unicode scalar values with fewer than eight suspicious
    substrings, [decodeCatalogCsv] of its UTF-8 encoding is the text as
    UTF-16 code units (characters beyond U+FFFF as surrogate pairs), less a
    leading byte order mark. *)
Theorem decodeCatalogCsv_utf8_round_trip (cps : list Z) :
  Forall Catalog.scalar cps ->
  (Catalog.markerHits (Catalog.stripBom (flat_map Catalog.utf16 cps)) < 8)%Z ->
  Catalog.decodeCatalogCsv (Catalog.encodeAll cps)
  = Catalog.stripBom (flat_map Catalog.utf16 cps).
Proof. apply CsvFacts.decode_clean. Qed.

Lemma decodeCatalogCsv_utf8_round_trip_witness :
  Catalog.decodeCatalogCsv (Catalog.encodeAll [65279; 72; 7885; 99; 128512]%Z)
  = [72; 7885; 99; 55357; 56832]%Z.
Proof.
  apply (decodeCatalogCsv_utf8_round_trip [65279; 72; 7885; 99; 128512]%Z).
  - unfold Catalog.scalar.
    apply (bool_decide_unpack
             (Forall (fun cp => (0 <= cp < 1114112)%Z /\ ~ (55296 <= cp <= 57343)%Z)
                [65279; 72; 7885; 99; 128512]%Z)).
    vm_compute. exact I.
  - vm_compute. reflexivity.
Defined.

(** X13.  Reading a catalog file composes the two: for lines as a CSV
    writer writes them, made of characters of the basic plane, with fewer
    than eight suspicious substrings and no U+FEFF as first character of
    the text, decoding the UTF-8 bytes of the file (with or without a byte
    order mark in front) and parsing the result gives the rows of cell
    texts. *)
Theorem catalog_file_reads_back (bom : bool) (lines : list CsvSpec.Line) :
  Forall CsvSpec.lineOk lines ->
  Forall CsvSpec.bmp (CsvSpec.render lines) ->
  head (CsvSpec.render lines) <> Some 65279%Z ->
  (Catalog.markerHits (CsvSpec.render lines) < 8)%Z ->
  Csv.parseCsvText
    (Catalog.decodeCatalogCsv (CsvSpec.fileBytes bom (CsvSpec.render lines)))
  = CsvSpec.texts lines.
Proof.
  intros Hok Hb Hhead Hh.
  rewrite (CsvFacts.fileBytes_decoded bom _ Hb Hhead Hh).
  unfold Csv.parseCsvText.
  rewrite <- (app_nil_r (CsvSpec.render lines)), (CsvFacts.parse_lines _ _ _ Hok).
  reflexivity.
Qed.

Lemma catalog_file_reads_back_witness :
  Csv.parseCsvText
    (Catalog.decodeCatalogCsv (CsvSpec.fileBytes true (CsvSpec.render CsvSpec.sample)))
  = [ [[78; 111]; [97; 44; 34; 98; 10; 99]]; [[]] ]%Z.
Proof.
  apply (catalog_file_reads_back true CsvSpec.sample).
  - apply (bool_decide_unpack (Forall CsvSpec.lineOk CsvSpec.sample)). vm_compute. exact I.
  - apply (bool_decide_unpack (Forall CsvSpec.bmp (CsvSpec.render CsvSpec.sample))).
    vm_compute. exact I.
  - vm_compute. discriminate.
  - vm_compute. reflexivity.
Defined.

(** ** The entity normalizer: counts, keys and courses *)

Module SummaryFacts.
Import Portal Importer Store StoreSpec.

Lemma uniqueOnto_ext seen1 seen2 xs :
  (forall x, x ∈ seen1 <-> x ∈ seen2) -> Js.uniqueOnto seen1 xs = Js.uniqueOnto seen2 xs.
Proof.
  revert seen1 seen2. induction xs as [|y r IH]; intros seen1 seen2 Hs; simpl; [reflexivity |].
  rewrite (bool_decide_ext _ _ (Hs y)). case_bool_decide.
  - now apply IH.
  - f_equal. apply IH. intros x. rewrite !elem_of_cons, Hs. reflexivity.
Qed.

(** Adding the elements of a list to a set, one by one. *)
Lemma fold_setAdd xs acc :
  fold_left (fun s code => setAdd code s) xs acc = acc ++ Js.uniqueOnto acc xs.
Proof.
  revert acc. induction xs as [|x r IH]; intros acc; simpl.
  - now rewrite app_nil_r.
  - rewrite IH. unfold setAdd. case_bool_decide as Hx; [reflexivity |].
    rewrite <- app_assoc. simpl. do 2 f_equal. apply uniqueOnto_ext.
    intros y. rewrite elem_of_app, !elem_of_cons, elem_of_nil. tauto.
Qed.

Lemma totals_fold cmp sheets totals :
  let final := fold_left (sheetTotals cmp) sheets totals in
  totalEntries final
  = totalEntries totals + list_sum (map (fun s => length (p_events s)) sheets)
  /\ totalClassGroups final
     = totalClassGroups totals
       + list_sum (map (fun s => length (groupNamesOf cmp s)) sheets)
  /\ allCourseCodes final
     = fold_left (fun s code => setAdd code s) (flat_map cohortCourseCodes sheets)
         (allCourseCodes totals).
Proof.
  revert totals. induction sheets as [|sheet sheets IH]; intros totals.
  - simpl. split; [lia | split; [lia | reflexivity]].
  - cbn [fold_left map flat_map]. destruct (IH (sheetTotals cmp totals sheet))
      as (H1 & H2 & H3).
    rewrite H1, H2, H3. cbn [sheetTotals totalEntries totalClassGroups allCourseCodes].
    rewrite fold_left_app.
    repeat match goal with
           | |- context [list_sum (?a :: ?l)] =>
               change (list_sum (a :: l)) with (a + list_sum l)
           end.
    split; [lia | split; [lia | reflexivity]].
Qed.

Lemma groupNamesOf_length cmp sheet :
  length (groupNamesOf cmp sheet)
  = length (Js.unique (map ev_classGroupName (p_events sheet))).
Proof. unfold groupNamesOf. apply Permutation_length, FallbackFacts.sortBy_perm. Qed.

End SummaryFacts.

(** X14.  The summary of an import counts the workbook, not what the
    database kept: on a well-formed state the import of a non-empty list of
    sheets returns a summary whose entries count is the number of parsed
    events (every event resolves, since its class group was created from
    the events' own names and its course was upserted before), whose
    class-group count adds up the distinct group names of each sheet, whose
    course count is the number of distinct course codes of the sheets, and
    whose cohorts, semester key and label are read off the sheets. *)
Theorem import_summary_counts_the_workbook
    (localeCompare : string -> string -> Z) (first : Store.ParsedSheetData)
    (rest : list Store.ParsedSheetData) (sourceFile : string) (db : Store.DB) :
  StoreSpec.wellFormed db ->
  let sheets := first :: rest in
  exists summary,
    snd (Store.writeImport localeCompare sheets sourceFile db) = Some summary
    /\ Store.sum_entries summary
       = list_sum (map (fun s => length (Store.p_events s)) sheets)
    /\ Store.sum_classGroups summary
       = list_sum
           (map (fun s => length (Js.unique (map Importer.ev_classGroupName
                                               (Store.p_events s)))) sheets)
    /\ Store.sum_courses summary
       = length (Js.unique (flat_map Store.cohortCourseCodes sheets))
    /\ Store.sum_cohorts summary = map Store.p_cohortCode sheets
    /\ Store.sum_semesterKey summary = Store.p_semesterKey first
    /\ Store.sum_semesterLabel summary = Store.p_semesterLabel first
    /\ Store.sum_sourceFile summary = sourceFile.
Proof.
  intros Hwf sheets. unfold sheets.
  rewrite WriteFacts.writeImport_cons. eexists. split; [reflexivity |].
  cbn [Store.sum_entries Store.sum_classGroups Store.sum_courses Store.sum_cohorts
       Store.sum_semesterKey Store.sum_semesterLabel Store.sum_sourceFile].
  destruct (WriteFacts.withSheets_totals localeCompare first rest sourceFile db Hwf)
    as [_ ->].
  destruct (SummaryFacts.totals_fold localeCompare (first :: rest) Store.noTotals)
    as (H1 & H2 & H3).
  rewrite H1, H2, H3. cbn [Store.noTotals Store.totalEntries
    Store.totalClassGroups Store.allCourseCodes].
  rewrite SummaryFacts.fold_setAdd, !Nat.add_0_l. cbn [app].
  repeat split; try reflexivity.
  f_equal. apply map_ext. intros s. apply SummaryFacts.groupNamesOf_length.
Qed.

Lemma import_summary_counts_the_workbook_witness :
  exists summary,
    snd (Store.writeImport Sample.compareStrings [Sample.sheet] "new.xlsx" Sample.stored)
    = Some summary
    /\ Store.sum_entries summary = 3
    /\ Store.sum_classGroups summary = 2
    /\ Store.sum_courses summary = 2
    /\ Store.sum_cohorts summary = ["K69"]
    /\ Store.sum_semesterKey summary = "SPRING_2026"
    /\ Store.sum_semesterLabel summary = "SPRING 2026"
    /\ Store.sum_sourceFile summary = "new.xlsx".
Proof.
  apply (import_summary_counts_the_workbook Sample.compareStrings Sample.sheet []
           "new.xlsx" Sample.stored).
  apply (bool_decide_unpack (StoreSpec.wellFormed Sample.stored)). vm_compute. exact I.
Defined.

Module KeyFacts.
Import Portal Importer Store StoreSpec.

Lemma replaceGroups_NoDup c names view :
  NoDup names -> NoDup view -> NoDup (replaceGroups c (sheetGroups c names) view).
Proof.
  intros Hn Hv. unfold replaceGroups, sheetGroups. apply NoDup_app. split; [| split].
  - refine (sublist_NoDup _ _ Hv _). apply sublist_filter.
  - intros v [Hne _]%list_elem_of_filter (name & -> & _)%list_elem_of_fmap.
    apply Hne. reflexivity.
  - apply NoDup_fmap_2; [| exact Hn]. intros a b [= ->]. reflexivity.
Qed.

Lemma groupsStep_NoDup cmp final semId sheets view :
  NoDup view -> NoDup (fold_left (groupsStep cmp final semId) sheets view).
Proof.
  revert view. induction sheets as [|s sheets IH]; intros view Hv; [exact Hv |].
  cbn [fold_left]. apply IH. unfold groupsStep.
  apply replaceGroups_NoDup; [apply StoreFacts.groupNamesOf_NoDup | exact Hv].
Qed.

Lemma overwriteText_keeps new old : is_Some old -> is_Some (overwriteText new old).
Proof.
  intros H. unfold overwriteText. destruct new as [v|]; [| exact H].
  destruct (Js.truthy v); [eauto | exact H].
Qed.

Lemma overwriteNumber_keeps new old : is_Some old -> is_Some (overwriteNumber new old).
Proof. intros H. unfold overwriteNumber. destruct new; [eauto | exact H]. Qed.

Lemma fold_keeps {A W} (ws : list W) (f : W -> option A -> option A) old :
  (forall w o, is_Some o -> is_Some (f w o)) ->
  is_Some old -> is_Some (fold_left (fun o w => f w o) ws old).
Proof.
  intros Hf. revert old. induction ws as [|w ws IH]; intros old Ho; [exact Ho |].
  simpl. apply IH, Hf, Ho.
Qed.

Lemma metasFor_none code sheets :
  code ∉ flat_map cohortCourseCodes sheets -> metasFor code (flat_map courseOps sheets) = [].
Proof.
  intros Hn. unfold metasFor.
  rewrite StoreFacts.filter_none; [reflexivity |].
  intros [k m] Hin Hk. simpl in Hk. subst k. apply Hn.
  apply list_elem_of_In, in_flat_map in Hin as (s & Hs & Hin).
  apply list_elem_of_In, in_flat_map. exists s. split; [exact Hs |].
  unfold courseOps in Hin. apply in_map_iff in Hin as (k & [= <- _] & Hk). exact Hk.
Qed.

Lemma finished_tables cmp first rest file db :
  let db' := fst (writeImport cmp (first :: rest) file db) in
  let w := withSheets cmp first rest file db in
  semesters db' = semesters (fst w) /\ cohorts db' = cohorts (fst w)
  /\ classGroups db' = classGroups (fst w) /\ courses db' = courses (fst w)
  /\ scheduleEntries db' = scheduleEntries (fst w)
  /\ importRuns db'
     = map (fun run =>
              if (run_id run =? nextId db)%nat
              then {| run_id := run_id run;
                      run_semesterId := Some (fst (withSemester first rest file db));
                      run_sourceFile := run_sourceFile run;
                      run_status := "SUCCESS";
                      run_note := "Imported " +:+ Js.decimal (totalEntries (snd w))
                                  +:+ " schedule entries" |}
              else run)
         (importRuns (fst w)).
Proof.
  rewrite WriteFacts.writeImport_cons. cbn [fst]. repeat split; reflexivity.
Qed.

End KeyFacts.

(** X15.  An import keeps the pairs of cohort and class-group name
    distinct: when no two stored class groups of one cohort bear one name,
    none do afterwards, so the rows the import creates respect the unique
    index of ClassGroup on these two columns. *)
Theorem import_keeps_class_group_names_unique
    (localeCompare : string -> string -> Z) (sheets : list Store.ParsedSheetData)
    (sourceFile : string) (db : Store.DB) :
  StoreSpec.wellFormed db ->
  NoDup (StoreSpec.classGroupView db) ->
  NoDup (StoreSpec.classGroupView
           (fst (Store.writeImport localeCompare sheets sourceFile db))).
Proof.
  intros Hwf Hnd. destruct sheets as [|first rest]; [exact Hnd |].
  destruct (KeyFacts.finished_tables localeCompare first rest sourceFile db)
    as (_ & _ & Hg & _).
  unfold StoreSpec.classGroupView at 1. rewrite Hg.
  destruct (WriteFacts.withSheets_views localeCompare first rest sourceFile db
              (fst (StoreSpec.withSheets localeCompare first rest sourceFile db))
              Hwf (ImportFacts.knows_refl _)) as [Hv _].
  unfold StoreSpec.classGroupView in Hv at 1. rewrite Hv.
  apply KeyFacts.groupsStep_NoDup. exact Hnd.
Qed.

Lemma import_keeps_class_group_names_unique_witness :
  NoDup (StoreSpec.classGroupView
           (fst (Store.writeImport Sample.compareStrings [Sample.sheet] "new.xlsx"
                   Sample.stored))).
Proof.
  apply (import_keeps_class_group_names_unique Sample.compareStrings [Sample.sheet]
           "new.xlsx" Sample.stored).
  - apply (bool_decide_unpack (StoreSpec.wellFormed Sample.stored)). vm_compute. exact I.
  - apply (bool_decide_unpack (NoDup (StoreSpec.classGroupView Sample.stored))).
    vm_compute. exact I.
Defined.

(** X16.  An import never loses a course or blanks one of its fields: a
    course stored before is stored afterwards under the same id, each of
    its names, its credits and its prerequisite that had a value still has
    one, and a course whose code occurs in no sheet, neither in an event nor
    in a catalog, keeps its row unchanged. *)
Theorem import_keeps_courses
    (localeCompare : string -> string -> Z) (sheets : list Store.ParsedSheetData)
    (sourceFile : string) (db : Store.DB) (code : string) (row : Store.Course) :
  Store.courses db !! code = Some row ->
  exists row',
    Store.courses (fst (Store.writeImport localeCompare sheets sourceFile db)) !! code
    = Some row'
    /\ Store.crs_id row' = Store.crs_id row
    /\ (is_Some (Store.crs_nameEn row) -> is_Some (Store.crs_nameEn row'))
    /\ (is_Some (Store.crs_nameVi row) -> is_Some (Store.crs_nameVi row'))
    /\ (is_Some (Store.crs_credits row) -> is_Some (Store.crs_credits row'))
    /\ (is_Some (Store.crs_prerequisite row) -> is_Some (Store.crs_prerequisite row'))
    /\ (code ∉ flat_map Store.cohortCourseCodes sheets -> row' = row).
Proof.
  intros Hrow. destruct sheets as [|first rest].
  { exists row. simpl. repeat split; auto. }
  destruct (KeyFacts.finished_tables localeCompare first rest sourceFile db)
    as (_ & _ & _ & Hc & _).
  rewrite Hc.
  pose proof (WriteFacts.withSheets_upserted localeCompare first rest sourceFile db code)
    as Hup.
  rewrite Hrow in Hup.
  set (metas := StoreSpec.metasFor code (flat_map StoreSpec.courseOps (first :: rest))) in *.
  exists (StoreSpec.applyAll metas row). split; [exact Hup |].
  destruct (CourseFacts.applyAll_fields metas row) as (H1 & H2 & H3 & H4 & H5).
  rewrite H1, H2, H3, H4, H5.
  split; [reflexivity |].
  split; [apply KeyFacts.fold_keeps; intros; now apply KeyFacts.overwriteText_keeps |].
  split; [apply KeyFacts.fold_keeps; intros; now apply KeyFacts.overwriteText_keeps |].
  split; [apply KeyFacts.fold_keeps; intros; now apply KeyFacts.overwriteNumber_keeps |].
  split; [apply KeyFacts.fold_keeps; intros; now apply KeyFacts.overwriteText_keeps |].
  intros Hn. unfold metas. rewrite (KeyFacts.metasFor_none _ _ Hn). reflexivity.
Qed.

Lemma import_keeps_courses_witness :
  exists row',
    Store.courses (fst (Store.writeImport Sample.compareStrings [Sample.sheet] "new.xlsx"
                          Sample.stored)) !! "CS 2255"
    = Some row'
    /\ Store.crs_id row' = 6.
Proof.
  destruct (import_keeps_courses Sample.compareStrings [Sample.sheet] "new.xlsx"
              Sample.stored "CS 2255"
              {| Store.crs_id := 6; Store.crs_nameEn := None; Store.crs_nameVi := None;
                 Store.crs_credits := None; Store.crs_prerequisite := None |}
              eq_refl) as (row' & H1 & H2 & _).
  exists row'. split; assumption.
Defined.

(** X17.  One iteration of the import turns every event of the sheet into
    one schedule entry of the right class group and course: seen without
    generated ids, the entries afterwards are those of other cohorts, kept
    in place, followed by one entry per event in the order of the events,
    each attached to the class group that bears the event's group name in
    the sheet's cohort and to the course stored under the event's code, and
    carrying the event's day, session, times, room, sheet and row; that
    class group and that course exist afterwards. *)
Theorem sheet_events_become_entries
    (localeCompare : string -> string -> Z) (semesterId : nat) (db : Store.DB)
    (totals : Store.Totals) (sheet : Store.ParsedSheetData) :
  StoreSpec.wellFormed db ->
  let db' := fst (Store.importSheet localeCompare semesterId (db, totals) sheet) in
  exists cohortId,
    Store.cohorts db' !! (semesterId, Store.p_cohortCode sheet) = Some cohortId
    /\ StoreSpec.entryView db'
       = filter (fun v => fst <$> fst v <> Some cohortId) (StoreSpec.entryView db)
         ++ map (fun ev =>
                   (Some (cohortId, Importer.ev_classGroupName ev),
                    StoreSpec.entryRow semesterId 0
                      (StoreSpec.courseIdIn db' (Importer.ev_courseCode ev)) ev))
              (Store.p_events sheet)
    /\ forall ev, ev ∈ Store.p_events sheet ->
         (cohortId, Importer.ev_classGroupName ev) ∈ StoreSpec.classGroupView db'
         /\ is_Some (Store.courses db' !! Importer.ev_courseCode ev).
Proof.
  intros Hwf db'. unfold db'. rewrite StoreFacts.importSheet_stages. cbn [fst].
  exists (StoreSpec.cohortOf semesterId sheet db). split; [| split].
  - apply ImportFacts.afterSheet_cohort.
  - rewrite (StoreFacts.afterSheet_entryView localeCompare semesterId sheet db Hwf).
    reflexivity.
  - intros ev Hev. split.
    + rewrite (StoreFacts.afterSheet_groupView localeCompare semesterId sheet db Hwf).
      unfold StoreSpec.replaceGroups, StoreSpec.sheetGroups.
      apply elem_of_app. right. apply list_elem_of_fmap.
      exists (Importer.ev_classGroupName ev). split; [reflexivity |].
      apply StoreFacts.groupNamesOf_elem, list_elem_of_fmap. eauto.
    + destruct (StoreFacts.afterSheet_frame localeCompare semesterId sheet db)
        as (_ & _ & -> & _).
      unfold StoreSpec.afterCourses. apply StoreFacts.upsertCourses_has.
      apply StoreFacts.cohortCourseCodes_event. exact Hev.
Qed.

Lemma sheet_events_become_entries_witness :
  exists cohortId,
    Store.cohorts
      (fst (Store.importSheet Sample.compareStrings 1 (Sample.stored, Store.noTotals)
              Sample.sheet)) !! (1, "K69") = Some cohortId.
Proof.
  destruct (sheet_events_become_entries Sample.compareStrings 1 Sample.stored
              Store.noTotals Sample.sheet) as (c & Hc & _).
  - apply (bool_decide_unpack (StoreSpec.wellFormed Sample.stored)). vm_compute. exact I.
  - exists c. exact Hc.
Defined.

Module RunFacts.
Import Portal Importer Store StoreSpec.

Lemma upsertSemester_tables key label file s e db :
  let r := upsertSemester key label file s e db in
  semesters (snd r)
  = <[key := {| sem_id := fst r; sem_label := label; sem_sourceFile := file;
                sem_startDate := s; sem_endDate := e |}]> (semesters db)
  /\ importRuns (snd r) = importRuns db
  /\ (forall row, semesters db !! key = Some row -> fst r = sem_id row)
  /\ (semesters db !! key = None -> fst r = nextId db).
Proof.
  unfold upsertSemester. destruct (semesters db !! key) as [row|]; simpl.
  - repeat split; try reflexivity; [intros ? [= <-]; reflexivity | discriminate].
  - repeat split; try reflexivity; discriminate.
Qed.

Lemma finish_old_runs runId semId n runs :
  Forall (fun run => run_id run < runId) runs ->
  map (fun run =>
         if (run_id run =? runId)%nat
         then {| run_id := run_id run; run_semesterId := Some semId;
                 run_sourceFile := run_sourceFile run; run_status := "SUCCESS";
                 run_note := "Imported " +:+ Js.decimal n +:+ " schedule entries" |}
         else run) runs
  = runs.
Proof.
  induction 1 as [|run runs Hrun _ IH]; [reflexivity |].
  cbn [map]. rewrite IH.
  replace (run_id run =? runId)%nat with false by (symmetry; apply Nat.eqb_neq; lia).
  reflexivity.
Qed.

End RunFacts.

(** X18.  What an import leaves in the Semester and ImportRun tables: the
    semester stored under the key of the first sheet carries the label of
    that sheet, the source file, and the earliest start and the latest end
    date found among the sheets, under the id it had when it was stored
    before; no other semester is touched; and, the ids of the stored runs
    being already generated, exactly one run is added, marked SUCCESS,
    attached to that semester, whose note tells the number of parsed
    events. *)
Theorem import_records_semester_and_run
    (localeCompare : string -> string -> Z) (first : Store.ParsedSheetData)
    (rest : list Store.ParsedSheetData) (sourceFile : string) (db : Store.DB) :
  StoreSpec.wellFormed db ->
  Forall (fun run => Store.run_id run < Store.nextId db) (Store.importRuns db) ->
  let sheets := first :: rest in
  let db' := fst (Store.writeImport localeCompare sheets sourceFile db) in
  exists semesterId,
    Store.semesters db' !! Store.p_semesterKey first
    = Some {| Store.sem_id := semesterId;
              Store.sem_label := Store.p_semesterLabel first;
              Store.sem_sourceFile := sourceFile;
              Store.sem_startDate := Store.minDate (omap Store.p_startDate sheets);
              Store.sem_endDate := Store.maxDate (omap Store.p_endDate sheets) |}
    /\ (forall row, Store.semesters db !! Store.p_semesterKey first = Some row ->
                    semesterId = Store.sem_id row)
    /\ (forall key, key <> Store.p_semesterKey first ->
                    Store.semesters db' !! key = Store.semesters db !! key)
    /\ Store.importRuns db'
       = Store.importRuns db
         ++ [ {| Store.run_id := Store.nextId db;
                 Store.run_semesterId := Some semesterId;
                 Store.run_sourceFile := sourceFile;
                 Store.run_status := "SUCCESS";
                 Store.run_note :=
                   "Imported "
                   +:+ Js.decimal (list_sum (map (fun s => length (Store.p_events s)) sheets))
                   +:+ " schedule entries" |} ].
Proof.
  intros Hwf Hruns sheets db'. subst db' sheets.
  destruct (KeyFacts.finished_tables localeCompare first rest sourceFile db)
    as (Hs & _ & _ & _ & _ & Hr).
  pose proof (WriteFacts.withSheets_semesters localeCompare first rest sourceFile db) as Hw.
  destruct (RunFacts.upsertSemester_tables (Store.p_semesterKey first)
              (Store.p_semesterLabel first) sourceFile
              (Store.minDate (omap Store.p_startDate (first :: rest)))
              (Store.maxDate (omap Store.p_endDate (first :: rest)))
              (StoreSpec.opened first sourceFile db)) as (T1 & T2 & T3 & _).
  fold (StoreSpec.withSemester first rest sourceFile db) in T1, T2, T3.
  exists (fst (StoreSpec.withSemester first rest sourceFile db)).
  rewrite Hs, Hw, T1. split; [apply lookup_insert_eq |]. split; [| split].
  - intros row Hrow. apply T3. exact Hrow.
  - intros key Hne. rewrite lookup_insert_ne by congruence. reflexivity.
  - rewrite Hr.
    destruct (WriteFacts.withSheets_totals localeCompare first rest sourceFile db Hwf)
      as [_ ->].
    destruct (SummaryFacts.totals_fold localeCompare (first :: rest) Store.noTotals)
      as (-> & _ & _).
    cbn [Store.noTotals Store.totalEntries]. rewrite Nat.add_0_l.
    assert (Hruns' : Store.importRuns
                       (fst (StoreSpec.withSheets localeCompare first rest sourceFile db))
                     = Store.importRuns (StoreSpec.opened first sourceFile db)).
    { unfold StoreSpec.withSheets.
      rewrite (proj2 (ImportFacts.run_frame localeCompare _ _ _ _)). exact T2. }
    rewrite Hruns'. unfold StoreSpec.opened, Store.createImportRun. cbn [snd Store.importRuns
      Store.takeIds Store.setImportRuns]. rewrite map_app.
    rewrite (RunFacts.finish_old_runs _ _ _ _ Hruns). cbn [map Store.run_id].
    rewrite Nat.eqb_refl. reflexivity.
Qed.

Lemma import_records_semester_and_run_witness :
  exists semesterId,
    Store.semesters
      (fst (Store.writeImport Sample.compareStrings [Sample.sheet] "new.xlsx" Sample.stored))
      !! "SPRING_2026"
    = Some {| Store.sem_id := semesterId; Store.sem_label := "SPRING 2026";
              Store.sem_sourceFile := "new.xlsx";
              Store.sem_startDate := Some 1767225600000%Z;
              Store.sem_endDate := None |}.
Proof.
  destruct (import_records_semester_and_run Sample.compareStrings Sample.sheet []
              "new.xlsx" Sample.stored) as (i & Hi & _).
  - apply (bool_decide_unpack (StoreSpec.wellFormed Sample.stored)). vm_compute. exact I.
  - constructor.
  - exists i. exact Hi.
Defined.

(** ** Keys, sheet names, the order of the entries and review scores *)

Module KeysFacts.
Import Js Keys TextFacts.

Lemma alnum_key c : isAlnum c = true -> isKeyChar c = true.
Proof. each_char c. Qed.

Lemma key_not_space c : (isAlnum c || isUnderscore c) = true -> isSpace c = false.
Proof. each_char c. Qed.

Lemma key_upper c : (isAlnum c || isUnderscore c) = true -> upperChar c = c.
Proof. each_char c. Qed.

Lemma key_kept c : (isAlnum c || isUnderscore c) = true -> isKeyChar c = true.
Proof. each_char c. Qed.

Lemma space_not_K c : isSpace c = true -> negb (Ascii.eqb c "K") = true.
Proof. each_char c. Qed.

Lemma replaceRunsFrom_chars b s :
  allChars (fun c => isAlnum c || isUnderscore c) (replaceRunsFrom isAlnum b s) = true.
Proof.
  revert b. induction s as [|c s IH]; intros b; simpl; [reflexivity |].
  destruct (isAlnum c) eqn:E; simpl.
  - rewrite E. apply IH.
  - destruct b; simpl; apply IH.
Qed.

Lemma replaceRunsFrom_kept keep b s :
  allChars keep s = true -> replaceRunsFrom keep b s = s.
Proof.
  revert b. induction s as [|c s IH]; intros b; simpl; [reflexivity |].
  intros [Hc Hs]%andb_true_iff. rewrite Hc, (IH _ Hs). reflexivity.
Qed.

Lemma allChars_dropChars p q s : allChars p s = true -> allChars p (dropChars q s) = true.
Proof.
  induction s as [|c s IH]; simpl; [reflexivity |].
  intros [Hc Hs]%andb_true_iff. destruct (q c); [exact (IH Hs) |].
  simpl. now rewrite Hc, Hs.
Qed.

Lemma parseSemesterKey_chars label :
  allChars (fun c => isAlnum c || isUnderscore c) (parseSemesterKey label) = true.
Proof.
  unfold parseSemesterKey, stripUnderscores.
  rewrite allChars_reverse. apply allChars_dropChars.
  rewrite allChars_reverse. apply allChars_dropChars. apply replaceRunsFrom_chars.
Qed.

Lemma normalizeSemesterKey_fixed key :
  allChars (fun c => isAlnum c || isUnderscore c) key = true ->
  normalizeSemesterKey key = key.
Proof.
  intros H. unfold normalizeSemesterKey.
  destruct key as [|c key]; [reflexivity |]. rewrite truthy_String. cbv [negb].
  rewrite trim_id_all.
  - unfold toUpperCase. rewrite (mapChars_id _ _ _ key_upper H).
    apply replaceRunsFrom_kept. revert H. apply allChars_impl. exact key_kept.
  - revert H. apply allChars_impl. intros ch Hc. now rewrite (key_not_space ch Hc).
Qed.

Lemma afterPrefix_split p s r : afterPrefix p s = Some r -> s = p +:+ r.
Proof.
  unfold afterPrefix. destruct (startsWith p s) eqn:E; [| discriminate].
  destruct (startsWith_split _ _ E) as (r' & ->). rewrite substring_drop.
  intros [= ->]. reflexivity.
Qed.

Lemma afterSpaces_split s r :
  afterSpaces s = Some r -> exists w, s = w +:+ r /\ allChars isSpace w = true.
Proof.
  unfold afterSpaces. destruct s as [|c s']; [discriminate |].
  destruct (isSpace c) eqn:E; [| discriminate]. intros [= <-].
  exists (takeChars isSpace (String c s')). split.
  - symmetry. apply take_drop_chars.
  - apply takeChars_all.
Qed.

Lemma searchCohort_skip a s :
  allChars (fun c => negb (Ascii.eqb c "K")) a = true ->
  searchCohort (a +:+ s) = searchCohort s.
Proof.
  induction a as [|c a IH]; str; [reflexivity |].
  intros [Hc Ha]%andb_true_iff. apply negb_true_iff in Hc. rewrite Hc. simpl.
  exact (IH Ha).
Qed.

Lemma indexOf_day d : (0 <= indexOf d DAY_ORDER <= 6)%Z.
Proof. destruct d; vm_compute; split; discriminate. Qed.

End KeysFacts.

(** X19.  The semester keys the importer makes are in the form the read
    side expects: [parseSemesterKey] returns capital letters, digits and
    underscores only, and such a key is a fixed point of the read side's
    [normalizeSemesterKey], so the key under which rows are looked up is
    the key the import stored. *)
Theorem imported_semester_key_is_normalized (label : string) :
  let key := Keys.parseSemesterKey label in
  Js.allChars (fun c => Keys.isAlnum c || Keys.isUnderscore c) key = true
  /\ Keys.normalizeSemesterKey key = key.
Proof.
  intros key. split.
  - apply KeysFacts.parseSemesterKey_chars.
  - apply KeysFacts.normalizeSemesterKey_fixed, KeysFacts.parseSemesterKey_chars.
Qed.

(** X20.  A sheet that passes [SHEET_FILTER] always has a cohort code: the
    search for it in [parseSheet] succeeds, so the error for a missing
    cohort code cannot be raised for a sheet [parseWorkbook] selects, and
    the code is K followed by the digits that end the sheet name. *)
Theorem selected_sheet_has_a_cohort_code (sheetName : string) :
  Keys.sheetFilter sheetName = true ->
  exists front digits,
    Js.toUpperCase sheetName = front +:+ "K" +:+ digits
    /\ digits <> ""
    /\ Js.allChars Js.isDigit digits = true
    /\ Keys.cohortCode sheetName = Some ("K" +:+ digits).
Proof.
  unfold Keys.sheetFilter, Keys.cohortCode.
  destruct (Keys.afterPrefix "SPRING" (Js.toUpperCase sheetName)) as [r1|] eqn:E1;
    [| discriminate].
  cbn [Keys.andThen].
  destruct (Keys.afterSpaces r1) as [r2|] eqn:E2; [| discriminate]. cbn [Keys.andThen].
  destruct (Keys.afterPrefix "2026" r2) as [r3|] eqn:E3; [| discriminate].
  cbn [Keys.andThen].
  destruct (Keys.afterSpaces r3) as [r4|] eqn:E4; [| discriminate]. cbn [Keys.andThen].
  destruct (Keys.afterPrefix "K" r4) as [digits|] eqn:E5; [| discriminate].
  intros [Ht Hd]%andb_true_iff.
  apply KeysFacts.afterPrefix_split in E1, E3, E5.
  apply KeysFacts.afterSpaces_split in E2 as (w1 & E2 & Hw1).
  apply KeysFacts.afterSpaces_split in E4 as (w2 & E4 & Hw2).
  exists ("SPRING" +:+ w1 +:+ "2026" +:+ w2), digits.
  assert (Hname : Js.toUpperCase sheetName
                  = ("SPRING" +:+ w1 +:+ "2026" +:+ w2) +:+ "K" +:+ digits).
  { rewrite E1, E2, E3, E4, E5. rewrite !TextFacts.append_assoc. reflexivity. }
  split; [exact Hname |]. split; [now apply truthy_true |]. split; [exact Hd |].
  rewrite Hname, KeysFacts.searchCohort_skip.
  - destruct (NormalizerFacts.takeChars_whole _ _ Hd) as [Htake _].
    rewrite TextFacts.append_cons, TextFacts.append_nil_l. cbn [Keys.searchCohort].
    rewrite Htake, Ht. reflexivity.
  - rewrite !TextFacts.allChars_append.
    rewrite (TextFacts.allChars_impl _ _ _ KeysFacts.space_not_K Hw1).
    rewrite (TextFacts.allChars_impl _ _ _ KeysFacts.space_not_K Hw2). reflexivity.
Qed.

Lemma selected_sheet_has_a_cohort_code_witness :
  exists front digits,
    Js.toUpperCase "Spring  2026 k69" = front +:+ "K" +:+ digits
    /\ digits <> ""
    /\ Js.allChars Js.isDigit digits = true
    /\ Keys.cohortCode "Spring  2026 k69" = Some ("K" +:+ digits).
Proof. exact (selected_sheet_has_a_cohort_code "Spring  2026 k69" eq_refl). Defined.

Module SortFacts.
Import Portal Keys.

Section Day.
Variable localeCompare : string -> string -> Z.

Let day (e : StoredEntry) : Z := indexOf (s_dayOfWeek e) DAY_ORDER.
Let byDay (a b : StoredEntry) : Prop := (day a <= day b)%Z.

Lemma sortEntries_le a b : (sortEntries localeCompare a b <= 0)%Z -> byDay a b.
Proof.
  unfold sortEntries, byDay, day.
  destruct (Z.eqb_spec (indexOf (s_dayOfWeek a) DAY_ORDER
                        - indexOf (s_dayOfWeek b) DAY_ORDER) 0);
    cbn [negb]; lia.
Qed.

Lemma sortEntries_gt a b : (0 < sortEntries localeCompare a b)%Z -> byDay b a.
Proof.
  unfold sortEntries, byDay, day.
  destruct (Z.eqb_spec (indexOf (s_dayOfWeek a) DAY_ORDER
                        - indexOf (s_dayOfWeek b) DAY_ORDER) 0);
    cbn [negb]; lia.
Qed.

Lemma insertSorted_byDay x l :
  StronglySorted byDay l ->
  StronglySorted byDay (insertSorted (sortEntries localeCompare) x l).
Proof.
  induction 1 as [|y r Hr IH Hy]; simpl.
  - repeat constructor.
  - destruct (Z.leb_spec (sortEntries localeCompare x y) 0) as [Hle | Hgt].
    + apply sortEntries_le in Hle. constructor; [constructor; assumption |].
      constructor; [exact Hle |].
      eapply Forall_impl; [exact Hy |]. intros z Hz. unfold byDay in *. lia.
    + apply sortEntries_gt in Hgt. constructor; [exact IH |].
      apply Forall_forall. intros z Hz.
      apply FallbackFacts.insertSorted_elem in Hz as [-> | Hz]; [exact Hgt |].
      rewrite Forall_forall in Hy. apply Hy, Hz.
Qed.

Lemma sortedEntries_byDay l : StronglySorted byDay (sortedEntries localeCompare l).
Proof.
  unfold sortedEntries, sortBy. induction l as [|x l IH]; simpl; [constructor |].
  now apply insertSorted_byDay.
Qed.
End Day.

End SortFacts.

(** X21.  The sort of the selected entries in [getPortalData] orders them
    by day, Monday first and Sunday last, whatever the host's string
    comparison does with the start times: the result holds the same entries
    as before, and every entry stands before the entries of later days. *)
Theorem entries_are_sorted_by_day
    (localeCompare : string -> string -> Z) (scheduleEntries : list Portal.StoredEntry) :
  let sorted := Keys.sortedEntries localeCompare scheduleEntries in
  let day e := Keys.indexOf (Portal.s_dayOfWeek e) Keys.DAY_ORDER in
  sorted ≡ₚ scheduleEntries
  /\ StronglySorted (fun a b => (day a <= day b)%Z) sorted
  /\ (forall e, 0 <= day e <= 6)%Z
  /\ Keys.sortedEntries localeCompare [] = [].
Proof.
  intros sorted day. split; [| split; [| split]].
  - apply FallbackFacts.sortBy_perm.
  - apply SortFacts.sortedEntries_byDay.
  - intros e. apply KeysFacts.indexOf_day.
  - reflexivity.
Qed.

Module ReviewFacts.
Import Reviews.

Lemma countHits_bounds normalizeText words text :
  (0 <= countHits normalizeText words text <= Z.of_nat (length words))%Z.
Proof.
  unfold countHits.
  assert (H : forall start,
            (start <= fold_left
                        (fun hits word =>
                           if Js.includes (normalizeText word) text
                           then hits + 1 else hits) words start
             <= start + Z.of_nat (length words))%Z).
  { induction words as [|w words IH]; intros start; simpl fold_left.
    - simpl. lia.
    - destruct (Js.includes (normalizeText w) text).
      + specialize (IH (start + 1)%Z). cbn [length]. lia.
      + specialize (IH start). cbn [length]. lia. }
  specialize (H 0%Z). lia.
Qed.

End ReviewFacts.

(** X22.  The sentiment of a review follows the difference of its hits:
    with [p] the number of positive and [n] the number of negative words
    found in the normalized text, the score is missing exactly when both
    are zero and lies between 1 and 5 otherwise, and the sentiment derived
    from it is positive exactly when [p] exceeds [n], negative exactly when
    [n] exceeds [p], and neutral exactly when they are equal, the review
    without any hit included. *)
Theorem sentiment_follows_the_hits (normalizeText : string -> string) (content : string) :
  let text := normalizeText content in
  let p := Reviews.countHits normalizeText Reviews.positiveWords text in
  let n := Reviews.countHits normalizeText Reviews.negativeWords text in
  let score := Reviews.scoreFromContent normalizeText content in
  let sentiment := Reviews.sentimentFromScore score in
  (0 <= p <= 16 /\ 0 <= n <= 15)%Z
  /\ (score = None <-> p = 0%Z /\ n = 0%Z)
  /\ (forall s, score = Some s -> (1 <= s <= 5)%Z /\ s = Z.max 1 (Z.min 5 (3 + p - n)))
  /\ (sentiment = Reviews.positive <-> (n < p)%Z)
  /\ (sentiment = Reviews.negative <-> (p < n)%Z)
  /\ (sentiment = Reviews.neutral <-> p = n).
Proof.
  intros text p n score sentiment.
  pose proof (ReviewFacts.countHits_bounds normalizeText Reviews.positiveWords text) as Hp.
  pose proof (ReviewFacts.countHits_bounds normalizeText Reviews.negativeWords text) as Hn.
  fold p in Hp. fold n in Hn. cbn [length Reviews.positiveWords Reviews.negativeWords] in Hp, Hn.
  split; [lia |].
  unfold sentiment, score, Reviews.scoreFromContent. fold text. fold p n.
  set (v := Z.max 1 (Z.min 5 (3 + p - n))).
  assert (Hv : (1 <= v <= 5)%Z) by (unfold v; lia).
  destruct (Z.eqb_spec p 0) as [Ep | Ep]; destruct (Z.eqb_spec n 0) as [En | En];
    cbn [andb Reviews.sentimentFromScore];
    try (destruct (Z.leb_spec 4 v) as [H4 | H4];
         [| destruct (Z.leb_spec v 2) as [H2 | H2]]);
    repeat split; intros;
    repeat match goal with
           | H : Some _ = Some _ |- _ => injection H as <-
           | H : _ /\ _ |- _ => destruct H
           end;
    try discriminate; try reflexivity; try (unfold v in *; lia).
Qed.

(** ** The course list of a sheet *)

Module SheetCatalogFacts.
Import Importer Store SheetCatalog SheetCatalogSpec.

Lemma mapSet_keys code meta catalog :
  map fst (mapSet code meta catalog)
  = if bool_decide (code ∈ map fst catalog) then map fst catalog
    else map fst catalog ++ [code].
Proof.
  induction catalog as [|[k v] r IH]; [reflexivity |].
  cbn [mapSet map fst]. destruct (String.eqb_spec k code) as [-> | Hne].
  - rewrite bool_decide_true by apply list_elem_of_here. reflexivity.
  - cbn [map fst]. rewrite IH. case_bool_decide as Hin.
    + rewrite bool_decide_true by (apply list_elem_of_further; exact Hin). reflexivity.
    + rewrite bool_decide_false; [reflexivity |].
      intros [? | ?]%elem_of_cons; [congruence | contradiction].
Qed.

Lemma mapSet_NoDup code meta catalog :
  NoDup (map fst catalog) -> NoDup (map fst (mapSet code meta catalog)).
Proof.
  intros H. rewrite mapSet_keys. case_bool_decide as Hin; [exact H |].
  apply NoDup_app. split; [exact H |]. split; [| apply NoDup_singleton].
  intros x Hx ->%list_elem_of_singleton. contradiction.
Qed.

Lemma mapSet_elem code meta catalog k v :
  (k, v) ∈ mapSet code meta catalog -> (k, v) = (code, meta) \/ (k, v) ∈ catalog.
Proof.
  induction catalog as [|[k' v'] r IH]; cbn [mapSet].
  - intros ->%list_elem_of_singleton. auto.
  - destruct (String.eqb_spec k' code) as [-> | Hne].
    + intros [-> | Hin]%elem_of_cons; [auto |]. right. now apply list_elem_of_further.
    + intros [-> | Hin]%elem_of_cons; [right; apply list_elem_of_here |].
      destruct (IH Hin) as [? | ?]; [auto |]. right. now apply list_elem_of_further.
Qed.

Section Loop.
Variable parseInt : string -> option Z.

(** What every entry of the course list satisfies, [rows] being the rows
    it may come from. *)
Let entryOk (rows : list (list string)) (entry : string * ParsedCourseMeta) : Prop :=
  normalizeCourseCode (fst entry) = Some (fst entry)
  /\ exists row, row ∈ rows /\ codeOf row = Some (fst entry)
                 /\ snd entry = metaOf parseInt row.

Lemma catalogLoop_facts all rows :
  forall blankCount catalog,
    (forall row, row ∈ rows -> row ∈ all) ->
    NoDup (map fst catalog) -> Forall (entryOk all) catalog ->
    NoDup (map fst (catalogLoop parseInt rows blankCount catalog))
    /\ Forall (entryOk all) (catalogLoop parseInt rows blankCount catalog).
Proof.
  induction rows as [|row rest IH]; intros blankCount catalog Hsub Hnd Hok; cbn [catalogLoop].
  - auto.
  - assert (Hrest : forall r, r ∈ rest -> r ∈ all).
    { intros r Hr. apply Hsub. now apply list_elem_of_further. }
    destruct (isCatalogFooter _); [auto |].
    destruct (normalizeCourseCode (cleanCell (nth 1 row ""))) as [code|] eqn:Ecode.
    + apply IH; [exact Hrest | now apply mapSet_NoDup |].
      apply Forall_forall. intros [k v] Hin.
      destruct (mapSet_elem _ _ _ _ _ Hin) as [[= -> ->] | Hold].
      * split.
        -- exact (proj1 (proj2 (NormalizerFacts.importer_code_facts _ _ Ecode))).
        -- exists row. split; [apply Hsub, list_elem_of_here |]. split; [exact Ecode |].
           reflexivity.
      * rewrite Forall_forall in Hok. exact (Hok _ Hold).
    + destruct (20 <? S blankCount)%nat; [auto |]. apply IH; assumption.
Qed.

Lemma catalogLoop_footer before footer after blankCount catalog :
  footerRow footer ->
  catalogLoop parseInt (before ++ footer :: after) blankCount catalog
  = catalogLoop parseInt before blankCount catalog.
Proof.
  intros Hf. revert blankCount catalog.
  induction before as [|row rest IH]; intros blankCount catalog; cbn [app catalogLoop].
  - unfold footerRow in Hf. rewrite Hf. reflexivity.
  - destruct (isCatalogFooter _); [reflexivity |].
    destruct (normalizeCourseCode _); [apply IH |].
    destruct (20 <? S blankCount)%nat; [reflexivity | apply IH].
Qed.

Lemma catalogLoop_gap gap after blankCount catalog :
  Forall (fun row => codeOf row = None) gap ->
  (blankCount <= 20)%nat -> (21 <= blankCount + length gap)%nat ->
  catalogLoop parseInt (gap ++ after) blankCount catalog = catalog
  /\ catalogLoop parseInt gap blankCount catalog = catalog.
Proof.
  intros Hgap. revert blankCount.
  induction Hgap as [|row gap Hrow _ IH]; intros blankCount Hle Hlen.
  - simpl in Hlen. lia.
  - cbn [app catalogLoop]. unfold codeOf in Hrow. rewrite Hrow.
    destruct (isCatalogFooter _); [split; reflexivity |].
    destruct (Nat.ltb_spec 20 (S blankCount)); [split; reflexivity |].
    apply IH; [lia | cbn [length] in Hlen; lia].
Qed.

Lemma catalogLoop_gap_after before gap after blankCount catalog :
  Forall (fun row => codeOf row = None) gap -> (21 <= length gap)%nat ->
  (blankCount <= 20)%nat ->
  catalogLoop parseInt (before ++ gap ++ after) blankCount catalog
  = catalogLoop parseInt (before ++ gap) blankCount catalog.
Proof.
  intros Hgap Hlen. revert blankCount catalog.
  induction before as [|row rest IH]; intros blankCount catalog Hle; cbn [app].
  - destruct (catalogLoop_gap gap after blankCount catalog Hgap Hle ltac:(lia)) as [-> H2].
    rewrite <- (app_nil_r gap) at 1. 
    destruct (catalogLoop_gap gap [] blankCount catalog Hgap Hle ltac:(lia)) as [-> _].
    reflexivity.
  - cbn [catalogLoop]. destruct (isCatalogFooter _); [reflexivity |].
    destruct (normalizeCourseCode _); [apply IH; lia |].
    destruct (Nat.ltb_spec 20 (S blankCount)); [reflexivity | apply IH; lia].
Qed.
End Loop.

Lemma findIndex_app {A} (p : A -> bool) l more i :
  findIndex p l = Some i -> findIndex p (l ++ more) = Some i.
Proof.
  revert i. induction l as [|x l IH]; intros i; cbn [findIndex app]; [discriminate |].
  destruct (p x); [auto |].
  destruct (findIndex p l) as [j|]; [| discriminate].
  intros [= <-]. rewrite (IH j eq_refl). reflexivity.
Qed.

Lemma drop_app_inside {A} (l more : list A) n :
  (n <= length l)%nat -> drop n (l ++ more) = drop n l ++ more.
Proof. intros H. rewrite drop_app. replace (n - length l)%nat with 0%nat by lia. reflexivity. Qed.


End SheetCatalogFacts.

(** X23.  The course list [parseCatalog] reads off a sheet has every course
    code once; every code in it is in the importer's canonical form, and
    its entry was read from a row of the sheet that carries this code in
    column 1: the names and the prerequisite from columns 2, 4 and 7, an
    empty cell giving none, the credits from column 6; and a sheet without
    a header row for the list ("ma hp" in column 1) has an empty list. *)
Theorem sheet_catalog_entries_come_from_rows
    (parseInt : string -> option Z) (rows : list (list string)) :
  let catalog := SheetCatalog.parseCatalog parseInt rows in
  NoDup (map fst catalog)
  /\ (forall code meta, (code, meta) ∈ catalog ->
        Importer.normalizeCourseCode code = Some code
        /\ exists row, row ∈ rows /\ SheetCatalogSpec.codeOf row = Some code
                       /\ meta = SheetCatalog.metaOf parseInt row)
  /\ (Importer.findIndex SheetCatalog.isCatalogHeader rows = None -> catalog = []).
Proof.
  intros catalog. unfold catalog, SheetCatalog.parseCatalog.
  destruct (Importer.findIndex SheetCatalog.isCatalogHeader rows) as [h|].
  - destruct (SheetCatalogFacts.catalogLoop_facts parseInt rows (drop (S h) rows) 0 [])
      as [Hnd Hok].
    + intros row Hin. apply list_elem_of_In. apply list_elem_of_In in Hin.
      rewrite <- (take_drop (S h) rows). apply in_or_app. right. exact Hin.
    + constructor.
    + constructor.
    + split; [exact Hnd |]. split; [| discriminate].
      intros code meta Hin. rewrite Forall_forall in Hok. exact (Hok _ Hin).
  - split; [constructor |]. split; [| reflexivity]. intros code meta Hin. inversion Hin.
Qed.

(** X24.  Where the reading of the course list stops: below the header,
    nothing under a footer row (a note, the customer-service or the coffee
    line) is read, and nothing under a run of more than twenty rows that
    carry no course code; the courses listed further down are left out
    without a notice. *)
Theorem sheet_catalog_stops_reading
    (parseInt : string -> option Z) (top : list (list string)) (headerIndex : nat) :
  Importer.findIndex SheetCatalog.isCatalogHeader top = Some headerIndex ->
  (forall footer after,
     SheetCatalogSpec.footerRow footer ->
     SheetCatalog.parseCatalog parseInt (top ++ footer :: after)
     = SheetCatalog.parseCatalog parseInt top)
  /\ (forall gap after,
        (21 <= length gap)%nat ->
        Forall (fun row => SheetCatalogSpec.codeOf row = None) gap ->
        SheetCatalog.parseCatalog parseInt (top ++ gap ++ after)
        = SheetCatalog.parseCatalog parseInt (top ++ gap)).
Proof.
  intros Hh. pose proof (EventFacts.findIndex_lt _ _ _ Hh) as Hlt.
  unfold SheetCatalog.parseCatalog. split.
  - intros footer after Hf.
    rewrite (SheetCatalogFacts.findIndex_app _ _ _ _ Hh), Hh.
    rewrite SheetCatalogFacts.drop_app_inside by lia.
    now apply SheetCatalogFacts.catalogLoop_footer.
  - intros gap after Hlen Hgap.
    rewrite !(SheetCatalogFacts.findIndex_app _ _ _ _ Hh).
    rewrite !SheetCatalogFacts.drop_app_inside by lia.
    apply SheetCatalogFacts.catalogLoop_gap_after; [exact Hgap | exact Hlen | lia].
Qed.

Lemma sheet_catalog_stops_reading_witness :
  SheetCatalog.parseCatalog SheetCatalogSpec.leadingDigits SheetCatalogSpec.rows
  = SheetCatalog.parseCatalog SheetCatalogSpec.leadingDigits
      (take 6 SheetCatalogSpec.rows).
Proof.
  exact (proj1 (sheet_catalog_stops_reading SheetCatalogSpec.leadingDigits
                  (take 6 SheetCatalogSpec.rows) 1 eq_refl)
           [""; "Note: subject to change"] [[""; "PHYS 101"; "Physics"]] eq_refl).
Defined.


